(* ===== verification/_CoqProject ===== *)
-Q . S2P
Prelude.v
Strconv.v
Json.v
Interfaces.v
Common.v
PolicyCalc.v
PolicyCalcSpec.v
Store.v
PolicyDB.v
PolicyDBSpec.v
Sample.v
Decision.v
Listings.v
Obligations.v
Policy.v
PolicyMerge.v
PolicyOps.v
PolicyCreate.v
PolicyList.v
RoleDB.v
Event.v
Role.v
RoleScope.v
RoleSpec.v
Mq.v
RoleOps.v
RoleAdmin.v
RoleQuery.v
RoleSample.v
ResourceTypeDB.v
ResourceType.v
ResourceTypeSpec.v
ResourceTypeOps.v
ObligationDB.v
Obligation.v
ObligationSpec.v
ObligationOps.v
System.v
Paging.v
TypeSample.v
Rest.v
SchemaLang.v
Schema.v
RestCalc.v
RestCalcSpec.v
RestRole.v
RestRoleSpec.v
RestPolicy.v
RestPolicySpec.v
RestTypes.v
InitData.v
RestAdmin.v
Soundness.v
Run.v
RestSample.v
RunSample.v
AuthBase.v
AuthStore.v
Ticket.v
Des.v
Sms.v
SmsSpec.v
Outbox.v
AuthConf.v
TokenPerm.v
AuthSession.v
UserAccount.v
Login.v
LoginSpec.v
AuditTask.v
FlowClean.v
AuthRest.v
AuthHandlers.v
AuthHandlersSpec.v
AuthSample.v
