(* ===== verification/Prelude.v ===== *)
(** * The authorization and authentication services of the Information Security Fabric

    A model of the Go services [Authorization] and [Authentication], of the
    part of [UserManagement] a login talks to, and the proofs that make them
    correct.  [Authorization] decides whether an accessor (a user, an
    application, or an anonymous visitor) may perform operations on a
    resource, and lets administrators and other services maintain what it
    decides with.  [Authentication] logs users in in front of the OAuth2 server
    hydra, hands out tickets, codes and assertions, ends sessions, and passes
    audit entries on.

    ** The program and its parts

    [Authorization]:
    - Decisions, [logics/policy_calc.go]: the identities of an accessor (its
      own id, its departments and groups, its roles), the policies granted to
      them, the nearest level of the path "resource, ancestors, type" that
      speaks about the operation, deny before allow inside a level, conditions
      in JSON logic, and the obligations attached to an allowed operation.
    - Policies, [logics/policy.go]: creating (by merging with the stored
      policy), updating, deleting and listing them, who may do so, and the
      start-up policies.
    - Roles, [logics/role.go]; resource types and their trees,
      [logics/resource_type.go] and [resource_type_hierarchy.go]; obligation
      types and obligations, [logics/obligation_type.go] and [obligation.go].
    - Storage, [dbaccess/]: one object per table, with JSON text columns.
    - Events, [logics/event.go], and messages from other services,
      [driveradapters/mq_handler.go].
    - The HTTP endpoints, [driveradapters/*_rest_handler.go], the start-up data
      and the clean-up timer, [init_data.go] and [timer.go].

    The decision service asks the policy store, the role service and the
    obligation service; the policy service asks the decision service whether a
    visitor may authorize, and the resource-type and obligation services
    whether a request is well formed; the role service raises events the
    policy service listens to.

    [Authentication]:
    - Login, [logics/login]: by account and password with lock-out and
      verification codes, for clients, by single sign-on, and for anonymous
      links; it asks the user service about accounts and passwords, the
      settings, the tickets, the codes and the assertions.
    - Tickets, [logics/ticket]; codes by SMS, [logics/sms]; the permission of
      an app to obtain tokens of any user and the assertions for it,
      [logics/access_token_perm] and [logics/assertion]; registration of
      clients, [logics/register]; settings, [logics/conf].
    - The outbox, [logics/outbox.go]: messages written in the transaction of
      the operation and pushed by a thread; ending sessions at hydra and the
      ordered audit log use it ([logics/session], [logics/audit/audit.go]).
    - The audit task, [logics/audit/audit_log_async_task.go]: entries that any
      instance may claim, publish and delete.
    - The cleaning of hydra's tables, [logics/flow_clean], [CronThreads.go].
    - Message handlers, [driveradapters/mq_handler], and HTTP endpoints,
      [driveradapters/*].

    ** The files

    Shared:
    - [Prelude]: results of Go calls ([outcome]: value, error or panic), the
      state monad over them, map iteration and unordered query results in an
      order the environment chooses ([GoRuntime]), 64-bit wrap-around, generic
      lemmas and the hint database [isf].
    - [Strconv]: numbers and booleans in text.  [Json]: JSON values, float64
      numbers, text columns, type assertions that panic.  [SchemaLang]: JSON
      schemas and what conforming to one gives a reader.

    [Authorization]:
    - [Interfaces], [Common]: the data types of [interfaces/], the service
      interfaces as type classes, the helpers of [common/] and
      [logics/common.go].
    - [Store]: the tables of [migrations/init.sql] as lists of rows; an
      environment that may refuse any statement; transactions.
    - [PolicyCalc] models [policy_calc.go]; [PolicyCalcSpec] says what a
      decision means ([decision], [nearest], [level_says]); [Decision],
      [Listings] and [Obligations] prove the interfaces against it.
    - [PolicyDB] models [dbaccess/policy.go] and [dbaccess/policy_calc.go];
      [PolicyDBSpec] proves that stored rules read back and that the store
      implements [PolicySource], the interface the decision theorems use.
    - [Policy] models [policy.go]; [PolicyMerge], [PolicyOps], [PolicyCreate]
      and [PolicyList] prove merging, authority, atomicity, the effect of each
      operation and the listings.
    - [RoleDB], [Event], [Role], [Mq] model [dbaccess/role.go],
      [role_member.go], [event.go], [role.go], [mq_handler.go] and
      [go-lib/rest/check_req.go]; [RoleScope], [RoleSpec], [RoleOps],
      [RoleAdmin], [RoleQuery] and [Paging] prove their properties.
    - [ResourceTypeDB], [ResourceType] model the resource types and trees with
      their storage; [ResourceTypeSpec], [ResourceTypeOps] prove them.
    - [ObligationDB], [Obligation] model obligation types and obligations with
      their storage; [ObligationSpec], [ObligationOps] prove them.
    - [System]: all services over one store, as [main.go] wires them; the
      specification of a decision ([answers]) and the refinement theorem.
    - [Rest] models requests, replies and tokens ([driveradapters/common.go],
      [hydra.go], [go-lib/rest]); [Schema] the request schemas; [RestCalc],
      [RestRole], [RestPolicy], [RestTypes] the handlers; [RestCalcSpec],
      [RestRoleSpec], [RestPolicySpec], [RestAdmin] prove them.
    - [InitData] models [init_data.go], [timer.go] and the start of [main.go];
      [Run] the service as a transition system, [Soundness] the invariant of
      its tables.
    - [Sample], [RoleSample], [TypeSample], [RestSample], [RunSample]: a
      concrete deployment on which the theorems are evaluated.

    [Authentication]:
    - [AuthBase]: the data types and client interfaces of [interfaces/], error
      codes, the clock.  [AuthStore]: its tables, statements that may be
      refused, transactions with and without a reported commit error, and the
      lemma all batch cleanings share.
    - [Ticket] models [logics/ticket] and [dbaccess/ticket.go].
    - [Des]: the cipher, bit by bit.  [Sms] models [logics/sms] and
      [dbaccess/anonymous_sms.go]; [SmsSpec] proves them.
    - [Outbox] models [logics/outbox.go] and [dbaccess/outbox.go]; [AuthConf]
      the settings; [TokenPerm] the permission and the assertions;
      [AuthSession] sessions, the ordered audit log and the message handlers;
      each with its theorems.
    - [UserAccount] models the calls of a login in [UserManagement] and
      implements the client interface with them.  [Login] models
      [logics/login]; [LoginSpec] states the lock-out as a counter with a time
      and proves that logins refine it.
    - [AuditTask] models the audit task and its table, a statement or call at a
      time, for any number of instances; [FlowClean] the cleaning of hydra's
      tables.
    - [AuthRest] models request reading and registration; [AuthHandlers] every
      HTTP handler; [AuthHandlersSpec] the request schemas and the theorems
      about requests.
    - [AuthSample]: instances of every interface and small tables on which the
      theorems are applied.

    A Go function becomes a Rocq function of the same name, prefixed by its
    object where the name is shared ([policy_Create], [policyDB_Create]).
    Operations that write are in the monad [M] over the tables, or over the
    tables and the state of the other services ([auth_db * W]).  Every
    database call carries a label, so a theorem can say which statements the
    server refuses.  Slices that are only ranged over are lists (nil and empty
    are kept apart where the code can tell them apart); maps are [gmap]s.

    ** What the theorems show

    - Decisions: [Check] answers exactly by the specification; the batch
      interfaces agree with it on requests of one type with distinct ids; expiry and clean-up do
      not change decisions; obligations are one per type, of the most specific
      accessor, with the stored value.
    - Policies: a write needs authority, is atomic, and has exactly the effect
      its request describes; merging decides like the two policies side by
      side.
    - Roles, resource types, obligations: names and ids stay unique and every
      column stays readable whatever calls and events arrive; deleting an existing role
      revokes it; a deletion message, however often it fails, ends with
      nothing referring to the deleted accessor; the effect of each call.
    - HTTP and runs of [Authorization]: every request is answered; the public
      endpoints act for the bearer of the token; whatever requests, messages,
      starts and clean-ups arrive, the tables stay sound and decisions follow
      the specification.
    - Login: runs of logins, through both services down to the rows, refine
      the lock-out counter; the lock holds for its minutes.
    - Tickets are redeemed at most once, by the client and for the user of the
      request that drew them, in time; a code that was sent is the only one that
      works; what is stored encrypted or as text is read back.
    - Outbox and audit task: no message or entry is lost across failures,
      restarts and interleavings; claims are exclusive up to resets; the loops
      end and deliver in order; the cleanings end and remove the right rows.
    - Permissions, settings and registration: who may change them and what a
      success establishes; reading a request does not panic, with two
      exceptions that are stated exactly or by a condition (the token hook,
      single sign-on).

    ** Bounds and fuel

    [TrimSpace] has one unit of fuel per byte ([Paging.TrimSpace_trimmed] shows
    it is enough).  Loops that end by what they find in the tables return
    [None] when their fuel is used up: [clean_loop], [push_loop] and
    [CleanExpiredRefresh] end with more fuel than there are rows, as their
    theorems show.  [audit_loop] counts statements and calls: five for each
    entry and two more are enough.  The loop that claims an entry has no fuel:
    it is a step function, whose steps those of other instances interleave.  All
    other recursion is structural.  Integers that may overflow are [Z] with
    their wrap-around written out ([int64_wrap], [int32_wrap]).  The clock is
    constant during one operation.

    ** Parameters

    Go's iteration order ([GoRuntime]), database faults, clock and generated
    ids ([SqlEnv], [AuthEnv], [UserEnv]), random numbers ([Random]), the JSON
    logic evaluator ([JsonLogic]), JSON schema validators ([GoJsonSchema],
    [JsonSchema], [MessageSchema], with [SchemaLaw] and [AuthSchemaLaw]), the
    collation behind [like] ([SqlLike]), RFC 3339 ([GoTime]), parsing of JSON
    in settings ([JsonText]), token services ([HydraAdmin], [Introspection]),
    RSA, JWT and bcrypt ([Rsa], [Jwt] with [JwtLaw], [Bcrypt]), decoding into
    structs ([Mapstructure]), matching of languages ([LangMatcher]), the
    settings of another service ([ShareMgntConfig]) and the client interfaces
    ([DrivenUserMgnt], [DnUserManagement], [DnShareMgnt], [DnHydra], [DnEacp],
    [DnEacpLog], [DrivenMessageBroker]).

    ** Not modelled

    Interleaving of statements of different requests, except where a component
    is built for it (the audit task) or a theorem shows what it breaks (two
    requests redeeming one ticket); a fault in the middle of an operation is
    modelled everywhere.  The databases whose driver returns times in another
    zone (KDB, [convertTime]).  Routing, health endpoints, waiting for timers,
    telemetry, logging, configuration and the clients of other services hold
    no logic of their own.  Of [UserManagement] only the calls of a login are
    modelled; its departments, groups and applications, and the services
    [PolicyManagement] and [Auditlog], are separate programs that a similar
    library could follow.  The fork of [hydra], thrift-generated and vendored
    code, the web front end and the services in other languages are left
    out. *)
From Stdlib Require Import Ascii.
From stdpp Require Export gmap strings list fin_maps sorting.

(** ** Results of Go calls

    A Go function of the service returns its values with a last [error]
    result, or stops the goroutine with a run-time panic (an index out of
    range, a failed type assertion).  [Err] drops the other results of a
    call that failed: no caller of the modelled code reads them. *)

(** The error value [gerrors.NewError(code, description, SetDetail)]; errors
    that come from the database driver or from another service are values of
    the same type. *)
Record gerror := MkErr {
  err_code : string;
  err_desc : string;
  err_detail : list string
}.

#[global] Instance gerror_eq_dec : EqDecision gerror.
Proof. solve_decision. Defined.

Inductive outcome (A : Type) : Type :=
| Ok (a : A)
| Err (e : gerror)
| Panic (why : string).
Arguments Ok {A} a.
Arguments Err {A} e.
Arguments Panic {A} why.

#[global] Instance outcome_eq_dec `{EqDecision A} : EqDecision (outcome A).
Proof. solve_decision. Defined.

#[global] Instance outcome_ret : MRet outcome := λ A a, Ok a.
#[global] Instance outcome_bind : MBind outcome := λ A B f m,
  match m with Ok a => f a | Err e => Err e | Panic w => Panic w end.
#[global] Instance outcome_fmap : FMap outcome := λ A B f m,
  match m with Ok a => Ok (f a) | Err e => Err e | Panic w => Panic w end.

(** [if cond { return err }] *)
Definition fail_if (cond : bool) (e : gerror) : outcome unit :=
  if cond then Err e else Ok tt.

(** A [for] loop over a slice whose body may return early with an error. *)
Fixpoint ofold {A B : Type} (f : A → B → outcome A) (a : A) (l : list B) : outcome A :=
  match l with
  | [] => Ok a
  | x :: l => a' ← f a x; ofold f a' l
  end.

(** The same loop when the body only appends one value per element. *)
Fixpoint omap_all {A B : Type} (f : A → outcome B) (l : list A) : outcome (list B) :=
  match l with
  | [] => Ok []
  | x :: l => y ← f x; ys ← omap_all f l; Ok (y :: ys)
  end.

(** A loop over a slice that returns at the first error of its body, and one
    that returns the first value its body finds; usable in nested recursion. *)
Definition each_ok {A : Type} (f : A → outcome unit) : list A → outcome unit :=
  fix go l := match l with [] => Ok tt | x :: l => _ ← f x; go l end.
Definition first_some {A B : Type} (f : A → option B) : list A → option B :=
  fix go l := match l with
              | [] => None
              | x :: l => match f x with Some y => Some y | None => go l end
              end.

(** ** State

    Code that writes the database is a function of the store it finds, and
    returns the outcome with the store it leaves. *)
Definition M (S A : Type) : Type := S → outcome A * S.

#[global] Instance M_ret {S} : MRet (M S) := λ A a s, (Ok a, s).
#[global] Instance M_bind {S} : MBind (M S) := λ A B f m s,
  match m s with
  | (Ok a, s') => f a s'
  | (Err e, s') => (Err e, s')
  | (Panic w, s') => (Panic w, s')
  end.

(** A call that reads the store (or another service) and does not change it. *)
Definition reads {S A} (f : S → outcome A) : M S A := λ s, (f s, s).
Definition lift {S A} (o : outcome A) : M S A := λ s, (o, s).
(** Run-time panic and error of a call, kept with the store. *)
Definition modifies {S} (f : S → S) : M S unit := λ s, (Ok tt, f s).

Fixpoint for_each {S B : Type} (f : B → M S unit) (l : list B) : M S unit :=
  match l with
  | [] => mret tt
  | x :: l => _ ← f x; for_each f l
  end.

(** ** What the Go run time leaves open

    The order in which [range] visits a map, the order in which the database
    returns the rows of a query without [order by], and the order
    [sort.Slice] and [slices.SortFunc] give to equal elements are unspecified.
    [range_order site] is the order observed at one place of the code: any
    permutation.  [sort_slice less] is any sorted permutation. *)
Record strict_weak {A : Type} (less : A → A → bool) : Prop := {
  sw_irrefl : ∀ a, less a a = false;
  sw_trans : ∀ a b c, less a b = true → less b c = true → less a c = true;
  sw_incomp : ∀ a b c, less a b = false → less b c = false → less a c = false
}.

Class GoRuntime := {
  range_order : ∀ (site : nat) {A : Type}, list A → list A;
  range_order_perm : ∀ (site : nat) (A : Type) (l : list A), range_order site l ≡ₚ l;
  sort_slice : ∀ {A : Type}, (A → A → bool) → list A → list A;
  sort_slice_perm : ∀ (A : Type) (less : A → A → bool) (l : list A),
    sort_slice less l ≡ₚ l;
  sort_slice_sorted : ∀ (A : Type) (less : A → A → bool) (l : list A),
    strict_weak less →
    StronglySorted (λ a b, less b a = false) (sort_slice less l)
}.

(** [for k, v := range m] *)
Definition range `{GoRuntime} {V : Type} (site : nat) (m : gmap string V) : list (string * V) :=
  range_order site (map_to_list m).

(** ** Go maps

    [map[string]bool] used as a set, read with the zero value for an absent
    key. *)
Definition mget (m : gmap string bool) (k : string) : bool := default false (m !! k).

(** [m[k] = append(m[k], vs...)] *)
Definition mappend {V : Type} (k : string) (vs : list V) (m : gmap string (list V))
  : gmap string (list V) :=
  <[k := default [] (m !! k) ++ vs]> m.

(** The loop [for i := range l { m[key(l[i])] = append(m[key(l[i])], l[i]) }] *)
Definition group_by {A : Type} (key : A → string) (l : list A) : gmap string (list A) :=
  foldl (λ m x, mappend (key x) [x] m) ∅ l.

(** The loop [for i := range l { m[key(l[i])] = true }] *)
Definition set_of (l : list string) : gmap string bool :=
  foldl (λ m k, <[k := true]> m) ∅ l.

Declare Scope go_scope.
Delimit Scope go_scope with go.
(** Read of a [map[string]bool]. *)
Notation "m '⦃' k '⦄'" := (mget m k) (at level 1, k at level 200, left associativity) : go_scope.

(** ** Integers and text

    [int64] arithmetic wraps around.  Language tags and verification codes are
    ASCII; [strings.ToLower] and [strings.EqualFold] are those of ASCII
    letters. *)
Definition int64_wrap (z : Z) : Z := ((z + 2 ^ 63) mod 2 ^ 64 - 2 ^ 63)%Z.
Lemma int64_wrap_small z : (0 ≤ z < 2 ^ 63)%Z → int64_wrap z = z.
Proof. intros Hz. unfold int64_wrap. rewrite Z.mod_small; lia. Qed.
Definition lower (c : ascii) : ascii :=
  let n := nat_of_ascii c in
  if ((65 <=? n) && (n <=? 90))%nat then ascii_of_nat (n + 32) else c.
Fixpoint ToLower (s : string) : string :=
  match s with EmptyString => EmptyString | String c s => String (lower c) (ToLower s) end.
Fixpoint EqualFold (s t : string) : bool :=
  match s, t with
  | EmptyString, EmptyString => true
  | String c s, String d t => bool_decide (lower c = lower d) && EqualFold s t
  | _, _ => false
  end.

(** ** Automation *)
Create HintDb isf discriminated.
Create Rewrite HintDb isf.

(** Splits an equation [x ← m; k x = Ok b] (in either monad) into its parts. *)
Lemma bind_Ok {A B} (m : outcome A) (k : A → outcome B) b :
  (x ← m; k x) = Ok b → ∃ a, m = Ok a ∧ k a = Ok b.
Proof. destruct m; simpl; naive_solver. Qed.

Lemma M_bind_Ok {S A B} (m : M S A) (k : A → M S B) s b s' :
  (x ← m; k x) s = (Ok b, s') → ∃ a s1, m s = (Ok a, s1) ∧ k a s1 = (Ok b, s').
Proof.
  unfold mbind, M_bind. destruct (m s) as [[a|e|w] s1]; naive_solver.
Qed.

Lemma M_bind_unfold {S A B} (m : M S A) (k : A → M S B) s a s1 :
  m s = (Ok a, s1) → (x ← m; k x) s = k a s1.
Proof. intros E. unfold mbind, M_bind. by rewrite E. Qed.

Lemma M_bind_Err {S A B} (m : M S A) (k : A → M S B) s e s1 :
  m s = (Err e, s1) → (x ← m; k x) s = (Err e, s1).
Proof. intros E. unfold mbind, M_bind. by rewrite E. Qed.

Lemma M_bind_cases {S A B} (m : M S A) (k : A → M S B) s r s' :
  (x ← m; k x) s = (r, s') →
  (∃ a s1, m s = (Ok a, s1) ∧ k a s1 = (r, s')) ∨
  (∃ e, m s = (Err e, s') ∧ r = Err e) ∨
  (∃ w, m s = (Panic w, s') ∧ r = Panic w).
Proof.
  unfold mbind, M_bind. destruct (m s) as [[a|e|w] s1]; naive_solver.
Qed.

Lemma reads_eq {S A} (f : S → outcome A) s : reads f s = (f s, s).
Proof. done. Qed.
Lemma lift_eq {S A} (o : outcome A) (s : S) : lift o s = (o, s).
Proof. done. Qed.

Lemma fail_if_Ok c e u : fail_if c e = Ok u ↔ c = false.
Proof. destruct c, u; naive_solver. Qed.

Ltac obind :=
  repeat match goal with
  | H : (_ ← ?m; _) = Ok _ |- _ =>
      apply bind_Ok in H; let a := fresh "r" in let E := fresh "E" in
      destruct H as (a & E & H)
  | H : (_ ← ?m; _) _ = (Ok _, _) |- _ =>
      apply M_bind_Ok in H; let a := fresh "r" in let s1 := fresh "s" in
      let E := fresh "E" in destruct H as (a & s1 & E & H)
  | H : reads _ _ = _ |- _ => rewrite reads_eq in H
  | H : lift _ _ = _ |- _ => rewrite lift_eq in H
  | H : fail_if _ _ = Ok _ |- _ => apply fail_if_Ok in H
  | H : Ok _ = Ok _ |- _ => injection H as H; subst
  | H : (_, _) = (_, ?s) |- _ =>
      let Hs := fresh in injection H as H Hs; first [subst s | clear Hs | subst]
  end.

(** One call of a successful sequence: [a] is its result, [E] its equation. *)
Tactic Notation "mstep" hyp(H) "as" simple_intropattern(a) simple_intropattern(E) :=
  let s1 := fresh "s" in let E' := fresh "E" in
  apply M_bind_Ok in H as (a & s1 & E' & H);
  first [ rewrite reads_eq in E'; injection E' as E <- | rewrite lift_eq in E'; injection E' as E <-
        | revert E'; intros E ].

(** The ways a call [x ← m; k x] can end, for a call whose outcome is not
    known: splits the head call of hypothesis [H]; the failing ones end with
    the store they leave. *)
Ltac mcase H :=
  let a := fresh "r" in let s1 := fresh "s" in let E := fresh "E" in
  apply M_bind_cases in H as [(a & s1 & E & H)|[(a & E & ->)|(a & E & ->)]];
  try (rewrite reads_eq in E; injection E as E <-);
  try (rewrite lift_eq in E; injection E as E <-).

(** Case analysis on every [if] and [match] of a hypothesis or of the goal. *)
Ltac cases := repeat (case_match; simplify_eq/=; try done).

(** Closed decidable goals by evaluation. *)
Ltac by_decision := apply (bool_decide_unpack _); vm_compute; exact I.

(** ** Map iteration *)
Section range.
Context `{GoRuntime}.
Context {V : Type}.
Implicit Types (m : gmap string V) (k : string) (v : V).

Lemma elem_of_range_order site {A} (l : list A) x : x ∈ range_order site l ↔ x ∈ l.
Proof. by rewrite range_order_perm. Qed.

Lemma elem_of_range site m k v : (k, v) ∈ range site m ↔ m !! k = Some v.
Proof. unfold range. rewrite elem_of_range_order. apply elem_of_map_to_list. Qed.

Lemma NoDup_fst_range site m : NoDup (range site m).*1.
Proof. unfold range. rewrite range_order_perm. apply NoDup_fst_map_to_list. Qed.

Lemma range_empty site : range site (∅ : gmap string V) = [].
Proof.
  apply Permutation_nil_r. unfold range.
  by rewrite range_order_perm, map_to_list_empty.
Qed.
End range.
#[export] Hint Rewrite @elem_of_range @elem_of_range_order : isf.

(** ** Sets kept as [map[string]bool] *)
Lemma mget_insert m k k' :
  mget (<[k := true]> m) k' = bool_decide (k = k') || mget m k'.
Proof.
  unfold mget. destruct (decide (k = k')) as [->|].
  - rewrite bool_decide_true by done. by rewrite lookup_insert_eq.
  - rewrite bool_decide_false by done. by rewrite lookup_insert_ne.
Qed.

Lemma mget_empty k : mget ∅ k = false.
Proof. done. Qed.

Lemma mget_fold_insert {A} (f : A → string) (l : list A) m k :
  mget (foldl (λ m x, <[f x := true]> m) m l) k = true ↔
  mget m k = true ∨ ∃ x, x ∈ l ∧ f x = k.
Proof.
  revert m. induction l as [|x l IH]; intros m; simpl.
  - set_solver.
  - rewrite IH, mget_insert, orb_true_iff, bool_decide_eq_true. set_solver.
Qed.

Lemma mget_set_of l k : mget (set_of l) k = true ↔ k ∈ l.
Proof.
  unfold set_of. rewrite (mget_fold_insert id), mget_empty. set_solver.
Qed.

(** ** Filters *)
Section filters.
Context {A : Type} (P : A → Prop) `{∀ x, Decision (P x)}.

Lemma filter_cons_elem l x l' : filter P l = x :: l' → P x ∧ x ∈ l.
Proof. intros E. apply (list_elem_of_filter P). rewrite E. left. Qed.

Lemma filter_nil_not l x : filter P l = [] → x ∈ l → ¬ P x.
Proof.
  intros E Hx HP. assert (x ∈ filter P l) as Hin by (by apply list_elem_of_filter).
  rewrite E in Hin. by inversion Hin.
Qed.

Lemma filter_none l : (∀ x, x ∈ l → ¬ P x) → filter P l = [].
Proof.
  intros Hl. destruct (filter P l) as [|x l'] eqn:E; [done|].
  apply filter_cons_elem in E as [HP Hx]. by destruct (Hl x Hx).
Qed.

Lemma filter_all (l : list A) : (∀ x, x ∈ l → P x) → filter P l = l.
Proof.
  induction l as [|x l IH]; intros Hl; [done|]. rewrite filter_cons, decide_True by (apply Hl; left).
  f_equal. apply IH. intros y Hy. apply Hl. by right.
Qed.
End filters.
Lemma filter_filter_sub {A} (P Q : A → Prop) `{∀ x, Decision (P x), ∀ x, Decision (Q x)} (l : list A) :
  (∀ x, x ∈ l → P x → Q x) → filter P (filter Q l) = filter P l.
Proof.
  induction l as [|x l IH]; intros Hpq; [done|]. rewrite (filter_cons Q), (filter_cons P x l).
  destruct (decide (Q x)) as [HQ|HQ].
  - rewrite filter_cons. destruct (decide (P x)); [f_equal|]; apply IH; set_solver.
  - rewrite decide_False; [apply IH; set_solver|]. intros HP. apply HQ, Hpq; [left|done].
Qed.
Lemma filter_same_in {A} (P Q : A → Prop) `{∀ x, Decision (P x), ∀ x, Decision (Q x)} (l : list A) :
  (∀ x, x ∈ l → P x ↔ Q x) → filter P l = filter Q l.
Proof.
  induction l as [|x l IH]; intros Hpq; [done|]. rewrite !filter_cons.
  rewrite (decide_ext (P x) (Q x)) by (apply Hpq; left).
  case_decide; [f_equal|]; apply IH; intros; apply Hpq; by right.
Qed.
Lemma filter_key_shorter {A} (k : A → string) (ids : list string) (l : list A) id :
  id ∈ ids → id ∈ k <$> l → length (filter (λ x, k x ∉ ids) l) < length l.
Proof.
  intros Hid (x & -> & Hx)%list_elem_of_fmap. induction l as [|y l IH]; [by apply elem_of_nil in Hx|].
  pose proof (length_filter (λ x, k x ∉ ids) l) as Hle. rewrite filter_cons. apply elem_of_cons in Hx as [->|Hx].
  - rewrite decide_False by (intros Hn; by apply Hn). simpl. lia.
  - specialize (IH Hx). case_decide; simpl; lia.
Qed.

Lemma NoDup_fmap_inj_in {A B} (k : A → B) (l : list A) x y :
  NoDup (k <$> l) → x ∈ l → y ∈ l → k x = k y → x = y.
Proof.
  intros Hnd [i Hi]%list_elem_of_lookup [j Hj]%list_elem_of_lookup Hk.
  assert (i = j) as ->; [|congruence].
  eapply (NoDup_lookup (k <$> l) i j (k x) Hnd); rewrite list_lookup_fmap; [by rewrite Hi|by rewrite Hj, Hk].
Qed.
(** The rows with the key of [x], when keys are unique. *)
Lemma unique_by {A B} (k : A → B) (l : list A) x `{EqDecision B} : NoDup (k <$> l) → x ∈ l → filter (λ y, k y = k x) l = [x].
Proof.
  intros Hnd Hx. apply Permutation_singleton_r, NoDup_Permutation.
  - apply NoDup_filter. by eapply NoDup_fmap_1.
  - apply NoDup_singleton.
  - intros y. rewrite list_elem_of_filter, list_elem_of_singleton. split; [intros [? ?]; by apply (NoDup_fmap_inj_in k l)|by intros ->].
Qed.

Lemma NoDup_fmap_filter {A B} (k : A → B) (P : A → Prop) `{∀ x, Decision (P x)} (l : list A) :
  NoDup (k <$> l) → NoDup (k <$> filter P l).
Proof. intros Hnd. eapply sublist_NoDup; [done|]. apply fmap_sublist, sublist_filter. Qed.

(** ** Maps filled by a loop *)
Lemma foldl_insert_out {A V} (k : A → string) (v : A → V) (l : list A) (m : gmap string V) id :
  (∀ x, x ∈ l → k x ≠ id) → foldl (λ m x, <[k x := v x]> m) m l !! id = m !! id.
Proof.
  revert m. induction l as [|x l IH]; intros m Hk; simpl; [done|].
  rewrite IH by set_solver. apply lookup_insert_ne. apply Hk. left.
Qed.

Lemma foldl_insert_in {A V} (k : A → string) (v : A → V) (l : list A) (m : gmap string V) x :
  NoDup (k <$> l) → x ∈ l → foldl (λ m x, <[k x := v x]> m) m l !! k x = Some (v x).
Proof.
  revert m. induction l as [|y l IH]; intros m Hnd Hx; csimpl in *; [by inversion Hx|].
  apply NoDup_cons in Hnd as [Hy Hnd]. apply elem_of_cons in Hx as [->|Hx]; [|by apply IH].
  rewrite foldl_insert_out; [apply lookup_insert_eq|].
  intros x Hx Heq. apply Hy. rewrite <-Heq. by apply list_elem_of_fmap_2.
Qed.

Lemma foldl_insert_None {A V} (k : A → string) (v : A → V) (l : list A) (m : gmap string V) id :
  foldl (λ m x, <[k x := v x]> m) m l !! id = None ↔ m !! id = None ∧ id ∉ k <$> l.
Proof.
  revert m. induction l as [|x l IH]; intros m; csimpl; [set_solver|].
  rewrite IH, lookup_insert_None, not_elem_of_cons. naive_solver.
Qed.

(** A map from key to element, filled from elements with distinct keys. *)
Lemma lookup_keyed {A} (k : A → string) (l : list A) id x :
  NoDup (k <$> l) → foldl (λ (m : gmap string A) x, <[k x := x]> m) ∅ l !! id = Some x ↔ x ∈ l ∧ k x = id.
Proof.
  intros Hnd. split.
  - intros Hx. destruct (decide (id ∈ k <$> l)) as [Hid|Hid].
    + apply list_elem_of_fmap in Hid as (y & -> & Hy).
      rewrite (foldl_insert_in k (λ x, x) l ∅ y Hnd Hy) in Hx. by injection Hx as <-.
    + rewrite (foldl_insert_out k (λ x, x)) in Hx; [by rewrite lookup_empty in Hx|].
      intros y Hy <-. apply Hid. by apply list_elem_of_fmap_2.
  - intros [Hx <-]. by apply (foldl_insert_in k (λ x, x)).
Qed.

(** ** Grouping *)
Lemma lookup_mappend {V} k (vs : list V) m k' :
  mappend k vs m !! k' = if decide (k = k') then Some (default [] (m !! k) ++ vs) else m !! k'.
Proof. unfold mappend. by rewrite lookup_insert. Qed.

Lemma lookup_group_by_acc {A} (key : A → string) (l : list A) m k :
  default [] (foldl (λ m x, mappend (key x) [x] m) m l !! k)
  = default [] (m !! k) ++ filter (λ x, key x = k) l.
Proof.
  revert m. induction l as [|x l IH]; intros m; simpl.
  - by rewrite app_nil_r.
  - rewrite IH, lookup_mappend, filter_cons. repeat case_decide; subst; simpl; try done.
    by rewrite <-app_assoc.
Qed.

Lemma lookup_group_by {A} (key : A → string) (l : list A) k :
  default [] (group_by key l !! k) = filter (λ x, key x = k) l.
Proof. unfold group_by. by rewrite lookup_group_by_acc. Qed.

Lemma group_by_nonempty {A} (key : A → string) (l : list A) k g :
  group_by key l !! k = Some g → g ≠ [].
Proof.
  unfold group_by.
  assert (∀ m, (∀ k g, m !! k = Some g → g ≠ []) →
    foldl (λ m x, mappend (key x) [x] m) m l !! k = Some g → g ≠ []) as Hgen.
  { induction l as [|x l IH]; simpl; intros m Hm; [by apply Hm|].
    apply IH. intros k' g'. rewrite lookup_mappend. case_decide; [|by apply Hm].
    intros [= <-]. by destruct (default [] _). }
  apply Hgen. intros ??. by rewrite lookup_empty.
Qed.

Lemma group_by_Some {A} (key : A → string) (l : list A) k g :
  group_by key l !! k = Some g ↔ g = filter (λ x, key x = k) l ∧ g ≠ [].
Proof.
  pose proof (lookup_group_by key l k) as Hd.
  pose proof (group_by_nonempty key l k) as Hn.
  destruct (group_by key l !! k) as [g'|] eqn:E; simpl in *.
  - split; [intros [= ->]; auto|]. intros [-> _]. by f_equal.
  - split; [done|]. intros [-> Hne]. by rewrite <-Hd in Hne.
Qed.

(** ** Loops *)
Lemma ofold_app {A B} (f : A → B → outcome A) a l1 l2 :
  ofold f a (l1 ++ l2) = (a' ← ofold f a l1; ofold f a' l2).
Proof.
  revert a. induction l1 as [|x l1 IH]; intros a; simpl; [done|].
  destruct (f a x); simpl; auto.
Qed.

(** A loop that appends one value per element. *)
Lemma ofold_append {A B C} (f : list C → B → outcome (list C)) (g : A → B) (h : A → C) l acc :
  (∀ acc x, f acc (g x) = Ok (acc ++ [h x])) → ofold f acc (g <$> l) = Ok (acc ++ (h <$> l)).
Proof.
  intros Hf. revert acc. induction l as [|x l IH]; intros acc; simpl; [by rewrite app_nil_r|].
  rewrite Hf. simpl. by rewrite IH, <-app_assoc.
Qed.

Lemma omap_all_Ok {A B} (f : A → outcome B) l ys :
  omap_all f l = Ok ys ↔ Forall2 (λ x y, f x = Ok y) l ys.
Proof.
  revert ys. induction l as [|x l IH]; intros ys; simpl.
  - split; [intros [= <-]; constructor | by inversion 1].
  - split.
    + intros Hb. obind. constructor; [done|]. by apply IH.
    + inversion 1 as [|? y ? ys' Hy Hys]; subst. rewrite Hy. simpl.
      apply IH in Hys. by rewrite Hys.
Qed.

Lemma omap_all_total {A B} (f : A → outcome B) l :
  (∀ x, x ∈ l → ∃ y, f x = Ok y) → ∃ ys, omap_all f l = Ok ys.
Proof.
  induction l as [|x l IH]; intros Hf; simpl; [eauto|]. destruct (Hf x) as [y Hy]; [left|].
  destruct IH as [ys Hys]; [intros; apply Hf; by right|]. rewrite Hy. simpl. rewrite Hys. simpl. eauto.
Qed.

Lemma omap_all_elem {A B} (f : A → outcome B) l ys y :
  omap_all f l = Ok ys → y ∈ ys ↔ ∃ x, x ∈ l ∧ f x = Ok y.
Proof.
  intros Hl%omap_all_Ok. induction Hl as [|x z l ys Hx _ IH]; [set_solver|].
  rewrite elem_of_cons, IH. split.
  - intros [->|(x' & Hx' & Hf)]; [exists x|exists x']; split; [left|done|by right|done].
  - intros (x' & [->|Hx']%elem_of_cons & Hf); [left; congruence|right; eauto].
Qed.

(** ** Calls that cannot panic *)
Definition panic_free {A} (o : outcome A) : Prop := ∀ w, o ≠ Panic w.

Lemma panic_free_Ok {A} (a : A) : panic_free (Ok a).
Proof. by intros w. Qed.
Lemma panic_free_Err {A} e : panic_free (Err e : outcome A).
Proof. by intros w. Qed.
Lemma panic_free_fail_if c e : panic_free (fail_if c e).
Proof. by destruct c. Qed.
Lemma panic_free_bind {A B} (m : outcome A) (k : A → outcome B) :
  panic_free m → (∀ a, m = Ok a → panic_free (k a)) → panic_free (x ← m; k x).
Proof. intros Hm Hk w. destruct m as [a| |w']; simpl; [by apply Hk|done|]. intros _. by apply (Hm w'). Qed.
Lemma panic_free_ofold {A B} (f : A → B → outcome A) a l :
  (∀ a x, x ∈ l → panic_free (f a x)) → panic_free (ofold f a l).
Proof.
  revert a. induction l as [|x l IH]; intros a Hf; simpl; [apply panic_free_Ok|].
  apply panic_free_bind; [apply Hf; left|]. intros a' _. apply IH. intros; apply Hf. by right.
Qed.
Lemma panic_free_omap_all {A B} (f : A → outcome B) l : (∀ x, x ∈ l → panic_free (f x)) → panic_free (omap_all f l).
Proof.
  induction l as [|x l IH]; intros Hf; simpl; [apply panic_free_Ok|].
  apply panic_free_bind; [apply Hf; left|]. intros y _. apply panic_free_bind; [|intros; apply panic_free_Ok].
  apply IH. intros; apply Hf. by right.
Qed.
Lemma panic_free_each_ok {A} (f : A → outcome unit) l : Forall (λ x, panic_free (f x)) l → panic_free (each_ok f l).
Proof.
  induction 1 as [|x l Hx _ IH]; simpl; [apply panic_free_Ok|]. apply panic_free_bind; [done|]. by intros _ _.
Qed.
#[export] Hint Resolve panic_free_Ok panic_free_Err panic_free_fail_if : isf.

(** One panic among results that are not errors. *)
Lemma omap_all_panics {A B} (f : A → outcome B) l x :
  x ∈ l → (∃ w, f x = Panic w) → (∀ y, y ∈ l → ∀ e, f y ≠ Err e) → ∃ w, omap_all f l = Panic w.
Proof.
  intros Hx [w Hw]. induction l as [|y l IH]; intros He; [by apply elem_of_nil in Hx|]. simpl.
  destruct (f y) as [b|e|w'] eqn:E; [|by destruct (He y (list_elem_of_here _ _) e)|by eexists]. simpl.
  apply elem_of_cons in Hx as [<-|Hx]; [congruence|].
  destruct IH as [w' ->]; [done|intros; apply He; by right|]. by eexists.
Qed.

Lemma omap_all_inverse {A B} (f : B → outcome A) (g : A → B) l :
  (∀ a, a ∈ l → f (g a) = Ok a) → omap_all f (g <$> l) = Ok l.
Proof.
  induction l as [|x l IH]; intros Hfg; csimpl; [done|].
  rewrite Hfg by set_solver. simpl. rewrite IH by set_solver. done.
Qed.

Lemma each_ok_Ok {A} (f : A → outcome unit) l : each_ok f l = Ok tt ↔ Forall (λ x, f x = Ok tt) l.
Proof.
  induction l as [|x l IH]; simpl; [by rewrite Forall_nil|]. rewrite Forall_cons, <-IH.
  destruct (f x) as [[]| |]; simpl; naive_solver.
Qed.

Lemma omap_all_pure {A B} (f : A → outcome B) (g : A → B) l :
  (∀ x, x ∈ l → f x = Ok (g x)) → omap_all f l = Ok (g <$> l).
Proof.
  induction l as [|x l IH]; intros Hf; simpl; [done|].
  rewrite Hf by set_solver. simpl. rewrite IH by set_solver. done.
Qed.

#[export] Hint Rewrite @mget_empty mget_set_of @lookup_group_by : isf.

(** ** A run time

    The instance used by the examples: maps are visited in the order of their
    representation and sorting is merge sort. *)
Section canonical.
Context {A : Type} (less : A → A → bool).

Definition not_after (a b : A) : Prop := less b a = false.
#[global] Instance not_after_dec : RelDecision not_after.
Proof. intros a b. unfold not_after. apply _. Defined.

Lemma merge_sort_not_after l :
  strict_weak less → StronglySorted not_after (merge_sort not_after l).
Proof.
  intros [Hirr Htr Hinc].
  assert (Total not_after).
  { intros a b. unfold not_after. destruct (less b a) eqn:E1; [|by left].
    right. destruct (less a b) eqn:E2; [|done].
    by rewrite <-(Hirr a), (Htr a b a). }
  assert (Transitive not_after).
  { intros a b c Hab Hbc. unfold not_after in *. by apply (Hinc c b a). }
  by apply StronglySorted_merge_sort.
Qed.
End canonical.

Definition canonical_runtime : GoRuntime.
Proof.
  refine {|
    range_order _ _ l := l;
    sort_slice _ less l := merge_sort (not_after less) l
  |}.
  - done.
  - intros. apply merge_sort_Permutation.
  - intros A less l. apply merge_sort_not_after.
Defined.

(** Comparing an integer key gives a strict weak order. *)
Lemma strict_weak_key {A} (key : A → Z) : strict_weak (λ a b, key a <? key b)%Z.
Proof. split; intros; rewrite ?Z.ltb_lt, ?Z.ltb_ge in *; lia. Qed.
#[export] Hint Resolve strict_weak_key : isf.
