(* ===== verification/Strconv.v ===== *)
(** * Numbers and booleans in text ([strconv]), and splitting it ([strings]) *)
From Stdlib Require Import Ascii.
From stdpp Require Import pretty.
From S2P Require Import Prelude.

(** ** [strconv.Atoi]: the value, and whether there was no error *)
Definition digit_value (c : ascii) : option Z :=
  let n := Z.of_nat (nat_of_ascii c) in if ((48 <=? n) && (n <=? 57))%Z then Some (n - 48)%Z else None.

(** [ParseUint]: a bad character is an error with value 0, an overflow one
    with the greatest value. *)
Inductive parsed := PValue (n : Z) | PSyntax | PRange.
Fixpoint parse_uint (n : Z) (s : string) : parsed :=
  match s with
  | EmptyString => PValue n
  | String c s =>
      match digit_value c with
      | None => PSyntax
      | Some d => let n := (n * 10 + d)%Z in if (2 ^ 64 - 1 <? n)%Z then PRange else parse_uint n s
      end
  end.
Definition parse_digits (s : string) : parsed :=
  match s with EmptyString => PSyntax | _ => parse_uint 0 s end.
Definition Atoi (s : string) : Z * bool :=
  let '(neg, digits) := match s with
                        | String "-" s => (true, s)
                        | String "+" s => (false, s)
                        | _ => (false, s)
                        end in
  let un := match parse_digits digits with PValue n => Some n | PRange => Some (2 ^ 64 - 1)%Z | PSyntax => None end in
  match un with
  | None => (0%Z, false)
  | Some un =>
      if negb neg && (2 ^ 63 <=? un)%Z then ((2 ^ 63 - 1)%Z, false)
      else if neg && (2 ^ 63 <? un)%Z then ((- 2 ^ 63)%Z, false)
      else (if neg then (- un)%Z else un, match parse_digits digits with PValue _ => true | _ => false end)
  end.

(** ** [strconv.Itoa], [strconv.ParseBool], [strconv.FormatBool] *)
Definition Itoa (n : Z) : string := pretty n.
Definition ParseBool (s : string) : option bool :=
  if bool_decide (s ∈ ["1"; "t"; "T"; "TRUE"; "true"; "True"]) then Some true
  else if bool_decide (s ∈ ["0"; "f"; "F"; "FALSE"; "false"; "False"]) then Some false
  else None.
Definition FormatBool (b : bool) : string := if b then "true" else "false".

Lemma ParseBool_FormatBool b : ParseBool (FormatBool b) = Some b.
Proof. by destruct b. Qed.

(** A number that was written can be read. *)
Lemma digit_value_char (d : N) : (d < 10)%N → digit_value (pretty_N_char d) = Some (Z.of_N d).
Proof.
  intros Hd. assert (∃ n, d = N.of_nat n ∧ n < 10) as (n & -> & Hn) by (exists (N.to_nat d); lia). do 10 (destruct n as [|n]; [done|]). lia.
Qed.
Lemma parse_pretty_go (x : N) s : (Z.of_N x < 2 ^ 64)%Z → parse_uint 0 (pretty_N_go x s) = parse_uint (Z.of_N x) s.
Proof.
  revert s. induction (N.lt_wf_0 x) as [x _ IH]. intros s Hx. destruct (decide (x = 0)%N) as [->|Hne]; [done|].
  rewrite pretty_N_go_step by lia. pose proof (N.div_mod x 10 ltac:(lia)) as E. pose proof (N.mod_lt x 10 ltac:(lia)).
  assert (x `div` 10 ≤ x)%N by (apply N.Div0.div_le_upper_bound; lia). rewrite IH; [|apply N.div_lt; lia|lia].
  cbn [parse_uint]. rewrite digit_value_char by done. replace (Z.of_N (x `div` 10) * 10 + Z.of_N (x `mod` 10))%Z with (Z.of_N x) by lia.
  by rewrite (proj2 (Z.ltb_ge _ _)) by lia.
Qed.
Lemma pretty_go_head (x : N) s : (0 < x)%N → ∃ d s', pretty_N_go x s = String (pretty_N_char d) s' ∧ (d < 10)%N.
Proof.
  revert s. induction (N.lt_wf_0 x) as [x _ IH]. intros s Hx. rewrite pretty_N_go_step by done.
  destruct (decide (x `div` 10 = 0)%N) as [->|Hne].
  - rewrite pretty_N_go_0. exists (x `mod` 10)%N, s. split; [done|]. apply N.mod_lt. lia.
  - apply IH; [apply N.div_lt; lia|]. by apply N.neq_0_lt_0.
Qed.
Lemma parse_pretty (p : positive) : (Zpos p < 2 ^ 64)%Z → parse_digits (pretty (Npos p)) = PValue (Zpos p).
Proof.
  intros Hp. unfold pretty, pretty_N. rewrite decide_False by done. destruct (pretty_go_head (Npos p) "") as (d & s' & E & _); [lia|].
  unfold parse_digits. rewrite E. rewrite <-E. by rewrite (parse_pretty_go (Npos p) "").
Qed.
(** Text that starts with a digit has no sign. *)
Lemma Atoi_unsigned c s v n :
  digit_value c = Some v → parse_digits (String c s) = PValue n → (n < 2 ^ 63)%Z → Atoi (String c s) = (n, true).
Proof.
  intros Hc Hp Hn. assert ((match String c s with String "-" s => (true, s) | String "+" s => (false, s) | _ => (false, String c s) end)
    = (false, String c s)) as E.
  { destruct c as [[] [] [] [] [] [] [] []]; try done; by vm_compute in Hc. }
  unfold Atoi. rewrite E, Hp. simpl. by rewrite (proj2 (Z.leb_gt _ _)) by lia.
Qed.
Lemma Atoi_Itoa n : (- 2 ^ 63 ≤ n < 2 ^ 63)%Z → Atoi (Itoa n) = (n, true).
Proof.
  intros Hn. unfold Itoa. destruct n as [|p|p]; [done|..]; pose proof (parse_pretty p ltac:(lia)) as Hp.
  - change (pretty (Zpos p)) with (pretty (Npos p)). revert Hp. unfold pretty, pretty_N. rewrite decide_False by done.
    destruct (pretty_go_head (Npos p) "") as (d & s' & -> & Hd); [lia|]. intros Hp.
    eapply Atoi_unsigned; [by apply digit_value_char|done|lia].
  - change (Atoi (String "-" (pretty (Npos p))) = (Zneg p, true)). unfold Atoi. rewrite Hp. simpl.
    by rewrite (proj2 (Z.ltb_ge _ _)) by lia.
Qed.

(** [strings.Split(s, sep)] for a separator of one byte. *)
Fixpoint split_char (sep : ascii) (s : string) : list string :=
  match s with
  | EmptyString => [""]
  | String c s =>
      if bool_decide (c = sep) then "" :: split_char sep s
      else match split_char sep s with seg :: segs => String c seg :: segs | [] => [String c ""] end
  end.
Definition split_dots : string → list string := split_char "."%char.
