(* ===== verification/Json.v ===== *)
(** * JSON values and JSON text columns

    The Go code keeps conditions, obligation values and schemas as [any],
    filled by [json.Unmarshal]: [nil], [bool], [float64], [string], [[]any] or
    [map[string]any].  [json] is that type; equality on it is what
    [reflect.DeepEqual] decides on two unmarshalled values.  Numbers are only
    carried and compared, never computed with: [JNum] holds the 64-bit pattern
    of the [float64] (with -0 read as 0).

    A [longtext] column is modelled by what its text denotes: [TJson j] for
    text that [json.Unmarshal] reads as [j] (for instance the text
    [json.Marshal] writes for [j]), [TRaw s] for text that is not JSON. *)
From S2P Require Import Prelude.

#[warnings="-register-all"]
Inductive json : Type :=
| JNull
| JBool (b : bool)
| JNum (bits : Z)
| JStr (s : string)
| JArr (l : list json)
| JObj (m : gmap string json).

#[global] Instance json_eq_dec : EqDecision json.
Proof.
  refine (fix go (x y : json) {struct x} : Decision (x = y) :=
    let _ : EqDecision json := go in
    match x, y with
    | JNull, JNull => left eq_refl
    | JBool a, JBool b => cast_if (decide (a = b))
    | JNum a, JNum b => cast_if (decide (a = b))
    | JStr a, JStr b => cast_if (decide (a = b))
    | JArr a, JArr b => cast_if (decide (a = b))
    | JObj a, JObj b => cast_if (decide (a = b))
    | _, _ => right _
    end); try clear r; clear go; abstract congruence.
Defined.

Inductive text : Type :=
| TJson (j : json)
| TRaw (s : string).

#[global] Instance text_eq_dec : EqDecision text.
Proof. solve_decision. Defined.

(** [json.Marshal] of a value made of these types succeeds. *)
Definition marshal (j : json) : text := TJson j.

Definition json_syntax_error : gerror :=
  MkErr "json" "invalid JSON text" [].
Definition json_type_error : gerror :=
  MkErr "json" "json: cannot unmarshal value into Go value" [].

(** [json.Unmarshal(text, &m)] with [m : map[string]any]: JSON [null] leaves
    the nil map, which reads as the empty one. *)
Definition unmarshal_map (t : text) : outcome (gmap string json) :=
  match t with
  | TJson (JObj m) => Ok m
  | TJson JNull => Ok ∅
  | TJson _ => Err json_type_error
  | TRaw _ => Err json_syntax_error
  end.

(** [json.Unmarshal(text, &l)] with [l : []any]. *)
Definition unmarshal_slice (t : text) : outcome (list json) :=
  match t with
  | TJson (JArr l) => Ok l
  | TJson JNull => Ok []
  | TJson _ => Err json_type_error
  | TRaw _ => Err json_syntax_error
  end.

(** Type assertions [v.(T)] without the comma-ok form panic on a mismatch.  An
    absent map key reads as [nil], i.e. [JNull]. *)
Definition assert_slice (j : json) : outcome (list json) :=
  match j with JArr l => Ok l | _ => Panic "interface conversion: not []interface {}" end.
Definition assert_map (j : json) : outcome (gmap string json) :=
  match j with JObj m => Ok m | _ => Panic "interface conversion: not map[string]interface {}" end.
Definition assert_string (j : json) : outcome string :=
  match j with JStr s => Ok s | _ => Panic "interface conversion: not string" end.

Definition assert_bool (j : json) : outcome bool :=
  match j with JBool b => Ok b | _ => Panic "interface conversion: not bool" end.

Definition jget (m : gmap string json) (k : string) : json := default JNull (m !! k).

(** An object literal [map[string]any{...}]. *)
Definition jobj (l : list (string * json)) : json := JObj (list_to_map l).

(** * [float64] values of JSON numbers

    [encoding/json] and [jsoniter] read a number into a [float64]; the code
    writes an [int] and reads it back with [int(v.(float64))].  A [float64] is
    its 64-bit pattern, as in [JNum]. *)
Local Open Scope Z_scope.

(** The nearest [float64] of an integer, ties to even. *)
Definition float64_of_nonneg (n : Z) : Z :=
  if n =? 0 then 0
  else
    let e := Z.log2 n in
    if e <=? 52 then (e + 1023) * 2 ^ 52 + (n * 2 ^ (52 - e) - 2 ^ 52)
    else
      let q := n / 2 ^ (e - 52) in
      let r := n mod 2 ^ (e - 52) in
      let half := 2 ^ (e - 53) in
      let q' := if (half <? r) || ((half =? r) && Z.odd q) then q + 1 else q in
      (e + 1023) * 2 ^ 52 + (q' - 2 ^ 52).
Definition float64_of_int (n : Z) : Z :=
  if n <? 0 then 2 ^ 63 + float64_of_nonneg (- n) else float64_of_nonneg n.

(** [int(f)] truncates towards zero; a value out of range gives the most
    negative integer (amd64). *)
Definition int_of_float64 (bits : Z) : Z :=
  let neg := 2 ^ 63 <=? bits in
  let e := (bits / 2 ^ 52) mod 2 ^ 11 in
  let m := 2 ^ 52 + bits mod 2 ^ 52 in
  if e <? 1023 then 0
  else if 1086 <=? e then - 2 ^ 63
  else
    let v := if e <=? 1075 then m / 2 ^ (1075 - e) else m * 2 ^ (e - 1075) in
    if neg then - v else v.

Definition JInt (n : Z) : json := JNum (float64_of_int n).
(** [v.(float64)] *)
Definition assert_float64 (j : json) : outcome Z :=
  match j with JNum bits => Ok bits | _ => Panic "interface conversion: interface {} is not float64" end.
Definition assert_int (j : json) : outcome Z := bits ← assert_float64 j; Ok (int_of_float64 bits).

Lemma float64_bits e m : 0 ≤ m < 2 ^ 52 → 0 ≤ e < 2 ^ 11 →
  ((e * 2 ^ 52 + m) / 2 ^ 52) mod 2 ^ 11 = e ∧ (e * 2 ^ 52 + m) mod 2 ^ 52 = m.
Proof.
  intros Hm He. rewrite Z.div_add_l, Z.div_small, Z.add_0_r by lia. rewrite Z.mod_small by lia.
  rewrite Z.add_comm, Z.mod_add, Z.mod_small by lia. done.
Qed.
(** Integers below 2^53 survive. *)
Lemma int_float64 n : - 2 ^ 53 < n < 2 ^ 53 → int_of_float64 (float64_of_int n) = n.
Proof.
  intros Hn. unfold float64_of_int.
  assert (∀ k, 0 < k < 2 ^ 53 → ∃ e m, float64_of_nonneg k = (e + 1023) * 2 ^ 52 + m ∧ 0 ≤ e ≤ 52 ∧ 0 ≤ m < 2 ^ 52 ∧
            (2 ^ 52 + m) / 2 ^ (52 - e) = k) as Hk.
  { intros k Hk. unfold float64_of_nonneg. rewrite (proj2 (Z.eqb_neq _ _)) by lia.
    pose proof (Z.log2_spec k ltac:(lia)) as [Hl Hu]. pose proof (Z.log2_nonneg k).
    assert (Z.log2 k < 53) as Hlt by (apply Z.log2_lt_pow2; lia). set (e := Z.log2 k) in *.
    rewrite (proj2 (Z.leb_le _ _)) by lia. exists e, (k * 2 ^ (52 - e) - 2 ^ 52).
    assert (2 ^ e * 2 ^ (52 - e) = 2 ^ 52) as E by (rewrite <-Z.pow_add_r; [f_equal|..]; lia).
    assert (0 < 2 ^ (52 - e)) by (apply Z.pow_pos_nonneg; lia). rewrite Z.pow_succ_r in Hu by lia.
    pose proof (Z.mul_le_mono_nonneg_r _ _ (2 ^ (52 - e)) ltac:(lia) Hl). pose proof (proj1 (Z.mul_lt_mono_pos_r (2 ^ (52 - e)) k (2 * 2 ^ e) ltac:(lia)) ltac:(lia)).
    set (p := 2 ^ (52 - e)) in *. set (q := 2 ^ e) in *.
    split_and!; [done|lia..|]. rewrite Zplus_minus. apply Z.div_mul. lia. }
  unfold int_of_float64. destruct (Z.ltb_spec n 0) as [Hneg|Hpos].
  - destruct (Hk (- n)) as (e & m & -> & He & Hm & Hv); [lia|].
    replace (2 ^ 63 + ((e + 1023) * 2 ^ 52 + m)) with ((2048 + (e + 1023)) * 2 ^ 52 + m) by lia.
    rewrite (proj2 (Z.leb_le (2 ^ 63) _)) by lia. rewrite Z.div_add_l, Z.div_small, Z.add_0_r by lia.
    replace (2048 + (e + 1023)) with (e + 1023 + 1 * 2 ^ 11) by lia. rewrite Z.mod_add, Z.mod_small by lia.
    rewrite (Z.add_comm _ m), Z.mod_add, Z.mod_small by lia.
    rewrite (proj2 (Z.ltb_ge _ 1023)), (proj2 (Z.leb_gt 1086 _)), (proj2 (Z.leb_le _ 1075)) by lia.
    replace (1075 - (e + 1023)) with (52 - e) by lia. lia.
  - destruct (decide (n = 0)) as [->|]; [done|]. destruct (Hk n) as (e & m & -> & He & Hm & Hv); [lia|].
    destruct (float64_bits (e + 1023) m) as [-> ->]; [lia..|]. rewrite (proj2 (Z.leb_gt (2 ^ 63) _)) by lia.
    rewrite (proj2 (Z.ltb_ge _ 1023)), (proj2 (Z.leb_gt 1086 _)), (proj2 (Z.leb_le _ 1075)) by lia.
    replace (1075 - (e + 1023)) with (52 - e) by lia. done.
Qed.
Lemma assert_JInt n : - 2 ^ 53 < n < 2 ^ 53 → assert_int (JInt n) = Ok n.
Proof. intros Hn. unfold assert_int, JInt. simpl. by rewrite int_float64. Qed.
