(* ===== verification/Interfaces.v ===== *)
(** * Data types and service interfaces ([Authorization/interfaces])

    The structs of [interfaces/logics.go], [interfaces/dbaccess.go],
    [interfaces/drivenadapters.go] and [interfaces/misc.go] as records, and the
    Go interfaces through which the components call each other as classes of
    operations.  A class instance is the object a component holds: the
    operations of a database interface are those of the store at the time of
    the call.  Slices are lists ([nil] and the empty slice are the same list);
    integers that are only compared or stored are [Z]. *)
From S2P Require Import Prelude Json.

(** ** Enumerations *)

(** [AccessorType] is a Go [int] with named values; a column or a zero value
    may hold any other integer. *)
Abbreviation AccessorType := Z (only parsing).
Definition AccessorUser : AccessorType := 1%Z.
Definition AccessorDepartment : AccessorType := 2%Z.
Definition AccessorContactor : AccessorType := 3%Z.
Definition AccessorAnonymous : AccessorType := 4%Z.
Definition AccessorGroup : AccessorType := 5%Z.
Definition AccessorApp : AccessorType := 6%Z.
Definition AccessorGroupInternal : AccessorType := 7%Z.
Definition AccessorRole : AccessorType := 8%Z.

(** [VisitorUnknown] is the zero value, which a map of visitor types gives for
    a key it does not have. *)
Inductive VisitorType : Set := RealName | Anonymous | App | VisitorUnknown.
#[global] Instance VisitorType_eq_dec : EqDecision VisitorType.
Proof. solve_decision. Defined.

Inductive SystemRoleType : Set :=
| SuperAdmin | SystemAdmin | AuditAdmin | SecurityAdmin
| OrganizationAdmin | OrganizationAudit | NormalUser.
#[global] Instance SystemRoleType_eq_dec : EqDecision SystemRoleType.
Proof. solve_decision. Defined.

Inductive PolicCalcyIncludeType : Set := PolicCalcyIncludeOperationObligations.
#[global] Instance PolicCalcyIncludeType_eq_dec : EqDecision PolicCalcyIncludeType.
Proof. solve_decision. Defined.

Inductive PolicyIncludeType : Set := PolicyIncludeObligationType | PolicyIncludeObligation.

Inductive RoleSource : Set := RoleSourceNone | RoleSourceSystem | RoleSourceBusiness | RoleSourceUser.
#[global] Instance RoleSource_eq_dec : EqDecision RoleSource.
Proof. solve_decision. Defined.

(** ** Visitors and accessors

    The fields of [Visitor] and [UserInfo] that only logging and the HTTP
    layer read (token, address, client, account) are left out. *)
Record Visitor := { vis_ID : string; vis_Type : VisitorType; vis_Language : string }.
Record AccessorInfo := { acc_ID : string; acc_Type : VisitorType; acc_Name : string }.
Record Department := { dep_ID : string; dep_Name : string; dep_Type : string }.
Record UserInfo := { user_ID : string; user_VisionName : string; user_ParentDeps : list (list Department) }.
Record AppInfo := { app_ID : string; app_Name : string }.

(** ** Resources *)
Record Ancestor := { anc_ID : string; anc_Type : string; anc_Name : string }.
#[global] Instance Ancestor_eq_dec : EqDecision Ancestor.
Proof. solve_decision. Defined.

Record ResourceInfo := {
  res_ID : string; res_Type : string; res_Name : string;
  res_Ancestors : list Ancestor; res_CreatedBy : string
}.
#[global] Instance ResourceInfo_eq_dec : EqDecision ResourceInfo.
Proof. solve_decision. Defined.

Definition ScopeType : string := "type".
Definition ScopeInstance : string := "instance".

Record OperationName := { opn_Language : string; opn_Value : string }.
#[global] Instance OperationName_eq_dec : EqDecision OperationName.
Proof. solve_decision. Defined.
Record ResourceTypeOperation := {
  rto_ID : string; rto_Name : list OperationName; rto_Description : string; rto_Scope : list string
}.
#[global] Instance ResourceTypeOperation_eq_dec : EqDecision ResourceTypeOperation.
Proof. solve_decision. Defined.
Record ResourceType := {
  rt_ID : string; rt_Name : string; rt_Description : string; rt_InstanceURL : string;
  rt_DataStruct : string; rt_Operation : list ResourceTypeOperation; rt_Hidden : bool;
  rt_CreateTime : Z; rt_ModifyTime : Z
}.

(** A node of the hierarchy of resource types: [ResourceTypeID] and
    [Children]. *)
#[warnings="-register-all"]
Inductive ResourceTypeHierarchy : Type :=
| MkHierarchy (ResourceTypeID : string) (Children : list ResourceTypeHierarchy).
Definition rth_ResourceTypeID (h : ResourceTypeHierarchy) : string :=
  let '(MkHierarchy id _) := h in id.
Definition rth_Children (h : ResourceTypeHierarchy) : list ResourceTypeHierarchy :=
  let '(MkHierarchy _ children) := h in children.

(** The zero value, read from a map that has no entry for a type. *)
Definition ResourceType_zero : ResourceType :=
  {| rt_ID := ""; rt_Name := ""; rt_Description := ""; rt_InstanceURL := ""; rt_DataStruct := "";
     rt_Operation := []; rt_Hidden := false; rt_CreateTime := 0; rt_ModifyTime := 0 |}.

(** ** Policies *)
Record PolicyObligationItem := { obl_TypeID : string; obl_ID : string; obl_Value : json }.
#[global] Instance PolicyObligationItem_eq_dec : EqDecision PolicyObligationItem.
Proof. solve_decision. Defined.
Record PolicyOperationItem := { op_ID : string; op_Name : string; op_Obligations : list PolicyObligationItem }.
#[global] Instance PolicyOperationItem_eq_dec : EqDecision PolicyOperationItem.
Proof. solve_decision. Defined.
Record PolicyRuleItem := { rule_Condition : json; rule_Operations : list PolicyOperationItem }.
#[global] Instance PolicyRuleItem_eq_dec : EqDecision PolicyRuleItem.
Proof. solve_decision. Defined.
Record PolicyRules := { rules_Allow : list PolicyRuleItem; rules_Deny : list PolicyRuleItem }.
#[global] Instance PolicyRules_eq_dec : EqDecision PolicyRules.
Proof. solve_decision. Defined.

Record PolicyInfo := {
  pol_ID : string; pol_ResourceID : string; pol_ResourceType : string; pol_ResourceName : string;
  pol_Ancestors : list Ancestor; pol_HasAncestors : bool;
  pol_AccessorID : string; pol_AccessorType : AccessorType; pol_AccessorName : string;
  pol_ParentDeps : list (list Department);
  pol_Rules : PolicyRules; pol_Condition : string;
  pol_EndTime : Z; pol_CreateTime : Z; pol_ModifyTime : Z
}.

(** Assignments to single fields of a policy. *)
Definition pol_set_Rules (r : PolicyRules) (p : PolicyInfo) : PolicyInfo :=
  {| pol_ID := pol_ID p; pol_ResourceID := pol_ResourceID p; pol_ResourceType := pol_ResourceType p;
     pol_ResourceName := pol_ResourceName p; pol_Ancestors := pol_Ancestors p;
     pol_HasAncestors := pol_HasAncestors p; pol_AccessorID := pol_AccessorID p;
     pol_AccessorType := pol_AccessorType p; pol_AccessorName := pol_AccessorName p;
     pol_ParentDeps := pol_ParentDeps p; pol_Rules := r; pol_Condition := pol_Condition p;
     pol_EndTime := pol_EndTime p; pol_CreateTime := pol_CreateTime p; pol_ModifyTime := pol_ModifyTime p |}.

Definition pol_set_ParentDeps (d : list (list Department)) (p : PolicyInfo) : PolicyInfo :=
  {| pol_ID := pol_ID p; pol_ResourceID := pol_ResourceID p; pol_ResourceType := pol_ResourceType p;
     pol_ResourceName := pol_ResourceName p; pol_Ancestors := pol_Ancestors p;
     pol_HasAncestors := pol_HasAncestors p; pol_AccessorID := pol_AccessorID p;
     pol_AccessorType := pol_AccessorType p; pol_AccessorName := pol_AccessorName p;
     pol_ParentDeps := d; pol_Rules := pol_Rules p; pol_Condition := pol_Condition p;
     pol_EndTime := pol_EndTime p; pol_CreateTime := pol_CreateTime p; pol_ModifyTime := pol_ModifyTime p |}.

(** [policy.ID = id; policy.AccessorName = name] *)
Definition pol_set_ID_Name (id name : string) (p : PolicyInfo) : PolicyInfo :=
  {| pol_ID := id; pol_ResourceID := pol_ResourceID p; pol_ResourceType := pol_ResourceType p;
     pol_ResourceName := pol_ResourceName p; pol_Ancestors := pol_Ancestors p;
     pol_HasAncestors := pol_HasAncestors p; pol_AccessorID := pol_AccessorID p;
     pol_AccessorType := pol_AccessorType p; pol_AccessorName := name;
     pol_ParentDeps := pol_ParentDeps p; pol_Rules := pol_Rules p; pol_Condition := pol_Condition p;
     pol_EndTime := pol_EndTime p; pol_CreateTime := pol_CreateTime p; pol_ModifyTime := pol_ModifyTime p |}.

Record PolicyDeleteResourceInfo := { pdr_ID : string; pdr_Type : string }.
Record PolicyPagination := {
  pp_ResourceID : string; pp_ResourceType : string; pp_Offset : Z; pp_Limit : Z
}.
Record AccessorPolicyParam := {
  app_AccessorID : string; app_AccessorType : AccessorType; app_Offset : Z; app_Limit : Z;
  app_ResourceType : string; app_ResourceID : string; app_Include : list PolicyIncludeType
}.
Record ResourcePolicyPagination := {
  rpp_ResourceID : string; rpp_ResourceType : string; rpp_Offset : Z; rpp_Limit : Z;
  rpp_Include : list PolicyIncludeType
}.

(** ** Decisions *)
Record CheckResult := {
  Result : bool;
  OperatrionOblist : gmap string (list PolicyObligationItem)
}.

(** ** Roles *)
Record ResourceTypeScope := { rts_ResourceTypeID : string; rts_ResourceTypeName : string }.
#[global] Instance ResourceTypeScope_eq_dec : EqDecision ResourceTypeScope.
Proof. solve_decision. Defined.
(** [Types] is compared with [reflect.DeepEqual], which tells a nil slice
    ([None]) from an empty one. *)
Record ResourceTypeScopeInfo := { rtsi_Unlimited : bool; rtsi_Types : option (list ResourceTypeScope) }.
#[global] Instance ResourceTypeScopeInfo_eq_dec : EqDecision ResourceTypeScopeInfo.
Proof. solve_decision. Defined.
Record RoleInfo := {
  role_ID : string; role_Name : string; role_Description : string; role_Source : RoleSource;
  role_Scope : ResourceTypeScopeInfo; role_CreateTime : Z; role_ModifyTime : Z
}.
Definition RoleInfo_zero : RoleInfo :=
  {| role_ID := ""; role_Name := ""; role_Description := ""; role_Source := RoleSourceNone;
     role_Scope := {| rtsi_Unlimited := false; rtsi_Types := None |};
     role_CreateTime := 0; role_ModifyTime := 0 |}.
Record RoleMemberInfo := {
  rm_ID : string; rm_MemberType : AccessorType; rm_Name : string;
  rm_ParentDeps : list (list Department); rm_CreateTime : Z; rm_ModifyTime : Z
}.

Record ResourceTypeOperationResponse := { rtor_ID : string; rtor_Name : string; rtor_Description : string }.
#[warnings="-register-all"]
Inductive ResourceTypeScopeWithOperation : Type := MkScopeWithOperation {
  rtso_ID : string; rtso_Name : string; rtso_Description : string; rtso_InstanceURL : string;
  rtso_DataStruct : string; rtso_TypeOperation : list ResourceTypeOperationResponse;
  rtso_InstanceOperation : list ResourceTypeOperationResponse;
  rtso_Children : list ResourceTypeScopeWithOperation
}.
Record ResourceTypeScopeInfoWithOperation := {
  rtsw_Unlimited : bool; rtsw_Types : list ResourceTypeScopeWithOperation
}.
Record RoleInfoWithResourceTypeOperation := {
  riw_ID : string; riw_Name : string; riw_Description : string; riw_Source : RoleSource;
  riw_Scope : ResourceTypeScopeInfoWithOperation; riw_CreateTime : Z; riw_ModifyTime : Z
}.
Definition ResourceTypeViewModeFlat : string := "flat".
Definition ResourceTypeViewModeHierarchy : string := "hierarchy".

Record RoleSearchInfo := {
  rs_Offset : Z; rs_Limit : Z; rs_Keyword : string; rs_RoleSources : list RoleSource
}.
Record AccessorRoleSearchInfo := {
  ars_AccessorID : string; ars_AccessorType : AccessorType; ars_Offset : Z; ars_Limit : Z;
  ars_RoleSources : list RoleSource
}.
Record ResourceTypeRoleSearchInfo := {
  rtr_Offset : Z; rtr_Limit : Z; rtr_Keyword : string; rtr_ResourceTypeID : string
}.
Record RoleMemberSearchInfo := {
  rms_Offset : Z; rms_Limit : Z; rms_MemberTypes : list AccessorType; rms_Keyword : string
}.

(** ** Obligations *)
Record ObligationOperation := { oop_ID : string; oop_Name : string }.
#[global] Instance ObligationOperation_eq_dec : EqDecision ObligationOperation.
Proof. solve_decision. Defined.
Record ObligationOperationsScopeInfo := { oos_Unlimited : bool; oos_Operations : list ObligationOperation }.
#[global] Instance ObligationOperationsScopeInfo_eq_dec : EqDecision ObligationOperationsScopeInfo.
Proof. solve_decision. Defined.
Record ObligationResourceTypeScope := {
  ors_ResourceTypeID : string; ors_ResourceTypeName : string;
  ors_OperationsScope : ObligationOperationsScopeInfo
}.
#[global] Instance ObligationResourceTypeScope_eq_dec : EqDecision ObligationResourceTypeScope.
Proof. solve_decision. Defined.
Record ObligationResourceTypeScopeInfo := {
  orsi_Unlimited : bool; orsi_Types : list ObligationResourceTypeScope
}.
#[global] Instance ObligationResourceTypeScopeInfo_eq_dec : EqDecision ObligationResourceTypeScopeInfo.
Proof. solve_decision. Defined.
Record ObligationTypeInfo := {
  ot_ID : string; ot_Name : string; ot_Description : string;
  ot_ResourceTypeScope : ObligationResourceTypeScopeInfo;
  ot_Schema : json; ot_DefaultValue : json; ot_UiSchema : json;
  ot_CreatedTime : Z; ot_ModifyTime : Z
}.
Record ObligationInfo := {
  ob_ID : string; ob_TypeID : string; ob_Name : string; ob_Description : string; ob_Value : json;
  ob_CreatedTime : Z; ob_ModifyTime : Z
}.
Record PolicyIncludeResp := {
  pir_ObligationTypes : list ObligationTypeInfo; pir_Obligations : list ObligationInfo
}.

(** ** Interfaces between the components

    Each class holds the operations of the Go interface of the same name that
    the modelled callers use. *)

(** The user-management service, reached over HTTP. *)
Class DrivenUserMgnt := {
  GetUserRolesByUserID : string → outcome (list SystemRoleType);
  GetNameByAccessorIDs : gmap string AccessorType → outcome (gmap string string);
  BatchGetUserInfoByID : list string → outcome (gmap string UserInfo);
  GetAccessorIDsByUserID : string → outcome (list string);
  GetParentDepartmentsByDepartmentID : string → outcome (list Department)
}.

(** The third-party evaluator of conditions,
    [jsonlogic.ApplyInterface(rule, data)]; [None] is its error return. *)
Class JsonLogic := {
  ApplyInterface : json → gmap string json → option json
}.

Class DBPolicyCalc := {
  GetPoliciesByResourcesAndAccessToken : list ResourceInfo → list string → outcome (list PolicyInfo);
  GetPoliciesByResourceTypeAndAccessToken : string → list string → outcome (list PolicyInfo);
  GetPoliciesByResourceTypes : list string → list string → outcome (list PolicyInfo)
}.

Class LogicsRole := {
  GetRoleByMembers : list string → outcome (list RoleInfo);
  GetRolesByIDs : list string → outcome (gmap string RoleInfo)
}.

Class LogicsResourceType := {
  GetByIDsInternal : list string → outcome (gmap string ResourceType);
  GetAllInternal : outcome (list ResourceType)
}.

Class LogicsResourceTypeHierarchy := {
  HasHierarchy : string → outcome bool;
  Hierarchy_GetAll : outcome (gmap string ResourceTypeHierarchy);
  Hierarchy_Get : string → outcome ResourceTypeHierarchy
}.

(** [GetByIDSInternal] of the obligation service returns either obligations or
    an error; it has no type assertion or index that could panic. *)
Class LogicsObligation := {
  Obligation_GetByIDSInternal : gmap string bool → gerror + list ObligationInfo
}.

Class LogicsObligationType := {
  ObligationType_GetByIDSInternal : gmap string bool → outcome (list ObligationTypeInfo)
}.

Class LogicsPolicyCalc := {
  CheckAccess : ResourceInfo → AccessorInfo → list string → list PolicCalcyIncludeType →
                outcome CheckResult
}.

(** ** Error codes ([go-lib/error], [error/error.go]) *)
Definition PublicBadRequest : string := "Public.BadRequest".
Definition PublicForbidden : string := "Public.Forbidden".
Definition PublicNotFound : string := "Public.NotFound".
Definition RoleNameConflict : string := "Authorization.Conflict.RoleNameConflict".
Definition RoleNotFound : string := "Authorization.NotFound.RoleNotFound".
Definition NewError (code desc : string) : gerror := MkErr code desc [].

Definition rootDepID : string := "00000000-0000-0000-0000-000000000000".
