(* ===== verification/Common.v ===== *)
(** * Shared helpers ([Authorization/common], [Authorization/logics/common.go])

    De-duplication of id slices, the role check every administrative entry
    point starts with, the end-time check and memory pagination. *)
From Stdlib Require Import Ascii.
From S2P Require Import Prelude Json Interfaces.

(** ** De-duplication ([common/slices.go]) *)
Definition distinctSmallSlice (slice : list string) : list string :=
  foldl (λ result v, if bool_decide (v ∈ result) then result else result ++ [v]) [] slice.

Definition distinctLargeSlice (slice : list string) : list string :=
  (foldl (λ acc v,
     let '(seen, result) := acc in
     if mget seen v then (seen, result) else (<[v := true]> seen, result ++ [v]))
    (∅, []) slice).2.

Definition Distinct (slice : list string) : list string :=
  if (length slice <? 2)%nat then slice
  else if (length slice <? 10)%nat then distinctSmallSlice slice
  else distinctLargeSlice slice.

(** ** Languages and messages ([common/i18n.go]) *)
Definition simplifiedChinese : string := "zh-cn".
Definition traditionalChinese : string := "zh-tw".
Definition americanEnglish : string := "en-us".

(** The messages of one id by language; an unknown language reads [""]. *)
Definition i18n_Load (messages : gmap string string) (language : string) : string :=
  default "" (messages !! ToLower language).
Definition i18nRoleNotFound : gmap string string :=
  list_to_map [(simplifiedChinese, "角色不存在"); (traditionalChinese, "角色不存在");
               (americanEnglish, "The Role does not exist.")].
Definition i18nAccessorRoleNotFound : gmap string string := i18nRoleNotFound.

(** ** Who may administer ([logics/common.go]) *)
Definition checkVisitorType (visitor : Visitor) (roleTypes : list SystemRoleType)
    (acceptVisitorTypes : list VisitorType) (acceptRoleTypes : list SystemRoleType) : outcome unit :=
  let isVisitorTypePass :=
    foldl (λ b val, if bool_decide (vis_Type visitor = val) then true else b) false acceptVisitorTypes in
  _ ← fail_if (negb isVisitorTypePass) (NewError PublicForbidden "Unsupported user type");
  if bool_decide (vis_Type visitor = RealName) then
    let isRoleTypePass :=
      foldl (λ b roleType,
        foldl (λ b val, if bool_decide (roleType = val) then true else b) b acceptRoleTypes)
        false roleTypes in
    fail_if (negb isRoleTypePass) (NewError PublicForbidden "Unsupported user role type")
  else Ok tt.

(** [checkEndTime]; [curTime] is the microsecond clock it reads. *)
Definition checkEndTime (curTime endTime : Z) : outcome unit :=
  fail_if (negb (endTime =? -1)%Z && (endTime <=? curTime)%Z)
    (NewError PublicBadRequest
       "The expiration time of permission cannot be earlier than the current time").

(** ** Pagination ([logics/policy.go])

    [list[start:end]] panics when its bounds are not [0 <= start <= end <= len];
    the addition is on 64-bit integers. *)
Definition go_slice {T : Type} (l : list T) (start stop : Z) : outcome (list T) :=
  if ((0 <=? start) && (start <=? stop) && (stop <=? Z.of_nat (length l)))%Z
  then Ok (take (Z.to_nat (stop - start)) (drop (Z.to_nat start) l))
  else Panic "slice bounds out of range".

Definition applyPagination {T : Type} (l : list T) (offset limit : Z) : outcome (list T) :=
  if (limit =? -1)%Z then Ok l
  else
    let n := Z.of_nat (length l) in
    if (n =? 0)%Z || (n <=? offset)%Z then Ok []
    else
      let start := offset in
      let stop := int64_wrap (offset + limit) in
      let stop := if (n <? stop)%Z then n else stop in
      go_slice l start stop.

(** ** The reference for de-duplication: keep the first occurrence *)
Fixpoint first_occurrences (seen l : list string) : list string :=
  match l with
  | [] => []
  | x :: l => if bool_decide (x ∈ seen) then first_occurrences seen l
              else x :: first_occurrences (x :: seen) l
  end.

Lemma first_occurrences_ext s1 s2 l :
  (∀ x, x ∈ s1 ↔ x ∈ s2) → first_occurrences s1 l = first_occurrences s2 l.
Proof.
  revert s1 s2. induction l as [|x l IH]; intros s1 s2 Hs; simpl; [done|].
  rewrite (bool_decide_ext _ _ (Hs x)). case_bool_decide; [by apply IH|].
  f_equal. apply IH. set_solver.
Qed.

Lemma distinctSmallSlice_acc l acc :
  foldl (λ result v, if bool_decide (v ∈ result) then result else result ++ [v]) acc l
  = acc ++ first_occurrences acc l.
Proof.
  revert acc. induction l as [|x l IH]; intros acc; simpl; [by rewrite app_nil_r|].
  rewrite IH. case_bool_decide; [done|].
  rewrite <-app_assoc. simpl. do 2 f_equal. apply first_occurrences_ext. set_solver.
Qed.

Lemma distinctLargeSlice_acc l seen acc s :
  (∀ x, mget seen x = true ↔ x ∈ s) →
  (foldl (λ acc v,
     let '(seen, result) := acc in
     if mget seen v then (seen, result) else (<[v := true]> seen, result ++ [v]))
    (seen, acc) l).2 = acc ++ first_occurrences s l.
Proof.
  revert seen acc s. induction l as [|x l IH]; intros seen acc s Hs; simpl; [by rewrite app_nil_r|].
  destruct (mget seen x) eqn:E.
  - rewrite bool_decide_true by (by apply Hs). by apply IH.
  - rewrite bool_decide_false by (rewrite <-Hs; congruence).
    rewrite (IH _ _ (x :: s)); [by rewrite <-app_assoc|].
    intros y. rewrite mget_insert, orb_true_iff, bool_decide_eq_true, Hs. set_solver.
Qed.

Lemma distinctSmallSlice_spec l : distinctSmallSlice l = first_occurrences [] l.
Proof. unfold distinctSmallSlice. by rewrite distinctSmallSlice_acc. Qed.

Lemma distinctLargeSlice_spec l : distinctLargeSlice l = first_occurrences [] l.
Proof.
  unfold distinctLargeSlice. rewrite (distinctLargeSlice_acc _ _ _ []); [done|].
  intros x. rewrite mget_empty. set_solver.
Qed.

Lemma Distinct_spec l : Distinct l = first_occurrences [] l.
Proof.
  unfold Distinct. destruct (Nat.ltb_spec (length l) 2) as [Hl|].
  - destruct l as [|x [|y l]]; simpl in *; [done|done|lia].
  - case_match; [apply distinctSmallSlice_spec | apply distinctLargeSlice_spec].
Qed.

Lemma elem_of_first_occurrences s l x : x ∈ first_occurrences s l ↔ x ∈ l ∧ x ∉ s.
Proof.
  revert s. induction l as [|y l IH]; intros s; simpl; [set_solver|].
  destruct (decide (y ∈ s)) as [Hy|Hy].
  - rewrite bool_decide_true by done. rewrite IH. set_solver.
  - rewrite bool_decide_false by done. rewrite elem_of_cons, IH.
    destruct (decide (x = y)); set_solver.
Qed.

Lemma NoDup_first_occurrences s l : NoDup (first_occurrences s l).
Proof.
  revert s. induction l as [|y l IH]; intros s; simpl; [constructor|].
  case_bool_decide; [done|]. constructor; [|done].
  rewrite elem_of_first_occurrences. set_solver.
Qed.

Lemma first_occurrences_sublist s l : first_occurrences s l `sublist_of` l.
Proof.
  revert s. induction l as [|y l IH]; intros s; simpl; [done|].
  case_bool_decide; by constructor.
Qed.

Lemma elem_of_Distinct l x : x ∈ Distinct l ↔ x ∈ l.
Proof. rewrite Distinct_spec, elem_of_first_occurrences. set_solver. Qed.
#[export] Hint Rewrite elem_of_Distinct : isf.

(** ** Facts used by the callers *)
Lemma foldl_any {A} (P : A → Prop) `{∀ a, Decision (P a)} (l : list A) b :
  foldl (λ b a, if bool_decide (P a) then true else b) b l = b || existsb (λ a, bool_decide (P a)) l.
Proof.
  revert b. induction l as [|a l IH]; intros b; simpl; [by rewrite orb_false_r|].
  rewrite IH. by destruct (bool_decide (P a)), b.
Qed.

Lemma foldl_any2 {A B} (R : A → B → Prop) `{∀ a b, Decision (R a b)} (la : list A) (lb : list B) b0 :
  foldl (λ b a, foldl (λ b v, if bool_decide (R a v) then true else b) b lb) b0 la = true ↔
  b0 = true ∨ ∃ a v, a ∈ la ∧ v ∈ lb ∧ R a v.
Proof.
  revert b0. induction la as [|a la IH]; intros b0; simpl; [set_solver|].
  rewrite IH, foldl_any, orb_true_iff, existsb_exists.
  setoid_rewrite <-list_elem_of_In. setoid_rewrite bool_decide_eq_true. set_solver.
Qed.

(** The visitors that pass the check of the administrative interfaces. *)
Lemma checkVisitorType_admin visitor roleTypes roles :
  checkVisitorType visitor roleTypes [RealName] roles = Ok tt ↔
  vis_Type visitor = RealName ∧ ∃ r, r ∈ roleTypes ∧ r ∈ roles.
Proof.
  unfold checkVisitorType. cbn [foldl]. destruct (vis_Type visitor); simpl.
  - rewrite fail_if_Ok, negb_false_iff, (foldl_any2 (λ a b : SystemRoleType, a = b)). naive_solver.
  - naive_solver.
  - naive_solver.
  - naive_solver.
Qed.

Lemma checkEndTime_Ok now t : checkEndTime now t = Ok tt ↔ t = (-1)%Z ∨ (now < t)%Z.
Proof. unfold checkEndTime. rewrite fail_if_Ok. lia. Qed.

(** A page of a list, for the offsets and limits a handler lets through. *)
Lemma applyPagination_page {T} (l : list T) offset limit :
  (0 ≤ offset)%Z → (0 ≤ limit)%Z → (offset + limit < 2 ^ 63)%Z →
  applyPagination l offset limit = Ok (take (Z.to_nat limit) (drop (Z.to_nat offset) l)).
Proof.
  intros Ho Hl Hs. unfold applyPagination.
  rewrite (proj2 (Z.eqb_neq _ _)) by lia. rewrite int64_wrap_small by lia.
  destruct ((_ =? 0)%Z || _)%bool eqn:E.
  - rewrite drop_ge by lia. by rewrite take_nil.
  - unfold go_slice. destruct (Z.ltb_spec (Z.of_nat (length l)) (offset + limit)).
    + rewrite !(proj2 (Z.leb_le _ _)) by lia. simpl. f_equal.
      rewrite !take_ge by (rewrite length_drop; lia). done.
    + rewrite !(proj2 (Z.leb_le _ _)) by lia. simpl. do 2 f_equal. lia.
Qed.

Lemma go_slice_Ok {T} (l : list T) start stop :
  (0 ≤ start ≤ stop)%Z → (stop ≤ Z.of_nat (length l))%Z →
  go_slice l start stop = Ok (take (Z.to_nat (stop - start)) (drop (Z.to_nat start) l)).
Proof. intros ? ?. unfold go_slice. by rewrite !(proj2 (Z.leb_le _ _)) by lia. Qed.
