(* ===== verification/PolicyCalc.v ===== *)
(** * Policy decision ([Authorization/logics/policy_calc.go])

    [Check], [GetResourceList], [ResourceFilter], [GetResourceOperation] and
    [GetResourceTypeOperation]: which operations an accessor may perform on a
    resource, with the obligations attached to them.  The component reads the
    policies through [DBPolicyCalc], the accessor's organisation and roles
    through [DrivenUserMgnt] and [LogicsRole], obligations through
    [LogicsObligation], and evaluates conditions with [JsonLogic].

    Log lines are left out; everything else is translated statement by
    statement.  The [nil] data map is [None]. *)
From S2P Require Import Prelude Json Interfaces Common.

(** ** Constants *)
Definition superAdminRoleID : string := "7dcfcc9c-ad02-11e8-aa06-000c29358ad6".
Definition systemAdminRoleID : string := "d2bd2082-ad03-11e8-aa06-000c29358ad6".
Definition securityAdminRoleID : string := "d8998f72-ad03-11e8-aa06-000c29358ad6".
Definition auditAdminRoleID : string := "def246f2-ad03-11e8-aa06-000c29358ad6".
Definition organizationAdminRoleID : string := "e63e1c88-ad03-11e8-aa06-000c29358ad6".
Definition organizationAuditRoleID : string := "f06ac18e-ad03-11e8-aa06-000c29358ad6".
Definition rootDepObligationPriority : Z := 5.

(** The map [obligationPriority] of [NewPolicyCalc]; an absent type reads 0. *)
Definition obligationPriority (t : AccessorType) : Z :=
  if decide (t = AccessorUser) then 1
  else if decide (t = AccessorApp) then 1
  else if decide (t = AccessorRole) then 2
  else if decide (t = AccessorGroup) then 3
  else if decide (t = AccessorDepartment) then 4
  else 0.

Record policyObligationCalcItem := { ci_item : PolicyObligationItem; ci_priority : Z }.
#[global] Instance policyObligationCalcItem_eq_dec : EqDecision policyObligationCalcItem.
Proof. solve_decision. Defined.

Record resourcePerm := {
  rp_allow : gmap string (list policyObligationCalcItem);
  rp_deny : gmap string bool
}.
Definition resourcePerm_zero : resourcePerm := {| rp_allow := ∅; rp_deny := ∅ |}.

(** [isConditionEmpty] of [logics/policy.go]. *)
Definition isConditionEmpty (c : json) : bool :=
  match c with
  | JNull => true
  | JObj m => bool_decide (m = ∅)
  | _ => false
  end.

Definition createAncestorsResource (resource : ResourceInfo) : list ResourceInfo :=
  foldl (λ resources ancestor,
    resources ++ [{| res_ID := anc_ID ancestor +:+ "/*"; res_Type := res_Type resource;
                     res_Name := ""; res_Ancestors := []; res_CreatedBy := "" |}])
    [] (res_Ancestors resource) ++ [resource].

Definition makeDataInfo (dataMap : gmap string json) (resource : ResourceInfo) (accessor : AccessorInfo)
  : gmap string json :=
  let dataMap := <["accessor" := jobj [("id", JStr (acc_ID accessor))]]> dataMap in
  if bool_decide (res_CreatedBy resource = "") then dataMap
  else <["resource" := jobj [("created_by", jobj [("id", JStr (res_CreatedBy resource))])]]> dataMap.

(** The system role id appended for a role type of the user-management
    service. *)
Definition systemRoleID (t : SystemRoleType) : option string :=
  match t with
  | SuperAdmin => Some superAdminRoleID
  | SystemAdmin => Some systemAdminRoleID
  | SecurityAdmin => Some securityAdminRoleID
  | AuditAdmin => Some auditAdminRoleID
  | OrganizationAdmin => Some organizationAdminRoleID
  | OrganizationAudit => Some organizationAuditRoleID
  | NormalUser => None
  end.

Definition checkOperationScope (resourceID operationID : string)
    (typeOperationMap instanceOperationMap : gmap string bool) : bool :=
  if bool_decide (resourceID = "*") then mget typeOperationMap operationID
  else mget instanceOperationMap operationID.

Definition getTypeAndInstanceOperation (resourceType : ResourceType)
  : gmap string bool * gmap string bool :=
  foldl (λ acc operation,
    foldl (λ acc scope,
      let '(typeOperationMap, instanceOperationMap) := acc in
      if bool_decide (scope = ScopeType) then (<[rto_ID operation := true]> typeOperationMap, instanceOperationMap)
      else if bool_decide (scope = ScopeInstance) then (typeOperationMap, <[rto_ID operation := true]> instanceOperationMap)
      else acc)
      acc (rto_Scope operation))
    (∅, ∅) (rt_Operation resourceType).

(** ** One level of the hierarchy *)
Section condition.
Context `{JsonLogic}.

(** [None] is the error return. *)
Definition checkCondition (condition : json) (data : option (gmap string json)) : option bool :=
  match data with
  | None => Some false
  | Some data =>
      match ApplyInterface condition data with
      | None => None
      | Some (JBool b) => Some b
      | Some _ => Some false
      end
  end.

(** The guard at the head of both rule loops: a non-empty condition must
    hold; an evaluation error counts as not holding. *)
Definition rule_applies (data : option (gmap string json)) (v : PolicyRuleItem) : bool :=
  if negb (isConditionEmpty (rule_Condition v))
  then default false (checkCondition (rule_Condition v) data)
  else true.

Definition calcItems (p : PolicyInfo) (ope : PolicyOperationItem) : list policyObligationCalcItem :=
  (λ obl, {| ci_item := obl;
             ci_priority := if bool_decide (pol_AccessorID p = rootDepID)
                            then rootDepObligationPriority
                            else obligationPriority (pol_AccessorType p) |})
    <$> op_Obligations ope.

Definition calcDeny (data : option (gmap string json)) (policies : list PolicyInfo) : gmap string bool :=
  foldl (λ denyMap p,
    foldl (λ denyMap v,
      if rule_applies data v
      then foldl (λ denyMap ope, <[op_ID ope := true]> denyMap) denyMap (rule_Operations v)
      else denyMap)
      denyMap (rules_Deny (pol_Rules p)))
    ∅ policies.

Definition calcAllow (data : option (gmap string json)) (denyMap : gmap string bool)
    (policies : list PolicyInfo) : gmap string (list policyObligationCalcItem) :=
  foldl (λ allowMap p,
    foldl (λ allowMap v,
      if rule_applies data v
      then foldl (λ allowMap ope,
             if mget denyMap (op_ID ope) then allowMap
             else mappend (op_ID ope) (calcItems p ope) allowMap)
             allowMap (rule_Operations v)
      else allowMap)
      allowMap (rules_Allow (pol_Rules p)))
    ∅ policies.

Definition calcOneResourcePerm (data : option (gmap string json)) (policies : list PolicyInfo)
  : resourcePerm :=
  if bool_decide (policies = []) then resourcePerm_zero
  else
    let denyMap := calcDeny data policies in
    {| rp_allow := calcAllow data denyMap policies; rp_deny := denyMap |}.
End condition.

(** ** Inheritance *)
Record inherited := {
  in_allow : gmap string bool;
  in_deny : gmap string bool;
  in_obl : gmap string (list policyObligationCalcItem)
}.
Definition inherited_zero : inherited := {| in_allow := ∅; in_deny := ∅; in_obl := ∅ |}.

(** [resources[len(resources)-1].ID], or [""] *)
Definition lastResourceID (resources : list ResourceInfo) : string :=
  match last resources with Some r => res_ID r | None => "" end.

Section inherit.
Context `{GoRuntime}.
Implicit Types (resourcePermMap : gmap string resourcePerm).

Definition inherit_deny (acc : inherited) (v : string) : inherited :=
  if negb (mget (in_deny acc) v) && negb (mget (in_allow acc) v)
  then {| in_allow := in_allow acc; in_deny := <[v := true]> (in_deny acc); in_obl := in_obl acc |}
  else acc.

Definition inherit_allow (acc : inherited) (kv : string * list policyObligationCalcItem) : inherited :=
  let '(v, value) := kv in
  let acc := if negb (mget (in_deny acc) v)
             then {| in_allow := in_allow acc; in_deny := in_deny acc;
                     in_obl := mappend v value (in_obl acc) |}
             else acc in
  if negb (mget (in_deny acc) v) && negb (mget (in_allow acc) v)
  then {| in_allow := <[v := true]> (in_allow acc); in_deny := in_deny acc; in_obl := in_obl acc |}
  else acc.

(** The body of [for _, id := range resourceIDs]. *)
Definition inherit_level resourcePermMap (acc : inherited) (id : string) : inherited :=
  let rp := default resourcePerm_zero (resourcePermMap !! id) in
  let acc := foldl inherit_deny acc (range 1 (rp_deny rp)).*1 in
  foldl inherit_allow acc (range 2 (rp_allow rp)).

(** [resourceIDs := make([]string, len(resources))] starts with as many empty
    strings as there are resources; the ids are appended after them. *)
Definition levelIDs (resources : list ResourceInfo) (star : string) : list string :=
  replicate (length resources) "" ++ reverse (res_ID <$> resources) ++
  (if bool_decide (lastResourceID resources = "*") then [] else [star]).

Definition calcResourceInheritedOperation (resources : list ResourceInfo) resourcePermMap : inherited :=
  foldl (inherit_level resourcePermMap) inherited_zero (levelIDs resources "*").

Definition calcResourceInheritedOperationEx (resources : list ResourceInfo) resourcePermMap : inherited :=
  foldl (inherit_level resourcePermMap) inherited_zero
    (levelIDs resources (lastResourceID resources +:+ "_*")).
End inherit.

(** ** Obligations *)
Section obligations.
Context `{GoRuntime} `{LogicsObligation}.

Definition less_priority (a b : policyObligationCalcItem) : bool := (ci_priority a <? ci_priority b)%Z.

(** The loop that keeps, per obligation type, the first item of the sorted
    slice; it also collects the obligation ids. *)
Definition pickObligations (obligations : list policyObligationCalcItem) (obligationMap : gmap string bool)
  : gmap string PolicyObligationItem * gmap string bool :=
  foldl (λ acc obligation,
    let '(rTmp, obligationMap) := acc in
    let item := ci_item obligation in
    match rTmp !! obl_TypeID item with
    | Some _ => acc
    | None =>
        (<[obl_TypeID item := item]> rTmp,
         if bool_decide (obl_ID item = "") then obligationMap
         else <[obl_ID item := true]> obligationMap)
    end)
    (∅, obligationMap) obligations.

(** One iteration of the loop over [allowMapWithObligation]. *)
Definition pickForOperation
    (acc : gmap string (list PolicyObligationItem) * gmap string bool)
    (kv : string * list policyObligationCalcItem) :=
  let '(result, obligationMap) := acc in
  let '(v, obligations) := kv in
  let obligations := sort_slice less_priority obligations in
  let '(rTmp, obligationMap) := pickObligations obligations obligationMap in
  (<[v := (range 4 rTmp).*2]> result, obligationMap).

(** The last loop: an obligation given by id takes the stored value, and is
    dropped when it no longer exists. *)
Definition fillObligation (infos : gmap string ObligationInfo)
    (tmp : gmap string (list PolicyObligationItem)) (kv : string * list PolicyObligationItem) :=
  let '(operation, oblist) := kv in
  foldl (λ tmp ob,
    if bool_decide (obl_ID ob = "") then mappend operation [ob] tmp
    else match infos !! obl_ID ob with
         | Some info =>
             mappend operation [{| obl_TypeID := obl_TypeID ob; obl_ID := obl_ID ob;
                                   obl_Value := ob_Value info |}] tmp
         | None => tmp
         end)
    tmp oblist.

Definition calcObligationWithPriority
    (allowMapWithObligation : gmap string (list policyObligationCalcItem))
  : gmap string (list PolicyObligationItem) :=
  let '(result, obligationMap) :=
    foldl pickForOperation (∅, ∅) (range 3 allowMapWithObligation) in
  if bool_decide (obligationMap = ∅) then result
  else match Obligation_GetByIDSInternal obligationMap with
       | inr obligations =>
           let obligationInfMap := foldl (λ m v, <[ob_ID v := v]> m) ∅ obligations in
           foldl (fillObligation obligationInfMap) ∅ (range 5 result)
       | inl _ => result
       end.
End obligations.

(** ** The service *)
Section policyCalc.
Context `{GoRuntime} `{DrivenUserMgnt} `{JsonLogic} `{DBPolicyCalc} `{LogicsRole}
  `{LogicsResourceType} `{LogicsObligation}.

Definition getAccessorIDs (accessor : AccessorInfo) : outcome (list string) :=
  accessTokens ← match acc_Type accessor with
    | RealName => ids ← GetAccessorIDsByUserID (acc_ID accessor); Ok (ids ++ [rootDepID])
    | App => Ok [acc_ID accessor]
    | _ => Ok []
    end;
  roles ← GetRoleByMembers accessTokens;
  let accessTokens := foldl (λ toks r, toks ++ [role_ID r]) accessTokens roles in
  accessTokens ← match acc_Type accessor with
    | RealName =>
        roleTypes ← GetUserRolesByUserID (acc_ID accessor);
        Ok (foldl (λ toks t, match systemRoleID t with Some id => toks ++ [id] | None => toks end)
              accessTokens roleTypes)
    | _ => Ok accessTokens
    end;
  Ok (Distinct accessTokens).

(** [for resourceID, policies := range policyMap { ... calcOneResourcePerm }] *)
Definition permOfGroups (site : nat) (data : string → option (gmap string json))
    (policyMap : gmap string (list PolicyInfo)) (m : gmap string resourcePerm) : gmap string resourcePerm :=
  foldl (λ m kv, let '(resourceID, policies) := kv in
    if bool_decide (policies = []) then m
    else <[resourceID := calcOneResourcePerm (data resourceID) policies]> m)
    m (range site policyMap).

(** [denyMap[v] || !allowMap[v]] for some requested operation. *)
Definition refused (inh : inherited) (operation : list string) : bool :=
  existsb (λ v, mget (in_deny inh) v || negb (mget (in_allow inh) v)) operation.

Definition includesObligations (include : list PolicCalcyIncludeType) : bool :=
  bool_decide (PolicCalcyIncludeOperationObligations ∈ include).

(** [Check] *)
Definition policyCalc_Check (resource : ResourceInfo) (accessor : AccessorInfo)
    (operation : list string) (include : list PolicCalcyIncludeType) : outcome CheckResult :=
  accessTokens ← getAccessorIDs accessor;
  let resources := createAncestorsResource resource in
  policies ← GetPoliciesByResourcesAndAccessToken resources accessTokens;
  let policyMap := group_by pol_ResourceID policies in
  let dataMap := if bool_decide (res_ID resource = "*") then None
                 else Some (makeDataInfo ∅ resource accessor) in
  let resourcePermMap := permOfGroups 6 (λ _, dataMap) policyMap ∅ in
  let inh := calcResourceInheritedOperation resources resourcePermMap in
  if refused inh operation then Ok {| Result := false; OperatrionOblist := ∅ |}
  else Ok {| Result := true;
             OperatrionOblist := if includesObligations include
                                 then calcObligationWithPriority (in_obl inh) else ∅ |}.

(** [GetResourceList] *)
Definition policyCalc_GetResourceList (resourceTypeID : string) (accessor : AccessorInfo)
    (operation : list string) (include : list PolicCalcyIncludeType)
  : outcome (list ResourceInfo * gmap string (gmap string (list PolicyObligationItem))) :=
  accessTokens ← getAccessorIDs accessor;
  policies ← GetPoliciesByResourceTypeAndAccessToken resourceTypeID accessTokens;
  let policyMap := group_by pol_ResourceID policies in
  let resourcesAncestorsMap : gmap string (list Ancestor) :=
    foldl (λ m p, <[pol_ResourceID p := pol_Ancestors p]> m) ∅ policies in
  let resourcePermMap := permOfGroups 7 (λ _, None) policyMap ∅ in
  let allResources := (λ kv : string * resourcePerm, {| res_ID := kv.1; res_Type := ""; res_Name := "";
                                 res_Ancestors := []; res_CreatedBy := "" |})
                        <$> range 8 resourcePermMap in
  Ok (foldl (λ acc resource,
    let '(resources, oblMap) := acc in
    let resourceSingle := {| res_ID := res_ID resource; res_Type := resourceTypeID; res_Name := "";
      res_Ancestors := default [] (resourcesAncestorsMap !! res_ID resource); res_CreatedBy := "" |} in
    let inh := calcResourceInheritedOperation (createAncestorsResource resourceSingle) resourcePermMap in
    if refused inh operation then acc
    else (resources ++ [resource],
          if includesObligations include
          then <[res_ID resource := calcObligationWithPriority (in_obl inh)]> oblMap else oblMap))
    ([], ∅) allResources).

(** The part [ResourceFilter] and [GetResourceOperation] share: the ancestor
    lists and data of the requested resources by id, and the permissions of
    every level but the type level. *)
Definition resourceTmpMap (resources : list ResourceInfo) : gmap string (list ResourceInfo) :=
  foldl (λ m r, <[res_ID r := createAncestorsResource r]> m) ∅ resources.
Definition resourceDataMap (resources : list ResourceInfo) : gmap string ResourceInfo :=
  foldl (λ m r, <[res_ID r := r]> m) ∅ resources.
Definition allResources (resources : list ResourceInfo) : list ResourceInfo :=
  foldl (λ l r, l ++ createAncestorsResource r) [] resources.

Definition splitTypePolicies (policies : list PolicyInfo) : gmap string (list PolicyInfo) * list PolicyInfo :=
  foldl (λ acc p, let '(policyMap, typePolicies) := acc in
    if bool_decide (pol_ResourceID p = "*") then (policyMap, typePolicies ++ [p])
    else (mappend (pol_ResourceID p) [p] policyMap, typePolicies))
    (∅, []) policies.

Definition instanceData (resources : list ResourceInfo) (accessor : AccessorInfo) (resourceID : string)
  : option (gmap string json) :=
  Some (match resourceDataMap resources !! resourceID with
        | Some rTmp => makeDataInfo ∅ rTmp accessor
        | None => ∅
        end).

(** The loop that evaluates the [*] policies for every resource. *)
Definition addTypePerms (resources : list ResourceInfo) (accessor : AccessorInfo)
    (typePolicies : list PolicyInfo) (m : gmap string resourcePerm) : gmap string resourcePerm :=
  foldl (λ m resource,
    if bool_decide (res_ID resource = "*")
    then <[res_ID resource := calcOneResourcePerm None typePolicies]> m
    else <[res_ID resource +:+ "_*" :=
             calcOneResourcePerm (Some (makeDataInfo ∅ resource accessor)) typePolicies]> m)
    m resources.

(** [ResourceFilter]; the three results are in this order. *)
Definition policyCalc_ResourceFilter (resources : list ResourceInfo) (accessor : AccessorInfo)
    (operation : list string) (include : list PolicCalcyIncludeType)
  : outcome (list ResourceInfo * gmap string (list string) *
             gmap string (gmap string (list PolicyObligationItem))) :=
  if bool_decide (resources = []) then Ok ([], ∅, ∅)
  else
    accessTokens ← getAccessorIDs accessor;
    policies ← GetPoliciesByResourcesAndAccessToken (allResources resources) accessTokens;
    let '(policyMap, typePolicies) := splitTypePolicies policies in
    let resourcePermMap := permOfGroups 9 (instanceData resources accessor) policyMap ∅ in
    let resourcePermMap := addTypePerms resources accessor typePolicies resourcePermMap in
    Ok (foldl (λ acc resource,
      let '(result, opMap, oblMap) := acc in
      let resourceTmp := default [] (resourceTmpMap resources !! res_ID resource) in
      let inh := calcResourceInheritedOperationEx resourceTmp resourcePermMap in
      if refused inh operation then acc
      else (result ++ [resource],
            <[res_ID resource := (range 10 (in_allow inh)).*1]> opMap,
            if includesObligations include
            then <[res_ID resource := calcObligationWithPriority (in_obl inh)]> oblMap else oblMap))
      ([], ∅, ∅) resources).

(** [GetResourceTypeOperation] *)
Definition policyCalc_GetResourceTypeOperation (resourceTypes : list string) (accessor : AccessorInfo)
  : outcome (gmap string (list string)) :=
  if bool_decide (resourceTypes = []) then Ok ∅
  else
    accessTokens ← getAccessorIDs accessor;
    policies ← GetPoliciesByResourceTypes resourceTypes accessTokens;
    let policyMap := group_by pol_ResourceType policies in
    let resourcePermMap := permOfGroups 11 (λ _, None) policyMap ∅ in
    resourceTypeMap ← GetByIDsInternal resourceTypes;
    Ok (foldl (λ m kv, let '(resourceType, resourceTypeInfo) := kv in
      let '(typeOperationMap, _) := getTypeAndInstanceOperation resourceTypeInfo in
      let allowMap := rp_allow (default resourcePerm_zero (resourcePermMap !! resourceType)) in
      <[resourceType := filter (λ key, mget typeOperationMap key = true) (range 13 allowMap).*1]> m)
      ∅ (range 12 resourceTypeMap)).

(** [GetResourceOperation] *)
Definition policyCalc_GetResourceOperation (resources : list ResourceInfo) (accessor : AccessorInfo)
  : outcome (gmap string (list string) * gmap string (gmap string (list PolicyObligationItem))) :=
  match resources with
  | [] => Ok (∅, ∅)
  | resource0 :: _ =>
    accessTokens ← getAccessorIDs accessor;
    policies ← GetPoliciesByResourcesAndAccessToken (allResources resources) accessTokens;
    let '(policyMap, typePolicies) := splitTypePolicies policies in
    let resourcePermMap := permOfGroups 14 (instanceData resources accessor) policyMap ∅ in
    let resourcePermMap :=
      if bool_decide (typePolicies = []) then resourcePermMap
      else addTypePerms resources accessor typePolicies resourcePermMap in
    resourceTypeMap ← GetByIDsInternal [res_Type resource0];
    let resourceType := default ResourceType_zero (resourceTypeMap !! res_Type resource0) in
    let '(typeOperationMap, instanceOperationMap) := getTypeAndInstanceOperation resourceType in
    Ok (foldl (λ acc resource,
      let '(opMap, oblMap) := acc in
      let resourceTmp := default [] (resourceTmpMap resources !! res_ID resource) in
      let inh := calcResourceInheritedOperationEx resourceTmp resourcePermMap in
      (<[res_ID resource :=
           filter (λ key, checkOperationScope (res_ID resource) key typeOperationMap instanceOperationMap = true)
             (range 15 (in_allow inh)).*1]> opMap,
       <[res_ID resource := calcObligationWithPriority (in_obl inh)]> oblMap))
      (∅, ∅) resources)
  end.
End policyCalc.
