(* ===== verification/PolicyCalcSpec.v ===== *)
(** * What a policy decision means

    The abstract decision procedure that [logics/policy_calc.go] implements,
    and the proofs that it does: deny overrides allow inside one level; the
    nearest level that mentions an operation decides it; levels go from the
    resource itself over its ancestors (nearest first) to the type; of several
    obligations of one type the most specific accessor's wins. *)
From S2P Require Import Prelude Json Interfaces Common PolicyCalc.

(** ** Specification *)

(** The entry is for the operation [op]. *)
Abbreviation names op := (λ po : PolicyInfo * PolicyOperationItem, op_ID po.2 = op).

Section spec.
Context `{JsonLogic}.
Implicit Types (ps : list PolicyInfo) (op : string) (data : option (gmap string json)).

(** The operation entries of the rules of one kind that apply, in order. *)
Definition applicable_ops data (rules : PolicyRules → list PolicyRuleItem) ps
  : list (PolicyInfo * PolicyOperationItem) :=
  p ← ps; r ← rules (pol_Rules p);
  if rule_applies data r then (λ o, (p, o)) <$> rule_Operations r else [].

Definition level_denies data ps op : Prop := Exists (names op) (applicable_ops data rules_Deny ps).
Definition level_allows data ps op : Prop := Exists (names op) (applicable_ops data rules_Allow ps).

(** What the policies of one level say about an operation. *)
Definition level_says data ps op : option bool :=
  if decide (level_denies data ps op) then Some false
  else if decide (level_allows data ps op) then Some true
  else None.

(** The obligations the level attaches to the operation. *)
Definition level_items data ps op : list policyObligationCalcItem :=
  po ← filter (names op) (applicable_ops data rules_Allow ps); calcItems po.1 po.2.

(** The policies of [ps] that are configured on the resource id [id]. *)
Definition at_level ps (id : string) : list PolicyInfo := filter (λ p, pol_ResourceID p = id) ps.
End spec.

(** The first answer along a path. *)
Fixpoint nearest (says : string → option bool) (path : list string) : option bool :=
  match path with
  | [] => None
  | id :: path => match says id with Some b => Some b | None => nearest says path end
  end.

(** The levels that can decide about a resource, nearest first. *)
Definition decision_path (r : ResourceInfo) : list string :=
  res_ID r :: reverse ((λ a, anc_ID a +:+ "/*") <$> res_Ancestors r) ++
  (if bool_decide (res_ID r = "*") then [] else ["*"]).

(** The data a condition is evaluated on when one resource is checked. *)
Definition check_data (r : ResourceInfo) (a : AccessorInfo) : option (gmap string json) :=
  if bool_decide (res_ID r = "*") then None else Some (makeDataInfo ∅ r a).

Definition decision `{JsonLogic} (ps : list PolicyInfo) (r : ResourceInfo) (a : AccessorInfo) (op : string)
  : option bool :=
  nearest (λ id, level_says (check_data r a) (at_level ps id) op) (decision_path r).

(** ** Loops as folds over a flat list *)
Lemma foldl_bind {A B C} (f : A → C → A) (g : B → list C) (l : list B) a :
  foldl (λ acc x, foldl f acc (g x)) a l = foldl f a (l ≫= g).
Proof.
  revert a. induction l as [|x l IH]; intros a; simpl; [done|]. by rewrite foldl_app, IH.
Qed.

Lemma foldl_ext_in {A B} (f g : A → B → A) (l : list B) a :
  (∀ a x, x ∈ l → f a x = g a x) → foldl f a l = foldl g a l.
Proof.
  revert a. induction l as [|x l IH]; intros a Hfg; simpl; [done|].
  rewrite Hfg by set_solver. apply IH. set_solver.
Qed.

Section level.
Context `{JsonLogic}.
Implicit Types (ps : list PolicyInfo) (op : string) (data : option (gmap string json)).

(** Both rule loops run over the applicable operation entries. *)
Lemma foldl_applicable {A} (f : A → PolicyInfo * PolicyOperationItem → A) data rules ps a :
  foldl (λ acc p, foldl (λ acc r,
     if rule_applies data r then foldl (λ acc o, f acc (p, o)) acc (rule_Operations r) else acc)
     acc (rules (pol_Rules p))) a ps
  = foldl f a (applicable_ops data rules ps).
Proof.
  unfold applicable_ops. rewrite <-foldl_bind. apply foldl_ext_in. intros acc p _.
  rewrite <-foldl_bind. apply foldl_ext_in. intros acc' r _.
  case_match; [|done]. by rewrite foldl_fmap.
Qed.

Lemma calcDeny_flat data ps :
  calcDeny data ps = foldl (λ m po, <[op_ID po.2 := true]> m) ∅ (applicable_ops data rules_Deny ps).
Proof.
  unfold calcDeny.
  by rewrite <-(foldl_applicable (λ (m : gmap string bool) po, <[op_ID po.2 := true]> m)).
Qed.

Lemma calcAllow_flat data denyMap ps :
  calcAllow data denyMap ps =
  foldl (λ m po, if mget denyMap (op_ID po.2) then m else mappend (op_ID po.2) (calcItems po.1 po.2) m)
    ∅ (applicable_ops data rules_Allow ps).
Proof.
  unfold calcAllow.
  by rewrite <-(foldl_applicable (λ (m : gmap string (list policyObligationCalcItem)) po,
    if mget denyMap (op_ID po.2) then m else mappend (op_ID po.2) (calcItems po.1 po.2) m)).
Qed.

Lemma lookup_fold_true {A} (f : A → string) (l : list A) (m : gmap string bool) k :
  is_Some (foldl (λ m x, <[f x := true]> m) m l !! k) ↔ is_Some (m !! k) ∨ Exists (λ x, f x = k) l.
Proof.
  revert m. induction l as [|x l IH]; intros m; simpl.
  - rewrite Exists_nil. tauto.
  - rewrite IH, Exists_cons, lookup_insert. case_decide; naive_solver.
Qed.

Lemma calcDeny_spec data ps op : is_Some (calcDeny data ps !! op) ↔ level_denies data ps op.
Proof.
  rewrite calcDeny_flat, lookup_fold_true, lookup_empty.
  split; [intros [[? [=]]|?]; done | by right].
Qed.

Lemma mget_calcDeny data ps op : mget (calcDeny data ps) op = bool_decide (level_denies data ps op).
Proof.
  apply eq_true_iff_eq. rewrite bool_decide_eq_true.
  rewrite calcDeny_flat, (mget_fold_insert (λ po : PolicyInfo * PolicyOperationItem, op_ID po.2)).
  rewrite mget_empty. unfold level_denies. rewrite Exists_exists. naive_solver.
Qed.

(** An append loop with a guard on the key. *)
Lemma lookup_fold_mappend {A V} (bad : string → bool) (k : A → string) (it : A → list V) l m op :
  foldl (λ m x, if bad (k x) then m else mappend (k x) (it x) m) m l !! op
  = if bad op then m !! op
    else match filter (λ x, k x = op) l with
         | [] => m !! op
         | l' => Some (default [] (m !! op) ++ (l' ≫= it))
         end.
Proof.
  revert m. induction l as [|x l IH]; intros m; simpl; [by destruct (bad op)|].
  rewrite IH, filter_cons. destruct (decide (k x = op)) as [<-|Hne].
  - destruct (bad (k x)) eqn:Hb; [done|]. rewrite lookup_mappend. rewrite decide_True by done.
    destruct (filter _ l) as [|y l'] eqn:E; simpl; by rewrite ?app_nil_r, <-?app_assoc.
  - destruct (bad (k x)); [done|]. rewrite lookup_mappend, decide_False by done. done.
Qed.

Lemma calcAllow_lookup data ps op :
  calcAllow data (calcDeny data ps) ps !! op =
  match level_says data ps op with Some true => Some (level_items data ps op) | _ => None end.
Proof.
  rewrite calcAllow_flat.
  rewrite (lookup_fold_mappend (mget (calcDeny data ps)) (λ po, op_ID po.2) (λ po, calcItems po.1 po.2)).
  rewrite mget_calcDeny, lookup_empty. unfold level_says, level_items.
  destruct (decide (level_denies data ps op)).
  { by rewrite bool_decide_true. }
  rewrite bool_decide_false by done.
  destruct (filter (names op) _) as [|x l] eqn:E.
  - rewrite decide_False; [done|]. unfold level_allows. rewrite Exists_exists.
    intros (y & Hy & Hop). by eapply filter_nil_not in E.
  - rewrite decide_True; [done|]. unfold level_allows. rewrite Exists_exists.
    apply filter_cons_elem in E as [??]. by exists x.
Qed.

Lemma calcOneResourcePerm_nil data : calcOneResourcePerm data [] = resourcePerm_zero.
Proof. done. Qed.

Lemma level_says_nil data op : level_says data [] op = None.
Proof.
  unfold level_says.
  destruct (decide (level_denies data [] op)) as [E|]; [by inversion E|].
  by destruct (decide (level_allows data [] op)) as [E|]; [inversion E|].
Qed.

(** One level: the deny map and the allow map of [calcOneResourcePerm]. *)
Lemma calcOneResourcePerm_deny data ps op :
  is_Some (rp_deny (calcOneResourcePerm data ps) !! op) ↔ level_denies data ps op.
Proof.
  unfold calcOneResourcePerm. case_bool_decide as E; [|apply calcDeny_spec].
  subst. unfold level_denies. cbn. rewrite Exists_nil, lookup_empty.
  split; [by intros [? [=]]|done].
Qed.

Lemma calcOneResourcePerm_allow data ps op :
  rp_allow (calcOneResourcePerm data ps) !! op =
  match level_says data ps op with Some true => Some (level_items data ps op) | _ => None end.
Proof.
  unfold calcOneResourcePerm. case_bool_decide as E; [|apply calcAllow_lookup].
  subst. by rewrite level_says_nil.
Qed.
End level.

(** ** Inheritance *)
Section inherit_facts.
Context `{GoRuntime}.
Implicit Types (acc : inherited) (op : string) (perm : gmap string resourcePerm).

(** What the accumulated maps say about an operation. *)
Definition inh_says acc op : option bool :=
  if mget (in_deny acc) op then Some false
  else if mget (in_allow acc) op then Some true else None.

(** No operation is in both maps, and obligations are collected exactly for
    the allowed operations. *)
Definition inh_wf acc : Prop :=
  ∀ op, (mget (in_deny acc) op = true → mget (in_allow acc) op = false) ∧
        (is_Some (in_obl acc !! op) ↔ mget (in_allow acc) op = true).

Lemma inherit_deny_fold acc (ks : list string) :
  let acc' := foldl inherit_deny acc ks in
  in_allow acc' = in_allow acc ∧ in_obl acc' = in_obl acc ∧
  ∀ op, mget (in_deny acc') op =
        mget (in_deny acc) op || (bool_decide (op ∈ ks) && negb (mget (in_allow acc) op)).
Proof.
  revert acc. induction ks as [|k ks IH]; intros acc; simpl.
  { split_and!; [done|done|]. intros op. by rewrite orb_false_r. }
  destruct (IH (inherit_deny acc k)) as (-> & -> & Hd).
  assert (in_allow (inherit_deny acc k) = in_allow acc) as Ha by (unfold inherit_deny; by case_match).
  rewrite Ha in *. split_and!; [done|unfold inherit_deny; by case_match|].
  intros op. rewrite Hd. clear Hd IH. unfold inherit_deny.
  rewrite (bool_decide_ext (op ∈ k :: ks) (op = k ∨ op ∈ ks)) by apply elem_of_cons.
  rewrite bool_decide_or.
  destruct (decide (op = k)) as [->|Hne].
  - rewrite (bool_decide_eq_true_2 (k = k)) by done.
    destruct (mget (in_deny acc) k) eqn:Ed, (mget (in_allow acc) k) eqn:Ea; simpl;
      rewrite ?mget_insert, ?Ed, ?Ea, ?andb_false_r, ?(bool_decide_eq_true_2 (k = k)) by done; done.
  - rewrite (bool_decide_eq_false_2 (op = k)) by done. simpl. f_equal.
    case_match; [|done]. simpl. by rewrite mget_insert, (bool_decide_eq_false_2 (k = op)) by done.
Qed.

Lemma inherit_allow_fold acc (kvs : list (string * list policyObligationCalcItem)) :
  NoDup kvs.*1 →
  let acc' := foldl inherit_allow acc kvs in
  in_deny acc' = in_deny acc ∧
  (∀ op, mget (in_allow acc') op =
     mget (in_allow acc) op || (bool_decide (op ∈ kvs.*1) && negb (mget (in_deny acc) op))) ∧
  (∀ op, in_obl acc' !! op =
     match (list_to_map kvs : gmap string _) !! op with
     | Some v => if mget (in_deny acc) op then in_obl acc !! op
                 else Some (default [] (in_obl acc !! op) ++ v)
     | None => in_obl acc !! op
     end).
Proof.
  revert acc. induction kvs as [|[k v] kvs IH]; intros acc Hnd; csimpl.
  { split_and!; [done| |done]. intros op. by rewrite orb_false_r. }
  csimpl in *. apply NoDup_cons in Hnd as [Hk Hnd'].
  destruct (IH (inherit_allow acc (k, v)) Hnd') as (Hd & Ha & Ho).
  assert (in_deny (inherit_allow acc (k, v)) = in_deny acc) as Hd1
    by (unfold inherit_allow; cases).
  rewrite Hd1 in *. split_and!; [done| |].
  - intros op. rewrite Ha.
    rewrite (bool_decide_ext (op ∈ k :: kvs.*1) (op = k ∨ op ∈ kvs.*1)) by apply elem_of_cons.
    rewrite bool_decide_or.
    assert (mget (in_allow (inherit_allow acc (k, v))) op =
      mget (in_allow acc) op || (bool_decide (op = k) && negb (mget (in_deny acc) k))) as ->.
    { unfold inherit_allow. destruct (mget (in_deny acc) k) eqn:Ed; simpl; rewrite Ed; simpl.
      { by rewrite andb_false_r, orb_false_r. }
      rewrite andb_true_r. case_match eqn:Ea; simpl.
      - rewrite mget_insert, orb_comm. f_equal. by apply bool_decide_ext.
      - apply negb_false_iff in Ea. case_bool_decide; subst; by rewrite ?Ea, ?orb_false_r. }
    destruct (decide (op = k)) as [->|Hne].
    + rewrite (bool_decide_eq_true_2 (k = k)) by done. rewrite (bool_decide_eq_false_2 (k ∈ _)) by done.
      simpl. by rewrite orb_false_r.
    + rewrite (bool_decide_eq_false_2 (op = k)) by done. simpl. by rewrite orb_false_r.
  - intros op. rewrite Ho. rewrite lookup_insert.
    assert (in_obl (inherit_allow acc (k, v)) !! op =
      if decide (k = op) then
        if mget (in_deny acc) k then in_obl acc !! k else Some (default [] (in_obl acc !! k) ++ v)
      else in_obl acc !! op) as ->.
    { unfold inherit_allow. destruct (mget (in_deny acc) k) eqn:Ed; simpl; rewrite Ed; simpl.
      - case_decide; by subst.
      - case_match; simpl; rewrite lookup_mappend; case_decide; by subst. }
    destruct (decide (k = op)) as [<-|].
    + rewrite not_elem_of_list_to_map_1 by done. done.
    + done.
Qed.

(** What one entry of [resourcePermMap] says; an absent entry reads as the
    zero [resourcePerm]. *)
Definition perm_at perm (id : string) : resourcePerm := default resourcePerm_zero (perm !! id).
Definition perm_says (rp : resourcePerm) op : option bool :=
  if decide (is_Some (rp_deny rp !! op)) then Some false
  else if decide (is_Some (rp_allow rp !! op)) then Some true else None.

Lemma elem_of_range_keys {V} site (m : gmap string V) k : k ∈ (range site m).*1 ↔ is_Some (m !! k).
Proof.
  rewrite list_elem_of_fmap. split.
  - intros ([k' v] & -> & Hin). apply elem_of_range in Hin. by exists v.
  - intros [v Hv]. exists (k, v). split; [done|]. by apply elem_of_range.
Qed.

Lemma list_to_map_range {V} site (m : gmap string V) : list_to_map (range site m) = m.
Proof.
  rewrite <-(list_to_map_to_list m) at 2. apply list_to_map_proper; [apply NoDup_fst_range|].
  unfold range. apply range_order_perm.
Qed.

(** The maps after one level, operation by operation. *)
Lemma inherit_level_maps perm acc id op :
  let acc' := inherit_level perm acc id in
  let rp := perm_at perm id in
  mget (in_deny acc') op =
    mget (in_deny acc) op || (bool_decide (is_Some (rp_deny rp !! op)) && negb (mget (in_allow acc) op)) ∧
  mget (in_allow acc') op =
    mget (in_allow acc) op || (bool_decide (is_Some (rp_allow rp !! op)) && negb (mget (in_deny acc') op)) ∧
  in_obl acc' !! op =
    match rp_allow rp !! op with
    | Some v => if mget (in_deny acc') op then in_obl acc !! op
                else Some (default [] (in_obl acc !! op) ++ v)
    | None => in_obl acc !! op
    end.
Proof.
  unfold inherit_level. fold (perm_at perm id). set (rp := perm_at perm id).
  destruct (inherit_deny_fold acc (range 1 (rp_deny rp)).*1) as (Ha & Ho & Hd).
  set (acc1 := foldl inherit_deny acc _) in *.
  destruct (inherit_allow_fold acc1 (range 2 (rp_allow rp))) as (Hd2 & Ha2 & Ho2); [apply NoDup_fst_range|].
  split_and!.
  - rewrite Hd2, Hd. do 2 f_equal. apply bool_decide_ext, elem_of_range_keys.
  - rewrite Ha2, Ha, Hd2. do 2 f_equal. apply bool_decide_ext, elem_of_range_keys.
  - rewrite Ho2, Ho, Hd2. by rewrite list_to_map_range.
Qed.

Lemma inherit_level_wf perm acc id : inh_wf acc → inh_wf (inherit_level perm acc id).
Proof.
  intros Hwf op. destruct (Hwf op) as [Hx Ho].
  destruct (inherit_level_maps perm acc id op) as (Hd & Ha & Hob).
  rewrite Ha, Hob. rewrite Hd in *.
  destruct (mget (in_deny acc) op), (mget (in_allow acc) op), (decide (is_Some (rp_deny (perm_at perm id) !! op))) as [Hs|Hs];
    rewrite ?(bool_decide_true _ Hs), ?(bool_decide_false _ Hs); simpl in *;
    destruct (rp_allow (perm_at perm id) !! op) as [v|]; simpl; naive_solver.
Qed.

Lemma inherit_level_says perm acc id op :
  inh_wf acc →
  inh_says (inherit_level perm acc id) op =
  match inh_says acc op with Some b => Some b | None => perm_says (perm_at perm id) op end.
Proof.
  intros Hwf. destruct (Hwf op) as [Hx _].
  destruct (inherit_level_maps perm acc id op) as (Hd & Ha & _).
  unfold inh_says, perm_says. rewrite Ha, Hd.
  destruct (mget (in_deny acc) op), (mget (in_allow acc) op); simpl in *;
    rewrite ?andb_false_r; try done; [].
  destruct (decide (is_Some (rp_deny (perm_at perm id) !! op))) as [Hs|Hs];
    rewrite ?(bool_decide_true _ Hs), ?(bool_decide_false _ Hs); simpl; [done|].
  destruct (decide (is_Some (rp_allow (perm_at perm id) !! op))) as [Hs'|Hs'];
    rewrite ?(bool_decide_true _ Hs'), ?(bool_decide_false _ Hs'); done.
Qed.

Lemma inherit_level_obl perm acc id op :
  inh_wf acc → inh_says (inherit_level perm acc id) op ≠ Some false →
  default [] (in_obl (inherit_level perm acc id) !! op) =
  default [] (in_obl acc !! op) ++ default [] (rp_allow (perm_at perm id) !! op).
Proof.
  intros Hwf Hs. destruct (inherit_level_maps perm acc id op) as (Hd & Ha & ->).
  unfold inh_says in Hs. destruct (mget (in_deny (inherit_level perm acc id)) op); [done|].
  destruct (rp_allow _ !! op); simpl; by rewrite ?app_nil_r.
Qed.

Lemma inherit_levels perm ids acc :
  inh_wf acc →
  let acc' := foldl (inherit_level perm) acc ids in
  inh_wf acc' ∧
  (∀ op, inh_says acc' op =
    match inh_says acc op with Some b => Some b | None => nearest (λ id, perm_says (perm_at perm id) op) ids end) ∧
  (∀ op, inh_says acc' op ≠ Some false →
    default [] (in_obl acc' !! op) =
    default [] (in_obl acc !! op) ++ (ids ≫= λ id, default [] (rp_allow (perm_at perm id) !! op))).
Proof.
  revert acc. induction ids as [|id ids IH]; intros acc Hwf; simpl.
  { split_and!; [done| |]; intros op; [by destruct (inh_says acc op)|]. by rewrite app_nil_r. }
  destruct (IH (inherit_level perm acc id)) as (Hwf' & Hs & Ho); [by apply inherit_level_wf|].
  split_and!; [done| |]; intros op.
  - rewrite Hs, inherit_level_says by done. by destruct (inh_says acc op).
  - intros Hne. rewrite Ho by done. rewrite inherit_level_obl; [by rewrite app_assoc|done|].
    intros Hf. rewrite Hs, Hf in Hne. done.
Qed.

Lemma inherited_zero_wf : inh_wf inherited_zero.
Proof. intros op. split; [done|]. simpl. rewrite lookup_empty. split; [by intros [? [=]]|done]. Qed.

(** The two inheritance routines are [nearest] over their id list. *)
Lemma inherit_from_zero perm ids op :
  let inh := foldl (inherit_level perm) inherited_zero ids in
  let d := nearest (λ id, perm_says (perm_at perm id) op) ids in
  mget (in_allow inh) op = bool_decide (d = Some true) ∧
  mget (in_deny inh) op = bool_decide (d = Some false) ∧
  in_obl inh !! op =
    if bool_decide (d = Some true)
    then Some (ids ≫= λ id, default [] (rp_allow (perm_at perm id) !! op)) else None.
Proof.
  destruct (inherit_levels perm ids inherited_zero inherited_zero_wf) as (Hwf & Hs & Ho).
  cbv zeta. specialize (Hs op). specialize (Ho op). destruct (Hwf op) as [Hx Hob].
  change (inh_says inherited_zero op) with (@None bool) in Hs. cbv beta iota in Hs.
  rewrite <-Hs. unfold inh_says in *.
  destruct (mget (in_deny _) op); simpl.
  - rewrite Hx by done. split_and!; [done|done|]. rewrite Hx in Hob by done.
    destruct (in_obl _ !! op); [naive_solver|done].
  - destruct (mget (in_allow _) op); simpl; split_and!; try done.
    + destruct Hob as [_ [v Hv]]; [done|]. rewrite Hv in *.
      f_equal. change v with (default [] (Some v)). by rewrite Ho by done.
    + destruct (in_obl _ !! op); [naive_solver|done].
Qed.
End inherit_facts.

(** ** From the policies read to the decision *)
Section check_facts.
Context `{GoRuntime} `{JsonLogic}.
Implicit Types (ps : list PolicyInfo) (op id : string) (r : ResourceInfo).

Lemma perm_says_calcOne data ps op :
  perm_says (calcOneResourcePerm data ps) op = level_says data ps op.
Proof.
  unfold perm_says. rewrite calcOneResourcePerm_allow. unfold level_says.
  rewrite (decide_ext _ _ _ _ (calcOneResourcePerm_deny data ps op)).
  destruct (decide (level_denies data ps op)); [done|].
  destruct (decide (level_allows data ps op)).
  - by rewrite decide_True by (by eexists).
  - by rewrite decide_False by (by intros [??]).
Qed.

Lemma rp_allow_calcOne data ps op :
  default [] (rp_allow (calcOneResourcePerm data ps) !! op) =
  if bool_decide (level_says data ps op = Some true) then level_items data ps op else [].
Proof. rewrite calcOneResourcePerm_allow. by destruct (level_says data ps op) as [[]|]. Qed.

Lemma fold_insert_range {V W} (f : string → V → W) (bad : V → bool) (l : list (string * V)) (m : gmap string W) k :
  NoDup l.*1 →
  foldl (λ m kv, if bad kv.2 then m else <[kv.1 := f kv.1 kv.2]> m) m l !! k =
  match (list_to_map l : gmap string V) !! k with
  | Some v => if bad v then m !! k else Some (f k v)
  | None => m !! k
  end.
Proof.
  revert m. induction l as [|[k' v] l IH]; intros m Hnd; [done|].
  csimpl in *. apply NoDup_cons in Hnd as [Hk Hnd].
  rewrite IH, lookup_insert by done. destruct (decide (k' = k)) as [<-|Hne].
  - rewrite not_elem_of_list_to_map_1 by done. destruct (bad v); [done|]. by rewrite lookup_insert_eq.
  - destruct (bad v); [done|]. by rewrite lookup_insert_ne.
Qed.

Lemma lookup_permOfGroups site data (policyMap : gmap string (list PolicyInfo)) m id :
  permOfGroups site data policyMap m !! id =
  match policyMap !! id with
  | Some ps => if bool_decide (ps = []) then m !! id else Some (calcOneResourcePerm (data id) ps)
  | None => m !! id
  end.
Proof.
  unfold permOfGroups. erewrite foldl_ext_in.
  2: { intros m' [k v] _. exact (eq_refl : _ =
         (λ m kv, if (λ ps, bool_decide (ps = [])) kv.2 then m
           else <[kv.1 := (λ k ps, calcOneResourcePerm (data k) ps) kv.1 kv.2]> m) m' (k, v)). }
  rewrite fold_insert_range by apply NoDup_fst_range. by rewrite list_to_map_range.
Qed.

(** The permissions computed from grouped policies, level by level. *)
Lemma perm_at_groups site data ps id :
  perm_at (permOfGroups site data (group_by pol_ResourceID ps) ∅) id =
  calcOneResourcePerm (data id) (at_level ps id).
Proof.
  unfold perm_at. rewrite lookup_permOfGroups, lookup_empty. unfold at_level.
  rewrite <-(lookup_group_by pol_ResourceID ps id).
  destruct (group_by pol_ResourceID ps !! id) as [g|] eqn:E; simpl; [|done].
  rewrite bool_decide_eq_false_2; [done|]. by eapply group_by_nonempty.
Qed.

Lemma createAncestorsResource_ids r :
  res_ID <$> createAncestorsResource r = ((λ a, anc_ID a +:+ "/*") <$> res_Ancestors r) ++ [res_ID r].
Proof.
  unfold createAncestorsResource. rewrite fmap_app. f_equal.
  assert (∀ (l : list Ancestor) (acc : list ResourceInfo),
    res_ID <$> foldl (λ resources ancestor,
      resources ++ [{| res_ID := anc_ID ancestor +:+ "/*"; res_Type := res_Type r;
                       res_Name := ""; res_Ancestors := []; res_CreatedBy := "" |}]) acc l
    = (res_ID <$> acc) ++ ((λ a, anc_ID a +:+ "/*") <$> l)) as Hgen; [|apply Hgen].
  induction l as [|a l IH]; intros acc; simpl; [by rewrite app_nil_r|].
  rewrite IH, fmap_app, <-app_assoc. done.
Qed.

Lemma lastResourceID_create r : lastResourceID (createAncestorsResource r) = res_ID r.
Proof. unfold lastResourceID, createAncestorsResource. by rewrite last_snoc. Qed.

Lemma levelIDs_create r star :
  levelIDs (createAncestorsResource r) star =
  replicate (length (createAncestorsResource r)) "" ++
  res_ID r :: reverse ((λ a, anc_ID a +:+ "/*") <$> res_Ancestors r) ++
  (if bool_decide (res_ID r = "*") then [] else [star]).
Proof.
  unfold levelIDs. rewrite createAncestorsResource_ids, lastResourceID_create, reverse_app. done.
Qed.

Lemma nearest_replicate says n path :
  says "" = None → nearest says (replicate n "" ++ path) = nearest says path.
Proof. intros Hs. induction n; simpl; [done|]. by rewrite Hs. Qed.

Lemma nearest_ext says says' path :
  (∀ id, id ∈ path → says id = says' id) → nearest says path = nearest says' path.
Proof.
  induction path as [|id path IH]; intros Hs; simpl; [done|].
  rewrite Hs by set_solver. case_match; [done|]. apply IH. set_solver.
Qed.

(** The inherited maps [Check] computes. *)
Lemma Check_inherited site data ps r op :
  at_level ps "" = [] →
  let inh := calcResourceInheritedOperation (createAncestorsResource r)
               (permOfGroups site (λ _, data) (group_by pol_ResourceID ps) ∅) in
  let d := nearest (λ id, level_says data (at_level ps id) op) (decision_path r) in
  mget (in_allow inh) op = bool_decide (d = Some true) ∧
  mget (in_deny inh) op = bool_decide (d = Some false).
Proof.
  intros He. unfold calcResourceInheritedOperation.
  edestruct inherit_from_zero as (Ha & Hd & _). rewrite Ha, Hd. clear Ha Hd.
  rewrite levelIDs_create. fold (decision_path r).
  rewrite (nearest_ext _ (λ id, level_says data (at_level ps id) op)).
  2: { intros id _. by rewrite perm_at_groups, perm_says_calcOne. }
  rewrite nearest_replicate; [done|]. by rewrite He, level_says_nil.
Qed.

Lemma refused_false inh (ops : list string) :
  refused inh ops = false ↔
  ∀ op, op ∈ ops → mget (in_deny inh) op = false ∧ mget (in_allow inh) op = true.
Proof.
  unfold refused. induction ops as [|op ops IH]; simpl; [set_solver|].
  rewrite orb_false_iff, IH, orb_false_iff, negb_false_iff. split.
  - intros [[??] ?] op'. rewrite elem_of_cons. intros [->|]; auto.
  - intros Hall. split; [apply Hall; by left|]. intros op' ?. apply Hall. by right.
Qed.

Lemma refused_nearest inh (d : string → option bool) ops :
  (∀ op, mget (in_allow inh) op = bool_decide (d op = Some true) ∧
         mget (in_deny inh) op = bool_decide (d op = Some false)) →
  refused inh ops = false ↔ ∀ op, op ∈ ops → d op = Some true.
Proof.
  intros Hd. rewrite refused_false. apply forall_proper. intros op.
  destruct (Hd op) as [-> ->]. rewrite bool_decide_eq_false, bool_decide_eq_true. naive_solver.
Qed.
End check_facts.

Section check.
Context `{GoRuntime} `{DrivenUserMgnt} `{JsonLogic} `{DBPolicyCalc} `{LogicsRole}
  `{LogicsResourceType} `{LogicsObligation}.

(** [Check] answers exactly when its three reads succeed, and then by the
    abstract decision on the policies it read. *)
Lemma Check_Ok resource accessor ops include c :
  policyCalc_Check resource accessor ops include = Ok c →
  ∃ toks ps, getAccessorIDs accessor = Ok toks ∧
    GetPoliciesByResourcesAndAccessToken (createAncestorsResource resource) toks = Ok ps ∧
    (at_level ps "" = [] →
     (Result c = true ↔ ∀ op, op ∈ ops → decision ps resource accessor op = Some true)).
Proof.
  unfold policyCalc_Check. intros Hc. obind. exists r, r0. split_and!; [done|done|].
  intros He.
  change (if bool_decide (res_ID resource = "*") then None
          else Some (makeDataInfo ∅ resource accessor)) with (check_data resource accessor) in Hc.
  set (inh := calcResourceInheritedOperation _ _) in Hc.
  assert (refused inh ops = false ↔ ∀ op, op ∈ ops → decision r0 resource accessor op = Some true) as <-.
  { apply refused_nearest. intros op.
    apply (Check_inherited 6 (check_data resource accessor) r0 resource op He). }
  destruct (refused inh ops); simplify_eq/=; naive_solver.
Qed.
End check.
