(* ===== verification/Store.v ===== *)
(** * The database ([Authorization/migrations/init.sql])

    The tables as lists of rows, and what the environment decides about a
    statement: whether the server refuses it, the microsecond clock, and the
    UUIDs handed out.  Strings compare byte by byte.  A statement with an empty
    [in ()] list is refused by the SQL grammar.  Rows of a query without
    [order by] come back in an order the server chooses. *)
From S2P Require Import Prelude Json Interfaces.

(** ** Rows *)
Record policy_row := {
  p_primary : Z; p_id : string; p_resource_id : string; p_resource_type : string;
  p_resource_name : string; p_ancestors : text; p_accessor_id : string;
  p_accessor_type : AccessorType; p_accessor_name : string; p_operation : text;
  p_condition : string; p_end_time : Z; p_create_time : Z; p_modify_time : Z
}.
Record role_row := {
  r_primary : Z; r_id : string; r_name : string; r_source : RoleSource; r_resource_scope : text;
  r_description : string; r_created_time : Z; r_modify_time : Z
}.
Record member_row := {
  m_primary : Z; m_role_id : string; m_member_id : string; m_member_type : AccessorType;
  m_member_name : string; m_created_time : Z; m_modify_time : Z
}.
Record obligation_row := {
  o_primary : Z; o_id : string; o_type_id : string; o_name : string; o_description : string;
  o_value : text; o_created : Z; o_modified : Z
}.
Record obligation_type_row := {
  ot_primary : Z; ot_id : string; ot_name : string; ot_description : string;
  ot_applicable_resource_types : text; ot_schema : text; ot_ui_schema : text; ot_default_value : text;
  ot_created : Z; ot_modified : Z
}.
Record resource_type_row := {
  t_primary : Z; t_id : string; t_name : string; t_description : string; t_instance_url : string;
  t_data_struct : string; t_operation : text; t_hidden : bool; t_create_time : Z; t_modify_time : Z
}.
Record hierarchy_row := {
  h_primary : Z; h_resource_type_id : string; h_children : text; h_created : Z; h_modified : Z
}.

Record store := {
  t_policy : list policy_row;
  t_role : list role_row;
  t_role_member : list member_row;
  t_obligation : list obligation_row;
  t_obligation_type : list obligation_type_row;
  t_resource_type : list resource_type_row;
  t_resource_type_hierarchy : list hierarchy_row;
  seq_primary : Z;    (* next AUTO_INCREMENT value *)
  seq_uuid : nat      (* UUIDs handed out so far *)
}.

Definition set_policy (f : list policy_row → list policy_row) (s : store) : store :=
  {| t_policy := f (t_policy s); t_role := t_role s; t_role_member := t_role_member s;
     t_obligation := t_obligation s; t_obligation_type := t_obligation_type s; t_resource_type := t_resource_type s;
     t_resource_type_hierarchy := t_resource_type_hierarchy s; seq_primary := seq_primary s; seq_uuid := seq_uuid s |}.
Definition set_role (f : list role_row → list role_row) (s : store) : store :=
  {| t_policy := t_policy s; t_role := f (t_role s); t_role_member := t_role_member s;
     t_obligation := t_obligation s; t_obligation_type := t_obligation_type s; t_resource_type := t_resource_type s;
     t_resource_type_hierarchy := t_resource_type_hierarchy s; seq_primary := seq_primary s; seq_uuid := seq_uuid s |}.
Definition set_member (f : list member_row → list member_row) (s : store) : store :=
  {| t_policy := t_policy s; t_role := t_role s; t_role_member := f (t_role_member s);
     t_obligation := t_obligation s; t_obligation_type := t_obligation_type s; t_resource_type := t_resource_type s;
     t_resource_type_hierarchy := t_resource_type_hierarchy s; seq_primary := seq_primary s; seq_uuid := seq_uuid s |}.
Definition set_obligation (f : list obligation_row → list obligation_row) (s : store) : store :=
  {| t_policy := t_policy s; t_role := t_role s; t_role_member := t_role_member s;
     t_obligation := f (t_obligation s); t_obligation_type := t_obligation_type s; t_resource_type := t_resource_type s;
     t_resource_type_hierarchy := t_resource_type_hierarchy s; seq_primary := seq_primary s; seq_uuid := seq_uuid s |}.
Definition set_obligation_type (f : list obligation_type_row → list obligation_type_row) (s : store) : store :=
  {| t_policy := t_policy s; t_role := t_role s; t_role_member := t_role_member s;
     t_obligation := t_obligation s; t_obligation_type := f (t_obligation_type s); t_resource_type := t_resource_type s;
     t_resource_type_hierarchy := t_resource_type_hierarchy s; seq_primary := seq_primary s; seq_uuid := seq_uuid s |}.
Definition set_resource_type (f : list resource_type_row → list resource_type_row) (s : store) : store :=
  {| t_policy := t_policy s; t_role := t_role s; t_role_member := t_role_member s;
     t_obligation := t_obligation s; t_obligation_type := t_obligation_type s; t_resource_type := f (t_resource_type s);
     t_resource_type_hierarchy := t_resource_type_hierarchy s; seq_primary := seq_primary s; seq_uuid := seq_uuid s |}.
Definition set_hierarchy (f : list hierarchy_row → list hierarchy_row) (s : store) : store :=
  {| t_policy := t_policy s; t_role := t_role s; t_role_member := t_role_member s;
     t_obligation := t_obligation s; t_obligation_type := t_obligation_type s; t_resource_type := t_resource_type s;
     t_resource_type_hierarchy := f (t_resource_type_hierarchy s); seq_primary := seq_primary s; seq_uuid := seq_uuid s |}.
Definition bump_primary (n : nat) (s : store) : store :=
  {| t_policy := t_policy s; t_role := t_role s; t_role_member := t_role_member s;
     t_obligation := t_obligation s; t_obligation_type := t_obligation_type s; t_resource_type := t_resource_type s;
     t_resource_type_hierarchy := t_resource_type_hierarchy s; seq_primary := seq_primary s + Z.of_nat n; seq_uuid := seq_uuid s |}.
Definition bump_uuid (s : store) : store :=
  {| t_policy := t_policy s; t_role := t_role s; t_role_member := t_role_member s;
     t_obligation := t_obligation s; t_obligation_type := t_obligation_type s; t_resource_type := t_resource_type s;
     t_resource_type_hierarchy := t_resource_type_hierarchy s; seq_primary := seq_primary s; seq_uuid := S (seq_uuid s) |}.

(** ** The environment *)
Class SqlEnv := {
  sql_fault : string → option gerror;   (* a statement (by label) the server refuses *)
  curTime : Z;                          (* the clock during one operation, microseconds *)
  uuid : nat → string;                  (* the n-th UUID *)
  (* [tx.Begin] and [tx.Commit] *)
  begin_fault : option gerror;
  commit_fault : option gerror
}.

Definition sql_syntax_error : gerror := MkErr "sql" "syntax error near ')'" [].

Section sql.
Context `{SqlEnv}.

Definition stmt {A} (label : string) (o : outcome A) : outcome A :=
  match sql_fault label with Some e => Err e | None => o end.

(** A statement with the fragment [in (?, ..., ?)]. *)
Definition in_list {A} (args : list string) (o : outcome A) : outcome A :=
  if bool_decide (args = []) then Err sql_syntax_error else o.

(** [db.Exec(...)]: all or nothing. *)
Definition exec (label : string) (f : store → store) : M store unit := λ s,
  match sql_fault label with Some e => (Err e, s) | None => (Ok tt, f s) end.

(** The deferred function of every transactional handler: commit when the
    body returned no error, roll back otherwise.  The tables are those at
    [Begin] after a roll-back and after a commit the server refuses; a UUID
    drawn stays drawn.  (The bodies do not panic; the case is there for the
    type.  The deferred functions would commit then, no error being set.) *)
Definition restore (s0 s1 : store) : store :=
  {| t_policy := t_policy s0; t_role := t_role s0; t_role_member := t_role_member s0;
     t_obligation := t_obligation s0; t_obligation_type := t_obligation_type s0; t_resource_type := t_resource_type s0;
     t_resource_type_hierarchy := t_resource_type_hierarchy s0; seq_primary := seq_primary s1; seq_uuid := seq_uuid s1 |}.

Definition transaction (body : M store unit) : M store unit := λ s,
  match begin_fault with
  | Some e => (Err e, s)
  | None =>
      match body s with
      | (Ok _, s') => match commit_fault with
                      | None => (Ok tt, s')
                      | Some e => (Err e, restore s s')
                      end
      | (Err e, s') => (Err e, restore s s')
      | (Panic w, s') => (Panic w, restore s s')
      end
  end.

Definition new_uuid : M store string := λ s, (Ok (uuid (seq_uuid s)), bump_uuid s).
End sql.

(** [f_x like pattern], as the server's collation decides it. *)
Class SqlLike := { like : string → string → bool }.

(** [order by k1, k2, ...]: [key] lists the sort columns, negated for
    [desc]. *)
Fixpoint lex_le (a b : list Z) : bool :=
  match a, b with
  | x :: a, y :: b => (x <? y)%Z || ((x =? y)%Z && lex_le a b)
  | [], _ => true
  | _ :: _, [] => false
  end.
Definition by_key {A} (key : A → list Z) (a b : A) : Prop := lex_le (key a) (key b) = true.
#[global] Instance by_key_dec {A} (key : A → list Z) : RelDecision (by_key key).
Proof. intros a b. unfold by_key. apply _. Defined.
Definition order_by {A} (key : A → list Z) (rows : list A) : list A := merge_sort (by_key key) rows.

Definition sql_range_error : gerror := MkErr "sql" "limit and offset are not negative" [].
(** [limit offset, n] *)
Definition sql_limit {A} (offset n : Z) (rows : list A) : outcome (list A) :=
  if ((offset <? 0) || (n <? 0))%Z then Err sql_range_error
  else Ok (take (Z.to_nat n) (drop (Z.to_nat offset) rows)).

Lemma lex_le_total a b : lex_le a b = true ∨ lex_le b a = true.
Proof.
  revert b. induction a as [|x a IH]; intros [|y b]; simpl; [by left..|by right|].
  destruct (Z.ltb_spec x y); [by left|]. destruct (Z.ltb_spec y x); [by right|].
  assert (x = y) as -> by lia. rewrite Z.eqb_refl. apply IH.
Qed.
Lemma lex_le_trans a b c : lex_le a b = true → lex_le b c = true → lex_le a c = true.
Proof.
  revert b c. induction a as [|x a IH]; intros [|y b] [|z c]; simpl; try done.
  rewrite !orb_true_iff, !andb_true_iff, !Z.ltb_lt, !Z.eqb_eq.
  intros [?|[-> ?]] [?|[-> ?]]; [left; lia|by left|by left|right; eauto].
Qed.
#[global] Instance by_key_total {A} (key : A → list Z) : Total (by_key key).
Proof. intros a b. apply lex_le_total. Qed.
#[global] Instance by_key_trans {A} (key : A → list Z) : Transitive (by_key key).
Proof. intros a b c. apply lex_le_trans. Qed.

Lemma order_by_perm {A} (key : A → list Z) l : order_by key l ≡ₚ l.
Proof. apply merge_sort_Permutation. Qed.
Lemma order_by_sorted {A} (key : A → list Z) l : StronglySorted (by_key key) (order_by key l).
Proof. apply (StronglySorted_merge_sort _). Qed.

Lemma stmt_Ok `{SqlEnv} {A} label (o : outcome A) a : stmt label o = Ok a → o = Ok a.
Proof. unfold stmt. by case_match. Qed.
Lemma in_list_Ok {A} args (o : outcome A) a : in_list args o = Ok a ↔ args ≠ [] ∧ o = Ok a.
Proof. unfold in_list. case_bool_decide; naive_solver. Qed.
Lemma exec_cases `{SqlEnv} label f s r s' :
  exec label f s = (r, s') → (r = Ok tt ∧ s' = f s) ∨ (∃ e, r = Err e ∧ s' = s).
Proof. unfold exec. case_match; naive_solver. Qed.

Lemma transaction_Ok `{SqlEnv} body s u s' :
  transaction body s = (Ok u, s') → body s = (Ok tt, s').
Proof.
  unfold transaction. intros Ht.
  destruct begin_fault; [done|].
  destruct (body s) as [[[]|e|w] s1]; [destruct commit_fault|..]; by simplify_eq/=.
Qed.

(** ** What a call may do to the store

    [within R m]: whatever [m] returns, the store it ends in is related by [R]
    to the one it started in.  For a preorder [R] this follows the code. *)
Definition within (R : relation store) {A} (m : M store A) : Prop := ∀ s r s', m s = (r, s') → R s s'.

Section within.
Context (R : relation store) `{!PreOrder R} {A B : Type}.

Lemma within_ret (a : A) : within R (mret a).
Proof. by intros s r s' [= <- <-]. Qed.
Lemma within_reads (f : store → outcome A) : within R (reads f).
Proof. by intros s r s' [= <- <-]. Qed.
Lemma within_lift (o : outcome A) : within R (lift o).
Proof. by intros s r s' [= <- <-]. Qed.
Lemma within_bind (m : M store A) (k : A → M store B) : within R m → (∀ a, within R (k a)) → within R (x ← m; k x).
Proof.
  intros Hm Hk s r s' Hb. apply M_bind_cases in Hb as [(a & s1 & E & E')|[(e & E & _)|(w & E & _)]];
    [etrans; [by eapply Hm|by eapply Hk]|by eapply Hm..].
Qed.
(** What a read found, and that a guard passed, is known afterwards. *)
Lemma within_known (f : store → outcome A) (k : A → M store B) :
  (∀ s a r s', f s = Ok a → k a s = (r, s') → R s s') → within R (x ← reads f; k x).
Proof.
  intros Hk s r s' Hb. apply M_bind_cases in Hb as [(a & s1 & E & E')|[(e & E & _)|(w & E & _)]];
    rewrite reads_eq in E; injection E as E <-; [by eapply Hk|done..].
Qed.
Lemma within_guard (o : outcome A) (k : A → M store B) :
  (∀ a, o = Ok a → within R (k a)) → within R (x ← lift o; k x).
Proof. intros Hk. apply (within_known (λ _, o)). intros s a r s' E. by apply (Hk a E). Qed.
Lemma within_each (f : A → M store unit) l : (∀ x, x ∈ l → within R (f x)) → within R (for_each f l).
Proof.
  induction l as [|x l IH]; intros Hf s r s' Hs; [by injection Hs as _ <-|].
  simpl in Hs. apply M_bind_cases in Hs as [(a & s1 & E & E')|[(e & E & _)|(w & E & _)]].
  - etrans; [by eapply Hf; [left|]|]. eapply IH; [|exact E']. intros y Hy. apply Hf. by right.
  - by eapply Hf; [left|].
  - by eapply Hf; [left|].
Qed.
Lemma within_exec `{SqlEnv} label f : (∀ s, R s (f s)) → within R (exec label f).
Proof. intros Hf s r s' Hx. by apply exec_cases in Hx as [[_ ->]|(e & _ & ->)]. Qed.
Lemma within_transaction `{SqlEnv} body :
  (∀ s s', R s s' → R s (restore s s')) → within R body → within R (transaction body).
Proof.
  intros Hr Hb s r s' Ht. unfold transaction in Ht. destruct begin_fault; [by simplify_eq|].
  destruct (body s) as [[u|e|w] s1] eqn:E; apply Hb in E; [destruct commit_fault|..]; simplify_eq/=; auto.
Qed.
End within.
Lemma within_mono (R R' : relation store) {A} (m : M store A) :
  (∀ s s', R s s' → R' s s') → within R m → within R' m.
Proof. intros HR Hm s r s' E. by eapply HR, Hm. Qed.

(** Follows the code of a call; [fin] closes the statements. *)
Ltac follow fin := repeat first
  [ apply within_ret; apply _ | apply within_reads; apply _ | apply within_lift; apply _
  | solve [fin]
  | case_match
  | apply within_bind; [apply _| |intros ?]
  | apply within_each; [apply _|intros ? ?] ].

(** ** Calls that leave the tables alone

    [quiet]: whatever the call returns, no table changed.  [atomic]: no table
    changed when the call did not succeed. *)
Definition tables (s : store) :=
  (t_policy s, t_role s, t_role_member s, t_obligation s, t_obligation_type s, t_resource_type s,
   t_resource_type_hierarchy s).

Definition quiet {A} (m : M store A) : Prop := ∀ s r s', m s = (r, s') → tables s' = tables s.
Definition atomic {A} (m : M store A) : Prop :=
  ∀ s r s', m s = (r, s') → (∀ a, r ≠ Ok a) → tables s' = tables s.

Section calls.
Context {A B : Type}.

Lemma quiet_ret (a : A) : quiet (mret a).
Proof. by intros s r s' [= <- <-]. Qed.
Lemma quiet_reads (f : store → outcome A) : quiet (reads f).
Proof. by intros s r s' [= <- <-]. Qed.
Lemma quiet_lift (o : outcome A) : quiet (lift o).
Proof. by intros s r s' [= <- <-]. Qed.
Lemma quiet_bind (m : M store A) (k : A → M store B) : quiet m → (∀ a, quiet (k a)) → quiet (x ← m; k x).
Proof.
  intros Hm Hk s r s' Hb. apply M_bind_cases in Hb as [(a & s1 & E & E')|[(e & E & _)|(w & E & _)]].
  - by rewrite (Hk _ _ _ _ E'), (Hm _ _ _ E).
  - by apply Hm in E.
  - by apply Hm in E.
Qed.
Lemma quiet_atomic (m : M store A) : quiet m → atomic m.
Proof. intros Hm s r s' E _. by apply Hm in E. Qed.
Lemma atomic_bind (m : M store A) (k : A → M store B) :
  quiet m → (∀ a, atomic (k a)) → atomic (x ← m; k x).
Proof.
  intros Hm Hk s r s' Hb Hr. apply M_bind_cases in Hb as [(a & s1 & E & E')|[(e & E & _)|(w & E & _)]].
  - by rewrite (Hk _ _ _ _ E' Hr), (Hm _ _ _ E).
  - by apply Hm in E.
  - by apply Hm in E.
Qed.
(** What follows the last write only returns. *)
Lemma atomic_then_ret (m : M store A) (b : A → B) : atomic m → atomic (x ← m; mret (b x)).
Proof.
  intros Hm s r s' Hb Hr. apply M_bind_cases in Hb as [(a & s1 & E & E')|[(e & E & _)|(w & E & _)]].
  - injection E' as <- <-. by destruct (Hr (b a)).
  - by apply (Hm _ _ _ E).
  - by apply (Hm _ _ _ E).
Qed.
End calls.

Lemma quiet_new_uuid `{SqlEnv} : quiet new_uuid.
Proof. by intros s r s' [= <- <-]. Qed.
Lemma atomic_exec `{SqlEnv} label f : atomic (exec label f).
Proof. intros s r s' E Hr. apply exec_cases in E as [[-> _]|(e & _ & ->)]; [by destruct (Hr tt)|done]. Qed.
Lemma atomic_transaction `{SqlEnv} body : atomic (transaction body).
Proof.
  intros s r s' Ht Hr. unfold transaction in Ht.
  destruct begin_fault; [by simplify_eq|].
  destruct (body s) as [[u|e|w] s1]; [destruct commit_fault|..]; simplify_eq/=; try done.
  by destruct (Hr tt).
Qed.
#[export] Hint Resolve quiet_ret quiet_reads quiet_lift quiet_new_uuid quiet_atomic
  atomic_exec atomic_transaction : isf.

(** Decides [quiet] and [atomic] goals by following the code. *)
Ltac calls := repeat first
  [ solve [auto with isf]
  | case_match
  | apply quiet_bind; [solve [auto with isf]|intros ?]
  | apply atomic_bind; [solve [auto with isf]|intros ?]
  | apply atomic_then_ret ].
