(* ===== verification/PolicyDB.v ===== *)
(** * Storage of policies ([Authorization/dbaccess/policy.go], [policy_calc.go])

    The JSON encoding of rules and ancestors, and every statement on
    [t_policy].  Reads are functions of the store, writes are state
    transformers. *)
From S2P Require Import Prelude Json Interfaces Common PolicyCalc Store.

(** ** Encoding *)
Definition makeObligations (result : list PolicyObligationItem) : json :=
  JArr ((λ v, jobj [("type_id", JStr (obl_TypeID v)); ("id", JStr (obl_ID v)); ("value", obl_Value v)])
          <$> result).

Definition makeConditionItem (item : PolicyRuleItem) : json :=
  let condition := if bool_decide (rule_Condition item = JNull) then JObj ∅ else rule_Condition item in
  let operations := (λ op, jobj [("id", JStr (op_ID op)); ("obligations", makeObligations (op_Obligations op))])
                      <$> rule_Operations item in
  jobj [("condition", condition); ("operations", JArr operations)].

(** The loop over the allow (or deny) rules: rules without operations are
    skipped. *)
Definition encodeRuleItems (items : list PolicyRuleItem) : list json :=
  foldl (λ result item,
    if bool_decide (rule_Operations item = []) then result else result ++ [makeConditionItem item])
    [] items.

Definition rulesInfoToString (rulesInfo : PolicyRules) : text :=
  marshal (jobj [("allow", JArr (encodeRuleItems (rules_Allow rulesInfo)));
                 ("deny", JArr (encodeRuleItems (rules_Deny rulesInfo)))]).

Definition ancestorsInfoToString (ancestors : list Ancestor) : text :=
  marshal (JArr ((λ a, jobj [("id", JStr (anc_ID a)); ("type", JStr (anc_Type a)); ("name", JStr (anc_Name a))])
                   <$> ancestors)).

(** ** Decoding *)
Definition ancestorsStrToInfo (ancestorsStr : text) : outcome (list Ancestor) :=
  if bool_decide (ancestorsStr = TRaw "") then Ok []
  else
    ancestorsJson ← unmarshal_slice ancestorsStr;
    omap_all (λ v,
      item ← assert_map v;
      id ← assert_string (jget item "id");
      type ← assert_string (jget item "type");
      name ← assert_string (jget item "name");
      Ok {| anc_ID := id; anc_Type := type; anc_Name := name |}) ancestorsJson.

Definition getObligations (obligationsJson : json) : outcome (list PolicyObligationItem) :=
  obligations ← assert_slice obligationsJson;
  omap_all (λ v,
    obligationMap ← assert_map v;
    typeID ← assert_string (jget obligationMap "type_id");
    id ← assert_string (jget obligationMap "id");
    Ok {| obl_TypeID := typeID; obl_ID := id; obl_Value := jget obligationMap "value" |}) obligations.

Definition parseOperation (opV : json) : outcome PolicyOperationItem :=
  opMap ← assert_map opV;
  id ← assert_string (jget opMap "id");
  match opMap !! "obligations" with
  | Some obl => obligations ← getObligations obl;
                Ok {| op_ID := id; op_Name := ""; op_Obligations := obligations |}
  | None => Ok {| op_ID := id; op_Name := ""; op_Obligations := [] |}
  end.

Definition parseConditionItem (v : json) : outcome PolicyRuleItem :=
  item ← assert_map v;
  opsList ← assert_slice (jget item "operations");
  operations ← omap_all parseOperation opsList;
  let condition := jget item "condition" in
  Ok {| rule_Condition := if bool_decide (condition = JNull) then JObj ∅ else condition;
        rule_Operations := operations |}.

Definition rulesStrToInfo (rulesStr : text) : outcome PolicyRules :=
  jsonReq ← unmarshal_map rulesStr;
  allowJson ← assert_slice (jget jsonReq "allow");
  denyJson ← assert_slice (jget jsonReq "deny");
  allow ← omap_all parseConditionItem allowJson;
  deny ← omap_all parseConditionItem denyJson;
  Ok {| rules_Allow := allow; rules_Deny := deny |}.

(** [policy_calc.go] repeats these functions word for word. *)
Definition policyCalc_rulesStrToInfo (rulesStr : text) : outcome PolicyRules := rulesStrToInfo rulesStr.

(** ** Scanning rows *)

(** A row scanned with its ancestors ([GetByResourceIDs], [GetByPolicyIDs]). *)
Definition scanWithAncestors (row : policy_row) : outcome PolicyInfo :=
  rules ← rulesStrToInfo (p_operation row);
  ancestors ← ancestorsStrToInfo (p_ancestors row);
  Ok {| pol_ID := p_id row; pol_ResourceID := p_resource_id row; pol_ResourceType := p_resource_type row;
        pol_ResourceName := p_resource_name row; pol_Ancestors := ancestors; pol_HasAncestors := false;
        pol_AccessorID := p_accessor_id row; pol_AccessorType := p_accessor_type row;
        pol_AccessorName := p_accessor_name row; pol_ParentDeps := []; pol_Rules := rules;
        pol_Condition := p_condition row; pol_EndTime := p_end_time row;
        pol_CreateTime := p_create_time row; pol_ModifyTime := 0 |}.

(** A row scanned without them (the policy-calculation queries and
    [GetPagination] do not select [f_ancestors]). *)
Definition scanPolicy (row : policy_row) : outcome PolicyInfo :=
  rules ← rulesStrToInfo (p_operation row);
  Ok {| pol_ID := p_id row; pol_ResourceID := p_resource_id row; pol_ResourceType := p_resource_type row;
        pol_ResourceName := p_resource_name row; pol_Ancestors := []; pol_HasAncestors := false;
        pol_AccessorID := p_accessor_id row; pol_AccessorType := p_accessor_type row;
        pol_AccessorName := p_accessor_name row; pol_ParentDeps := []; pol_Rules := rules;
        pol_Condition := p_condition row; pol_EndTime := p_end_time row;
        pol_CreateTime := p_create_time row; pol_ModifyTime := p_modify_time row |}.

(** [order by f_modify_time desc, f_primary_id desc] *)
Definition newer (a b : policy_row) : Prop :=
  (p_modify_time b < p_modify_time a ∨
   p_modify_time a = p_modify_time b ∧ p_primary b ≤ p_primary a)%Z.
#[global] Instance newer_dec : RelDecision newer.
Proof. intros a b. unfold newer. apply _. Defined.

Section statements.
Context `{GoRuntime} `{SqlEnv}.

(** ** Queries of [policy_calc.go] *)
Definition expired (row : policy_row) : bool :=
  negb (p_end_time row =? -1)%Z && (p_end_time row <? curTime)%Z.

(** The scan loop: expired rows are skipped before their rules are read. *)
Definition scanLive (rows : list policy_row) : outcome (list PolicyInfo) :=
  omap_all scanPolicy (filter (λ row, expired row = false) rows).

Definition policyCalcDB_GetPoliciesByResourceTypeAndAccessToken (s : store)
    (resourceTypeID : string) (accessToken : list string) : outcome (list PolicyInfo) :=
  stmt "policyCalc.GetPoliciesByResourceTypeAndAccessToken"
    (in_list accessToken
      (scanLive (range_order 21 (filter (λ row,
         p_resource_type row = resourceTypeID ∧ p_accessor_id row ∈ accessToken) (t_policy s))))).

Definition policyCalcDB_GetPoliciesByResourcesAndAccessToken (s : store)
    (resourceInfo : list ResourceInfo) (accessToken : list string) : outcome (list PolicyInfo) :=
  match resourceInfo with
  | [] => Ok []
  | resource0 :: _ =>
      let resourceIDMap := foldl (λ m r, <[res_ID r := true]> m) {["*" := true]} resourceInfo in
      let resourceIDs := (range 22 resourceIDMap).*1 in
      stmt "policyCalc.GetPoliciesByResourcesAndAccessToken"
        (in_list resourceIDs (in_list accessToken
          (scanLive (range_order 23 (filter (λ row,
             p_resource_id row ∈ resourceIDs ∧ p_resource_type row = res_Type resource0 ∧
             p_accessor_id row ∈ accessToken) (t_policy s))))))
  end.

Definition policyCalcDB_GetPoliciesByResourceTypes (s : store)
    (resourceTypes accessToken : list string) : outcome (list PolicyInfo) :=
  stmt "policyCalc.GetPoliciesByResourceTypes"
    (in_list resourceTypes (in_list accessToken
      (scanLive (range_order 24 (filter (λ row,
         p_resource_id row = "*" ∧ p_resource_type row ∈ resourceTypes ∧
         p_accessor_id row ∈ accessToken) (t_policy s)))))).

(** ** Queries of [policy.go] *)
Definition policyDB_GetPagination (s : store) (params : PolicyPagination) : outcome (list PolicyInfo) :=
  stmt "policy.GetPagination"
    (omap_all scanPolicy (merge_sort newer (filter (λ row,
       p_resource_id row = pp_ResourceID params ∧ p_resource_type row = pp_ResourceType params) (t_policy s)))).

Definition policyDB_GetByResourceIDs (s : store) (resourceType : string) (resourceIDs : list string)
  : outcome (gmap string (list PolicyInfo)) :=
  stmt "policy.GetByResourceIDs"
    (in_list resourceIDs
      (policies ← omap_all scanWithAncestors (range_order 25 (filter (λ row,
         p_resource_id row ∈ resourceIDs ∧ p_resource_type row = resourceType) (t_policy s)));
       Ok (group_by pol_ResourceID policies))).

Definition policyDB_GetByPolicyIDs (s : store) (policyIDs : list string)
  : outcome (gmap string PolicyInfo) :=
  if bool_decide (policyIDs = []) then Ok ∅
  else stmt "policy.GetByPolicyIDs"
    (policies ← omap_all scanWithAncestors (range_order 26 (filter (λ row, p_id row ∈ policyIDs) (t_policy s)));
     Ok (foldl (λ m p, <[pol_ID p := p]> m) ∅ policies)).

(** The columns [f_accessor_*] are not selected here. *)
Definition scanAccessorPolicy (row : policy_row) : outcome PolicyInfo :=
  rules ← rulesStrToInfo (p_operation row);
  ancestors ← ancestorsStrToInfo (p_ancestors row);
  Ok {| pol_ID := p_id row; pol_ResourceID := p_resource_id row; pol_ResourceType := p_resource_type row;
        pol_ResourceName := p_resource_name row; pol_Ancestors := ancestors; pol_HasAncestors := false;
        pol_AccessorID := ""; pol_AccessorType := 0; pol_AccessorName := ""; pol_ParentDeps := [];
        pol_Rules := rules; pol_Condition := p_condition row; pol_EndTime := p_end_time row;
        pol_CreateTime := p_create_time row; pol_ModifyTime := 0 |}.

Definition policyDB_GetAccessorPolicy (s : store) (param : AccessorPolicyParam) : outcome (list PolicyInfo) :=
  stmt "policy.GetAccessorPolicy"
    (omap_all scanAccessorPolicy (merge_sort newer (filter (λ row,
       p_accessor_id row = app_AccessorID param ∧ p_accessor_type row = app_AccessorType param ∧
       (app_ResourceType param = "" ∨ p_resource_type row = app_ResourceType param) ∧
       (app_ResourceID param = "" ∨ p_resource_id row = app_ResourceID param)) (t_policy s)))).

(** ** Writes *)
Definition newPolicyRow (primary : Z) (p : PolicyInfo) : policy_row :=
  {| p_primary := primary; p_id := pol_ID p; p_resource_id := pol_ResourceID p;
     p_resource_type := pol_ResourceType p; p_resource_name := pol_ResourceName p;
     p_ancestors := ancestorsInfoToString (pol_Ancestors p); p_accessor_id := pol_AccessorID p;
     p_accessor_type := pol_AccessorType p; p_accessor_name := pol_AccessorName p;
     p_operation := rulesInfoToString (pol_Rules p); p_condition := pol_Condition p;
     p_end_time := pol_EndTime p; p_create_time := curTime; p_modify_time := curTime |}.

(** One multi-row [insert]. *)
Definition policyDB_Create (policys : list PolicyInfo) : M store unit :=
  if bool_decide (policys = []) then mret tt
  else exec "policy.Create" (λ s,
    bump_primary (length policys)
      (set_policy (λ t, t ++ imap (λ i p, newPolicyRow (seq_primary s + Z.of_nat i) p) policys) s)).

Definition updateRow (p : PolicyInfo) (row : policy_row) : policy_row :=
  if bool_decide (p_id row = pol_ID p)
  then {| p_primary := p_primary row; p_id := p_id row; p_resource_id := p_resource_id row;
          p_resource_type := p_resource_type row; p_resource_name := p_resource_name row;
          p_ancestors := p_ancestors row; p_accessor_id := p_accessor_id row;
          p_accessor_type := p_accessor_type row; p_accessor_name := p_accessor_name row;
          p_operation := rulesInfoToString (pol_Rules p); p_condition := pol_Condition p;
          p_end_time := pol_EndTime p; p_create_time := p_create_time row; p_modify_time := curTime |}
  else row.

(** One [update] statement per policy. *)
Definition policyDB_Update (policys : list PolicyInfo) : M store unit :=
  for_each (λ p, exec "policy.Update" (set_policy (fmap (updateRow p)))) policys.

Definition policyDB_Delete (ids : list string) : M store unit :=
  if bool_decide (ids = []) then mret tt
  else exec "policy.Delete" (set_policy (filter (λ row, p_id row ∉ ids))).

Definition policyDB_UpdateResourceAncestors (resourceID resourceType : string) (ancestors : list Ancestor)
  : M store unit :=
  exec "policy.UpdateResourceAncestors" (set_policy (fmap (λ row,
    if bool_decide (p_resource_id row = resourceID ∧ p_resource_type row = resourceType)
    then {| p_primary := p_primary row; p_id := p_id row; p_resource_id := p_resource_id row;
            p_resource_type := p_resource_type row; p_resource_name := p_resource_name row;
            p_ancestors := ancestorsInfoToString ancestors; p_accessor_id := p_accessor_id row;
            p_accessor_type := p_accessor_type row; p_accessor_name := p_accessor_name row;
            p_operation := p_operation row; p_condition := p_condition row;
            p_end_time := p_end_time row; p_create_time := p_create_time row;
            p_modify_time := p_modify_time row |}
    else row))).

Definition policyDB_UpdateResourceName (resourceID resourceType name : string) : M store unit :=
  exec "policy.UpdateResourceName" (set_policy (fmap (λ row,
    if bool_decide (p_resource_id row = resourceID ∧ p_resource_type row = resourceType)
    then {| p_primary := p_primary row; p_id := p_id row; p_resource_id := p_resource_id row;
            p_resource_type := p_resource_type row; p_resource_name := name;
            p_ancestors := p_ancestors row; p_accessor_id := p_accessor_id row;
            p_accessor_type := p_accessor_type row; p_accessor_name := p_accessor_name row;
            p_operation := p_operation row; p_condition := p_condition row;
            p_end_time := p_end_time row; p_create_time := p_create_time row;
            p_modify_time := p_modify_time row |}
    else row))).

Definition policyDB_UpdateAccessorName (accessorID name : string) : M store unit :=
  exec "policy.UpdateAccessorName" (set_policy (fmap (λ row,
    if bool_decide (p_accessor_id row = accessorID)
    then {| p_primary := p_primary row; p_id := p_id row; p_resource_id := p_resource_id row;
            p_resource_type := p_resource_type row; p_resource_name := p_resource_name row;
            p_ancestors := p_ancestors row; p_accessor_id := p_accessor_id row;
            p_accessor_type := p_accessor_type row; p_accessor_name := name;
            p_operation := p_operation row; p_condition := p_condition row;
            p_end_time := p_end_time row; p_create_time := p_create_time row;
            p_modify_time := p_modify_time row |}
    else row))).

Definition policyDB_DeleteByResourceIDs (resources : list PolicyDeleteResourceInfo) : M store unit :=
  if bool_decide (length resources = 0) then mret tt
  else exec "policy.DeleteByResourceIDs" (set_policy (filter (λ row,
    ¬ Exists (λ r, p_resource_type row = pdr_Type r ∧ p_resource_id row = pdr_ID r) resources))).

Definition policyDB_DeleteByAccessorIDs (accessorIDs : list string) : M store unit :=
  if bool_decide (accessorIDs = []) then mret tt
  else exec "policy.DeleteByAccessorIDs" (set_policy (filter (λ row, p_accessor_id row ∉ accessorIDs))).

Definition policyDB_DeleteByEndTime (cur : Z) : M store unit :=
  exec "policy.DeleteByEndTime"
    (set_policy (filter (λ row, ¬ (p_end_time row < cur ∧ p_end_time row ≠ -1)%Z))).

(** The object [dbPolicyCalc] over the store at the time of the call. *)
Definition policyCalcDB (s : store) : DBPolicyCalc := {|
  GetPoliciesByResourcesAndAccessToken := policyCalcDB_GetPoliciesByResourcesAndAccessToken s;
  GetPoliciesByResourceTypeAndAccessToken := policyCalcDB_GetPoliciesByResourceTypeAndAccessToken s;
  GetPoliciesByResourceTypes := policyCalcDB_GetPoliciesByResourceTypes s
|}.
End statements.
