(* ===== verification/PolicyDBSpec.v ===== *)
(** * Facts about the storage of policies

    The JSON text of a policy's rules reads back as the rules that were
    written; a row that was written can always be read; and the object
    [dbPolicyCalc] hands its clients exactly the live policies of the table
    that match the query.  The last fact is the interface [PolicySource], which
    the theorems on decisions use instead of the SQL. *)
From S2P Require Import Prelude Json Interfaces Common PolicyCalc PolicyCalcSpec Store PolicyDB.

(** ** Round trip of the JSON columns *)

(** What a stored operation, rule or rule set reads back as: names are not
    stored, the condition [nil] is stored as the empty object, and rules
    without operations are not stored. *)
Definition stored_operation (o : PolicyOperationItem) : PolicyOperationItem :=
  {| op_ID := op_ID o; op_Name := ""; op_Obligations := op_Obligations o |}.
Definition stored_rule (r : PolicyRuleItem) : PolicyRuleItem :=
  {| rule_Condition := if bool_decide (rule_Condition r = JNull) then JObj ∅ else rule_Condition r;
     rule_Operations := stored_operation <$> rule_Operations r |}.
Definition stored_rules (r : PolicyRules) : PolicyRules :=
  {| rules_Allow := stored_rule <$> filter (λ i, rule_Operations i ≠ []) (rules_Allow r);
     rules_Deny := stored_rule <$> filter (λ i, rule_Operations i ≠ []) (rules_Deny r) |}.

Lemma omap_all_fmap {A B C} (f : B → outcome C) (g : A → B) (h : A → C) (l : list A) :
  (∀ x, f (g x) = Ok (h x)) → omap_all f (g <$> l) = Ok (h <$> l).
Proof.
  intros Hf. induction l as [|x l IH]; csimpl; [done|]. rewrite Hf. simpl. by rewrite IH.
Qed.

Lemma jget_jobj_eq k v l : jget (list_to_map ((k, v) :: l)) k = v.
Proof. unfold jget. simpl. by rewrite lookup_insert_eq. Qed.
Lemma jget_jobj_ne k k' v l : k ≠ k' → jget (list_to_map ((k, v) :: l)) k' = jget (list_to_map l) k'.
Proof. intros. unfold jget. simpl. by rewrite lookup_insert_ne. Qed.

(** Reads of the fields of an object literal. *)
Ltac jfields := repeat first [rewrite jget_jobj_eq | rewrite jget_jobj_ne by done].

Lemma getObligations_makeObligations l : getObligations (makeObligations l) = Ok l.
Proof.
  unfold getObligations, makeObligations. simpl.
  rewrite (omap_all_fmap _ _ id); [by rewrite list_fmap_id|].
  intros [t i v]. simpl. jfields. done.
Qed.

Lemma parseOperation_make o :
  parseOperation (jobj [("id", JStr (op_ID o)); ("obligations", makeObligations (op_Obligations o))])
  = Ok (stored_operation o).
Proof.
  unfold parseOperation, jobj. cbn [assert_map mbind outcome_bind]. jfields.
  cbn [assert_string mbind outcome_bind].
  rewrite list_to_map_cons, lookup_insert_ne by done. rewrite list_to_map_cons, lookup_insert_eq.
  by rewrite getObligations_makeObligations.
Qed.

Lemma parseConditionItem_make r : parseConditionItem (makeConditionItem r) = Ok (stored_rule r).
Proof.
  unfold parseConditionItem, makeConditionItem, jobj. cbn [assert_map].
  unfold mbind at 1, outcome_bind at 1. jfields. cbn [assert_slice].
  unfold mbind at 1, outcome_bind at 1.
  rewrite (omap_all_fmap _ _ stored_operation) by apply parseOperation_make.
  simpl. unfold stored_rule. repeat case_bool_decide; congruence.
Qed.

Lemma encodeRuleItems_spec items :
  encodeRuleItems items = makeConditionItem <$> filter (λ i, rule_Operations i ≠ []) items.
Proof.
  unfold encodeRuleItems.
  assert (∀ acc, foldl (λ result item, if bool_decide (rule_Operations item = []) then result
      else result ++ [makeConditionItem item]) acc items
    = acc ++ (makeConditionItem <$> filter (λ i, rule_Operations i ≠ []) items)) as H; [|apply H].
  induction items as [|i items IH]; intros acc; csimpl; [by rewrite app_nil_r|].
  rewrite IH, filter_cons. case_bool_decide; case_decide; try done. by rewrite <-app_assoc.
Qed.

Lemma rules_read_back r : rulesStrToInfo (rulesInfoToString r) = Ok (stored_rules r).
Proof.
  unfold rulesStrToInfo, rulesInfoToString, jobj. cbn [marshal unmarshal_map].
  unfold mbind at 1, outcome_bind at 1. jfields. simpl. rewrite !encodeRuleItems_spec.
  rewrite !(omap_all_fmap _ _ stored_rule) by apply parseConditionItem_make. done.
Qed.

Lemma ancestors_read_back l : ancestorsStrToInfo (ancestorsInfoToString l) = Ok l.
Proof.
  unfold ancestorsStrToInfo, ancestorsInfoToString. cbn [marshal unmarshal_slice].
  rewrite bool_decide_eq_false_2 by done. simpl.
  rewrite (omap_all_fmap _ _ id); [by rewrite list_fmap_id|].
  intros [i t n]. simpl. jfields. done.
Qed.
#[export] Hint Rewrite rules_read_back ancestors_read_back : isf.

(** ** Decisions do not depend on the order of the rows *)
Section permutation.
Context `{JsonLogic}.

#[global] Instance applicable_ops_proper data rules :
  Proper ((≡ₚ) ==> (≡ₚ)) (applicable_ops data rules).
Proof. intros ps qs E. unfold applicable_ops. by rewrite E. Qed.

#[global] Instance level_denies_proper data : Proper ((≡ₚ) ==> (=) ==> iff) (level_denies data).
Proof. intros ps qs E op ? <-. unfold level_denies. by rewrite E. Qed.

#[global] Instance level_allows_proper data : Proper ((≡ₚ) ==> (=) ==> iff) (level_allows data).
Proof. intros ps qs E op ? <-. unfold level_allows. by rewrite E. Qed.

#[global] Instance level_says_proper data : Proper ((≡ₚ) ==> (=) ==> (=)) (level_says data).
Proof.
  intros ps qs E op ? <-. unfold level_says.
  rewrite (decide_ext (level_denies data ps op) (level_denies data qs op)) by (by rewrite E).
  by rewrite (decide_ext (level_allows data ps op) (level_allows data qs op)) by (by rewrite E).
Qed.

#[global] Instance at_level_proper : Proper ((≡ₚ) ==> (=) ==> (≡ₚ)) at_level.
Proof. intros ps qs E id ? <-. unfold at_level. by rewrite E. Qed.

#[global] Instance decision_proper :
  Proper ((≡ₚ) ==> (=) ==> (=) ==> (=) ==> (=)) decision.
Proof.
  intros ps qs E r ? <- a ? <- op ? <-. unfold decision. apply nearest_ext.
  intros id _. by rewrite E.
Qed.
End permutation.

(** ** What the decision component relies on

    [live] is the multiset of policies in force.  Every read returns exactly
    the policies of [live] that its arguments select. *)
Abbreviation for_resources res toks :=
  (λ p : PolicyInfo, (pol_ResourceID p = "*" ∨ pol_ResourceID p ∈ res_ID <$> res) ∧
     pol_ResourceType p = match res with r :: _ => res_Type r | [] => "" end ∧
     pol_AccessorID p ∈ (toks : list string)) (only parsing).
Abbreviation for_type ty toks :=
  (λ p : PolicyInfo, pol_ResourceType p = ty ∧ pol_AccessorID p ∈ (toks : list string)) (only parsing).
Abbreviation for_types tys toks :=
  (λ p : PolicyInfo, pol_ResourceID p = "*" ∧ pol_ResourceType p ∈ (tys : list string) ∧
     pol_AccessorID p ∈ (toks : list string)) (only parsing).

Class PolicySource `{DBPolicyCalc} (live : list PolicyInfo) := {
  src_resources : ∀ res toks ps, res ≠ [] →
    GetPoliciesByResourcesAndAccessToken res toks = Ok ps → ps ≡ₚ filter (for_resources res toks) live;
  src_type : ∀ ty toks ps,
    GetPoliciesByResourceTypeAndAccessToken ty toks = Ok ps → ps ≡ₚ filter (for_type ty toks) live;
  src_types : ∀ tys toks ps,
    GetPoliciesByResourceTypes tys toks = Ok ps → ps ≡ₚ filter (for_types tys toks) live;
  (** No read succeeds for an accessor without any token. *)
  src_no_token : ∀ res, res ≠ [] → ∃ e, GetPoliciesByResourcesAndAccessToken res [] = Err e
}.

Section source.
Context `{GoRuntime} `{SqlEnv}.

(** The policies in force: the rows that are not expired, read. *)
Definition live_policy (row : policy_row) : option PolicyInfo :=
  if expired row then None
  else match scanPolicy row with Ok p => Some p | _ => None end.
Definition live_policies (s : store) : list PolicyInfo := omap live_policy (t_policy s).

(** A row whose rules column can be read. *)
Definition readable (row : policy_row) : Prop := ∃ rules, rulesStrToInfo (p_operation row) = Ok rules.

Lemma scanPolicy_keys row p :
  scanPolicy row = Ok p →
  pol_ID p = p_id row ∧ pol_ResourceID p = p_resource_id row ∧ pol_ResourceType p = p_resource_type row ∧
  pol_AccessorID p = p_accessor_id row ∧ pol_AccessorType p = p_accessor_type row ∧
  pol_EndTime p = p_end_time row ∧ rulesStrToInfo (p_operation row) = Ok (pol_Rules p).
Proof. unfold scanPolicy. intros Hs. obind. done. Qed.

Lemma scanLive_filter (P : policy_row → Prop) (Q : PolicyInfo → Prop)
    `{∀ r, Decision (P r)} `{∀ p, Decision (Q p)} rows ps :
  (∀ row p, scanPolicy row = Ok p → (P row ↔ Q p)) →
  scanLive (filter P rows) = Ok ps → ps = filter Q (omap live_policy rows).
Proof.
  intros HPQ. unfold scanLive. revert ps.
  induction rows as [|row rows IH]; intros ps; csimpl; [by intros [= <-]|].
  rewrite filter_cons. unfold live_policy at 1.
  destruct (decide (P row)) as [HP|HP].
  - rewrite filter_cons. destruct (expired row); simpl.
    + apply IH.
    + intros Hs. obind. rewrite E, filter_cons.
      rewrite decide_True by (by eapply HPQ). f_equal. by apply IH.
  - intros Hs. destruct (expired row); [by apply IH|].
    destruct (scanPolicy row) as [p| |] eqn:E; try by apply IH.
    rewrite filter_cons, decide_False by (by rewrite <-(HPQ _ _ E)). by apply IH.
Qed.

Lemma scanLive_perm rows rows' ps :
  rows ≡ₚ rows' → scanLive rows = Ok ps → ∃ ps', scanLive rows' = Ok ps' ∧ ps ≡ₚ ps'.
Proof.
  intros Hp. unfold scanLive.
  assert (filter (λ row, expired row = false) rows ≡ₚ filter (λ row, expired row = false) rows') as Hf
    by (by rewrite Hp).
  revert ps. induction Hf as [|x l l' _ IH|x y l|l1 l2 l3 _ IH1 _ IH2]; intros ps Hs; simpl in *.
  - naive_solver.
  - obind. edestruct IH as (ps' & -> & Hps); [done|]. rewrite E. simpl. exists (r :: ps'). by rewrite Hps.
  - obind. rewrite E, E1, E2. simpl. eexists. split; [done|]. apply Permutation_swap.
  - edestruct IH1 as (ps1 & Hs1 & Hp1); [done|]. edestruct IH2 as (ps2 & Hs2 & Hp2); [done|].
    exists ps2. by rewrite Hp1, Hp2.
Qed.

(** A query of the shape all three statements have. *)
Lemma query_source site (P : policy_row → Prop) (Q : PolicyInfo → Prop)
    `{∀ r, Decision (P r)} `{∀ p, Decision (Q p)} s ps :
  (∀ row p, scanPolicy row = Ok p → (P row ↔ Q p)) →
  scanLive (range_order site (filter P (t_policy s))) = Ok ps → ps ≡ₚ filter Q (live_policies s).
Proof.
  intros HPQ Hs. eapply scanLive_perm in Hs as (ps' & Hs' & ->); [|apply range_order_perm].
  by rewrite (scanLive_filter P Q _ _ HPQ Hs').
Qed.

Lemma resourceIDs_spec site (res : list ResourceInfo) id :
  id ∈ (range site (foldl (λ m r, <[res_ID r := true]> m) ({["*" := true]} : gmap string bool) res)).*1
  ↔ id = "*" ∨ id ∈ res_ID <$> res.
Proof.
  rewrite elem_of_range_keys, lookup_fold_true, Exists_exists, list_elem_of_fmap.
  rewrite lookup_singleton. case_decide; naive_solver.
Qed.

#[global] Instance policyCalcDB_source s : @PolicySource (policyCalcDB s) (live_policies s).
Proof.
  split; unfold policyCalcDB; simpl.
  - intros [|r0 res] toks ps Hne Hq; [done|].
    apply stmt_Ok, in_list_Ok in Hq as [_ Hq]. apply in_list_Ok in Hq as [_ Hq].
    eapply query_source; [|exact Hq]. intros row p Hs. apply scanPolicy_keys in Hs as (_&->&->&->&_).
    by rewrite resourceIDs_spec.
  - intros ty toks ps Hq. apply stmt_Ok, in_list_Ok in Hq as [_ Hq].
    eapply query_source; [|exact Hq]. intros row p Hs. by apply scanPolicy_keys in Hs as (_&_&->&->&_).
  - intros tys toks ps Hq. apply stmt_Ok, in_list_Ok in Hq as [_ Hq]. apply in_list_Ok in Hq as [_ Hq].
    eapply query_source; [|exact Hq]. intros row p Hs. by apply scanPolicy_keys in Hs as (_&->&->&->&_).
  - intros [|r0 res] Hne; [done|]. unfold policyCalcDB_GetPoliciesByResourcesAndAccessToken, stmt, in_list.
    destruct (sql_fault _); [by eexists|]. case_bool_decide; by eexists.
Qed.

Lemma Forall_filter_sub {A} (P Q : A → Prop) `{∀ x, Decision (Q x)} (l : list A) :
  Forall P l → Forall P (filter Q l).
Proof. rewrite !Forall_forall. intros HP x Hx. apply list_elem_of_filter in Hx as [_ ?]. auto. Qed.

Lemma scanPolicy_total row : readable row → ∃ p, scanPolicy row = Ok p.
Proof. intros [rules Hr]. unfold scanPolicy. rewrite Hr. simpl. eauto. Qed.

(** A query is answered when the server accepts it, there is a token, and
    every row can be read. *)
Lemma scanLive_total rows : Forall readable rows → ∃ ps, scanLive rows = Ok ps.
Proof.
  unfold scanLive. intros Hall.
  assert (Forall readable (filter (λ row, expired row = false) rows)) as Hf by (by apply Forall_filter_sub).
  induction Hf as [|row l Hr _ [ps IH]]; simpl; [eauto|].
  apply scanPolicy_total in Hr as [p Hp]. rewrite Hp. simpl. rewrite IH. simpl. eauto.
Qed.

Lemma policyCalcDB_answers s res toks :
  sql_fault "policyCalc.GetPoliciesByResourcesAndAccessToken" = None →
  toks ≠ [] → Forall readable (t_policy s) →
  ∃ ps, @GetPoliciesByResourcesAndAccessToken (policyCalcDB s) res toks = Ok ps.
Proof.
  intros Hf Ht Hall. destruct res as [|r0 res]; [by eexists|].
  cbn [GetPoliciesByResourcesAndAccessToken policyCalcDB].
  unfold policyCalcDB_GetPoliciesByResourcesAndAccessToken, stmt, in_list. rewrite Hf. rewrite bool_decide_eq_false_2.
  2: { intros E. assert ("*" ∈ @nil string) as Hin; [|by inversion Hin].
       rewrite <-E, resourceIDs_spec. by left. }
  rewrite bool_decide_eq_false_2 by done. apply scanLive_total.
  rewrite range_order_perm. by apply Forall_filter_sub.
Qed.

(** Rows written by [Create] or [Update] can be read. *)
Lemma newPolicyRow_readable n p : readable (newPolicyRow n p).
Proof. exists (stored_rules (pol_Rules p)). apply rules_read_back. Qed.
Lemma updateRow_readable p row : readable row → readable (updateRow p row).
Proof.
  unfold updateRow. case_bool_decide; [|done]. intros _.
  exists (stored_rules (pol_Rules p)). apply rules_read_back.
Qed.
End source.
#[export] Hint Resolve newPolicyRow_readable updateRow_readable : isf.
