(* ===== verification/Sample.v ===== *)
(** * A concrete deployment

    Instances of every interface and a small policy table, on which the
    general theorems are evaluated: two users in a department, one obligation,
    a document tree, and conditions of the form [{"==": [a, b]}] on the
    accessor and the creator of a resource. *)
From stdpp Require Import pretty.
From S2P Require Import Prelude Json Interfaces Common PolicyCalc Store PolicyDB.

Definition sample_runtime : GoRuntime := canonical_runtime.

(** User ["u1"] is in department ["d1"]; ["admin"] is a super administrator. *)
Definition sample_users : DrivenUserMgnt := {|
  GetUserRolesByUserID id := Ok (if bool_decide (id = "admin") then [SuperAdmin] else [NormalUser]);
  GetNameByAccessorIDs m := Ok ((λ _, "name") <$> m);
  BatchGetUserInfoByID ids := Ok (list_to_map ((λ id, (id,
    {| user_ID := id; user_VisionName := "name";
       user_ParentDeps := [[{| dep_ID := "d1"; dep_Name := "dep"; dep_Type := "department" |}]] |})) <$> ids));
  GetAccessorIDsByUserID id := Ok [id; "d1"];
  GetParentDepartmentsByDepartmentID _ := Ok []
|}.

(** [{"var": "accessor.id"}] and [{"var": "resource.created_by.id"}] *)
Definition sample_var (data : gmap string json) (e : json) : json :=
  match e with
  | JObj m =>
      match m !! "var" with
      | Some (JStr "accessor.id") =>
          match jget data "accessor" with JObj a => jget a "id" | _ => JNull end
      | Some (JStr "resource.created_by.id") =>
          match jget data "resource" with
          | JObj r => match jget r "created_by" with JObj c => jget c "id" | _ => JNull end
          | _ => JNull
          end
      | _ => e
      end
  | _ => e
  end.
Definition sample_logic : JsonLogic := {|
  ApplyInterface rule data :=
    match rule with
    | JObj m => match m !! "==" with
                | Some (JArr [a; b]) => Some (JBool (bool_decide (sample_var data a = sample_var data b)))
                | _ => None
                end
    | _ => None
    end
|}.

Definition sample_roles : LogicsRole := {|
  GetRoleByMembers ids := Ok [];
  GetRolesByIDs ids := Ok ∅
|}.

Definition sample_operation (id : string) (scope : list string) : ResourceTypeOperation :=
  {| rto_ID := id; rto_Name := []; rto_Description := ""; rto_Scope := scope |}.
Definition sample_doc_type : ResourceType :=
  {| rt_ID := "doc"; rt_Name := "document"; rt_Description := ""; rt_InstanceURL := ""; rt_DataStruct := "tree";
     rt_Operation := [sample_operation "create" [ScopeType]; sample_operation "read" [ScopeInstance];
                      sample_operation "write" [ScopeType; ScopeInstance]];
     rt_Hidden := false; rt_CreateTime := 1; rt_ModifyTime := 1 |}.
Definition sample_types : LogicsResourceType := {|
  GetByIDsInternal ids := Ok (if bool_decide ("doc" ∈ ids) then {["doc" := sample_doc_type]} else ∅);
  GetAllInternal := Ok [sample_doc_type]
|}.
Definition sample_hierarchy : LogicsResourceTypeHierarchy :=
  {| HasHierarchy _ := Ok false; Hierarchy_GetAll := Ok ∅; Hierarchy_Get _ := Ok (MkHierarchy "" []) |}.

Definition sample_obligation_store : gmap string ObligationInfo :=
  {["ob1" := {| ob_ID := "ob1"; ob_TypeID := "watermark"; ob_Name := "mark"; ob_Description := "";
               ob_Value := JStr "strong"; ob_CreatedTime := 1; ob_ModifyTime := 1 |}]}.
Definition sample_obligations : LogicsObligation := {|
  Obligation_GetByIDSInternal m := inr (omap (λ kv, sample_obligation_store !! kv.1) (map_to_list m))
|}.

Definition sample_sql : SqlEnv := {|
  sql_fault _ := None; curTime := 1000; uuid n := "uuid-" +:+ pretty n;
  begin_fault := None; commit_fault := None
|}.

(** ** Policies *)
Definition sample_op (id : string) : PolicyOperationItem :=
  {| op_ID := id; op_Name := ""; op_Obligations := [] |}.
Definition sample_rule (ops : list string) : PolicyRuleItem :=
  {| rule_Condition := JObj ∅; rule_Operations := sample_op <$> ops |}.
(** The condition "the accessor created the resource". *)
Definition sample_owner : json :=
  jobj [("==", JArr [jobj [("var", JStr "accessor.id")]; jobj [("var", JStr "resource.created_by.id")]])].
Definition sample_owner_rule (ops : list string) : PolicyRuleItem :=
  {| rule_Condition := sample_owner; rule_Operations := sample_op <$> ops |}.

Definition sample_policy (id resource accessor : string) (type : AccessorType) (endTime : Z)
    (allow deny : list PolicyRuleItem) : PolicyInfo :=
  {| pol_ID := id; pol_ResourceID := resource; pol_ResourceType := "doc"; pol_ResourceName := "";
     pol_Ancestors := []; pol_HasAncestors := false; pol_AccessorID := accessor; pol_AccessorType := type;
     pol_AccessorName := ""; pol_ParentDeps := []; pol_Rules := {| rules_Allow := allow; rules_Deny := deny |};
     pol_Condition := ""; pol_EndTime := endTime; pol_CreateTime := 0; pol_ModifyTime := 0 |}.

(** The department may read every document; folder ["f"] denies writing; ["u1"]
    may write document ["x"] until time 2000; a grant that ended at time 500. *)
Definition sample_policies : list PolicyInfo := [
  sample_policy "p1" "*" "d1" AccessorDepartment (-1) [sample_rule ["read"; "write"]] [];
  sample_policy "p2" "f/*" "d1" AccessorDepartment (-1) [] [sample_rule ["write"]];
  sample_policy "p3" "x" "u1" AccessorUser 2000 [sample_rule ["write"]] [];
  sample_policy "p4" "y" "u1" AccessorUser 500 [sample_rule ["write"]] []].

Definition sample_store_of (ps : list PolicyInfo) : store := {|
  t_policy := imap (λ i p, @newPolicyRow sample_sql (Z.of_nat i) p) ps;
  t_role := []; t_role_member := []; t_obligation := []; t_obligation_type := [];
  t_resource_type := []; t_resource_type_hierarchy := [];
  seq_primary := Z.of_nat (length ps); seq_uuid := 0
|}.
Definition sample_store : store := sample_store_of sample_policies.

Definition sample_user (id : string) : AccessorInfo := {| acc_ID := id; acc_Type := RealName; acc_Name := "" |}.
Definition sample_resource (id creator : string) (ancestors : list string) : ResourceInfo :=
  {| res_ID := id; res_Type := "doc"; res_Name := "";
     res_Ancestors := (λ a, {| anc_ID := a; anc_Type := "doc"; anc_Name := "" |}) <$> ancestors;
     res_CreatedBy := creator |}.

#[export] Existing Instances sample_runtime sample_users sample_logic sample_roles sample_types
  sample_hierarchy sample_obligations sample_sql | 100.

Example sample_check_write_x :
  @policyCalc_Check _ _ _ (policyCalcDB sample_store) _ _ (sample_resource "x" "u2" ["f"]) (sample_user "u1")
    ["read"; "write"] [] = Ok {| Result := true; OperatrionOblist := ∅ |}.
Proof. vm_compute. reflexivity. Qed.

Example sample_check_write_y :
  @policyCalc_Check _ _ _ (policyCalcDB sample_store) _ _ (sample_resource "y" "u2" ["f"]) (sample_user "u1")
    ["write"] [] = Ok {| Result := false; OperatrionOblist := ∅ |}.
Proof. vm_compute. reflexivity. Qed.
