(* ===== verification/Decision.v ===== *)
(** * Correctness of policy decisions

    The theorems on [logics/policy_calc.go] over the store: what [Check]
    answers, that the batch interfaces agree with it, which operations and
    obligations are reported, and how expiry and clean-up relate. *)
From S2P Require Import Prelude Json Interfaces Common PolicyCalc PolicyCalcSpec Store PolicyDB PolicyDBSpec Sample.

(** ** Vocabulary *)

(** The policies on resources of one type whose accessor is one of [toks]. *)
Abbreviation granted live ty toks := (filter (for_type ty toks) live).

(** Every rule of the policies is unconditional. *)
Definition unconditional (ps : list PolicyInfo) : Prop :=
  Forall (λ p, Forall (λ r, isConditionEmpty (rule_Condition r) = true)
    (rules_Allow (pol_Rules p) ++ rules_Deny (pol_Rules p))) ps.
#[global] Instance unconditional_dec ps : Decision (unconditional ps).
Proof. unfold unconditional. apply _. Defined.

(** The levels [ResourceFilter] and [GetResourceOperation] consult: the type
    level with the resource's own data, every other level with the data of the
    requested resource of that id, or none. *)
Definition batch_decision `{JsonLogic} (ps : list PolicyInfo) (resources : list ResourceInfo)
    (r : ResourceInfo) (a : AccessorInfo) (op : string) : option bool :=
  nearest (λ id,
    level_says (if bool_decide (id = "*") then check_data r a else instanceData resources a id)
      (at_level ps id) op) (decision_path r).

(** No level id of a requested resource looks like the key under which the
    type level of a requested resource is kept. *)
Definition no_collision (resources : list ResourceInfo) : Prop :=
  Forall (λ r, Forall (λ r', res_ID r' +:+ "_*" ∉ "" :: decision_path r) resources) resources.
#[global] Instance no_collision_dec resources : Decision (no_collision resources).
Proof. unfold no_collision. apply _. Defined.

(** ** Generic facts *)
Lemma string_length_app (s t : string) :
  String.length (s +:+ t) = (String.length s + String.length t)%nat.
Proof. induction s as [|c s IH]; simpl; auto. Qed.

Lemma append_inj_l (s1 s2 t : string) : s1 +:+ t = s2 +:+ t → s1 = s2.
Proof.
  revert s2. induction s1 as [|c s1 IH]; intros [|c' s2] E; [done| | |].
  - apply (f_equal String.length) in E. rewrite !string_length_app in E. simpl in E. lia.
  - apply (f_equal String.length) in E. rewrite !string_length_app in E. simpl in E. lia.
  - simpl in E. injection E as -> E. f_equal. by apply IH.
Qed.

Lemma append_star_ne (s : string) c : s +:+ String c "*" ≠ "*".
Proof. destruct s as [|c' [|]]; done. Qed.

Lemma list_bind_ext_in {A B} (f g : A → list B) (l : list A) :
  (∀ x, x ∈ l → f x = g x) → l ≫= f = l ≫= g.
Proof.
  induction l as [|x l IH]; intros Hfg; csimpl; [done|].
  rewrite Hfg by left. f_equal. apply IH. intros. apply Hfg. by right.
Qed.

(** ** Levels and data *)
Section data.
Context `{JsonLogic}.

Lemma applicable_ops_unconditional data data' rules ps :
  unconditional ps → (∀ pr r, r ∈ rules pr → r ∈ rules_Allow pr ++ rules_Deny pr) →
  applicable_ops data rules ps = applicable_ops data' rules ps.
Proof.
  intros Hu Hr. unfold applicable_ops. apply list_bind_ext_in.
  intros p Hp. apply list_bind_ext_in. intros r Hin.
  unfold unconditional in Hu. rewrite Forall_forall in Hu. specialize (Hu p Hp).
  rewrite Forall_forall in Hu. unfold rule_applies. by rewrite (Hu r (Hr _ _ Hin)).
Qed.

Lemma level_says_unconditional data data' ps op :
  unconditional ps → level_says data ps op = level_says data' ps op.
Proof.
  intros Hu. unfold level_says, level_denies, level_allows.
  rewrite (applicable_ops_unconditional data data' rules_Deny ps Hu) by set_solver.
  by rewrite (applicable_ops_unconditional data data' rules_Allow ps Hu) by set_solver.
Qed.

(** Only the policies on the levels of the path matter. *)
Lemma decision_filter (Q : PolicyInfo → Prop) `{∀ p, Decision (Q p)} ps r a op :
  (∀ p, p ∈ ps → pol_ResourceID p ∈ decision_path r → Q p) →
  decision (filter Q ps) r a op = decision ps r a op.
Proof.
  intros HQ. unfold decision. apply nearest_ext. intros id Hid. f_equal. unfold at_level.
  apply filter_filter_sub. intros p Hp <-. by apply HQ.
Qed.
End data.

Lemma elem_of_decision_path r id :
  id ∈ decision_path r ↔
  id = res_ID r ∨ id ∈ (λ a, anc_ID a +:+ "/*") <$> res_Ancestors r ∨ res_ID r ≠ "*" ∧ id = "*".
Proof. unfold decision_path. case_bool_decide; set_solver. Qed.

Lemma decision_path_ids r id :
  id ∈ decision_path r → id = "*" ∨ id ∈ res_ID <$> createAncestorsResource r.
Proof.
  rewrite elem_of_decision_path, createAncestorsResource_ids. set_solver.
Qed.

Lemma createAncestorsResource_head r :
  ∃ r0 l, createAncestorsResource r = r0 :: l ∧ res_Type r0 = res_Type r.
Proof.
  unfold createAncestorsResource.
  assert (∀ (l : list Ancestor) acc, Forall (λ x, res_Type x = res_Type r) acc →
    Forall (λ x, res_Type x = res_Type r) (foldl (λ resources ancestor,
      resources ++ [{| res_ID := anc_ID ancestor +:+ "/*"; res_Type := res_Type r;
                       res_Name := ""; res_Ancestors := []; res_CreatedBy := "" |}]) acc l)) as Hgen.
  { induction l as [|a l IH]; intros acc Hacc; simpl; [done|]. apply IH.
    apply Forall_app. split; [done|]. by repeat constructor. }
  specialize (Hgen (res_Ancestors r) [] (List.Forall_nil _)).
  destruct (foldl _ [] _) as [|x l]; [by exists r, []|].
  inversion Hgen; subst. by exists x, (l ++ [r]).
Qed.

(** ** [Check] *)
Section check_source.
Context `{GoRuntime} `{DrivenUserMgnt} `{JsonLogic} `{!DBPolicyCalc} `{LogicsRole}
  `{LogicsResourceType} `{LogicsObligation} (live : list PolicyInfo) `{!PolicySource live}.

(** No policy is configured on the empty resource id. *)
Definition named : Prop := ∀ p, p ∈ live → pol_ResourceID p ≠ "".

Lemma at_level_empty_id (P : PolicyInfo → Prop) `{∀ p, Decision (P p)} ps :
  named → ps ≡ₚ filter P live → at_level ps "" = [].
Proof.
  intros Hn Hps. apply filter_none. intros p Hp Hid. rewrite Hps in Hp.
  apply list_elem_of_filter in Hp as [_ Hp]. by apply (Hn p).
Qed.

(** What [Check] reads is enough for the decision on all granted policies. *)
Lemma read_decision r a toks ps op :
  GetPoliciesByResourcesAndAccessToken (createAncestorsResource r) toks = Ok ps →
  decision ps r a op = decision (granted live (res_Type r) toks) r a op.
Proof.
  intros Hps. destruct (createAncestorsResource_head r) as (r0 & l & Hc & Ht).
  apply src_resources in Hps; [|by rewrite Hc]. rewrite Hps.
  rewrite <-(decision_filter (for_resources (createAncestorsResource r) toks) (granted _ _ _)).
  - rewrite filter_filter_sub; [done|]. intros p _ (_ & Hty & Hacc). rewrite Hc in Hty. by rewrite <-Ht.
  - intros p Hp Hid. apply list_elem_of_filter in Hp as [[Hty Hacc] _].
    split_and!; [by apply decision_path_ids|by rewrite Hc, Ht|done].
Qed.

(** Nothing of what [Check] reads is on the empty id, unless it is asked
    about. *)
Lemma read_empty_level r toks ps :
  named ∨ res_ID r ≠ "" → GetPoliciesByResourcesAndAccessToken (createAncestorsResource r) toks = Ok ps → at_level ps "" = [].
Proof.
  intros Hn Hps. apply src_resources in Hps; [|by destruct (createAncestorsResource_head r) as (? & ? & -> & _)].
  destruct Hn as [Hn|Hn]; [by eapply at_level_empty_id|]. apply filter_none. intros p Hp Hid. rewrite Hps in Hp.
  apply list_elem_of_filter in Hp as [[Hids _] _]. rewrite Hid, createAncestorsResource_ids in Hids.
  destruct Hids as [?|Hids]; [done|]. apply elem_of_app in Hids as [(x & Hx & _)%list_elem_of_fmap|Hr%list_elem_of_singleton];
    [by destruct (anc_ID x)|done].
Qed.

Lemma Check_decision r a ops include toks ps :
  getAccessorIDs a = Ok toks →
  GetPoliciesByResourcesAndAccessToken (createAncestorsResource r) toks = Ok ps →
  named ∨ res_ID r ≠ "" →
  ∃ c, policyCalc_Check r a ops include = Ok c ∧
    (Result c = true ↔ ∀ op, op ∈ ops → decision (granted live (res_Type r) toks) r a op = Some true).
Proof.
  intros Htoks Hps Hn.
  assert (∃ c, policyCalc_Check r a ops include = Ok c) as [c Hc].
  { unfold policyCalc_Check. rewrite Htoks. simpl. rewrite Hps. simpl. case_match; eauto. }
  exists c. split; [done|].
  apply Check_Ok in Hc as (toks' & ps' & Ht' & Hp' & Hres).
  rewrite Htoks in Ht'. injection Ht' as <-. rewrite Hps in Hp'. injection Hp' as <-.
  rewrite Hres.
  - apply forall_proper. intros op. by rewrite (read_decision _ _ toks ps).
  - by eapply read_empty_level.
Qed.

Lemma Check_result r a ops include toks c :
  policyCalc_Check r a ops include = Ok c → getAccessorIDs a = Ok toks → named →
  (Result c = true ↔ ∀ op, op ∈ ops → decision (granted live (res_Type r) toks) r a op = Some true).
Proof.
  intros Hc Htoks Hn. pose proof Hc as Hc'. apply Check_Ok in Hc' as (toks' & ps & Ht' & Hps & _).
  rewrite Htoks in Ht'. injection Ht' as <-.
  destruct (Check_decision r a ops include toks ps Htoks Hps (or_introl Hn)) as (c' & Hc' & Hres).
  rewrite Hc in Hc'. by injection Hc' as <-.
Qed.
End check_source.

Section check_store.
Context `{GoRuntime} `{DrivenUserMgnt} `{JsonLogic} `{LogicsRole} `{LogicsResourceType}
  `{LogicsObligation} `{SqlEnv}.

(** A policy table that the service can read: every rules column holds what
    the decoder expects, and no row is on the empty resource id. *)
Definition table_ok (s : store) : Prop :=
  Forall (λ row, readable row ∧ p_resource_id row ≠ "") (t_policy s).

Lemma table_ok_named s : table_ok s → named (live_policies s).
Proof.
  intros Ht p Hp. unfold live_policies in Hp. apply list_elem_of_omap in Hp as (row & Hrow & Hlive).
  apply Forall_forall with (x := row) in Ht as [_ Ht]; [|done].
  unfold live_policy in Hlive. destruct (expired row); [done|].
  destruct (scanPolicy row) eqn:E; simplify_eq. apply scanPolicy_keys in E as (_ & -> & _). done.
Qed.

(** C1. [Check] is total on a readable table for an accessor with at least
    one token, and grants exactly the operations that the abstract decision
    allows: along the resource, its ancestors from the nearest to the
    farthest, and its type, the first level that mentions the operation in
    an applicable, unexpired rule of one of the accessor's identities
    decides, and inside a level a deny wins. *)
Theorem Check_decides s resource accessor ops include toks :
  table_ok s →
  sql_fault "policyCalc.GetPoliciesByResourcesAndAccessToken" = None →
  getAccessorIDs accessor = Ok toks → toks ≠ [] →
  ∃ c, @policyCalc_Check _ _ _ (policyCalcDB s) _ _ resource accessor ops include = Ok c ∧
    (Result c = true ↔
     ∀ op, op ∈ ops →
       decision (granted (live_policies s) (res_Type resource) toks) resource accessor op = Some true).
Proof.
  intros Ht Hf Htoks Hne.
  destruct (policyCalcDB_answers s (createAncestorsResource resource) toks Hf Hne) as [ps Hps].
  { eapply Forall_impl; [exact Ht|]. naive_solver. }
  eapply (@Check_decision _ _ _ (policyCalcDB s)); [apply _|done|done|left; by apply table_ok_named].
Qed.
End check_store.

Lemma sample_table_ok ps : Forall (λ p, pol_ResourceID p ≠ "") ps → table_ok (sample_store_of ps).
Proof.
  intros Hps. unfold table_ok, sample_store_of. apply Forall_lookup. intros i row. simpl.
  rewrite list_lookup_imap. intros (p & Hp & ->)%fmap_Some. split; [apply newPolicyRow_readable|].
  by eapply (Forall_lookup_1 _ _ _ _ Hps).
Qed.

Lemma Check_decides_witness :
  ∃ c, @policyCalc_Check _ _ _ (policyCalcDB sample_store) _ _
         (sample_resource "x" "u2" ["f"]) (sample_user "u1") ["write"] [] = Ok c ∧
    (Result c = true ↔ ∀ op, op ∈ ["write"] →
       decision (granted (live_policies sample_store) "doc" ["u1"; "d1"; rootDepID])
         (sample_resource "x" "u2" ["f"]) (sample_user "u1") op = Some true).
Proof.
  apply (Check_decides sample_store (sample_resource "x" "u2" ["f"]) (sample_user "u1") ["write"] []);
    [|reflexivity|reflexivity|done].
  apply sample_table_ok. by repeat constructor.
Defined.

(** ** The batch interfaces *)
Section batch.
Context `{GoRuntime} `{JsonLogic}.
Implicit Types (ps : list PolicyInfo) (op id : string) (r : ResourceInfo).

Lemma splitTypePolicies_spec ps :
  splitTypePolicies ps =
  (group_by pol_ResourceID (filter (λ p, pol_ResourceID p ≠ "*") ps), at_level ps "*").
Proof.
  unfold splitTypePolicies, group_by, at_level.
  assert (∀ m l, foldl (λ acc p, let '(policyMap, typePolicies) := acc in
      if bool_decide (pol_ResourceID p = "*") then (policyMap, typePolicies ++ [p])
      else (mappend (pol_ResourceID p) [p] policyMap, typePolicies)) (m, l) ps
    = (foldl (λ m x, mappend (pol_ResourceID x) [x] m) m (filter (λ p, pol_ResourceID p ≠ "*") ps),
       l ++ filter (λ p, pol_ResourceID p = "*") ps)) as Hgen; [|by rewrite Hgen].
  induction ps as [|p ps IH]; intros m l; simpl; [by rewrite app_nil_r|].
  rewrite !filter_cons. case_bool_decide as E.
  - rewrite IH, decide_False, decide_True by naive_solver. by rewrite <-app_assoc.
  - rewrite IH, decide_True, decide_False by done. done.
Qed.

Lemma perm_at_split site data ps id :
  id ≠ "*" →
  perm_at (permOfGroups site data (splitTypePolicies ps).1 ∅) id
  = calcOneResourcePerm (data id) (at_level ps id).
Proof.
  intros Hid. rewrite splitTypePolicies_spec. simpl. rewrite perm_at_groups. f_equal.
  unfold at_level. apply filter_filter_sub. naive_solver.
Qed.

(** The key under which the type level of a resource is kept. *)
Definition type_key (r : ResourceInfo) : string :=
  if bool_decide (res_ID r = "*") then "*" else res_ID r +:+ "_*".

Lemma addTypePerms_insert resources a tps m :
  addTypePerms resources a tps m =
  foldl (λ m r, <[type_key r := calcOneResourcePerm (check_data r a) tps]> m) m resources.
Proof.
  unfold addTypePerms. apply foldl_ext_in. intros m' r _. unfold type_key, check_data.
  case_bool_decide as E; by rewrite ?E.
Qed.

Lemma type_key_NoDup resources : NoDup (res_ID <$> resources) → NoDup (type_key <$> resources).
Proof.
  induction resources as [|r l IH]; csimpl; [done|]. rewrite !NoDup_cons. intros [Hr Hnd].
  split; [|by apply IH]. intros Hin. apply Hr. apply list_elem_of_fmap in Hin as (r' & Heq & Hin).
  apply list_elem_of_fmap. exists r'. split; [|done]. unfold type_key in Heq.
  repeat case_bool_decide; try congruence.
  - exfalso. by eapply append_star_ne.
  - exfalso. by eapply append_star_ne.
  - by eapply append_inj_l.
Qed.

Lemma ancestor_ne_star (a : Ancestor) : anc_ID a +:+ "/*" ≠ "*".
Proof. apply append_star_ne. Qed.

(** The permissions the batch interfaces look up for one resource. *)
Lemma perm_at_batch site ps resources a r id :
  NoDup (res_ID <$> resources) → no_collision resources → r ∈ resources →
  id ∈ "" :: decision_path r → id ≠ "*" →
  perm_at (addTypePerms resources a (splitTypePolicies ps).2
    (permOfGroups site (instanceData resources a) (splitTypePolicies ps).1 ∅)) id
  = calcOneResourcePerm (instanceData resources a id) (at_level ps id).
Proof.
  intros Hnd Hcol Hr Hid Hstar. rewrite <-(perm_at_split site) by done.
  unfold perm_at. rewrite addTypePerms_insert, foldl_insert_out; [done|].
  intros r' Hr'. unfold type_key. case_bool_decide; [done|].
  intros <-. unfold no_collision in Hcol. rewrite Forall_forall in Hcol. specialize (Hcol r Hr).
  rewrite Forall_forall in Hcol. by apply (Hcol r').
Qed.

Lemma perm_at_type_key ps resources a r m :
  NoDup (res_ID <$> resources) → r ∈ resources →
  perm_at (addTypePerms resources a (splitTypePolicies ps).2 m) (type_key r)
  = calcOneResourcePerm (check_data r a) (at_level ps "*").
Proof.
  intros Hnd Hr. unfold perm_at. rewrite addTypePerms_insert, splitTypePolicies_spec. simpl.
  rewrite (foldl_insert_in type_key) by (done || by apply type_key_NoDup). done.
Qed.

Lemma resourceTmpMap_lookup resources r :
  NoDup (res_ID <$> resources) → r ∈ resources →
  resourceTmpMap resources !! res_ID r = Some (createAncestorsResource r).
Proof. intros. unfold resourceTmpMap. by apply (foldl_insert_in res_ID createAncestorsResource). Qed.

Lemma nearest_map says says' (path : list string) (f : string → string) :
  (∀ id, id ∈ path → says (f id) = says' id) → nearest says (f <$> path) = nearest says' path.
Proof.
  induction path as [|id path IH]; intros Hs; csimpl; [done|].
  rewrite Hs by left. case_match; [done|]. apply IH. intros. apply Hs. by right.
Qed.

(** The ids visited for one resource: its path with the type level renamed. *)
Lemma levelIDs_type_key r :
  levelIDs (createAncestorsResource r) (lastResourceID (createAncestorsResource r) +:+ "_*") =
  replicate (length (createAncestorsResource r)) "" ++
  ((λ id, if bool_decide (id = "*") then type_key r else id) <$> decision_path r).
Proof.
  rewrite lastResourceID_create, levelIDs_create. f_equal. unfold decision_path, type_key. csimpl.
  case_bool_decide as Hs; csimpl.
  - rewrite ?Hs, ?bool_decide_eq_true_2 by done. f_equal. rewrite !app_nil_r.
    rewrite <-fmap_reverse, <-list_fmap_compose. apply list_fmap_ext. intros i a _. simpl.
    by rewrite bool_decide_eq_false_2 by apply ancestor_ne_star.
  - f_equal. rewrite fmap_app. f_equal.
    rewrite <-fmap_reverse, <-list_fmap_compose. apply list_fmap_ext. intros i a _. simpl.
    by rewrite bool_decide_eq_false_2 by apply ancestor_ne_star.
Qed.

(** The inherited maps both batch interfaces compute for one resource. *)
Lemma batch_inherited site ps resources a r op :
  NoDup (res_ID <$> resources) → no_collision resources → r ∈ resources → at_level ps "" = [] →
  let inh := calcResourceInheritedOperationEx (createAncestorsResource r)
    (addTypePerms resources a (splitTypePolicies ps).2
      (permOfGroups site (instanceData resources a) (splitTypePolicies ps).1 ∅)) in
  let d := batch_decision ps resources r a op in
  mget (in_allow inh) op = bool_decide (d = Some true) ∧
  mget (in_deny inh) op = bool_decide (d = Some false).
Proof.
  intros Hnd Hcol Hr He. unfold calcResourceInheritedOperationEx.
  edestruct inherit_from_zero as (Ha & Hd & _). rewrite Ha, Hd. clear Ha Hd.
  rewrite levelIDs_type_key.
  rewrite nearest_replicate.
  2: { rewrite (perm_at_batch site ps resources a r) by (done || left).
       by rewrite He, perm_says_calcOne, level_says_nil. }
  rewrite (nearest_map _ (λ id, level_says
    (if bool_decide (id = "*") then check_data r a else instanceData resources a id) (at_level ps id) op)).
  - done.
  - intros id Hid. case_bool_decide as Hs.
    + rewrite perm_at_type_key by done. subst. by rewrite perm_says_calcOne.
    + rewrite (perm_at_batch site ps resources a r) by (done || by right). by rewrite perm_says_calcOne.
Qed.
End batch.

(** The allow map of the inheritance routines only ever holds [true]. *)
Section allow_keys.
Context `{GoRuntime}.

Lemma inherit_in_allow_true perm ids acc op b :
  (∀ b, in_allow acc !! op = Some b → b = true) →
  in_allow (foldl (inherit_level perm) acc ids) !! op = Some b → b = true.
Proof.
  revert acc b. induction ids as [|id ids IH]; intros acc b Hacc; simpl; [apply Hacc|].
  apply IH. clear IH b. intros b. unfold inherit_level.
  destruct (inherit_deny_fold acc (range 1 (rp_deny (default resourcePerm_zero (perm !! id)))).*1) as (Ha & _).
  revert Hacc. rewrite <-Ha. clear Ha. generalize (foldl inherit_deny acc
    (range 1 (rp_deny (default resourcePerm_zero (perm !! id)))).*1) as acc1.
  generalize (range 2 (rp_allow (default resourcePerm_zero (perm !! id)))) as kvs.
  induction kvs as [|[k v] kvs IH]; intros acc1 Hacc; simpl; [apply Hacc|].
  apply IH. intros b'. unfold inherit_allow. repeat case_match; simpl; try apply Hacc.
  all: rewrite lookup_insert; case_decide; [naive_solver|apply Hacc].
Qed.

Lemma in_allow_keys site perm ids op :
  let inh := foldl (inherit_level perm) inherited_zero ids in
  op ∈ (range site (in_allow inh)).*1 ↔ mget (in_allow inh) op = true.
Proof.
  cbv zeta. rewrite elem_of_range_keys. unfold mget.
  destruct (in_allow _ !! op) as [b|] eqn:E; simpl; [|split; [by intros [? [=]]|done]].
  apply inherit_in_allow_true in E as ->; [naive_solver|]. intros b'. simpl. by rewrite lookup_empty.
Qed.
End allow_keys.

(** The loop of [ResourceFilter] over the requested resources. *)
Lemma foldl_select {A V W} (bad : A → bool) (k : A → string) (f : A → V) (g : A → W) (inc : bool)
    (l : list A) res (m1 : gmap string V) (m2 : gmap string W) :
  foldl (λ acc x, let '(res, m1, m2) := acc in
    if bad x then acc
    else (res ++ [x], <[k x := f x]> m1, if inc then <[k x := g x]> m2 else m2)) (res, m1, m2) l
  = (res ++ filter (λ x, bad x = false) l,
     foldl (λ m x, <[k x := f x]> m) m1 (filter (λ x, bad x = false) l),
     if inc then foldl (λ m x, <[k x := g x]> m) m2 (filter (λ x, bad x = false) l) else m2).
Proof.
  revert res m1 m2. induction l as [|x l IH]; intros res m1 m2; simpl.
  { rewrite app_nil_r. by destruct inc. }
  rewrite filter_cons. destruct (bad x); simpl; rewrite IH; [done|].
  destruct inc; by rewrite <-app_assoc.
Qed.

Section batch_source.
Context `{GoRuntime} `{DrivenUserMgnt} `{JsonLogic} `{!DBPolicyCalc} `{LogicsRole}
  `{LogicsResourceType} `{LogicsObligation} (live : list PolicyInfo) `{!PolicySource live}.
Implicit Types (r : ResourceInfo) (resources : list ResourceInfo).

(** The requests the batch interfaces are made for: distinct ids, one resource
    type, and no two levels that share a key.  Neither the handlers nor their
    schemas enforce it; [ResourceFilter_mixed_types] and
    [ResourceFilter_same_ids] show what happens otherwise. *)
Record batch_request (resources : list ResourceInfo) (ty : string) : Prop := {
  br_distinct : NoDup (res_ID <$> resources);
  br_type : ∀ r, r ∈ resources → res_Type r = ty;
  br_keys : no_collision resources
}.

Lemma allResources_spec resources : allResources resources = resources ≫= createAncestorsResource.
Proof.
  unfold allResources. assert (∀ acc, foldl (λ l r, l ++ createAncestorsResource r) acc resources
    = acc ++ (resources ≫= createAncestorsResource)) as H9; [|apply H9].
  induction resources as [|r l IH]; intros acc; csimpl; [by rewrite app_nil_r|].
  by rewrite IH, <-app_assoc.
Qed.

(** What the batch read returns is enough for every requested resource. *)
Lemma batch_read_decision resources ty toks ps r a op :
  batch_request resources ty → r ∈ resources →
  GetPoliciesByResourcesAndAccessToken (allResources resources) toks = Ok ps →
  batch_decision ps resources r a op = batch_decision (granted live ty toks) resources r a op ∧
  (named live → at_level ps "" = []).
Proof.
  intros [Hnd Hty _] Hr Hps.
  assert (∃ r0 l, allResources resources = r0 :: l ∧ res_Type r0 = ty) as (r0 & l & Ha & Ht).
  { rewrite allResources_spec. destruct resources as [|r1 l1]; [by inversion Hr|]. csimpl.
    destruct (createAncestorsResource_head r1) as (r0 & l & -> & Ht).
    eexists r0, _. split; [done|]. rewrite Ht. apply Hty. left. }
  apply src_resources in Hps; [|by rewrite Ha].
  split; [|intros Hn; by eapply at_level_empty_id].
  unfold batch_decision. apply nearest_ext. intros id Hid.
  rewrite Hps. f_equal. unfold at_level.
  rewrite <-(filter_filter_sub (λ p, pol_ResourceID p = id) (for_resources (allResources resources) toks)
    (granted live ty toks)).
  - f_equal. symmetry. apply filter_filter_sub. intros p _ (_ & Hpt & Hpa). rewrite Ha in Hpt.
    by rewrite <-Ht.
  - intros p Hp <-. apply list_elem_of_filter in Hp as [[Hpt Hpa] _]. split_and!; [|by rewrite Ha, Ht|done].
    apply decision_path_ids in Hid as [?|Hid]; [by left|right].
    rewrite allResources_spec. apply list_elem_of_fmap in Hid as (x & -> & Hx).
    apply list_elem_of_fmap_2. apply list_elem_of_bind. eauto.
Qed.

Lemma ResourceFilter_spec resources ty a ops include res opMap oblMap toks :
  batch_request resources ty → named live → getAccessorIDs a = Ok toks →
  policyCalc_ResourceFilter resources a ops include = Ok (res, opMap, oblMap) →
  res = filter (λ r, Forall (λ op, batch_decision (granted live ty toks) resources r a op = Some true) ops)
          resources ∧
  ∀ r, r ∈ res → ∃ l, opMap !! res_ID r = Some l ∧
    ∀ op, op ∈ l ↔ batch_decision (granted live ty toks) resources r a op = Some true.
Proof.
  intros Hb Hn Htoks. unfold policyCalc_ResourceFilter. case_bool_decide as Hnil.
  { intros [= <- <- <-]. subst. split; [done|]. intros r Hr. by inversion Hr. }
  intros Hf. obind. rewrite Htoks in E. injection E as <-.
  destruct (splitTypePolicies r0) as [policyMap typePolicies] eqn:Es. obind.
  set (perm := addTypePerms _ _ _ _) in *.
  assert (∀ r op, r ∈ resources →
    let inh := calcResourceInheritedOperationEx (default [] (resourceTmpMap resources !! res_ID r)) perm in
    let d := batch_decision (granted live ty toks) resources r a op in
    mget (in_allow inh) op = bool_decide (d = Some true) ∧
    mget (in_deny inh) op = bool_decide (d = Some false)) as Hinh.
  { intros r op Hr. destruct (batch_read_decision resources ty toks r0 r a op Hb Hr E0) as [<- He].
    rewrite resourceTmpMap_lookup by (apply Hb || done). cbn [default].
    pose proof (batch_inherited 9 r0 resources a r op (br_distinct _ _ Hb) (br_keys _ _ Hb) Hr (He Hn)) as Hbi.
    by rewrite Es in Hbi. }
  rewrite (foldl_select
    (λ r, refused (calcResourceInheritedOperationEx (default [] (resourceTmpMap resources !! res_ID r)) perm) ops)
    res_ID
    (λ r, (range 10 (in_allow (calcResourceInheritedOperationEx (default [] (resourceTmpMap resources !! res_ID r)) perm))).*1)
    (λ r, calcObligationWithPriority (in_obl (calcResourceInheritedOperationEx (default [] (resourceTmpMap resources !! res_ID r)) perm)))) in Hf.
  injection Hf as <- <- _. split.
  - apply filter_same_in. intros r Hr. rewrite Forall_forall. apply refused_nearest.
    intros op. by apply Hinh.
  - intros r Hr. eexists. split.
    + apply foldl_insert_in; [|done]. apply NoDup_fmap_filter, Hb.
    + intros op. apply list_elem_of_filter in Hr as [_ Hr]. unfold calcResourceInheritedOperationEx at 1.
      rewrite in_allow_keys. fold (calcResourceInheritedOperationEx
        (default [] (resourceTmpMap resources !! res_ID r)) perm).
      destruct (Hinh r op Hr) as [-> _]. by rewrite bool_decide_eq_true.
Qed.

(** Where the two batch data conventions coincide with [Check]'s. *)
Definition plain_ancestors (resources : list ResourceInfo) (ps : list PolicyInfo) : Prop :=
  Forall (λ r, Forall (λ anc, unconditional (at_level ps (anc_ID anc +:+ "/*"))) (res_Ancestors r)) resources.
#[global] Instance plain_ancestors_dec resources ps : Decision (plain_ancestors resources ps).
Proof. unfold plain_ancestors. apply _. Defined.

Lemma plain_ancestors_at resources ps r anc :
  plain_ancestors resources ps → r ∈ resources → anc ∈ res_Ancestors r →
  unconditional (at_level ps (anc_ID anc +:+ "/*")).
Proof.
  unfold plain_ancestors. rewrite Forall_forall. intros Hu Hr Ha. specialize (Hu r Hr).
  rewrite Forall_forall in Hu. by apply Hu.
Qed.

Lemma batch_decision_check ps resources r a op :
  NoDup (res_ID <$> resources) → r ∈ resources → plain_ancestors resources ps →
  batch_decision ps resources r a op = decision ps r a op.
Proof.
  intros Hnd Hr Hu. unfold batch_decision, decision. apply nearest_ext. intros id Hid.
  case_bool_decide as Hs; [done|].
  apply elem_of_decision_path in Hid as [->|[Hid|[_ Hid]]]; [| |done].
  - unfold instanceData, resourceDataMap, check_data.
    rewrite (foldl_insert_in res_ID id) by done. by rewrite bool_decide_eq_false_2.
  - apply list_elem_of_fmap in Hid as (anc & -> & Hanc).
    apply level_says_unconditional. by eapply plain_ancestors_at.
Qed.
End batch_source.

(** ** Agreement of the interfaces *)
Section agreement.
Context `{GoRuntime} `{DrivenUserMgnt} `{JsonLogic} `{!DBPolicyCalc} `{LogicsRole}
  `{LogicsResourceType} `{LogicsObligation} (live : list PolicyInfo) `{!PolicySource live}.

Lemma unconditional_sub (ps qs : list PolicyInfo) :
  (∀ p, p ∈ ps → p ∈ qs) → unconditional qs → unconditional ps.
Proof. unfold unconditional. rewrite !Forall_forall. auto. Qed.

Lemma plain_ancestors_granted resources ty toks :
  plain_ancestors resources live → plain_ancestors resources (granted live ty toks).
Proof.
  intros Hu. apply Forall_forall. intros r Hr. apply Forall_forall. intros anc Ha.
  eapply unconditional_sub; [|by apply (plain_ancestors_at _ _ r anc Hu)].
  intros p Hp. unfold at_level in *. apply list_elem_of_filter in Hp as [Hid Hp].
  apply list_elem_of_filter in Hp as [_ Hp]. by apply list_elem_of_filter.
Qed.

(** C11. On a request of resources of one type with distinct ids, whose
    ancestor levels carry no conditional rule and no key of another level,
    and over live policies none of which is configured on the empty resource
    id, [ResourceFilter] keeps exactly the resources for which [Check] answers
    yes, in the order of the request.  The interface accepts other requests
    too, and there the two disagree. *)
Theorem ResourceFilter_agrees_with_Check resources ty a ops include include' res opMap oblMap :
  batch_request resources ty → named live → plain_ancestors resources live →
  policyCalc_ResourceFilter resources a ops include = Ok (res, opMap, oblMap) →
  res `sublist_of` resources ∧
  ∀ r c, r ∈ resources → policyCalc_Check r a ops include' = Ok c → (r ∈ res ↔ Result c = true).
Proof.
  intros Hb Hn Hu Hf.
  destruct (decide (resources = [])) as [->|Hne].
  { unfold policyCalc_ResourceFilter in Hf. simpl in Hf. simplify_eq. split; [done|]. set_solver. }
  assert (∃ toks, getAccessorIDs a = Ok toks) as [toks Htoks].
  { unfold policyCalc_ResourceFilter in Hf. rewrite bool_decide_eq_false_2 in Hf by done. obind. eauto. }
  destruct (ResourceFilter_spec live _ _ _ _ _ _ _ _ _ Hb Hn Htoks Hf) as [-> _].
  split; [apply sublist_filter|]. intros r c Hr Hc.
  rewrite (Check_result live r a ops include' toks c Hc Htoks Hn).
  rewrite list_elem_of_filter, Forall_forall, (br_type _ _ Hb r Hr).
  setoid_rewrite (batch_decision_check (granted live ty toks) resources r a) at 1;
    [naive_solver|apply Hb|done|by apply plain_ancestors_granted].
Qed.
End agreement.

Lemma ResourceFilter_agrees_with_Check_witness :
  let resources := [sample_resource "x" "u2" ["f"]; sample_resource "y" "u2" ["f"]] in
  let db := policyCalcDB sample_store in
  ∃ res opMap oblMap,
    @policyCalc_ResourceFilter _ _ _ db _ _ resources (sample_user "u1") ["write"] [] = Ok (res, opMap, oblMap) ∧
    res `sublist_of` resources ∧
    ∀ r c, r ∈ resources → @policyCalc_Check _ _ _ db _ _ r (sample_user "u1") ["write"] [] = Ok c →
      (r ∈ res ↔ Result c = true).
Proof.
  cbv zeta.
  destruct (@policyCalc_ResourceFilter _ _ _ (policyCalcDB sample_store) _ _
    [sample_resource "x" "u2" ["f"]; sample_resource "y" "u2" ["f"]] (sample_user "u1") ["write"] [])
    as [[[res opMap] oblMap]|e|w] eqn:E; [|vm_compute in E; discriminate E..].
  exists res, opMap, oblMap. split; [done|].
  apply (@ResourceFilter_agrees_with_Check _ _ _ (policyCalcDB sample_store) _ _ (live_policies sample_store)
    (policyCalcDB_source sample_store) _ "doc" (sample_user "u1") ["write"] [] [] res opMap oblMap);
    [| | |exact E].
  - split.
    + by_decision.
    + apply Forall_forall. by repeat constructor.
    + by_decision.
  - apply table_ok_named, sample_table_ok. by repeat constructor.
  - by_decision.
Defined.

(** The hypothesis on ancestor levels is needed.  A folder rule "whoever
    created the document may write it" is evaluated by [Check] on the
    document's data, and by [ResourceFilter] on an empty data map, where both
    sides of the comparison are null: the filter keeps a document that [Check]
    refuses. *)
Definition ancestor_condition_store : store :=
  sample_store_of [sample_policy "p1" "f/*" "u1" AccessorUser (-1) [sample_owner_rule ["write"]] []].

Example ResourceFilter_ancestor_condition :
  let db := policyCalcDB ancestor_condition_store in
  let r := sample_resource "x" "u2" ["f"] in
  @policyCalc_Check _ _ _ db _ _ r (sample_user "u1") ["write"] []
    = Ok {| Result := false; OperatrionOblist := ∅ |} ∧
  ∃ opMap oblMap,
    @policyCalc_ResourceFilter _ _ _ db _ _ [r] (sample_user "u1") ["write"] [] = Ok ([r], opMap, oblMap).
Proof. split; [vm_compute; reflexivity|]. do 2 eexists. vm_compute. reflexivity. Qed.

(** So are one type and distinct ids.  The policies of a request are read for
    the type of its first resource: an application in a request that starts
    with a document is kept by a rule on all documents.  And of two entries
    with one id, both are decided on the data of one of them: here the rule
    "whoever created it" keeps both or refuses both. *)
Example ResourceFilter_mixed_types :
  let db := policyCalcDB sample_store in
  let x := sample_resource "x" "u2" [] in
  let app := {| res_ID := "a"; res_Type := "app"; res_Name := ""; res_Ancestors := []; res_CreatedBy := "u2" |} in
  @policyCalc_Check _ _ _ db _ _ app (sample_user "u1") ["read"] [] = Ok {| Result := false; OperatrionOblist := ∅ |} ∧
  ∃ opMap oblMap,
    @policyCalc_ResourceFilter _ _ _ db _ _ [x; app] (sample_user "u1") ["read"] [] = Ok ([x; app], opMap, oblMap).
Proof. split; [vm_compute; reflexivity|]. do 2 eexists. vm_compute. reflexivity. Qed.
Example ResourceFilter_same_ids :
  let db := policyCalcDB (sample_store_of [sample_policy "p1" "x" "u1" AccessorUser (-1) [sample_owner_rule ["write"]] []]) in
  let own := sample_resource "x" "u1" [] in
  let other := sample_resource "x" "u2" [] in
  (Result <$> @policyCalc_Check _ _ _ db _ _ own (sample_user "u1") ["write"] []) = Ok true ∧
  (Result <$> @policyCalc_Check _ _ _ db _ _ other (sample_user "u1") ["write"] []) = Ok false ∧
  (∃ opMap oblMap, @policyCalc_ResourceFilter _ _ _ db _ _ [other; own] (sample_user "u1") ["write"] [] = Ok ([other; own], opMap, oblMap)) ∧
  ∃ opMap oblMap, @policyCalc_ResourceFilter _ _ _ db _ _ [own; other] (sample_user "u1") ["write"] [] = Ok ([], opMap, oblMap).
Proof. split_and!; [vm_compute; reflexivity..| |]; do 2 eexists; vm_compute; reflexivity. Qed.

(** ** Reported operations *)
Section scopes.
(** The resource type declares the operation with that scope. *)
Definition in_scope (rt : ResourceType) (scope op : string) : Prop :=
  Exists (λ o, rto_ID o = op ∧ scope ∈ rto_Scope o) (rt_Operation rt).

Lemma scopes_fold (o : ResourceTypeOperation) (l : list string) (acc : gmap string bool * gmap string bool) op :
  let acc' := foldl (λ acc scope,
    let '(typeOperationMap, instanceOperationMap) := acc in
    if bool_decide (scope = ScopeType) then (<[rto_ID o := true]> typeOperationMap, instanceOperationMap)
    else if bool_decide (scope = ScopeInstance) then (typeOperationMap, <[rto_ID o := true]> instanceOperationMap)
    else acc) acc l in
  (mget acc'.1 op = true ↔ mget acc.1 op = true ∨ rto_ID o = op ∧ ScopeType ∈ l) ∧
  (mget acc'.2 op = true ↔ mget acc.2 op = true ∨ rto_ID o = op ∧ ScopeInstance ∈ l).
Proof.
  revert acc. induction l as [|sc l IH]; intros [tm im]; simpl; [set_solver|].
  destruct (decide (sc = ScopeType)) as [->|Ht].
  { rewrite (bool_decide_eq_true_2 (ScopeType = ScopeType)) by done.
    destruct (IH (<[rto_ID o := true]> tm, im)) as [-> ->]. simpl.
    rewrite mget_insert, orb_true_iff, bool_decide_eq_true, !elem_of_cons.
    assert (ScopeInstance ≠ ScopeType) by done. naive_solver. }
  rewrite (bool_decide_eq_false_2 (sc = ScopeType)) by done.
  destruct (decide (sc = ScopeInstance)) as [->|Hi].
  { rewrite (bool_decide_eq_true_2 (ScopeInstance = ScopeInstance)) by done.
    destruct (IH (tm, <[rto_ID o := true]> im)) as [-> ->]. simpl.
    rewrite mget_insert, orb_true_iff, bool_decide_eq_true, !elem_of_cons. naive_solver. }
  rewrite bool_decide_eq_false_2 by done. destruct (IH (tm, im)) as [-> ->].
  rewrite !elem_of_cons. naive_solver.
Qed.

Lemma getTypeAndInstanceOperation_spec rt op :
  (mget (getTypeAndInstanceOperation rt).1 op = true ↔ in_scope rt ScopeType op) ∧
  (mget (getTypeAndInstanceOperation rt).2 op = true ↔ in_scope rt ScopeInstance op).
Proof.
  unfold getTypeAndInstanceOperation, in_scope.
  assert (∀ (l : list ResourceTypeOperation) acc,
    let acc' := foldl (λ acc operation, foldl (λ acc scope,
      let '(typeOperationMap, instanceOperationMap) := acc in
      if bool_decide (scope = ScopeType) then (<[rto_ID operation := true]> typeOperationMap, instanceOperationMap)
      else if bool_decide (scope = ScopeInstance) then (typeOperationMap, <[rto_ID operation := true]> instanceOperationMap)
      else acc) acc (rto_Scope operation)) acc l in
    (mget acc'.1 op = true ↔ mget acc.1 op = true ∨ Exists (λ o, rto_ID o = op ∧ ScopeType ∈ rto_Scope o) l) ∧
    (mget acc'.2 op = true ↔ mget acc.2 op = true ∨ Exists (λ o, rto_ID o = op ∧ ScopeInstance ∈ rto_Scope o) l)) as Hgen.
  { induction l as [|o l IH]; intros acc; simpl; [rewrite !Exists_nil; tauto|].
    edestruct IH as [-> ->].
    destruct (scopes_fold o (rto_Scope o) acc op) as [-> ->]. rewrite !Exists_cons. tauto. }
  destruct (Hgen (rt_Operation rt) (∅, ∅)) as [-> ->]. simpl. rewrite mget_empty. naive_solver.
Qed.

Lemma checkOperationScope_spec rt id op :
  checkOperationScope id op (getTypeAndInstanceOperation rt).1 (getTypeAndInstanceOperation rt).2 = true ↔
  in_scope rt (if bool_decide (id = "*") then ScopeType else ScopeInstance) op.
Proof.
  unfold checkOperationScope. destruct (getTypeAndInstanceOperation_spec rt op).
  by case_bool_decide.
Qed.
End scopes.

(** The loop of [GetResourceOperation] over the requested resources. *)
Lemma foldl_two_maps {A V W} (k : A → string) (f : A → V) (g : A → W) (l : list A) m1 m2 :
  foldl (λ acc x, let '(m1, m2) := acc in (<[k x := f x]> m1, <[k x := g x]> m2))
    (m1 : gmap string V, m2 : gmap string W) l
  = (foldl (λ m x, <[k x := f x]> m) m1 l, foldl (λ m x, <[k x := g x]> m) m2 l).
Proof. revert m1 m2. induction l as [|x l IH]; intros m1 m2; simpl; [done|]. by rewrite IH. Qed.

Section operations.
Context `{GoRuntime} `{DrivenUserMgnt} `{JsonLogic} `{!DBPolicyCalc} `{LogicsRole}
  `{LogicsResourceType} `{LogicsObligation} (live : list PolicyInfo) `{!PolicySource live}.

(** Leaving out the type loop when there is no type policy changes nothing. *)
Lemma perm_at_no_type resources a m id :
  NoDup (type_key <$> resources) →
  (∀ r, r ∈ resources → perm_at m (type_key r) = resourcePerm_zero) →
  perm_at (addTypePerms resources a [] m) id = perm_at m id.
Proof.
  intros Hnd Hm. unfold perm_at at 1. rewrite addTypePerms_insert.
  destruct (decide (Exists (λ r, type_key r = id) resources)) as [Hex|Hnex].
  - apply Exists_exists in Hex as (r & Hr & <-).
    rewrite (foldl_insert_in type_key), Hm by done. done.
  - rewrite foldl_insert_out; [done|]. intros r Hr Heq. apply Hnex, Exists_exists. eauto.
Qed.

(** The batch read never returns a policy on a type key. *)
Lemma batch_type_key_free site data resources ty toks ps r :
  batch_request resources ty → r ∈ resources →
  GetPoliciesByResourcesAndAccessToken (allResources resources) toks = Ok ps →
  perm_at (permOfGroups site data (splitTypePolicies ps).1 ∅) (type_key r) = resourcePerm_zero.
Proof.
  intros [Hnd Hty Hcol] Hr Hps. rewrite splitTypePolicies_spec. simpl. rewrite perm_at_groups.
  destruct (at_level _ (type_key r)) as [|p l] eqn:E; [done|]. exfalso.
  apply filter_cons_elem in E as [Hid Hp]. apply list_elem_of_filter in Hp as [Hs Hp].
  unfold type_key in Hid. case_bool_decide; [done|].
  apply src_resources in Hps.
  2: { rewrite allResources_spec. destruct resources as [|r1 rs]; [by inversion Hr|]. csimpl.
       by destruct (createAncestorsResource_head r1) as (? & ? & -> & _). }
  rewrite Hps in Hp. apply list_elem_of_filter in Hp as [([?|Hin] & _) _]; [done|].
  rewrite allResources_spec in Hin. apply list_elem_of_fmap in Hin as (x & Hx & Hin).
  apply list_elem_of_bind in Hin as (r' & Hin & Hr').
  unfold no_collision in Hcol. rewrite Forall_forall in Hcol. specialize (Hcol r' Hr').
  rewrite Forall_forall in Hcol. apply (Hcol r Hr). rewrite <-Hid, Hx. right.
  apply (list_elem_of_fmap_2 res_ID) in Hin. rewrite createAncestorsResource_ids in Hin.
  rewrite elem_of_decision_path. set_solver.
Qed.

Lemma inherit_levels_ext perm perm' ids acc :
  (∀ id, perm_at perm id = perm_at perm' id) →
  foldl (inherit_level perm) acc ids = foldl (inherit_level perm') acc ids.
Proof.
  intros Hp. apply foldl_ext_in. intros acc' id _. unfold inherit_level.
  fold (perm_at perm id) (perm_at perm' id). by rewrite Hp.
Qed.

(** [GetResourceOperation] reports, for each requested resource, exactly
    the operations that the decision allows and that the resource's type
    declares for its scope ([type] for the id [*], [instance] otherwise). *)
Theorem GetResourceOperation_exact resources ty a opMap oblMap toks types :
  batch_request resources ty → resources ≠ [] → named live →
  getAccessorIDs a = Ok toks → GetByIDsInternal [ty] = Ok types →
  policyCalc_GetResourceOperation resources a = Ok (opMap, oblMap) →
  ∀ r, r ∈ resources → ∃ l, opMap !! res_ID r = Some l ∧
    ∀ op, op ∈ l ↔
      batch_decision (granted live ty toks) resources r a op = Some true ∧
      in_scope (default ResourceType_zero (types !! ty))
        (if bool_decide (res_ID r = "*") then ScopeType else ScopeInstance) op.
Proof.
  intros Hb Hne Hn Htoks Htypes. unfold policyCalc_GetResourceOperation.
  destruct resources as [|r1 rest] eqn:Er; [done|]. rewrite <-Er in *. intros Hg r Hr.
  obind. rewrite Htoks in E. injection E as <-.
  destruct (splitTypePolicies r2) as [policyMap typePolicies] eqn:Es. obind.
  rewrite (br_type _ _ Hb r1) in * by (rewrite Er; left).
  match goal with Ht : GetByIDsInternal [ty] = Ok ?t |- _ => rewrite Htypes in Ht; injection Ht as <- end.
  destruct (getTypeAndInstanceOperation _) as [tm im] eqn:Eti.
  rewrite (foldl_two_maps res_ID) in Hg. injection Hg as <- _.
  eexists. split; [by apply (foldl_insert_in res_ID); [apply Hb|]|].
  intros op. rewrite list_elem_of_filter.
  assert (∀ site perm, op ∈ (range site (in_allow (calcResourceInheritedOperationEx
      (default [] (resourceTmpMap resources !! res_ID r)) perm))).*1 ↔
    mget (in_allow (calcResourceInheritedOperationEx
      (default [] (resourceTmpMap resources !! res_ID r)) perm)) op = true) as ->.
  { intros site perm. unfold calcResourceInheritedOperationEx. apply in_allow_keys. }
  pose proof (checkOperationScope_spec (default ResourceType_zero (types !! ty)) (res_ID r) op) as Hsc.
  rewrite Eti in Hsc. simpl in Hsc. rewrite Hsc. clear Hsc.
  rewrite (and_comm (in_scope _ _ _)). apply and_iff_compat_r.
  rewrite resourceTmpMap_lookup by (apply Hb || done). cbn [default].
  destruct (batch_read_decision live resources ty toks r2 r a op Hb Hr E0) as [<- He].
  destruct (batch_inherited 14 r2 resources a r op (br_distinct _ _ Hb) (br_keys _ _ Hb) Hr (He Hn)) as [Hin _].
  rewrite <-(bool_decide_eq_true (batch_decision r2 resources r a op = Some true)), <-Hin, Es. cbn [fst snd]. unfold id. clear Hin. case_bool_decide as Htp; [|reflexivity]. subst typePolicies.
  unfold calcResourceInheritedOperationEx. erewrite inherit_levels_ext; [done|].
  intros id. symmetry. apply perm_at_no_type; [apply type_key_NoDup, Hb|].
  intros r' Hr'. pose proof (batch_type_key_free 14 (instanceData resources a) _ _ _ _ r' Hb Hr' E0) as Hk.
  by rewrite Es in Hk.
Qed.
End operations.

Lemma GetResourceOperation_exact_witness :
  let resources := [sample_resource "x" "u2" ["f"]; sample_resource "y" "u2" ["f"]] in
  let live := live_policies sample_store in
  ∃ opMap oblMap,
    @policyCalc_GetResourceOperation _ _ _ (policyCalcDB sample_store) _ _ _ resources (sample_user "u1")
      = Ok (opMap, oblMap) ∧
    ∀ r, r ∈ resources → ∃ l, opMap !! res_ID r = Some l ∧
      ∀ op, op ∈ l ↔
        batch_decision (granted live "doc" ["u1"; "d1"; rootDepID]) resources r (sample_user "u1") op = Some true ∧
        in_scope (default ResourceType_zero (({["doc" := sample_doc_type]} : gmap string _) !! "doc"))
          (if bool_decide (res_ID r = "*") then ScopeType else ScopeInstance) op.
Proof.
  cbv zeta.
  destruct (@policyCalc_GetResourceOperation _ _ _ (policyCalcDB sample_store) _ _ _
    [sample_resource "x" "u2" ["f"]; sample_resource "y" "u2" ["f"]] (sample_user "u1"))
    as [[opMap oblMap]|e|w] eqn:E; [|vm_compute in E; discriminate E..].
  exists opMap, oblMap. split; [done|].
  apply (@GetResourceOperation_exact _ _ _ (policyCalcDB sample_store) _ _ _ (live_policies sample_store)
    (policyCalcDB_source sample_store) _ "doc" (sample_user "u1") opMap oblMap _ {["doc" := sample_doc_type]});
    [| | | | |exact E].
  - split; [by_decision| |by_decision]. apply Forall_forall. by repeat constructor.
  - done.
  - apply table_ok_named, sample_table_ok. by repeat constructor.
  - reflexivity.
  - reflexivity.
Defined.
