(* ===== verification/Listings.v ===== *)
(** * Listings, identities and expiry

    The remaining theorems on [logics/policy_calc.go]: the identities an
    accessor acts under, [GetResourceList], [GetResourceTypeOperation], and the
    effect of end times on decisions. *)
From S2P Require Import Prelude Json Interfaces Common PolicyCalc PolicyCalcSpec Store PolicyDB PolicyDBSpec Sample Decision.

(** ** Identities *)
Section identities.
Context `{DrivenUserMgnt} `{LogicsRole}.

Lemma foldl_append_map {A B} (f : A → list B) (l : list A) acc :
  foldl (λ acc x, acc ++ f x) acc l = acc ++ (l ≫= f).
Proof.
  revert acc. induction l as [|x l IH]; intros acc; csimpl; [by rewrite app_nil_r|].
  by rewrite IH, <-app_assoc.
Qed.

Lemma role_tokens (roles : list RoleInfo) toks :
  foldl (λ toks r, toks ++ [role_ID r]) toks roles = toks ++ (role_ID <$> roles).
Proof.
  by rewrite (foldl_append_map (λ r, [role_ID r])).
Qed.

Lemma system_role_tokens (types : list SystemRoleType) toks :
  foldl (λ toks t, match systemRoleID t with Some id => toks ++ [id] | None => toks end) toks types
  = toks ++ omap systemRoleID types.
Proof.
  revert toks. induction types as [|t l IH]; intros toks; csimpl; [by rewrite app_nil_r|].
  destruct (systemRoleID t); rewrite IH; [by rewrite <-app_assoc|done].
Qed.

(** The three parts of the identities of a user, once each service has
    answered. *)
Lemma user_identities a ids roles types :
  acc_Type a = RealName → GetAccessorIDsByUserID (acc_ID a) = Ok ids →
  GetRoleByMembers (ids ++ [rootDepID]) = Ok roles → GetUserRolesByUserID (acc_ID a) = Ok types →
  ∃ toks, getAccessorIDs a = Ok toks ∧ NoDup toks ∧
    ∀ t, t ∈ toks ↔ t ∈ ids ∨ t = rootDepID ∨ t ∈ role_ID <$> roles ∨ t ∈ omap systemRoleID types.
Proof.
  intros Ht Hids Hroles Htypes. unfold getAccessorIDs. rewrite Ht, Hids. simpl. rewrite Hroles. simpl.
  rewrite Htypes. simpl. eexists. split; [done|]. rewrite role_tokens, system_role_tokens. split.
  - rewrite Distinct_spec. apply NoDup_first_occurrences.
  - intros t. rewrite elem_of_Distinct, !elem_of_app, list_elem_of_singleton. tauto.
Qed.

(** An application acts under its own id and the roles it is a member of. *)
Lemma getAccessorIDs_app a roles :
  acc_Type a = App → GetRoleByMembers [acc_ID a] = Ok roles →
  ∃ toks, getAccessorIDs a = Ok toks ∧ NoDup toks ∧ ∀ t, t ∈ toks ↔ t = acc_ID a ∨ t ∈ role_ID <$> roles.
Proof.
  intros Ht Hroles. unfold getAccessorIDs. rewrite Ht. simpl. rewrite Hroles. simpl.
  eexists. split; [done|]. rewrite role_tokens. split.
  - rewrite Distinct_spec. apply NoDup_first_occurrences.
  - intros t. rewrite elem_of_Distinct, elem_of_app, list_elem_of_singleton. tauto.
Qed.
End identities.

(** ** Failing closed *)
Section fail_closed.
Context `{GoRuntime} `{DrivenUserMgnt} `{JsonLogic} `{!DBPolicyCalc} `{LogicsRole}
  `{LogicsResourceType} `{LogicsObligation} (live : list PolicyInfo) `{!PolicySource live}.

(** A read that fails never becomes an answer: when the identities
    cannot be computed, or there are none (an anonymous visitor), or the
    policies cannot be read, [Check] returns an error or panics and never a
    decision. *)
Theorem Check_fails_closed r a ops include :
  (∀ toks ps, getAccessorIDs a = Ok toks →
     GetPoliciesByResourcesAndAccessToken (createAncestorsResource r) toks = Ok ps → toks = []) →
  ∀ c, policyCalc_Check r a ops include ≠ Ok c.
Proof.
  intros Hno c Hc. apply Check_Ok in Hc as (toks & ps & Ht & Hps & _).
  specialize (Hno toks ps Ht Hps) as ->.
  destruct (src_no_token (createAncestorsResource r)) as [e He]; [|by rewrite He in Hps].
  by destruct (createAncestorsResource_head r) as (? & ? & -> & _).
Qed.
End fail_closed.

Lemma Check_fails_closed_witness :
  let guest := {| acc_ID := "guest"; acc_Type := Anonymous; acc_Name := "" |} in
  getAccessorIDs guest = Ok [] ∧
  ∀ c, @policyCalc_Check _ _ _ (policyCalcDB sample_store) _ _
         (sample_resource "x" "u2" ["f"]) guest ["read"] [] ≠ Ok c.
Proof.
  split; [reflexivity|].
  apply (@Check_fails_closed _ _ _ (policyCalcDB sample_store) _ _ (live_policies sample_store)
    (policyCalcDB_source sample_store)).
  intros toks ps Ht _. vm_compute in Ht. by injection Ht as <-.
Defined.

(** ** Operations on types and lists of resources *)
Section listing_facts.
Context `{GoRuntime} `{JsonLogic}.

Lemma perm_at_group_by site data (key : PolicyInfo → string) ps id :
  perm_at (permOfGroups site data (group_by key ps) ∅) id =
  calcOneResourcePerm (data id) (filter (λ p, key p = id) ps).
Proof.
  unfold perm_at. rewrite lookup_permOfGroups, lookup_empty.
  rewrite <-(lookup_group_by key ps id).
  destruct (group_by key ps !! id) as [g|] eqn:E; simpl; [|done].
  rewrite bool_decide_eq_false_2; [done|]. by eapply group_by_nonempty.
Qed.

Lemma permOfGroups_keys site data (key : PolicyInfo → string) ps id :
  is_Some (permOfGroups site data (group_by key ps) ∅ !! id) ↔ ∃ p, p ∈ ps ∧ key p = id.
Proof.
  rewrite lookup_permOfGroups, lookup_empty.
  destruct (group_by key ps !! id) as [g|] eqn:E.
  - pose proof (group_by_nonempty key ps id g E) as Hg. rewrite bool_decide_eq_false_2 by done.
    apply group_by_Some in E as [-> _]. split; [|eauto]. intros _.
    destruct (filter _ ps) as [|p l] eqn:Ef; [done|]. exists p.
    by apply filter_cons_elem in Ef as [??].
  - split; [by intros [? [=]]|]. intros (p & Hp & Hk). exfalso.
    pose proof (lookup_group_by key ps id) as Hl. rewrite E in Hl. simpl in Hl.
    by eapply (filter_nil_not (λ p, key p = id) ps p).
Qed.

Lemma allow_keys data ps site op :
  op ∈ (range site (rp_allow (calcOneResourcePerm data ps))).*1 ↔ level_says data ps op = Some true.
Proof.
  rewrite elem_of_range_keys, calcOneResourcePerm_allow.
  destruct (level_says data ps op) as [[]|]; split; try done; try (by intros [? [=]]); eauto.
Qed.

(** The loop of [GetResourceList]. *)
Lemma foldl_select2 {A W} (bad : A → bool) (k : A → string) (g : A → W) (inc : bool)
    (l : list A) res (m : gmap string W) :
  (foldl (λ acc x, let '(res, m) := acc in
    if bad x then acc else (res ++ [x], if inc then <[k x := g x]> m else m)) (res, m) l).1
  = res ++ filter (λ x, bad x = false) l.
Proof.
  revert res m. induction l as [|x l IH]; intros res m; simpl; [by rewrite app_nil_r|].
  rewrite filter_cons. destruct (bad x); simpl; rewrite IH; [done|]. by rewrite <-app_assoc.
Qed.
End listing_facts.

Section types.
Context `{GoRuntime} `{DrivenUserMgnt} `{JsonLogic} `{!DBPolicyCalc} `{LogicsRole}
  `{LogicsResourceType} `{LogicsObligation} (live : list PolicyInfo) `{!PolicySource live}.

(** [GetResourceTypeOperation] reports, for each type the resource-type
    service knows, exactly the operations declared for the type scope that
    the unconditional rules on the type level allow without denying them. *)
Theorem GetResourceTypeOperation_exact types a toks infos m :
  types ≠ [] → getAccessorIDs a = Ok toks → GetByIDsInternal types = Ok infos →
  (∀ t, is_Some (infos !! t) → t ∈ types) →
  policyCalc_GetResourceTypeOperation types a = Ok m →
  ∀ t rt, infos !! t = Some rt → ∃ l, m !! t = Some l ∧
    ∀ op, op ∈ l ↔
      level_says None (at_level (granted live t toks) "*") op = Some true ∧ in_scope rt ScopeType op.
Proof.
  intros Hne Htoks Hinfos Hsub Hg t rt Ht. unfold policyCalc_GetResourceTypeOperation in Hg.
  rewrite bool_decide_eq_false_2 in Hg by done. obind. rewrite Htoks in E. injection E as <-.
  rewrite Hinfos in E1. injection E1 as <-.
  set (perm := permOfGroups _ _ _ _) in *.
  set (f := λ kv : string * ResourceType,
    filter (λ key, mget (getTypeAndInstanceOperation kv.2).1 key = true)
      (range 13 (rp_allow (perm_at perm kv.1))).*1).
  rewrite (foldl_ext_in _ (λ m kv, <[kv.1 := f kv]> m)).
  2: { intros m' [k v] _. unfold f, perm_at. simpl. by destruct (getTypeAndInstanceOperation v). }
  eexists. split.
  { apply (foldl_insert_in fst f _ _ (t, rt)); [apply NoDup_fst_range|]. by apply elem_of_range. }
  intros op. unfold f. rewrite list_elem_of_filter. simpl.
  destruct (getTypeAndInstanceOperation_spec rt op) as [-> _]. subst perm.
  rewrite perm_at_group_by, allow_keys, (and_comm (in_scope _ _ _)).
  assert (filter (λ p, pol_ResourceType p = t) r0 ≡ₚ at_level (granted live t toks) "*") as ->; [|done].
  apply src_types in E0. rewrite E0. unfold at_level. rewrite !list_filter_filter.
  erewrite filter_same_in; [done|]. intros p _. split; [naive_solver|].
  intros (? & ? & ?). subst. split_and!; [done|done|by apply Hsub; eexists|done].
Qed.
End types.

Lemma GetResourceTypeOperation_exact_witness :
  let live := live_policies sample_store in
  ∃ m, @policyCalc_GetResourceTypeOperation _ _ _ (policyCalcDB sample_store) _ _ ["doc"] (sample_user "u1") = Ok m ∧
    ∀ t rt, ({["doc" := sample_doc_type]} : gmap string ResourceType) !! t = Some rt →
      ∃ l, m !! t = Some l ∧
      ∀ op, op ∈ l ↔
        level_says None (at_level (granted live t ["u1"; "d1"; rootDepID]) "*") op = Some true ∧
        in_scope rt ScopeType op.
Proof.
  cbv zeta.
  destruct (@policyCalc_GetResourceTypeOperation _ _ _ (policyCalcDB sample_store) _ _ ["doc"] (sample_user "u1"))
    as [m|e|w] eqn:E; [|vm_compute in E; discriminate E..].
  exists m. split; [done|].
  apply (@GetResourceTypeOperation_exact _ _ _ (policyCalcDB sample_store) _ _ (live_policies sample_store)
    (policyCalcDB_source sample_store) ["doc"] (sample_user "u1")); [done|reflexivity|reflexivity| |exact E].
  intros t [rt Ht]. apply lookup_singleton_Some in Ht as [<- _]. left.
Defined.

Section resource_list.
Context `{GoRuntime} `{DrivenUserMgnt} `{JsonLogic} `{LogicsRole} `{LogicsResourceType}
  `{LogicsObligation} `{SqlEnv}.

(** The query behind [GetResourceList] does not read ancestors. *)
Lemma live_no_ancestors s p : p ∈ live_policies s → pol_Ancestors p = [].
Proof.
  unfold live_policies. rewrite list_elem_of_omap. intros (row & _ & Hl). unfold live_policy in Hl.
  destruct (expired row); [done|]. destruct (scanPolicy row) eqn:E; simplify_eq.
  unfold scanPolicy in E. obind. done.
Qed.

Lemma ancestors_map_empty (ps : list PolicyInfo) id :
  (∀ p, p ∈ ps → pol_Ancestors p = []) →
  default [] (foldl (λ m p, <[pol_ResourceID p := pol_Ancestors p]> m) (∅ : gmap string (list Ancestor)) ps !! id)
  = [].
Proof.
  intros Hps. assert (∀ m : gmap string (list Ancestor), default [] (m !! id) = [] →
    default [] (foldl (λ m p, <[pol_ResourceID p := pol_Ancestors p]> m) m ps !! id) = []) as Hg; [|by apply Hg].
  induction ps as [|p ps IH]; intros m Hm; simpl; [done|]. apply IH; [intros; apply Hps; by right|].
  rewrite lookup_insert. case_decide; [|done]. simpl. apply Hps. left.
Qed.

(** The test of the loop of [GetResourceList] for one id. *)
Lemma listed_refused site (ps qs : list PolicyInfo) (r : ResourceInfo) ops :
  at_level ps "" = [] → ps ≡ₚ qs → res_Ancestors r = [] →
  refused (calcResourceInheritedOperation (createAncestorsResource r)
    (permOfGroups site (λ _, None) (group_by pol_ResourceID ps) ∅)) ops = false ↔
  ∀ op, op ∈ ops → nearest (λ l, level_says None (at_level qs l) op) [res_ID r; "*"] = Some true.
Proof.
  intros He Hp Ha. apply (refused_nearest _ (λ op, nearest (λ l, level_says None (at_level qs l) op) [res_ID r; "*"])).
  intros op. destruct (Check_inherited site None ps r op He) as [-> ->].
  assert (nearest (λ id, level_says None (at_level ps id) op) (decision_path r) =
    nearest (λ l, level_says None (at_level qs l) op) [res_ID r; "*"]) as ->; [|done].
  rewrite (nearest_ext _ (λ l, level_says None (at_level qs l) op)) by (intros; by rewrite Hp).
  unfold decision_path. rewrite Ha. case_bool_decide as Hs; simpl; rewrite ?Hs; repeat case_match; done.
Qed.

(** [GetResourceList] lists, without repetition, exactly the ids that
    carry a policy of the accessor and on which every requested operation is
    allowed by the unconditional rules of the id itself or, where these are
    silent, of the type.  Rules on ancestors play no part: the query does not
    read them. *)
Theorem GetResourceList_exact s ty a ops include toks res obl :
  table_ok s → getAccessorIDs a = Ok toks →
  @policyCalc_GetResourceList _ _ _ (policyCalcDB s) _ _ ty a ops include = Ok (res, obl) →
  NoDup (res_ID <$> res) ∧
  ∀ id, id ∈ res_ID <$> res ↔
    (∃ p, p ∈ granted (live_policies s) ty toks ∧ pol_ResourceID p = id) ∧
    ∀ op, op ∈ ops →
      nearest (λ l, level_says None (at_level (granted (live_policies s) ty toks) l) op) [id; "*"] = Some true.
Proof.
  intros Hok Htoks Hg. unfold policyCalc_GetResourceList in Hg. obind. rewrite Htoks in E. injection E as <-.
  apply (@src_type _ (live_policies s) (policyCalcDB_source s)) in E0.
  set (perm := permOfGroups _ _ _ _) in *.
  set (single := λ x : ResourceInfo, {| res_ID := res_ID x; res_Type := ty; res_Name := "";
    res_Ancestors := []; res_CreatedBy := "" |}).
  set (bad := λ x, refused (calcResourceInheritedOperation (createAncestorsResource (single x)) perm) ops).
  set (all := (λ kv : string * resourcePerm, {| res_ID := kv.1; res_Type := ""; res_Name := "";
    res_Ancestors := []; res_CreatedBy := "" |}) <$> range 8 perm) in *.
  assert (res = filter (λ x, bad x = false) all) as ->.
  { apply (f_equal fst) in Hg. simpl in Hg. rewrite <-Hg. symmetry.
    etrans; [symmetry; apply (foldl_select2 bad res_ID
      (λ x, calcObligationWithPriority (in_obl (calcResourceInheritedOperation (createAncestorsResource (single x)) perm)))
      (includesObligations include) all [] ∅)|]. f_equal. symmetry.
    apply foldl_ext_in. intros [l m] x _. unfold bad, single. rewrite ancestors_map_empty; [done|].
    intros p Hp. rewrite E0 in Hp. apply list_elem_of_filter in Hp as [_ Hp]. by eapply live_no_ancestors. }
  assert (res_ID <$> all = (range 8 perm).*1) as Hall.
  { unfold all. rewrite <-list_fmap_compose. by apply list_fmap_ext. }
  split; [apply NoDup_fmap_filter; rewrite Hall; apply NoDup_fst_range|].
  intros id. rewrite list_elem_of_fmap.
  assert (∀ x, bad x = false ↔ ∀ op, op ∈ ops →
    nearest (λ l, level_says None (at_level (granted (live_policies s) ty toks) l) op) [res_ID x; "*"] = Some true) as Hbad.
  { intros x. apply (listed_refused 7 r0 (granted (live_policies s) ty toks) (single x)); [|done|done].
    by apply (at_level_empty_id (live_policies s) _ _ (table_ok_named s Hok) E0). }
  split.
  - intros (x & -> & Hx). apply list_elem_of_filter in Hx as [Hx Hin]. pose proof (proj1 (Hbad x) Hx) as Hops. clear Hx.
    split; [|done]. apply (list_elem_of_fmap_2 res_ID) in Hin. rewrite Hall, elem_of_range_keys in Hin.
    apply permOfGroups_keys in Hin as (p & Hp & Hid). rewrite E0 in Hp. eauto.
  - intros [(p & Hp & <-) Hops].
    assert (pol_ResourceID p ∈ res_ID <$> all) as Hin.
    { rewrite Hall, elem_of_range_keys. apply permOfGroups_keys. exists p. by rewrite E0. }
    apply list_elem_of_fmap in Hin as (x & Hx & Hin). exists x. split; [done|].
    apply list_elem_of_filter. split; [|done]. apply Hbad. by rewrite <-Hx.
Qed.
End resource_list.

Lemma GetResourceList_exact_witness :
  ∃ res obl, @policyCalc_GetResourceList _ _ _ (policyCalcDB sample_store) _ _ "doc" (sample_user "u1") ["write"] []
               = Ok (res, obl) ∧
    NoDup (res_ID <$> res) ∧
    ∀ id, id ∈ res_ID <$> res ↔
      (∃ p, p ∈ granted (live_policies sample_store) "doc" ["u1"; "d1"; rootDepID] ∧ pol_ResourceID p = id) ∧
      ∀ op, op ∈ ["write"] →
        nearest (λ l, level_says None
          (at_level (granted (live_policies sample_store) "doc" ["u1"; "d1"; rootDepID]) l) op) [id; "*"] = Some true.
Proof.
  destruct (@policyCalc_GetResourceList _ _ _ (policyCalcDB sample_store) _ _ "doc" (sample_user "u1") ["write"] [])
    as [[res obl]|e|w] eqn:E; [|vm_compute in E; discriminate E..].
  exists res, obl. split; [done|].
  apply (GetResourceList_exact sample_store "doc" (sample_user "u1") ["write"] [] _ res obl); [|reflexivity|exact E].
  apply sample_table_ok. by repeat constructor.
Defined.

(** ** Expiry *)
Section expiry.
Context `{GoRuntime} `{DrivenUserMgnt} `{JsonLogic} `{LogicsRole} `{LogicsResourceType}
  `{LogicsObligation} `{SqlEnv}.

Lemma DeleteByEndTime_live s s' :
  policyDB_DeleteByEndTime curTime s = (Ok tt, s') →
  live_policies s' = live_policies s ∧ t_policy s' `sublist_of` t_policy s.
Proof.
  unfold policyDB_DeleteByEndTime. intros He. apply exec_cases in He as [[_ ->]|(e & ? & _)]; [|done].
  unfold live_policies. simpl. split; [|apply sublist_filter].
  induction (t_policy s) as [|row l IH]; [done|]. rewrite filter_cons. csimpl. case_decide as Hd; csimpl.
  - destruct (live_policy row); by rewrite IH.
  - rewrite IH. unfold live_policy, expired. rewrite (proj2 (Z.eqb_neq _ _)) by lia.
    rewrite (proj2 (Z.ltb_lt _ _)) by lia. done.
Qed.

(** C38. Deleting the expired rows, as the clean-up job does, does not change
    the answer of any [Check] at that time. *)
Theorem DeleteByEndTime_keeps_decisions s s' resource accessor ops include toks :
  table_ok s →
  sql_fault "policyCalc.GetPoliciesByResourcesAndAccessToken" = None →
  getAccessorIDs accessor = Ok toks → toks ≠ [] →
  policyDB_DeleteByEndTime curTime s = (Ok tt, s') →
  ∃ c c', @policyCalc_Check _ _ _ (policyCalcDB s) _ _ resource accessor ops include = Ok c ∧
          @policyCalc_Check _ _ _ (policyCalcDB s') _ _ resource accessor ops include = Ok c' ∧
          Result c = Result c'.
Proof.
  intros Hok Hf Ht Hne Hdel. apply DeleteByEndTime_live in Hdel as [Hlive Hsub].
  assert (table_ok s') as Hok' .
  { unfold table_ok in *. rewrite Forall_forall in *. intros row Hrow. apply Hok. by eapply elem_of_sublist. }
  destruct (policyCalcDB_answers s (createAncestorsResource resource) toks Hf Hne) as [ps Hps].
  { eapply Forall_impl; [exact Hok|]. naive_solver. }
  destruct (policyCalcDB_answers s' (createAncestorsResource resource) toks Hf Hne) as [ps' Hps'].
  { eapply Forall_impl; [exact Hok'|]. naive_solver. }
  destruct (@Check_decision _ _ _ (policyCalcDB s) _ _ (live_policies s) (policyCalcDB_source s)
    resource accessor ops include toks ps Ht Hps (or_introl (table_ok_named s Hok))) as (c & Hc & Hr).
  destruct (@Check_decision _ _ _ (policyCalcDB s') _ _ (live_policies s') (policyCalcDB_source s')
    resource accessor ops include toks ps' Ht Hps' (or_introl (table_ok_named s' Hok'))) as (c' & Hc' & Hr').
  exists c, c'. split_and!; [done|done|]. apply eq_true_iff_eq. by rewrite Hr, Hr', Hlive.
Qed.
End expiry.

Lemma DeleteByEndTime_keeps_decisions_witness :
  let s' := (policyDB_DeleteByEndTime curTime sample_store).2 in
  length (t_policy s') = 3 ∧
  ∃ c c', @policyCalc_Check _ _ _ (policyCalcDB sample_store) _ _
            (sample_resource "x" "u2" ["f"]) (sample_user "u1") ["write"] [] = Ok c ∧
          @policyCalc_Check _ _ _ (policyCalcDB s') _ _
            (sample_resource "x" "u2" ["f"]) (sample_user "u1") ["write"] [] = Ok c' ∧
          Result c = Result c'.
Proof.
  cbv zeta. split; [vm_compute; reflexivity|].
  apply (DeleteByEndTime_keeps_decisions sample_store _ _ (sample_user "u1") ["write"] [] ["u1"; "d1"; rootDepID]);
    [|reflexivity|reflexivity|done|reflexivity].
  apply sample_table_ok. by repeat constructor.
Defined.

(** ** Storing a policy *)
Section storing.
Context `{GoRuntime} `{JsonLogic} `{SqlEnv}.

(** What [Create] followed by a read gives back. *)
Definition stored_policy (p : PolicyInfo) : PolicyInfo :=
  {| pol_ID := pol_ID p; pol_ResourceID := pol_ResourceID p; pol_ResourceType := pol_ResourceType p;
     pol_ResourceName := pol_ResourceName p; pol_Ancestors := []; pol_HasAncestors := false;
     pol_AccessorID := pol_AccessorID p; pol_AccessorType := pol_AccessorType p;
     pol_AccessorName := pol_AccessorName p; pol_ParentDeps := []; pol_Rules := stored_rules (pol_Rules p);
     pol_Condition := pol_Condition p; pol_EndTime := pol_EndTime p;
     pol_CreateTime := curTime; pol_ModifyTime := curTime |}.

Lemma rule_applies_stored data r : rule_applies data (stored_rule r) = rule_applies data r.
Proof.
  unfold rule_applies, stored_rule. simpl. case_bool_decide as E; [|done]. by rewrite E.
Qed.

Lemma op_ids_stored r : op_ID <$> rule_Operations (stored_rule r) = op_ID <$> rule_Operations r.
Proof. unfold stored_rule. cbn [rule_Operations]. by rewrite <-list_fmap_compose. Qed.

Lemma stored_rule_names data (rules : list PolicyRuleItem) op :
  (∃ r, r ∈ stored_rule <$> filter (λ i, rule_Operations i ≠ []) rules ∧ rule_applies data r = true ∧
     op ∈ op_ID <$> rule_Operations r) ↔
  (∃ r, r ∈ rules ∧ rule_applies data r = true ∧ op ∈ op_ID <$> rule_Operations r).
Proof.
  split.
  - intros (r & Hr & Ha & Ho). apply list_elem_of_fmap in Hr as (r' & -> & Hr').
    apply list_elem_of_filter in Hr' as [_ Hr']. rewrite rule_applies_stored in Ha.
    exists r'. split_and!; [done|done|]. by rewrite op_ids_stored in Ho.
  - intros (r & Hr & Ha & Ho). exists (stored_rule r). split_and!.
    + apply list_elem_of_fmap_2, list_elem_of_filter. split; [|done].
      intros E. rewrite E in Ho. by inversion Ho.
    + by rewrite rule_applies_stored.
    + by rewrite op_ids_stored.
Qed.

Lemma level_entries data (rules : PolicyRules → list PolicyRuleItem) ps op :
  Exists (names op) (applicable_ops data rules ps) ↔
  ∃ p, p ∈ ps ∧ ∃ r, r ∈ rules (pol_Rules p) ∧ rule_applies data r = true ∧ op ∈ op_ID <$> rule_Operations r.
Proof.
  rewrite Exists_exists. unfold applicable_ops. setoid_rewrite list_elem_of_bind. split.
  - intros ([p' o] & (p & Hin & Hp) & Hop). apply list_elem_of_bind in Hin as (r & Hin & Hr).
    destruct (rule_applies data r) eqn:Ha; [|by inversion Hin].
    apply list_elem_of_fmap in Hin as (o' & [= -> ->] & Ho). exists p. split; [done|]. exists r.
    split_and!; [done|done|]. rewrite <-Hop. by apply list_elem_of_fmap_2.
  - intros (p & Hp & r & Hr & Ha & Ho). apply list_elem_of_fmap in Ho as (o & -> & Ho).
    exists (p, o). split; [|done]. exists p. split; [|done]. apply list_elem_of_bind. exists r.
    split; [|done]. rewrite Ha. by apply list_elem_of_fmap_2.
Qed.

Lemma level_says_stored data ps op : level_says data (stored_policy <$> ps) op = level_says data ps op.
Proof.
  assert (∀ rules : PolicyRules → list PolicyRuleItem,
    (∀ r, rules (stored_rules r) = stored_rule <$> filter (λ i, rule_Operations i ≠ []) (rules r)) →
    Exists (names op) (applicable_ops data rules (stored_policy <$> ps)) ↔
    Exists (names op) (applicable_ops data rules ps)) as Hg.
  { intros rules Hr. rewrite !level_entries. split.
    - intros (p & Hp & Hex). apply list_elem_of_fmap in Hp as (q & -> & Hq). exists q. split; [done|].
      simpl in Hex. rewrite Hr in Hex. by apply stored_rule_names.
    - intros (p & Hp & Hex). exists (stored_policy p). split; [by apply list_elem_of_fmap_2|].
      simpl. rewrite Hr. by apply stored_rule_names. }
  unfold level_says, level_denies, level_allows.
  by rewrite !(decide_ext _ _ _ _ (Hg _ (λ r, eq_refl))).
Qed.

(** Policies that are created and read back mean the same: the live
    policies grow by exactly the created ones that are not already expired,
    with their rules as stored, and stored rules allow and deny the same
    operations on every data map as the rules that were given. *)
Theorem Create_read_back ps s s' :
  policyDB_Create ps s = (Ok tt, s') →
  live_policies s' = live_policies s ++
    (stored_policy <$> filter (λ p, pol_EndTime p = -1 ∨ curTime ≤ pol_EndTime p)%Z ps) ∧
  ∀ data op, level_says data (stored_policy <$> ps) op = level_says data ps op.
Proof.
  unfold policyDB_Create. intros Hc. split; [|intros; apply level_says_stored].
  case_bool_decide as Hnil; [injection Hc as <-; subst; simpl; by rewrite app_nil_r|].
  apply exec_cases in Hc as [[_ ->]|(e & ? & _)]; [|done].
  unfold live_policies. simpl. rewrite omap_app. f_equal. generalize (seq_primary s) as n.
  clear. induction ps as [|p ps IH]; intros n; csimpl; [done|].
  rewrite filter_cons.
  rewrite (imap_ext _ (λ i p, newPolicyRow (n + 1 + Z.of_nat i) p)) by (intros; simpl; f_equal; lia).
  rewrite IH. unfold live_policy, scanPolicy. simpl. rewrite rules_read_back. simpl.
  unfold expired. simpl. case_decide as Hd.
  - destruct ((pol_EndTime p =? -1)%Z) eqn:E1; simpl; [done|].
    rewrite (proj2 (Z.ltb_ge _ _)) by lia. done.
  - rewrite (proj2 (Z.eqb_neq _ _)) by lia. rewrite (proj2 (Z.ltb_lt _ _)) by lia. done.
Qed.
End storing.

Definition sample_created : list PolicyInfo := [
  sample_policy "p9" "z" "u1" AccessorUser 500 [sample_rule ["read"]] [];
  sample_policy "p10" "z" "u1" AccessorUser (-1) [sample_rule ["read"]] []].

Lemma Create_read_back_witness :
  live_policies (policyDB_Create sample_created sample_store).2 =
  live_policies sample_store ++
    (stored_policy <$> filter (λ p, pol_EndTime p = -1 ∨ curTime ≤ pol_EndTime p)%Z sample_created) ∧
  ∀ data op, level_says data (stored_policy <$> sample_created) op = level_says data sample_created op.
Proof.
  apply (Create_read_back sample_created sample_store (policyDB_Create sample_created sample_store).2).
  unfold policyDB_Create. rewrite bool_decide_eq_false_2 by done. reflexivity.
Defined.
