(* ===== verification/Obligations.v ===== *)
(** * Obligations of a decision

    [calcObligationWithPriority]: of the obligations that the levels attach to
    an allowed operation, at most one of each obligation type is returned, the
    one of the most specific accessor, with the value stored for it. *)
From S2P Require Import Prelude Json Interfaces Common PolicyCalc PolicyCalcSpec Store PolicyDB PolicyDBSpec Sample Decision.

(** What the obligation service promises: it returns the stored obligations of
    the requested ids. *)
Class ObligationSource `{LogicsObligation} (stored : gmap string ObligationInfo) := {
  obl_source : ∀ ids l, Obligation_GetByIDSInternal ids = inr l →
    ∀ o, o ∈ l ↔ is_Some (ids !! ob_ID o) ∧ stored !! ob_ID o = Some o;
  obl_keys : ∀ id o, stored !! id = Some o → ob_ID o = id
}.

(** An obligation given by id takes the stored value. *)
Definition resolved (stored : gmap string ObligationInfo) (item : PolicyObligationItem)
  : option PolicyObligationItem :=
  if bool_decide (obl_ID item = "") then Some item
  else (λ info, {| obl_TypeID := obl_TypeID item; obl_ID := obl_ID item; obl_Value := ob_Value info |})
         <$> (stored !! obl_ID item).

(** Chosen for its type: an item of least priority number among those of the
    same type. *)
Definition best (items : list policyObligationCalcItem) (ci : policyObligationCalcItem) : Prop :=
  ci ∈ items ∧ ∀ ci', ci' ∈ items → obl_TypeID (ci_item ci') = obl_TypeID (ci_item ci) →
    (ci_priority ci ≤ ci_priority ci')%Z.

Section pick.
Context `{GoRuntime}.

(** The loop body of [pickObligations]. *)
Definition pick_step (acc : gmap string PolicyObligationItem * gmap string bool)
    (obligation : policyObligationCalcItem) : gmap string PolicyObligationItem * gmap string bool :=
  let '(rTmp, obligationMap) := acc in
  let item := ci_item obligation in
  match rTmp !! obl_TypeID item with
  | Some _ => acc
  | None =>
      (<[obl_TypeID item := item]> rTmp,
       if bool_decide (obl_ID item = "") then obligationMap
       else <[obl_ID item := true]> obligationMap)
  end.

Lemma pickObligations_fold l om : pickObligations l om = foldl pick_step (∅, om) l.
Proof. done. Qed.

(** The first item of each type is kept, and its id is collected. *)
Lemma pick_fold l rTmp om t :
  (foldl pick_step (rTmp, om) l).1 !! t =
  match rTmp !! t with
  | Some i => Some i
  | None => ci_item <$> head (filter (λ ci, obl_TypeID (ci_item ci) = t) l)
  end.
Proof.
  revert rTmp om. induction l as [|ci l IH]; intros rTmp om; simpl; [by destruct (rTmp !! t)|].
  destruct (rTmp !! obl_TypeID (ci_item ci)) as [i|] eqn:E.
  - rewrite IH, filter_cons. case_decide as Ht; [|done]. subst. by rewrite E.
  - rewrite IH, lookup_insert, filter_cons. destruct (decide (obl_TypeID (ci_item ci) = t)) as [<-|Ht]; [|done].
    by rewrite E.
Qed.

Lemma pick_fold_ids l rTmp om id :
  is_Some ((foldl pick_step (rTmp, om) l).2 !! id) ↔
  is_Some (om !! id) ∨ (id ≠ "" ∧ ∃ t i, rTmp !! t = None ∧ (foldl pick_step (rTmp, om) l).1 !! t = Some i ∧ obl_ID i = id).
Proof.
  revert rTmp om. induction l as [|ci l IH]; intros rTmp om; simpl; [naive_solver|].
  destruct (rTmp !! obl_TypeID (ci_item ci)) as [i|] eqn:E; [apply IH|].
  rewrite IH. clear IH. set (item := ci_item ci) in *.
  set (om' := if bool_decide _ then om else _).
  assert (is_Some (om' !! id) ↔ is_Some (om !! id) ∨ (id ≠ "" ∧ obl_ID item = id)) as ->.
  { unfold om'. case_bool_decide as He; [naive_solver|]. rewrite lookup_insert. case_decide; naive_solver. }
  split.
  - intros [[?|[Hne Hid]]|(Hne & t & i & Ht & Hi & Hid)]; [by left|right..]; split; try done.
    + exists (obl_TypeID item), item. split_and!; [done| |done]. by rewrite pick_fold, lookup_insert_eq.
    + exists t, i. split_and!; [|done|done]. by apply lookup_insert_None in Ht as [? _].
  - intros [?|(Hne & t & i & Ht & Hi & Hid)]; [by left; left|].
    destruct (decide (obl_TypeID item = t)) as [<-|Hne'].
    + left. right. split; [done|]. rewrite pick_fold, lookup_insert_eq in Hi. naive_solver.
    + right. split; [done|]. exists t, i. split_and!; [|done|done]. by rewrite lookup_insert_ne.
Qed.

Lemma head_filter_best l ci t :
  StronglySorted (λ a b, less_priority b a = false) l →
  head (filter (λ ci, obl_TypeID (ci_item ci) = t) l) = Some ci → best l ci ∧ obl_TypeID (ci_item ci) = t.
Proof.
  intros Hs. induction Hs as [|x l Hs IH Hall]; [done|]. rewrite filter_cons. case_decide as Ht; simpl.
  - intros [= ->]. split; [|done]. split; [left|]. intros ci' Hin _.
    apply elem_of_cons in Hin as [->|Hin]; [done|]. rewrite Forall_forall in Hall.
    specialize (Hall ci' Hin). unfold less_priority in Hall. lia.
  - intros Hh. destruct (IH Hh) as [[Hin Hb] Hty]. split; [|done]. split; [by right|].
    intros ci' Hin' Hsame. apply elem_of_cons in Hin' as [->|Hin']; [congruence|]. by apply Hb.
Qed.

Lemma best_perm l l' ci : l ≡ₚ l' → best l ci → best l' ci.
Proof. intros Hp [Hin Hb]. split; [by rewrite <-Hp|]. intros ci'. rewrite <-Hp. apply Hb. Qed.

(** The items picked for one operation. *)
Lemma picked_spec items om t i :
  (pickObligations (sort_slice less_priority items) om).1 !! t = Some i →
  ∃ ci, best items ci ∧ i = ci_item ci ∧ obl_TypeID i = t.
Proof.
  rewrite pickObligations_fold, pick_fold, lookup_empty. intros Hh.
  apply fmap_Some in Hh as (ci & Hh & ->). apply head_filter_best in Hh as [Hb <-].
  2: { apply sort_slice_sorted. apply strict_weak_key. }
  exists ci. split_and!; [|done|done]. eapply best_perm; [|done]. apply sort_slice_perm.
Qed.

Lemma picked_complete items om ci :
  ci ∈ items →
  is_Some ((pickObligations (sort_slice less_priority items) om).1 !! obl_TypeID (ci_item ci)).
Proof.
  intros Hin. rewrite pickObligations_fold, pick_fold, lookup_empty, fmap_is_Some.
  rewrite <-(sort_slice_perm _ less_priority) in Hin.
  destruct (filter (λ ci', obl_TypeID (ci_item ci') = obl_TypeID (ci_item ci))
    (sort_slice less_priority items)) as [|x l] eqn:E; [|by eexists].
  by eapply filter_nil_not in E.
Qed.
End pick.

Section select.
Context `{GoRuntime}.

(** The item kept for each type. *)
Definition picked (items : list policyObligationCalcItem) : gmap string PolicyObligationItem :=
  (pickObligations (sort_slice less_priority items) ∅).1.
Definition picked_list (items : list policyObligationCalcItem) : list PolicyObligationItem :=
  (range 4 (picked items)).*2.

Lemma pickObligations_fst items om : (pickObligations (sort_slice less_priority items) om).1 = picked items.
Proof. apply map_eq. intros t. unfold picked. by rewrite !pickObligations_fold, !pick_fold. Qed.

Lemma pickForOperation_fold kvs result om :
  NoDup kvs.*1 →
  let acc := foldl pickForOperation (result, om) kvs in
  (∀ op, acc.1 !! op = match (list_to_map kvs : gmap string _) !! op with
                       | Some items => Some (picked_list items) | None => result !! op end) ∧
  (∀ id, is_Some (acc.2 !! id) ↔ is_Some (om !! id) ∨
     id ≠ "" ∧ ∃ kv i, kv ∈ kvs ∧ i ∈ picked_list kv.2 ∧ obl_ID i = id).
Proof.
  revert result om. induction kvs as [|[k items] kvs IH]; intros result om Hnd; csimpl in *.
  { split; [done|]. intros id. split; [by left|]. intros [?|(_ & kv & _ & Hin & _)]; [done|by inversion Hin]. }
  apply NoDup_cons in Hnd as [Hk Hnd].
  pose proof (pickObligations_fst items om) as Hfst.
  pose proof (pick_fold_ids (sort_slice less_priority items) ∅ om) as Hids.
  rewrite <-pickObligations_fold in Hids.
  destruct (pickObligations (sort_slice less_priority items) om) as [rTmp om1]. simpl in Hfst, Hids. subst rTmp.
  fold (picked_list items).
  destruct (IH (<[k := picked_list items]> result) om1 Hnd) as [H1 H2]. split.
  - intros op. rewrite H1, !lookup_insert. destruct (decide (k = op)) as [<-|]; [|done].
    by rewrite not_elem_of_list_to_map_1.
  - intros id. rewrite H2, Hids.
    assert ((∃ t i, (∅ : gmap string PolicyObligationItem) !! t = None ∧ picked items !! t = Some i ∧ obl_ID i = id)
      ↔ ∃ i, i ∈ picked_list items ∧ obl_ID i = id) as ->.
    { unfold picked_list. split.
      - intros (t & i & _ & Ht & Hid). exists i. split; [|done].
        apply list_elem_of_fmap. exists (t, i). by rewrite elem_of_range.
      - intros (i & Hin & Hid). apply list_elem_of_fmap in Hin as ([t i'] & -> & Hin).
        apply elem_of_range in Hin. by exists t, i'. }
    split.
    + intros [[?|(Hne & i & Hi & Hid)]|(Hne & kv & i & Hkv & Hi & Hid)]; [by left|right..]; split; try done.
      * exists (k, items), i. by split_and!; [left|..].
      * exists kv, i. by split_and!; [right|..].
    + intros [?|(Hne & kv & i & Hkv & Hi & Hid)]; [by left; left|].
      apply elem_of_cons in Hkv as [->|Hkv]; [left; right|right]; naive_solver.
Qed.

(** The last loop resolves every item and drops those without a value. *)
Lemma fill_one infos op oblist (tmp : gmap string (list PolicyObligationItem)) op' :
  default [] (fillObligation infos tmp (op, oblist) !! op') =
  default [] (tmp !! op') ++ (if decide (op = op') then omap (resolved infos) oblist else []).
Proof.
  unfold fillObligation. revert tmp. induction oblist as [|ob l IH]; intros tmp; simpl.
  { case_decide; by rewrite app_nil_r. }
  rewrite IH. unfold resolved at 2. csimpl. case_bool_decide as He.
  - rewrite lookup_mappend. case_decide; [|done]. subst. simpl. by rewrite <-app_assoc.
  - destruct (infos !! obl_ID ob) as [info|]; simpl; [|done].
    rewrite lookup_mappend. case_decide; [|done]. subst. simpl. by rewrite <-app_assoc.
Qed.

#[local] Arguments fillObligation : simpl never.

Lemma fill_all infos kvs (tmp : gmap string (list PolicyObligationItem)) op :
  NoDup kvs.*1 →
  default [] (foldl (fillObligation infos) tmp kvs !! op) =
  default [] (tmp !! op) ++ omap (resolved infos) (default [] ((list_to_map kvs : gmap string _) !! op)).
Proof.
  revert tmp. induction kvs as [|[k l] kvs IH]; intros tmp Hnd; csimpl in *; [by rewrite app_nil_r|].
  apply NoDup_cons in Hnd as [Hk Hnd]. rewrite IH, fill_one, lookup_insert by done.
  destruct (decide (k = op)) as [<-|]; [|by rewrite app_nil_r].
  rewrite not_elem_of_list_to_map_1 by done. simpl. by rewrite app_nil_r.
Qed.
End select.

Section obligation_theorem.
Context `{GoRuntime} `{!LogicsObligation} (stored : gmap string ObligationInfo) `{!ObligationSource stored}.

Lemma infos_lookup (l : list ObligationInfo) id :
  (∀ o o', o ∈ l → o' ∈ l → ob_ID o = ob_ID o' → o = o') →
  foldl (λ m v, <[ob_ID v := v]> m) (∅ : gmap string ObligationInfo) l !! id =
  head (filter (λ o, ob_ID o = id) l).
Proof.
  intros Huniq. induction l as [|o l IH] using rev_ind; [done|].
  rewrite foldl_app, filter_app. simpl. rewrite filter_cons, lookup_insert.
  rewrite IH by (intros; apply Huniq; try done; apply elem_of_app; by left).
  destruct (decide (ob_ID o = id)) as [Ho|Ho]; [|by rewrite filter_nil, app_nil_r].
  destruct (filter _ l) as [|o' l'] eqn:E; simpl; [done|]. f_equal.
  apply filter_cons_elem in E as [Hid Hin].
  apply Huniq; [set_solver|set_solver|congruence].
Qed.

(** The stored obligations, as the loop of the service collects them. *)
Lemma infos_stored ids l id :
  Obligation_GetByIDSInternal ids = inr l → is_Some (ids !! id) →
  foldl (λ m v, <[ob_ID v := v]> m) (∅ : gmap string ObligationInfo) l !! id = stored !! id.
Proof.
  intros Hl Hid. pose proof (obl_source ids l Hl) as Hs. rewrite infos_lookup.
  2: { intros o o' Ho Ho' Heq. apply Hs in Ho as [_ Ho]. apply Hs in Ho' as [_ Ho']. congruence. }
  destruct (filter _ l) as [|o l'] eqn:E; simpl.
  - destruct (stored !! id) as [o|] eqn:Est; [|done]. exfalso.
    pose proof (obl_keys id o Est) as Hk. eapply (filter_nil_not _ l o); [exact E| |done].
    apply Hs. by rewrite Hk.
  - apply filter_cons_elem in E as [<- Hin].
    apply Hs in Hin as [_ Hin]. done.
Qed.

Lemma omap_resolved_ext m1 m2 (l : list PolicyObligationItem) :
  (∀ i, i ∈ l → obl_ID i ≠ "" → m1 !! obl_ID i = m2 !! obl_ID i) →
  omap (resolved m1) l = omap (resolved m2) l.
Proof.
  induction l as [|i l IH]; intros Hm; csimpl; [done|].
  assert (resolved m1 i = resolved m2 i) as ->.
  { unfold resolved. case_bool_decide; [done|]. rewrite Hm by (done || left). done. }
  rewrite IH; [done|]. intros. apply Hm; [by right|done].
Qed.

Lemma omap_identity {A} (f : A → option A) (l : list A) : (∀ i, i ∈ l → f i = Some i) → omap f l = l.
Proof.
  induction l as [|i l IH]; intros Hf; csimpl; [done|]. rewrite Hf by left. f_equal. apply IH.
  intros. apply Hf. by right.
Qed.

(** The list returned for each operation. *)
Lemma calcObligationWithPriority_lookup m op :
  (∀ ids, ∃ l, Obligation_GetByIDSInternal ids = inr l) →
  default [] (calcObligationWithPriority m !! op) =
  omap (resolved stored) (default [] (picked_list <$> (m !! op))).
Proof.
  intros Hans. unfold calcObligationWithPriority.
  destruct (pickForOperation_fold (range 3 m) ∅ ∅ (NoDup_fst_range 3 m)) as [H1 H2].
  destruct (foldl pickForOperation (∅, ∅) (range 3 m)) as [result om]. simpl in H1, H2.
  rewrite list_to_map_range in H1.
  assert (∀ i, i ∈ default [] (picked_list <$> (m !! op)) → obl_ID i ≠ "" → is_Some (om !! obl_ID i)) as Hom.
  { intros i Hi Hne. apply H2. right. split; [done|]. destruct (m !! op) as [items|] eqn:E; simpl in Hi; [|by inversion Hi].
    exists (op, items), i. by rewrite elem_of_range. }
  case_bool_decide as Hem.
  - rewrite H1, lookup_empty. subst om.
    rewrite omap_identity; [by destruct (m !! op)|].
    intros i Hi. unfold resolved. case_bool_decide as He; [done|].
    destruct (Hom i Hi He) as [? [=]].
  - destruct (Hans om) as [l Hl]. rewrite Hl.
    rewrite fill_all, list_to_map_range, H1, lookup_empty by apply NoDup_fst_range. simpl.
    replace (default [] (match m !! op with Some items => Some (picked_list items) | None => None end))
      with (default [] (picked_list <$> (m !! op))) by (by destruct (m !! op)).
    apply omap_resolved_ext. intros i Hi He. eapply infos_stored; [done|]. by apply Hom.
Qed.

Lemma resolved_type i i' : resolved stored i = Some i' → obl_TypeID i' = obl_TypeID i.
Proof. unfold resolved. case_bool_decide; [naive_solver|]. intros (? & _ & ->)%fmap_Some. done. Qed.

Lemma picked_types items : NoDup (obl_TypeID <$> picked_list items).
Proof.
  assert (obl_TypeID <$> picked_list items = (range 4 (picked items)).*1) as ->; [|apply NoDup_fst_range].
  unfold picked_list. rewrite <-list_fmap_compose. apply Forall_fmap_ext, Forall_forall.
  intros [t i] Hin. apply elem_of_range, picked_spec in Hin as (ci & _ & _ & Ht). done.
Qed.

Lemma omap_types_sublist l :
  obl_TypeID <$> omap (resolved stored) l `sublist_of` obl_TypeID <$> l.
Proof.
  induction l as [|i l IH]; csimpl; [done|].
  destruct (resolved stored i) as [i'|] eqn:E; csimpl; [|by apply sublist_cons].
  rewrite (resolved_type _ _ E). by apply sublist_skip.
Qed.

(** The obligations returned for an operation are at most one per
    obligation type; each is one that some applicable rule attaches, of least
    priority number (user and application before role, group, department and
    the root department) among those of its type, with the stored value; and
    no type is lost unless the obligation chosen for it no longer exists. *)
Lemma obligations_by_priority m op items :
  (∀ ids, ∃ l, Obligation_GetByIDSInternal ids = inr l) →
  m !! op = Some items →
  let l := default [] (calcObligationWithPriority m !! op) in
  NoDup (obl_TypeID <$> l) ∧
  (∀ i, i ∈ l → ∃ ci, best items ci ∧ resolved stored (ci_item ci) = Some i) ∧
  (∀ ci, ci ∈ items → ∃ ci', best items ci' ∧ obl_TypeID (ci_item ci') = obl_TypeID (ci_item ci) ∧
     ∀ i, resolved stored (ci_item ci') = Some i → i ∈ l).
Proof.
  intros Hans Hm. cbv zeta. rewrite calcObligationWithPriority_lookup, Hm by done. simpl. split_and!.
  - eapply sublist_NoDup; [apply picked_types|apply omap_types_sublist].
  - intros i Hi. apply list_elem_of_omap in Hi as (i0 & Hi0 & Hr). unfold picked_list in Hi0.
    apply list_elem_of_fmap in Hi0 as ([t i1] & -> & Hin). simpl in *.
    apply elem_of_range, picked_spec in Hin as (ci & Hb & -> & _). eauto.
  - intros ci Hci. destruct (picked_complete items ∅ ci Hci) as [i Hi].
    pose proof Hi as Hp. apply picked_spec in Hp as (ci' & Hb & -> & Ht).
    exists ci'. split_and!; [done|done|]. intros i Hr. apply list_elem_of_omap.
    exists (ci_item ci'). split; [|done]. unfold picked_list. apply list_elem_of_fmap.
    exists (obl_TypeID (ci_item ci), ci_item ci'). split; [done|]. by apply elem_of_range.
Qed.
End obligation_theorem.

#[global] Instance sample_obligation_source : ObligationSource sample_obligation_store.
Proof.
  split.
  - intros ids l [= <-] o. rewrite list_elem_of_omap. setoid_rewrite elem_of_map_to_list'. split.
    + intros ([k b] & Hk & Ho). simpl in *. unfold sample_obligation_store in *.
      apply lookup_singleton_Some in Ho as [<- <-]. simpl. by split; [eexists|].
    + intros [[b Hb] Ho]. by exists (ob_ID o, b).
  - intros id o Ho. unfold sample_obligation_store in Ho. apply lookup_singleton_Some in Ho as [<- <-]. done.
Qed.

(** A user-level watermark by id wins over one of the department. *)
Definition sample_items : list policyObligationCalcItem := [
  {| ci_item := {| obl_TypeID := "watermark"; obl_ID := ""; obl_Value := JStr "weak" |}; ci_priority := 4 |};
  {| ci_item := {| obl_TypeID := "watermark"; obl_ID := "ob1"; obl_Value := JNull |}; ci_priority := 1 |}].

Example obligations_of_sample :
  let l := default [] (calcObligationWithPriority {["read" := sample_items]} !! "read") in
  l = [{| obl_TypeID := "watermark"; obl_ID := "ob1"; obl_Value := JStr "strong" |}] ∧
  NoDup (obl_TypeID <$> l) ∧
  (∀ i, i ∈ l → ∃ ci, best sample_items ci ∧ resolved sample_obligation_store (ci_item ci) = Some i) ∧
  (∀ ci, ci ∈ sample_items → ∃ ci', best sample_items ci' ∧
     obl_TypeID (ci_item ci') = obl_TypeID (ci_item ci) ∧
     ∀ i, resolved sample_obligation_store (ci_item ci') = Some i → i ∈ l).
Proof.
  cbv zeta. split; [vm_compute; reflexivity|].
  apply (obligations_by_priority sample_obligation_store {["read" := sample_items]} "read" sample_items).
  - intros ids. by eexists.
  - reflexivity.
Defined.
