(* ===== verification/Policy.v ===== *)
(** * Policy management ([Authorization/logics/policy.go])

    Creating, merging, updating, deleting and listing policies.  An operation
    that writes is a state transformer on the store; the checks that precede
    the write read the store, the user-management service and the other
    services through their interfaces.  [calc s] is the policy-decision service
    over the store [s]. *)
From Stdlib Require Import Ascii.
From S2P Require Import Prelude Json Interfaces Common PolicyCalc Store PolicyDB.

Definition authorizeOperation : string := "authorize".
(** ** Rules without a condition *)
Definition rule_of (operations : list PolicyOperationItem) : PolicyRuleItem :=
  {| rule_Condition := JNull; rule_Operations := operations |}.

(** The first rule without a condition; the [break] of both loops. *)
Definition firstUnconditional (rules : list PolicyRuleItem) : list PolicyOperationItem :=
  match filter (λ r, isConditionEmpty (rule_Condition r) = true) rules with
  | r :: _ => rule_Operations r
  | [] => []
  end.

Definition getPolicyNoConditionOperations (policy : PolicyInfo)
  : list PolicyOperationItem * list PolicyOperationItem :=
  (firstUnconditional (rules_Allow (pol_Rules policy)), firstUnconditional (rules_Deny (pol_Rules policy))).

(** [if len(allow) > 0 { Rules.Allow = {{Operations: allow}} }], from empty
    rules. *)
Definition unconditionalRules (allow deny : list PolicyOperationItem) : PolicyRules :=
  {| rules_Allow := if bool_decide (allow = []) then [] else [rule_of allow];
     rules_Deny := if bool_decide (deny = []) then [] else [rule_of deny] |}.

(** ** Validation *)
Definition checkPolicyOperationValid (operationIDMap : gmap string bool) (policy : PolicyInfo) : outcome unit :=
  let '(allowOperations, denyOperations) := getPolicyNoConditionOperations policy in
  _ ← fail_if (bool_decide (allowOperations = []) && bool_decide (denyOperations = []))
        (NewError PublicBadRequest "allow and deny cannot be empty at the same time");
  denyOperationMap ← ofold (λ denyOperationMap deny,
    _ ← fail_if (negb (mget operationIDMap (op_ID deny)))
          (NewError PublicBadRequest ("operation " +:+ op_ID deny +:+ " not found"));
    Ok (<[op_ID deny := true]> denyOperationMap)) (∅ : gmap string bool) denyOperations;
  ofold (λ _ allow,
    _ ← fail_if (negb (mget operationIDMap (op_ID allow)))
          (NewError PublicBadRequest ("operation " +:+ op_ID allow +:+ " not found"));
    fail_if (mget denyOperationMap (op_ID allow))
      (NewError PublicBadRequest ("allow and deny cannot have the same operation: " +:+ op_ID allow)))
    tt allowOperations.

(** [strings.Split(s, sep)] for a separator of one character. *)
Fixpoint split_at (sep : Ascii.ascii) (s : string) : list string :=
  match s with
  | EmptyString => [""]
  | String c s =>
      if decide (c = sep) then "" :: split_at sep s
      else match split_at sep s with
           | p :: ps => String c p :: ps
           | [] => [String c ""]
           end
  end.
Fixpoint contains_char (sep : Ascii.ascii) (s : string) : bool :=
  match s with
  | EmptyString => false
  | String c s => bool_decide (c = sep) || contains_char sep s
  end.
Definition slash : Ascii.ascii := "/"%char.

Section validation.
Context `{LogicsResourceTypeHierarchy}.

Definition checkResourceIDAndAncestors (policy : PolicyInfo) : outcome unit :=
  let mustSet := NewError PublicBadRequest (" resource " +:+ pol_ResourceID policy +:+ "  ancestors must set ") in
  let invalid := NewError PublicBadRequest (" resource id " +:+ pol_ResourceID policy +:+ " is invalid") in
  hasHierarchy ← HasHierarchy (pol_ResourceType policy);
  _ ← fail_if (hasHierarchy && negb (pol_HasAncestors policy)) mustSet;
  _ ← (if contains_char slash (pol_ResourceID policy) then
         _ ← fail_if (bool_decide (pol_Ancestors policy = [])) mustSet;
         let resourceIDParts := split_at slash (pol_ResourceID policy) in
         _ ← fail_if (negb (length resourceIDParts =? 2)) invalid;
         _ ← fail_if (negb (bool_decide (nth 1 resourceIDParts "" = "*"))) invalid;
         let parentResourceID := match last (pol_Ancestors policy) with Some a => anc_ID a | None => "" end in
         fail_if (negb (bool_decide (nth 0 resourceIDParts "" = parentResourceID)))
           (NewError PublicBadRequest (" resource id:" +:+ pol_ResourceID policy +:+
              "  ancestors  set error, parentResourceID " +:+ parentResourceID))
       else Ok tt);
  ofold (λ _ ancestor,
    fail_if (bool_decide (anc_ID ancestor = "*"))
      (NewError PublicBadRequest (" resource id:" +:+ pol_ResourceID policy +:+
         "  ancestors set error, ancestor id can't be *")))
    tt (pol_Ancestors policy).
End validation.

(** ** Comparing and merging *)
Definition calcMinEndTime (endTime1 endTime2 : Z) : Z :=
  if (endTime1 =? -1)%Z then endTime2
  else if (endTime2 =? -1)%Z then endTime1
  else if (endTime1 <? endTime2)%Z then endTime1 else endTime2.

Definition obligationsEqual (a b : list PolicyObligationItem) : bool :=
  if bool_decide (a = []) && bool_decide (b = []) then true else bool_decide (a = b).

(** [m[op.ID] = op] for every operation: the last one of an id stays. *)
Definition opMap (ops : list PolicyOperationItem) : gmap string PolicyOperationItem :=
  foldl (λ m op, <[op_ID op := op]> m) ∅ ops.

(** The loops that return [false] at the first operation that is new or has
    other obligations. *)
Definition opsUnchanged (oldMap : gmap string PolicyOperationItem) (ops : list PolicyOperationItem) : bool :=
  forallb (λ op, match oldMap !! op_ID op with
                 | Some oldOp => obligationsEqual (op_Obligations op) (op_Obligations oldOp)
                 | None => false
                 end) ops.

Definition cmpPolicy (old newInfo : PolicyInfo) : bool :=
  if negb (pol_EndTime old =? pol_EndTime newInfo)%Z then false
  else
    let '(oldAllowOperations, oldDenyOperations) := getPolicyNoConditionOperations old in
    let '(newAllowOperations, newDenyOperations) := getPolicyNoConditionOperations newInfo in
    opsUnchanged (opMap oldAllowOperations) newAllowOperations &&
    opsUnchanged (opMap oldDenyOperations) newDenyOperations.

(** A condition that is kept. *)
Abbreviation conditional := (λ r, isConditionEmpty (rule_Condition r) = false).

(** [if _, ok := m[op.ID]; ok { continue }; m[op.ID] = op] *)
Definition addAbsent (m : gmap string PolicyOperationItem) (op : PolicyOperationItem)
  : gmap string PolicyOperationItem :=
  match m !! op_ID op with Some _ => m | None => <[op_ID op := op]> m end.

Section merging.
Context `{GoRuntime}.

Definition mergeNewPolicy (old newInfo : PolicyInfo) : PolicyInfo :=
  let '(oldAllowOperations, oldDenyOperations) := getPolicyNoConditionOperations old in
  let '(newAllowOperations, newDenyOperations) := getPolicyNoConditionOperations newInfo in
  let denyMap := foldl addAbsent (opMap newDenyOperations) oldDenyOperations in
  let allowMap := foldl (λ m op, match denyMap !! op_ID op with
                                 | Some _ => m | None => <[op_ID op := op]> m end)
                    (∅ : gmap string PolicyOperationItem) newAllowOperations in
  let allowMap := foldl (λ m op, match denyMap !! op_ID op with Some _ => m | None => addAbsent m op end)
                    allowMap oldAllowOperations in
  let allow := (range 31 allowMap).*2 in
  let deny := (range 32 denyMap).*2 in
  let rules := unconditionalRules allow deny in
  {| pol_ID := pol_ID old; pol_ResourceID := pol_ResourceID old; pol_ResourceType := pol_ResourceType old;
     pol_ResourceName := pol_ResourceName old; pol_Ancestors := []; pol_HasAncestors := false;
     pol_AccessorID := pol_AccessorID old; pol_AccessorType := pol_AccessorType old;
     pol_AccessorName := pol_AccessorName old; pol_ParentDeps := [];
     pol_Rules := {| rules_Allow := rules_Allow rules ++ filter conditional (rules_Allow (pol_Rules old));
                     rules_Deny := rules_Deny rules ++ filter conditional (rules_Deny (pol_Rules old)) |};
     pol_Condition := ""; pol_EndTime := calcMinEndTime (pol_EndTime old) (pol_EndTime newInfo);
     pol_CreateTime := 0; pol_ModifyTime := 0 |}.

(** *** With conditions (the start-up policies) *)
Definition sameCondition (c c' : json) : bool :=
  (isConditionEmpty c && isConditionEmpty c') || bool_decide (c = c').

Definition rulesUnchanged (oldItems newItems : list PolicyRuleItem) : bool :=
  forallb (λ newRule,
    match filter (λ r, sameCondition (rule_Condition r) (rule_Condition newRule) = true) oldItems with
    | [] => false
    | oldRule :: _ => opsUnchanged (opMap (rule_Operations oldRule)) (rule_Operations newRule)
    end) newItems.

Definition cmpPolicyWithCondition (old newInfo : PolicyInfo) : bool :=
  if negb (pol_EndTime old =? pol_EndTime newInfo)%Z then false
  else rulesUnchanged (rules_Allow (pol_Rules old)) (rules_Allow (pol_Rules newInfo)) &&
       rulesUnchanged (rules_Deny (pol_Rules old)) (rules_Deny (pol_Rules newInfo)).

Definition mergeOperations (oldOps newOps : list PolicyOperationItem) : list PolicyOperationItem :=
  if bool_decide (oldOps = []) then newOps
  else if bool_decide (newOps = []) then oldOps
  else (range 33 (opMap newOps)).*2 ++
       filter (λ op, opMap newOps !! op_ID op = None) oldOps.

(** [findOld]: the first old rule of the same condition that is not used
    yet, with the rules before and after it. *)
Fixpoint takeOld (cond : json) (items : list PolicyRuleItem) : option (PolicyRuleItem * list PolicyRuleItem) :=
  match items with
  | [] => None
  | item :: items =>
      if sameCondition (rule_Condition item) cond then Some (item, items)
      else match takeOld cond items with
           | Some (found, rest) => Some (found, item :: rest)
           | None => None
           end
  end.

(** The rules not yet used are passed on in place of the [usedOld] flags. *)
Fixpoint mergeRuleItems (oldItems newItems : list PolicyRuleItem) : list PolicyRuleItem :=
  match newItems with
  | [] => oldItems
  | item :: newItems =>
      match takeOld (rule_Condition item) oldItems with
      | None => item :: mergeRuleItems oldItems newItems
      | Some (old, rest) =>
          {| rule_Condition := rule_Condition old;
             rule_Operations := mergeOperations (rule_Operations old) (rule_Operations item) |}
          :: mergeRuleItems rest newItems
      end
  end.

Definition mergeNewPolicyWithCondition (old newInfo : PolicyInfo) : PolicyInfo :=
  {| pol_ID := pol_ID old; pol_ResourceID := pol_ResourceID old; pol_ResourceType := pol_ResourceType old;
     pol_ResourceName := pol_ResourceName old; pol_Ancestors := pol_Ancestors old;
     pol_HasAncestors := pol_HasAncestors old; pol_AccessorID := pol_AccessorID old;
     pol_AccessorType := pol_AccessorType old; pol_AccessorName := pol_AccessorName old;
     pol_ParentDeps := pol_ParentDeps old;
     pol_Rules := {| rules_Allow := mergeRuleItems (rules_Allow (pol_Rules old)) (rules_Allow (pol_Rules newInfo));
                     rules_Deny := mergeRuleItems (rules_Deny (pol_Rules old)) (rules_Deny (pol_Rules newInfo)) |};
     pol_Condition := pol_Condition old;
     pol_EndTime := calcMinEndTime (pol_EndTime old) (pol_EndTime newInfo);
     pol_CreateTime := pol_CreateTime old; pol_ModifyTime := pol_ModifyTime old |}.
End merging.

(** ** Operations on the store *)
Section policy.
Context `{GoRuntime} `{DrivenUserMgnt} `{LogicsRole} `{LogicsResourceType} `{LogicsResourceTypeHierarchy}
  `{LogicsObligation} `{LogicsObligationType} `{SqlEnv}.
Context (calc : store → LogicsPolicyCalc).

(** [map[type][]id] and [map[type]map[id]bool] of a list of policies. *)
Definition resourceTypeMapOf (policys : list PolicyInfo) : gmap string (list string) :=
  foldl (λ m p, mappend (pol_ResourceType p) [pol_ResourceID p] m) ∅ policys.
Definition authorizeMapOf (policys : list PolicyInfo) : gmap string (gmap string bool) :=
  foldl (λ (m : gmap string (gmap string bool)) p,
    <[pol_ResourceType p := <[pol_ResourceID p := true]> (default ∅ (m !! pol_ResourceType p))]> m) ∅ policys.

Definition checkVisitorAuthorize (s : store) (visitor : Visitor)
    (resourceTypeMap : gmap string (gmap string bool)) : outcome unit :=
  isAdmin ← match vis_Type visitor with
    | RealName =>
        roleTypes ← GetUserRolesByUserID (vis_ID visitor);
        Ok (existsb (λ roleType, bool_decide (roleType ∈ [SuperAdmin; SystemAdmin; SecurityAdmin])) roleTypes)
    | _ => Ok false
    end;
  if (isAdmin : bool) then Ok tt
  else
    ofold (λ _ kv,
      ofold (λ _ resourceID,
        checkResult ← @CheckAccess (calc s)
          {| res_ID := resourceID; res_Type := kv.1; res_Name := ""; res_Ancestors := []; res_CreatedBy := "" |}
          {| acc_ID := vis_ID visitor; acc_Type := vis_Type visitor; acc_Name := "" |}
          [authorizeOperation] [];
        fail_if (negb (Result checkResult)) (NewError PublicForbidden "no permission to authorize"))
        tt (range 35 kv.2).*1)
      tt (range 34 resourceTypeMap).

Definition getResourceTypeOperations (resourceTypeMap : gmap string (list string))
  : outcome (gmap string (gmap string bool)) :=
  let resourceTypeIDs := (range 36 resourceTypeMap).*1 in
  resourceTypeInfoMap ← GetByIDsInternal resourceTypeIDs;
  ofold (λ (m : gmap string (gmap string bool)) resourceTypeID,
    match resourceTypeInfoMap !! resourceTypeID with
    | None => Err (NewError PublicBadRequest ("resource type " +:+ resourceTypeID +:+ " not found"))
    | Some resourceTypeInfo => Ok (<[resourceTypeID := set_of (rto_ID <$> rt_Operation resourceTypeInfo)]> m)
    end) ∅ resourceTypeIDs.

Definition getAccessorName (visitor : Visitor) (accessorTypeMap : gmap string AccessorType)
    (accessorRoleMap : gmap string string) : outcome (gmap string string) :=
  idNameMap ← (if bool_decide (accessorTypeMap = ∅) then Ok ∅ else GetNameByAccessorIDs accessorTypeMap);
  if bool_decide (accessorRoleMap = ∅) then Ok idNameMap
  else
    let accessorRoleIDs := (range 37 accessorRoleMap).*1 in
    roleInfoMap ← GetRolesByIDs accessorRoleIDs;
    let notExistRoleIDs := filter (λ id, roleInfoMap !! id = None) (range 38 accessorRoleMap).*1 in
    _ ← fail_if (negb (bool_decide (notExistRoleIDs = [])))
          (MkErr RoleNotFound (i18n_Load i18nAccessorRoleNotFound (vis_Language visitor)) notExistRoleIDs);
    Ok (foldl (λ m roleInfo, <[role_ID roleInfo := role_Name roleInfo]> m) idNameMap (range 39 roleInfoMap).*2).

(** The loop of [Create] and [CreatePrivate] over the request.  The three
    nested duplicate maps are one set of (type, id, accessor); the two
    accessor maps follow it. *)
Definition validateStep (operationIDs : gmap string (gmap string bool))
    (acc : gset (string * string * string) * gmap string AccessorType * gmap string string) (policy : PolicyInfo)
  : outcome (gset (string * string * string) * gmap string AccessorType * gmap string string) :=
  let '(dup, accessorTypeMap, accessorRoleMap) := acc in
  _ ← checkEndTime curTime (pol_EndTime policy);
  _ ← checkResourceIDAndAncestors policy;
  let key := (pol_ResourceType policy, pol_ResourceID policy, pol_AccessorID policy) in
  _ ← fail_if (bool_decide (key ∈ dup))
        (NewError PublicBadRequest (" resource type " +:+ pol_ResourceType policy +:+ ", resource " +:+
           pol_ResourceName policy +:+ ", accessor " +:+ pol_AccessorName policy +:+ " duplicate。resource.id " +:+
           pol_ResourceID policy +:+ ", accessor.id " +:+ pol_AccessorID policy));
  let accessorRoleMap :=
    if bool_decide (pol_AccessorType policy = AccessorRole)
    then <[pol_AccessorID policy := pol_AccessorName policy]> accessorRoleMap else accessorRoleMap in
  let accessorTypeMap :=
    if bool_decide (pol_AccessorType policy = AccessorRole) then accessorTypeMap
    else if bool_decide (pol_AccessorID policy = rootDepID) then accessorTypeMap
    else <[pol_AccessorID policy := pol_AccessorType policy]> accessorTypeMap in
  _ ← checkPolicyOperationValid (default ∅ (operationIDs !! pol_ResourceType policy)) policy;
  Ok ({[key]} ∪ dup, accessorTypeMap, accessorRoleMap).

Definition validateNew (operationIDs : gmap string (gmap string bool)) (policys : list PolicyInfo)
  : outcome (gmap string AccessorType * gmap string string) :=
  acc ← ofold (validateStep operationIDs) (∅, ∅, ∅) policys;
  let '(_, accessorTypeMap, accessorRoleMap) := acc in Ok (accessorTypeMap, accessorRoleMap).

(** The policies already configured, by type, resource and accessor. *)
Definition readOldPolicies (s : store) (resourceTypeMap : gmap string (list string))
  : outcome (gmap string (gmap string (list PolicyInfo))) :=
  ofold (λ (m : gmap string (gmap string (list PolicyInfo))) (kv : string * list string),
    match policyDB_GetByResourceIDs s kv.1 kv.2 with
    | Ok oldPoliciesMap => Ok (if (size oldPoliciesMap =? 0)%nat then m else <[kv.1 := oldPoliciesMap]> m)
    | Err e => Err e
    | Panic w => Panic w
    end) ∅ (range 40 resourceTypeMap).

Definition byAccessor (policys : list PolicyInfo) : gmap string PolicyInfo :=
  foldl (λ m p, <[pol_AccessorID p := p]> m) ∅ policys.

Definition oldPolicies (s : store) (resourceTypeMap : gmap string (list string))
  : outcome (gmap string (gmap string (gmap string PolicyInfo))) :=
  fmap (M := outcome)
    (λ old : gmap string (gmap string (list PolicyInfo)), (λ m : gmap string (list PolicyInfo), byAccessor <$> m) <$> old)
    (readOldPolicies s resourceTypeMap).

Definition findOldPolicy (old : gmap string (gmap string (gmap string PolicyInfo))) (policy : PolicyInfo)
  : option PolicyInfo :=
  m ← old !! pol_ResourceType policy; m ← m !! pol_ResourceID policy; m !! pol_AccessorID policy.

(** The loop of [getCreateAndUpdatePolicy] and of its variant with
    conditions, which differ in the comparison and the merge. *)
Fixpoint splitNewAndUpdated (cmp : PolicyInfo → PolicyInfo → bool) (merge : PolicyInfo → PolicyInfo → PolicyInfo)
    (old : gmap string (gmap string (gmap string PolicyInfo))) (idNameMap : gmap string string)
    (policys : list PolicyInfo) : M store (list PolicyInfo * list PolicyInfo * list string) :=
  match policys with
  | [] => mret ([], [], [])
  | policy :: policys =>
      match findOldPolicy old policy with
      | Some oldPolicy =>
          '(newPolicy, updatePolicy, policyIDs) ← splitNewAndUpdated cmp merge old idNameMap policys;
          mret (newPolicy,
                if cmp oldPolicy policy then updatePolicy else merge oldPolicy policy :: updatePolicy,
                pol_ID oldPolicy :: policyIDs)
      | None =>
          id ← new_uuid;
          let policy := pol_set_ID_Name id
            (default (pol_AccessorID policy) (idNameMap !! pol_AccessorID policy)) policy in
          '(newPolicy, updatePolicy, policyIDs) ← splitNewAndUpdated cmp merge old idNameMap policys;
          mret (policy :: newPolicy, updatePolicy, id :: policyIDs)
      end
  end.

Definition getCreateAndUpdatePolicy (policys : list PolicyInfo) (resourceTypeMap : gmap string (list string))
    (idNameMap : gmap string string) : M store (list PolicyInfo * list PolicyInfo * list string) :=
  old ← reads (λ s, oldPolicies s resourceTypeMap);
  splitNewAndUpdated cmpPolicy mergeNewPolicy old idNameMap policys.

Definition getCreateAndUpdatePolicyWithCondition (policys : list PolicyInfo)
    (resourceTypeMap : gmap string (list string)) (idNameMap : gmap string string)
  : M store (list PolicyInfo * list PolicyInfo * list string) :=
  old ← reads (λ s, oldPolicies s resourceTypeMap);
  splitNewAndUpdated cmpPolicyWithCondition mergeNewPolicyWithCondition old idNameMap policys.

(** The transaction at the end of [Create], [CreatePrivate] and
    [InitPolicy]; nothing is begun when there is nothing to write. *)
Definition writePolicies (newPolicy updatePolicy : list PolicyInfo) : M store unit :=
  if bool_decide (newPolicy = []) && bool_decide (updatePolicy = []) then mret tt
  else transaction (
    _ ← (if bool_decide (newPolicy = []) then mret tt else policyDB_Create newPolicy);
    if bool_decide (updatePolicy = []) then mret tt else policyDB_Update updatePolicy).

Definition policy_Create (visitor : Visitor) (policys : list PolicyInfo) : M store (list string) :=
  if bool_decide (policys = []) then mret []
  else
    let resourceTypeMap := resourceTypeMapOf policys in
    _ ← reads (λ s, checkVisitorAuthorize s visitor (authorizeMapOf policys));
    operationIDs ← lift (getResourceTypeOperations resourceTypeMap);
    '(accessorTypeMap, accessorRoleMap) ← lift (validateNew operationIDs policys);
    idNameMap ← lift (getAccessorName visitor accessorTypeMap accessorRoleMap);
    '(newPolicy, updatePolicy, policyIDs) ← getCreateAndUpdatePolicy policys resourceTypeMap idNameMap;
    _ ← writePolicies newPolicy updatePolicy;
    mret policyIDs.

Definition policy_CreatePrivate (policys : list PolicyInfo) : M store unit :=
  if bool_decide (policys = []) then mret tt
  else
    let resourceTypeMap := resourceTypeMapOf policys in
    operationIDs ← lift (getResourceTypeOperations resourceTypeMap);
    '(accessorTypeMap, accessorRoleMap) ← lift (validateNew operationIDs policys);
    let visitor := {| vis_ID := ""; vis_Type := RealName; vis_Language := simplifiedChinese |} in
    idNameMap ← lift (getAccessorName visitor accessorTypeMap accessorRoleMap);
    '(newPolicy, updatePolicy, _) ← getCreateAndUpdatePolicy policys resourceTypeMap idNameMap;
    writePolicies newPolicy updatePolicy.

Definition policy_InitPolicy (policys : list PolicyInfo) : M store unit :=
  if bool_decide (policys = []) then mret tt
  else
    let idNameMap := foldl (λ (m : gmap string string) p,
      if bool_decide (pol_AccessorID p = rootDepID) then m
      else <[pol_AccessorID p := pol_AccessorName p]> m) ∅ policys in
    '(newPolicy, updatePolicy, _) ←
      getCreateAndUpdatePolicyWithCondition policys (resourceTypeMapOf policys) idNameMap;
    writePolicies newPolicy updatePolicy.

(** The first unconditional rule gets the new operations; without one, a new
    rule is put in front. *)
Fixpoint overwriteFirst (rules : list PolicyRuleItem) (operations : list PolicyOperationItem)
  : option (list PolicyRuleItem) :=
  match rules with
  | [] => None
  | r :: rules =>
      if isConditionEmpty (rule_Condition r)
      then Some ({| rule_Condition := rule_Condition r; rule_Operations := operations |} :: rules)
      else match overwriteFirst rules operations with
           | Some rules => Some (r :: rules)
           | None => None
           end
  end.
Definition overwriteUnconditional (rules : list PolicyRuleItem) (operations : list PolicyOperationItem)
  : list PolicyRuleItem :=
  default (rule_of operations :: rules) (overwriteFirst rules operations).

(** The loop of [Update]: a policy that does not exist is passed on as it
    is. *)
Definition updateRules (operationIDs : gmap string (gmap string bool))
    (oldPoliciesMap : gmap string PolicyInfo) (policy : PolicyInfo) : outcome PolicyInfo :=
  match oldPoliciesMap !! pol_ID policy with
  | None => Ok policy
  | Some oldPolicy =>
      _ ← checkPolicyOperationValid (default ∅ (operationIDs !! pol_ResourceType oldPolicy)) policy;
      let '(newAllowOperations, newDenyOperations) := getPolicyNoConditionOperations policy in
      Ok (pol_set_Rules
        {| rules_Allow := overwriteUnconditional (rules_Allow (pol_Rules oldPolicy)) newAllowOperations;
           rules_Deny := overwriteUnconditional (rules_Deny (pol_Rules oldPolicy)) newDenyOperations |} policy)
  end.

Definition policy_Update (visitor : Visitor) (policys : list PolicyInfo) : M store unit :=
  if bool_decide (policys = []) then mret tt
  else
    _ ← lift (ofold (λ (idDupCheck : gmap string bool) policy,
      _ ← fail_if (mget idDupCheck (pol_ID policy))
            (NewError PublicBadRequest ("policy id duplicate, policy.id " +:+ pol_ID policy));
      _ ← checkEndTime curTime (pol_EndTime policy);
      Ok (<[pol_ID policy := true]> idDupCheck)) ∅ policys);
    oldPoliciesMap ← reads (λ s, policyDB_GetByPolicyIDs s (pol_ID <$> policys));
    if (size oldPoliciesMap =? 0)%nat then mret tt
    else
      let old := (range 41 oldPoliciesMap).*2 in
      _ ← reads (λ s, checkVisitorAuthorize s visitor (authorizeMapOf old));
      operationIDs ← lift (getResourceTypeOperations (resourceTypeMapOf old));
      policys ← lift (omap_all (updateRules operationIDs oldPoliciesMap) policys);
      transaction (policyDB_Update policys).

Definition hasCondition (policy : PolicyInfo) : bool :=
  existsb (λ r, negb (isConditionEmpty (rule_Condition r)))
    (rules_Allow (pol_Rules policy) ++ rules_Deny (pol_Rules policy)).

Definition keepConditional (policy : PolicyInfo) : PolicyInfo :=
  pol_set_Rules {| rules_Allow := filter conditional (rules_Allow (pol_Rules policy));
                   rules_Deny := filter conditional (rules_Deny (pol_Rules policy)) |} policy.

Definition policy_Delete (visitor : Visitor) (ids : list string) : M store unit :=
  if bool_decide (ids = []) then mret tt
  else
    oldPoliciesMap ← reads (λ s, policyDB_GetByPolicyIDs s ids);
    let old := (range 42 oldPoliciesMap).*2 in
    _ ← reads (λ s, checkVisitorAuthorize s visitor (authorizeMapOf old));
    let old := (range 43 oldPoliciesMap).*2 in
    let updatePolicys := keepConditional <$> filter (λ p, hasCondition p = true) old in
    let deletePolicyIDs := pol_ID <$> filter (λ p, hasCondition p = false) old in
    transaction (
      _ ← (if bool_decide (updatePolicys = []) then mret tt else policyDB_Update updatePolicys);
      if bool_decide (deletePolicyIDs = []) then mret tt else policyDB_Delete deletePolicyIDs).

Definition policy_DeleteByResourceIDs (resources : list PolicyDeleteResourceInfo) : M store unit :=
  if (length resources =? 0)%nat then mret tt else policyDB_DeleteByResourceIDs resources.
Definition deletePolicyByAccessorID (accessorID : string) : M store unit :=
  policyDB_DeleteByAccessorIDs [accessorID].
Definition updatePolicyAccessorName (id name : string) : M store unit := policyDB_UpdateAccessorName id name.
Definition updateAppName (info : AppInfo) : M store unit :=
  policyDB_UpdateAccessorName (app_ID info) (app_Name info).
Definition policy_UpdateResourceName (resourceID resourceType name : string) : M store unit :=
  policyDB_UpdateResourceName resourceID resourceType name.
Definition policy_UpdateResourceAncestors (resourceID resourceType : string) (ancestors : list Ancestor)
  : M store unit := policyDB_UpdateResourceAncestors resourceID resourceType ancestors.
Definition policy_DeleteByEndTime (cur : Z) : M store unit := policyDB_DeleteByEndTime cur.

(** ** Listing *)

Fixpoint getOperationNameByLanguage (operationName : list OperationName) (language : string) : string :=
  match operationName with
  | [] => ""
  | name :: rest =>
      if EqualFold (opn_Language name) language then opn_Value name
      else getOperationNameByLanguage rest language
  end.

Record operationInfo := { oi_id : string; oi_name : string }.

Definition getResourceTypesOperation (visitor : Visitor) (resourceTypes : list string)
  : outcome (gmap string (list operationInfo)) :=
  resourceTypeInfoMap ← GetByIDsInternal resourceTypes;
  ofold (λ (m : gmap string (list operationInfo)) resourceType,
    match resourceTypeInfoMap !! resourceType with
    | None => Err (NewError PublicBadRequest ("resource type " +:+ resourceType +:+ " not found"))
    | Some resourceTypeInfo =>
        Ok (<[resourceType := (λ operation,
              {| oi_id := rto_ID operation;
                 oi_name := getOperationNameByLanguage (rto_Name operation) (vis_Language visitor) |})
              <$> rt_Operation resourceTypeInfo]> m)
    end) ∅ resourceTypes.

Definition getParentDeps (policies : list PolicyInfo) : outcome (gmap string (list (list Department))) :=
  acc ← ofold (λ (acc : gmap string (list (list Department)) * list string) policy,
    let '(parentDepsMap, userIDs) := acc in
    if bool_decide (pol_AccessorType policy = AccessorUser)
    then Ok (parentDepsMap, userIDs ++ [pol_AccessorID policy])
    else if bool_decide (pol_AccessorType policy = AccessorDepartment) then
      if bool_decide (pol_AccessorID policy = rootDepID) then Ok acc
      else dep ← GetParentDepartmentsByDepartmentID (pol_AccessorID policy);
           Ok (<[pol_AccessorID policy := [dep]]> parentDepsMap, userIDs)
    else Ok acc) (∅, []) policies;
  let '(parentDepsMap, userIDs) := acc in
  let userIDs := Distinct userIDs in
  if bool_decide (userIDs = []) then Ok parentDepsMap
  else
    userInfoMaps ← BatchGetUserInfoByID userIDs;
    Ok (foldl (λ (m : gmap string (list (list Department))) kv, <[kv.1 := user_ParentDeps kv.2]> m)
          parentDepsMap (range 44 userInfoMaps)).

Definition sortOperationAndFillName (allow deny : list PolicyOperationItem) (operationInfos : list operationInfo)
  : list PolicyOperationItem * list PolicyOperationItem :=
  let allIDMap := opMap allow in
  let denyIDMap := opMap deny in
  let pick (m : gmap string PolicyOperationItem) :=
    omap (λ opeName, (λ op, {| op_ID := oi_id opeName; op_Name := oi_name opeName;
                               op_Obligations := op_Obligations op |}) <$> (m !! oi_id opeName)) operationInfos in
  (pick allIDMap, pick denyIDMap).

(** The loop that keeps the policies with an unconditional rule. *)
Definition onlyUnconditional (policiesTmp : list PolicyInfo) : list PolicyInfo :=
  omap (λ p,
    let '(allowOperations, denyOperations) := getPolicyNoConditionOperations p in
    if bool_decide (allowOperations = []) && bool_decide (denyOperations = []) then None
    else Some (pol_set_Rules
      {| rules_Allow := if bool_decide (allowOperations = []) then rules_Allow (pol_Rules p)
                        else [rule_of allowOperations];
         rules_Deny := if bool_decide (denyOperations = []) then rules_Deny (pol_Rules p)
                       else [rule_of denyOperations] |} p)) policiesTmp.

Definition fillParentDeps (parentDepsMap : gmap string (list (list Department))) (p : PolicyInfo) : PolicyInfo :=
  pol_set_ParentDeps
    (if bool_decide (pol_AccessorType p = AccessorUser) || bool_decide (pol_AccessorType p = AccessorDepartment)
     then if bool_decide (pol_AccessorID p = rootDepID) then []
          else default [] (parentDepsMap !! pol_AccessorID p)
     else []) p.

Definition fillNames (opeInfo : list operationInfo) (p : PolicyInfo) : PolicyInfo :=
  let '(allowOps, denyOps) := getPolicyNoConditionOperations p in
  let '(allowFilled, denyFilled) := sortOperationAndFillName allowOps denyOps opeInfo in
  pol_set_Rules (unconditionalRules allowFilled denyFilled) p.

(** [policies[0]] *)
Definition first_policy (policies : list PolicyInfo) : outcome PolicyInfo :=
  match policies with
  | p :: _ => Ok p
  | [] => Panic "index out of range [0] with length 0"
  end.

Definition policy_GetPagination (s : store) (visitor : Visitor) (params : PolicyPagination)
  : outcome (Z * list PolicyInfo) :=
  _ ← checkVisitorAuthorize s visitor {[pp_ResourceType params := {[pp_ResourceID params := true]}]};
  policiesTmp ← policyDB_GetPagination s params;
  if (length policiesTmp =? 0)%nat then Ok (0%Z, [])
  else
    let policies := onlyUnconditional policiesTmp in
    let count := Z.of_nat (length policies) in
    if (count =? 0)%Z then Ok (count, policies)
    else
      policies ← applyPagination policies (pp_Offset params) (pp_Limit params);
      if (length policies =? 0)%nat then Ok (count, policies)
      else
        policy0 ← first_policy policies;
        operationInfoMap ← getResourceTypesOperation visitor [pol_ResourceType policy0];
        let opeInfo := default [] (operationInfoMap !! pol_ResourceType policy0) in
        parentDepsMap ← getParentDeps policies;
        Ok (count, (λ p, fillNames opeInfo (fillParentDeps parentDepsMap p)) <$> policies).

(** The obligation ids and types the allowed operations of a page use. *)
Definition collectObligations (policies : list PolicyInfo) : gmap string bool * gmap string bool :=
  foldl (λ acc p,
    foldl (λ acc ope,
      foldl (λ (acc : gmap string bool * gmap string bool) obligation,
        let '(obligationTypeMap, obligationMap) := acc in
        (<[obl_TypeID obligation := true]> obligationTypeMap,
         if bool_decide (obl_ID obligation = "") then obligationMap
         else <[obl_ID obligation := true]> obligationMap))
        acc (op_Obligations ope))
      acc (getPolicyNoConditionOperations p).1)
    (∅, ∅) policies.

(** An obligation of a page stays when its type exists and, if it is given
    by id, it exists itself. *)
Definition dropInvalidObligations (validTypes validObligations : gmap string bool) (p : PolicyInfo) : PolicyInfo :=
  pol_set_Rules
    {| rules_Allow := (λ r, {| rule_Condition := rule_Condition r;
         rule_Operations := (λ o, {| op_ID := op_ID o; op_Name := op_Name o;
           op_Obligations := filter (λ ob, mget validTypes (obl_TypeID ob) = true ∧
             (obl_ID ob = "" ∨ mget validObligations (obl_ID ob) = true)) (op_Obligations o) |})
           <$> rule_Operations r |}) <$> rules_Allow (pol_Rules p);
       rules_Deny := rules_Deny (pol_Rules p) |} p.

Definition answer {A} (r : gerror + A) : outcome A :=
  match r with inl e => Err e | inr a => Ok a end.

(** The end of [GetAccessorPolicy] and [GetResourcePolicy]: [page] is the
    page before the names were filled in, [policies] after. *)
Definition resolveObligations (count : Z) (page policies : list PolicyInfo) (include : list PolicyIncludeType)
  : outcome (Z * list PolicyInfo * PolicyIncludeResp) :=
  let none := {| pir_ObligationTypes := []; pir_Obligations := [] |} in
  let '(obligationTypeMap, obligationMap) := collectObligations page in
  if (size obligationTypeMap =? 0)%nat && (size obligationMap =? 0)%nat then Ok (count, policies, none)
  else
    obligationTypes ← ObligationType_GetByIDSInternal obligationTypeMap;
    let validObligationTypesMap := set_of (ot_ID <$> obligationTypes) in
    obligations ← answer (Obligation_GetByIDSInternal obligationMap);
    let validObligationMap :=
      set_of (ob_ID <$> filter (λ o, mget validObligationTypesMap (ob_TypeID o) = true) obligations) in
    Ok (count, dropInvalidObligations validObligationTypesMap validObligationMap <$> policies,
        foldl (λ resp includeType,
          match includeType with
          | PolicyIncludeObligationType =>
              {| pir_ObligationTypes := pir_ObligationTypes resp ++ obligationTypes;
                 pir_Obligations := pir_Obligations resp |}
          | PolicyIncludeObligation =>
              {| pir_ObligationTypes := pir_ObligationTypes resp;
                 pir_Obligations := pir_Obligations resp ++ obligations |}
          end) none include).

Definition policy_GetAccessorPolicy (s : store) (visitor : Visitor) (param : AccessorPolicyParam)
  : outcome (Z * list PolicyInfo * PolicyIncludeResp) :=
  let none := {| pir_ObligationTypes := []; pir_Obligations := [] |} in
  _ ← fail_if (bool_decide (app_AccessorID param = "")) (NewError PublicBadRequest "accessor_id is required");
  _ ← fail_if (negb (bool_decide (app_ResourceID param = "")) && bool_decide (app_ResourceType param = ""))
        (NewError PublicBadRequest "resource_type is required when resource_id is not empty");
  policiesTmp ← policyDB_GetAccessorPolicy s param;
  if (length policiesTmp =? 0)%nat then Ok (0%Z, [], none)
  else
    let policies := onlyUnconditional policiesTmp in
    let count := Z.of_nat (length policies) in
    if (count =? 0)%Z then Ok (count, policies, none)
    else
      page ← applyPagination policies (app_Offset param) (app_Limit param);
      if (length page =? 0)%nat then Ok (count, page, none)
      else
        operationInfoMap ← getResourceTypesOperation visitor (first_occurrences [] (pol_ResourceType <$> page));
        resolveObligations count page
          ((λ p, fillNames (default [] (operationInfoMap !! pol_ResourceType p)) p) <$> page) (app_Include param).

Definition policy_GetResourcePolicy (s : store) (visitor : Visitor) (params : ResourcePolicyPagination)
  : outcome (Z * list PolicyInfo * PolicyIncludeResp) :=
  let none := {| pir_ObligationTypes := []; pir_Obligations := [] |} in
  _ ← checkVisitorAuthorize s visitor {[rpp_ResourceType params := {[rpp_ResourceID params := true]}]};
  policiesTmp ← policyDB_GetPagination s
    {| pp_ResourceID := rpp_ResourceID params; pp_ResourceType := rpp_ResourceType params;
       pp_Offset := rpp_Offset params; pp_Limit := rpp_Limit params |};
  if (length policiesTmp =? 0)%nat then Ok (0%Z, [], none)
  else
    let policies := onlyUnconditional policiesTmp in
    let count := Z.of_nat (length policies) in
    if (count =? 0)%Z then Ok (count, policies, none)
    else
      page ← applyPagination policies (rpp_Offset params) (rpp_Limit params);
      policy0 ← first_policy page;
      operationInfoMap ← getResourceTypesOperation visitor [pol_ResourceType policy0];
      let opeInfo := default [] (operationInfoMap !! pol_ResourceType policy0) in
      parentDepsMap ← getParentDeps page;
      resolveObligations count page
        ((λ p, fillNames opeInfo (fillParentDeps parentDepsMap p)) <$> page) (rpp_Include params).
End policy.

(** The decision service [NewPolicy] is given: [NewPolicyCalc()] over the same
    database. *)
Definition policyCalc_service `{GoRuntime} `{DrivenUserMgnt} `{JsonLogic} `{LogicsRole} `{LogicsObligation} `{SqlEnv}
    (s : store) : LogicsPolicyCalc :=
  {| CheckAccess := @policyCalc_Check _ _ _ (policyCalcDB s) _ _ |}.
