(* ===== verification/PolicyMerge.v ===== *)
(** * Merging policies

    A request for an accessor that already has a policy on the resource is
    merged into it.  These theorems say what a merge means for decisions: the
    merged policy decides like the two policies side by side; a merge that is
    skipped because nothing changed would not have changed anything; and the
    shorter end time wins. *)
From S2P Require Import Prelude Json Interfaces Common PolicyCalc PolicyCalcSpec Store PolicyDB PolicyDBSpec Sample Decision Listings Policy.

(** ** Vocabulary *)

(** The operation ids of a list of operations. *)
Abbreviation ids_of ops := (op_ID <$> (ops : list PolicyOperationItem)).

(** At most one rule of the list is unconditional. *)
Definition single_unconditional (rules : list PolicyRuleItem) : Prop :=
  length (filter (λ r, isConditionEmpty (rule_Condition r) = true) rules) ≤ 1.

(** What a request may carry: at most one allow and one deny rule, without
    conditions. *)
Definition plain_request (p : PolicyInfo) : Prop :=
  single_unconditional (rules_Allow (pol_Rules p)) ∧ single_unconditional (rules_Deny (pol_Rules p)) ∧
  Forall (λ r, isConditionEmpty (rule_Condition r) = true) (rules_Allow (pol_Rules p) ++ rules_Deny (pol_Rules p)).

(** What the table holds: conditional rules besides at most one unconditional
    rule of each kind. *)
Definition stored_form (p : PolicyInfo) : Prop :=
  single_unconditional (rules_Allow (pol_Rules p)) ∧ single_unconditional (rules_Deny (pol_Rules p)).

(** Some applicable rule of the list names the operation. *)
Definition rules_name `{JsonLogic} (data : option (gmap string json)) (rules : list PolicyRuleItem) (op : string) : Prop :=
  ∃ r, r ∈ rules ∧ rule_applies data r = true ∧ op ∈ ids_of (rule_Operations r).

(** A policy with that end time is in force at the time [t]. *)
Definition in_force (endTime t : Z) : Prop := endTime = (-1)%Z ∨ (t ≤ endTime)%Z.

Lemma calcMinEndTime_in_force e1 e2 t :
  in_force (calcMinEndTime e1 e2) t ↔ in_force e1 t ∧ in_force e2 t.
Proof.
  unfold calcMinEndTime, in_force.
  destruct (Z.eqb_spec e1 (-1)); [naive_solver|]. destruct (Z.eqb_spec e2 (-1)); [naive_solver|].
  destruct (Z.ltb_spec e1 e2); lia.
Qed.

(** ** Maps of operations *)
Lemma opMap_Some ops id :
  is_Some (opMap ops !! id) ↔ id ∈ ids_of ops.
Proof.
  unfold opMap. induction ops as [|op ops IH] using rev_ind; simpl.
  - rewrite lookup_empty. split; [by intros [? [=]]|by intros H%elem_of_nil].
  - rewrite foldl_app, fmap_app, elem_of_app. simpl. rewrite lookup_insert.
    case_decide as E; [split; [intros _; right; rewrite E; left|by eexists]|].
    rewrite IH. split; [by left|]. intros [?|Hin]; [done|].
    apply list_elem_of_singleton in Hin. by rewrite Hin in E.
Qed.

Lemma opMap_key ops id op : opMap ops !! id = Some op → op_ID op = id.
Proof.
  unfold opMap. induction ops as [|op' ops IH] using rev_ind; simpl; [by rewrite lookup_empty|].
  rewrite foldl_app. simpl. rewrite lookup_insert. case_decide; [naive_solver|apply IH].
Qed.

Lemma addAbsent_fold (ops : list PolicyOperationItem) m id :
  foldl addAbsent m ops !! id =
  match m !! id with Some op => Some op | None => head (filter (λ op, op_ID op = id) ops) end.
Proof.
  revert m. induction ops as [|op ops IH]; intros m; simpl; [by destruct (m !! id)|].
  rewrite IH, filter_cons. unfold addAbsent. destruct (m !! op_ID op) as [o|] eqn:E.
  - case_decide as Ho; [|done]. rewrite <-Ho. by rewrite E.
  - rewrite lookup_insert. destruct (decide (op_ID op = id)) as [<-|]; [by rewrite E|done].
Qed.

Lemma head_filter_Some (ops : list PolicyOperationItem) id :
  is_Some (head (filter (λ op, op_ID op = id) ops)) ↔ id ∈ ids_of ops.
Proof.
  rewrite list_elem_of_fmap. split.
  - intros [op Hop]. destruct (filter _ ops) as [|op' l] eqn:E; [done|].
    apply filter_cons_elem in E as [<- ?]. eauto.
  - intros (op & -> & Hin). destruct (filter _ ops) as [|op' l] eqn:E; [|by eexists].
    by eapply filter_nil_not in E.
Qed.

Lemma ids_of_range `{GoRuntime} site (m : gmap string PolicyOperationItem) id :
  (∀ k op, m !! k = Some op → op_ID op = k) →
  id ∈ ids_of (range site m).*2 ↔ is_Some (m !! id).
Proof.
  intros Hm. rewrite <-list_fmap_compose, list_elem_of_fmap. split.
  - intros ([k op] & -> & Hin). apply elem_of_range in Hin. simpl. rewrite (Hm _ _ Hin). by eexists.
  - intros [op Hop]. exists (id, op). split; [by rewrite <-(Hm _ _ Hop)|]. by apply elem_of_range.
Qed.

(** ** Rules and what they name *)
Section rules.
Context `{JsonLogic}.
Implicit Types (data : option (gmap string json)) (rules : list PolicyRuleItem).

Lemma level_entries1 data (kind : PolicyRules → list PolicyRuleItem) p op :
  Exists (names op) (applicable_ops data kind [p]) ↔ rules_name data (kind (pol_Rules p)) op.
Proof.
  rewrite level_entries. unfold rules_name. split; [|by intros Hr; exists p; split; [left|]].
  intros (q & Hq & Hr). apply list_elem_of_singleton in Hq. by subst.
Qed.

Lemma level_entries2 data (kind : PolicyRules → list PolicyRuleItem) p q op :
  Exists (names op) (applicable_ops data kind [p; q]) ↔
  rules_name data (kind (pol_Rules p)) op ∨ rules_name data (kind (pol_Rules q)) op.
Proof.
  rewrite level_entries. unfold rules_name. split.
  - intros (x & Hx & Hr). apply elem_of_cons in Hx as [->|Hx]; [by left|].
    apply list_elem_of_singleton in Hx as ->. by right.
  - intros [Hr|Hr]; [exists p|exists q]; (split; [set_solver|done]).
Qed.

(** Two levels that deny alike, and allow alike what they do not deny. *)
Lemma level_says_eq data ps qs op :
  (level_denies data ps op ↔ level_denies data qs op) →
  (¬ level_denies data qs op → level_allows data ps op ↔ level_allows data qs op) →
  level_says data ps op = level_says data qs op.
Proof.
  intros Hd Ha. unfold level_says. rewrite (decide_ext _ _ _ _ Hd).
  destruct (decide (level_denies data qs op)); [done|]. by rewrite (decide_ext _ _ _ _ (Ha n)).
Qed.

Lemma rules_name_app data l1 l2 op :
  rules_name data (l1 ++ l2) op ↔ rules_name data l1 op ∨ rules_name data l2 op.
Proof. unfold rules_name. setoid_rewrite elem_of_app. naive_solver. Qed.

Lemma rules_name_cons data r l op :
  rules_name data (r :: l) op ↔
  (rule_applies data r = true ∧ op ∈ ids_of (rule_Operations r)) ∨ rules_name data l op.
Proof. unfold rules_name. setoid_rewrite elem_of_cons. naive_solver. Qed.

Lemma rules_name_nil data op : rules_name data [] op ↔ False.
Proof. unfold rules_name. setoid_rewrite elem_of_nil. naive_solver. Qed.

Lemma rule_applies_empty data r : isConditionEmpty (rule_Condition r) = true → rule_applies data r = true.
Proof. unfold rule_applies. by intros ->. Qed.

(** The unconditional rule and the conditional rules of a stored policy. *)
Lemma rules_name_split data rules op :
  single_unconditional rules →
  rules_name data rules op ↔
  op ∈ ids_of (firstUnconditional rules) ∨ rules_name data (filter conditional rules) op.
Proof.
  unfold single_unconditional, firstUnconditional.
  induction rules as [|r rules IH]; simpl; intros Hs.
  { rewrite rules_name_nil. split; [done|]. intros [Hn|Hn]; [by inversion Hn|]. by apply rules_name_nil in Hn. }
  rewrite rules_name_cons. rewrite !filter_cons in *.
  destruct (isConditionEmpty (rule_Condition r)) eqn:E; simpl in *.
  - rewrite rule_applies_empty by done.
    destruct (filter (λ r, isConditionEmpty (rule_Condition r) = true) rules) as [|x l] eqn:Ef; simpl in Hs; [|lia].
    rewrite IH by (simpl; lia). split; [|naive_solver]. intros [[_ ?]|[Hn|?]]; [by left|by inversion Hn|by right].
  - rewrite IH by done. rewrite rules_name_cons. naive_solver.
Qed.

Lemma rules_name_plain data rules op :
  single_unconditional rules → Forall (λ r, isConditionEmpty (rule_Condition r) = true) rules →
  rules_name data rules op ↔ op ∈ ids_of (firstUnconditional rules).
Proof.
  intros Hs Hall. rewrite rules_name_split by done.
  assert (filter conditional rules = []) as ->.
  { apply filter_none. intros r Hr. rewrite Forall_forall in Hall. rewrite Hall by done. done. }
  rewrite rules_name_nil. tauto.
Qed.

Lemma unconditionalRules_name data (ops : list PolicyOperationItem) op :
  rules_name data (if bool_decide (ops = []) then [] else [rule_of ops]) op ↔ op ∈ ids_of ops.
Proof.
  case_bool_decide as E; subst.
  - rewrite rules_name_nil. split; [done|]. intros Hn. by inversion Hn.
  - rewrite rules_name_cons, rules_name_nil. unfold rule_applies. simpl. tauto.
Qed.
End rules.

(** ** The merge of a request into a stored policy *)
Section merge.
Context `{GoRuntime} `{JsonLogic}.
Implicit Types (old new : PolicyInfo).

Abbreviation allow_ids p := (ids_of (getPolicyNoConditionOperations p).1).
Abbreviation deny_ids p := (ids_of (getPolicyNoConditionOperations p).2).

(** The deny map and the allow map of [mergeNewPolicy]. *)
Definition mergedDeny old new : gmap string PolicyOperationItem :=
  foldl addAbsent (opMap (getPolicyNoConditionOperations new).2) (getPolicyNoConditionOperations old).2.
Definition mergedAllow old new : gmap string PolicyOperationItem :=
  foldl (λ m op, match mergedDeny old new !! op_ID op with Some _ => m | None => addAbsent m op end)
    (foldl (λ m op, match mergedDeny old new !! op_ID op with
                    | Some _ => m | None => <[op_ID op := op]> m end)
       (∅ : gmap string PolicyOperationItem) (getPolicyNoConditionOperations new).1)
    (getPolicyNoConditionOperations old).1.

Lemma mergeNewPolicy_rules old new :
  pol_Rules (mergeNewPolicy old new) =
  {| rules_Allow := rules_Allow (unconditionalRules (range 31 (mergedAllow old new)).*2 (range 32 (mergedDeny old new)).*2)
                    ++ filter conditional (rules_Allow (pol_Rules old));
     rules_Deny := rules_Deny (unconditionalRules (range 31 (mergedAllow old new)).*2 (range 32 (mergedDeny old new)).*2)
                   ++ filter conditional (rules_Deny (pol_Rules old)) |}.
Proof. done. Qed.

Lemma mergedDeny_lookup old new id :
  mergedDeny old new !! id =
  match opMap (getPolicyNoConditionOperations new).2 !! id with
  | Some op => Some op
  | None => head (filter (λ op, op_ID op = id) (getPolicyNoConditionOperations old).2)
  end.
Proof. apply addAbsent_fold. Qed.

Lemma mergedDeny_Some old new id : is_Some (mergedDeny old new !! id) ↔ id ∈ deny_ids new ∨ id ∈ deny_ids old.
Proof.
  rewrite mergedDeny_lookup, <-opMap_Some, <-head_filter_Some.
  destruct (opMap _ !! id); [naive_solver|]. split; [by right|]. by intros [[? [=]]|?].
Qed.

Lemma mergedDeny_key old new id op : mergedDeny old new !! id = Some op → op_ID op = id.
Proof.
  rewrite mergedDeny_lookup. destruct (opMap _ !! id) as [o|] eqn:E.
  - intros [= <-]. by eapply opMap_key.
  - destruct (filter _ _) as [|o l] eqn:Ef; [done|]. intros [= <-]. by apply filter_cons_elem in Ef as [? _].
Qed.

(** An insertion loop guarded by the deny map. *)
Lemma guarded_insert (bad : string → bool) (ops : list PolicyOperationItem) id :
  foldl (λ m op, if bad (op_ID op) then m else <[op_ID op := op]> m) (∅ : gmap string PolicyOperationItem) ops !! id
  = if bad id then None else opMap ops !! id.
Proof.
  unfold opMap. induction ops as [|op ops IH] using rev_ind; simpl; [by destruct (bad id)|].
  rewrite !foldl_app. simpl. destruct (bad (op_ID op)) eqn:Hb; rewrite !lookup_insert.
  - rewrite IH. case_decide as E; [|done]. subst. by rewrite Hb.
  - case_decide as E; [by rewrite <-E, Hb|]. apply IH.
Qed.

Lemma guarded_addAbsent (bad : string → bool) (ops : list PolicyOperationItem) m id :
  foldl (λ m op, if bad (op_ID op) then m else addAbsent m op) m ops !! id
  = match m !! id with
    | Some op => Some op
    | None => if bad id then None else head (filter (λ op, op_ID op = id) ops)
    end.
Proof.
  revert m. induction ops as [|op ops IH]; intros m; simpl; [destruct (m !! id), (bad id); done|].
  rewrite IH, filter_cons. destruct (bad (op_ID op)) eqn:Hb.
  - destruct (m !! id); [done|]. destruct (decide (op_ID op = id)) as [<-|]; [by rewrite Hb|done].
  - unfold addAbsent. destruct (m !! op_ID op) as [o|] eqn:Em.
    + destruct (m !! id) eqn:Ei; [done|]. destruct (decide (op_ID op = id)) as [<-|]; [by simplify_eq|done].
    + rewrite lookup_insert. destruct (decide (op_ID op = id)) as [<-|]; [by rewrite Em, Hb|done].
Qed.

Lemma mergedAllow_lookup old new id :
  mergedAllow old new !! id =
  if bool_decide (is_Some (mergedDeny old new !! id)) then None
  else match opMap (getPolicyNoConditionOperations new).1 !! id with
       | Some op => Some op
       | None => head (filter (λ op, op_ID op = id) (getPolicyNoConditionOperations old).1)
       end.
Proof.
  set (bad := λ id, bool_decide (is_Some (mergedDeny old new !! id))).
  unfold mergedAllow.
  rewrite (foldl_ext_in _ (λ m op, if bad (op_ID op) then m else addAbsent m op)).
  2: { intros m op _. unfold bad. destruct (mergedDeny old new !! op_ID op); [by rewrite bool_decide_eq_true_2|].
       by rewrite bool_decide_eq_false_2 by (by intros [? [=]]). }
  rewrite guarded_addAbsent.
  rewrite (foldl_ext_in _ (λ m op, if bad (op_ID op) then m else <[op_ID op := op]> m)).
  2: { intros m op _. unfold bad. destruct (mergedDeny old new !! op_ID op); [by rewrite bool_decide_eq_true_2|].
       by rewrite bool_decide_eq_false_2 by (by intros [? [=]]). }
  rewrite guarded_insert. unfold bad. by case_bool_decide.
Qed.

Lemma mergedAllow_Some old new id :
  is_Some (mergedAllow old new !! id) ↔
  (id ∈ allow_ids new ∨ id ∈ allow_ids old) ∧ ¬ (id ∈ deny_ids new ∨ id ∈ deny_ids old).
Proof.
  rewrite mergedAllow_lookup, <-mergedDeny_Some.
  rewrite <-(opMap_Some (getPolicyNoConditionOperations new).1),
    <-(head_filter_Some (getPolicyNoConditionOperations old).1).
  case_bool_decide; [split; [by intros [? [=]]|tauto]|].
  destruct (opMap _ !! id); [naive_solver|]. split; [by intros ?; split; [right|]|]. by intros [[[? [=]]|?] _].
Qed.

Lemma mergedAllow_key old new id op : mergedAllow old new !! id = Some op → op_ID op = id.
Proof.
  rewrite mergedAllow_lookup. case_bool_decide; [done|]. destruct (opMap _ !! id) as [o|] eqn:E.
  - intros [= <-]. by eapply opMap_key.
  - destruct (filter _ _) as [|o l] eqn:Ef; [done|]. intros [= <-]. by apply filter_cons_elem in Ef as [? _].
Qed.

Lemma merge_says old new data op :
  stored_form old → plain_request new →
  level_says data [mergeNewPolicy old new] op = level_says data [old; new] op.
Proof.
  intros [Hoa Hod] (Hna & Hnd & Hall). set (merged := mergeNewPolicy old new).
  apply Forall_app in Hall as [Hca Hcd].
  assert (rules_name data (rules_Deny (pol_Rules merged)) op ↔
    rules_name data (rules_Deny (pol_Rules old)) op ∨ rules_name data (rules_Deny (pol_Rules new)) op) as Hdeny.
  { rewrite (rules_name_split _ (rules_Deny (pol_Rules old))), (rules_name_plain _ (rules_Deny (pol_Rules new))) by done.
    unfold merged. rewrite mergeNewPolicy_rules. simpl. rewrite rules_name_app, unconditionalRules_name.
    rewrite ids_of_range, mergedDeny_Some by apply mergedDeny_key. simpl. tauto. }
  assert (rules_name data (rules_Allow (pol_Rules merged)) op ↔
    (op ∈ allow_ids new ∨ op ∈ allow_ids old) ∧ ¬ (op ∈ deny_ids new ∨ op ∈ deny_ids old) ∨
    rules_name data (filter conditional (rules_Allow (pol_Rules old))) op) as Hallow.
  { unfold merged. rewrite mergeNewPolicy_rules. simpl. rewrite rules_name_app, unconditionalRules_name.
    rewrite ids_of_range, mergedAllow_Some by apply mergedAllow_key. done. }
  apply level_says_eq.
  - unfold level_denies. by rewrite level_entries1, level_entries2.
  - unfold level_denies, level_allows. rewrite level_entries1, !level_entries2, Hallow.
    rewrite (rules_name_split _ (rules_Allow (pol_Rules old))), (rules_name_plain _ (rules_Allow (pol_Rules new))),
      (rules_name_split _ (rules_Deny (pol_Rules old))), (rules_name_plain _ (rules_Deny (pol_Rules new))) by done.
    simpl. tauto.
Qed.

(** C26. A merge decides like the two policies side by side: on every data
    map, an operation is denied by the merged policy when the stored policy or
    the request denies it, allowed when one of them allows it and none denies
    it, and left open otherwise; the merged policy keeps the stored policy's
    id and key and is in force exactly while both are. *)
Theorem merge_decides_like_both old new :
  stored_form old → plain_request new →
  let merged := mergeNewPolicy old new in
  (∀ data op, level_says data [merged] op = level_says data [old; new] op) ∧
  pol_ID merged = pol_ID old ∧ pol_ResourceType merged = pol_ResourceType old ∧
  pol_ResourceID merged = pol_ResourceID old ∧ pol_AccessorID merged = pol_AccessorID old ∧
  (∀ t, in_force (pol_EndTime merged) t ↔ in_force (pol_EndTime old) t ∧ in_force (pol_EndTime new) t).
Proof.
  intros Hold Hnew merged. split; [intros; by apply merge_says|].
  by split_and!; [..|apply calcMinEndTime_in_force].
Qed.

(** ** Requests that change nothing *)
Lemma opsUnchanged_sub (old new : list PolicyOperationItem) :
  opsUnchanged (opMap old) new = true → ∀ id, id ∈ ids_of new → id ∈ ids_of old.
Proof.
  unfold opsUnchanged. rewrite forallb_forall. intros Hall id Hid.
  apply list_elem_of_fmap in Hid as (op & -> & Hin). specialize (Hall op).
  rewrite <-list_elem_of_In in Hall. specialize (Hall Hin).
  apply opMap_Some. by destruct (opMap old !! op_ID op).
Qed.

Lemma unchanged_says old new data op :
  stored_form old → plain_request new → cmpPolicy old new = true →
  level_says data [old] op = level_says data [old; new] op.
Proof.
  intros [Hoa Hod] (Hna & Hnd & Hall) Hcmp. apply Forall_app in Hall as [Hca Hcd].
  unfold cmpPolicy in Hcmp. destruct (pol_EndTime old =? pol_EndTime new)%Z eqn:Et; simpl in Hcmp; [|done].
  apply andb_true_iff in Hcmp as [Ha Hd].
  pose proof (opsUnchanged_sub _ _ Ha op) as Hsa. pose proof (opsUnchanged_sub _ _ Hd op) as Hsd.
  apply level_says_eq; unfold level_denies, level_allows; rewrite level_entries1, !level_entries2.
  - rewrite (rules_name_plain _ (rules_Deny (pol_Rules new))), (rules_name_split _ (rules_Deny (pol_Rules old))) by done.
    tauto.
  - rewrite (rules_name_plain _ (rules_Allow (pol_Rules new))), (rules_name_split _ (rules_Allow (pol_Rules old))) by done.
    tauto.
Qed.

(** When [cmpPolicy] reports no change, so that the request is not
    merged, nothing is lost: the stored policy alone already decides like the
    two together, and the end times agree. *)
Theorem unchanged_request_is_redundant old new :
  stored_form old → plain_request new → cmpPolicy old new = true →
  pol_EndTime old = pol_EndTime new ∧
  ∀ data op, level_says data [old] op = level_says data [old; new] op.
Proof.
  intros Hold Hnew Hcmp. split; [|intros; by apply unchanged_says].
  unfold cmpPolicy in Hcmp. destruct (pol_EndTime old =? pol_EndTime new)%Z eqn:Et; simpl in Hcmp; [lia|done].
Qed.
End merge.

(** ** The merge of start-up policies *)
Section merge_conditions.
Context `{GoRuntime} `{JsonLogic}.

Lemma sameCondition_applies data c c' ops ops' :
  sameCondition c c' = true →
  rule_applies data {| rule_Condition := c; rule_Operations := ops |} =
  rule_applies data {| rule_Condition := c'; rule_Operations := ops' |}.
Proof.
  unfold sameCondition, rule_applies. simpl. rewrite orb_true_iff, andb_true_iff, bool_decide_eq_true.
  intros [[-> ->]| ->]; done.
Qed.

Lemma takeOld_spec cond items o rest :
  takeOld cond items = Some (o, rest) →
  items ≡ₚ o :: rest ∧ sameCondition (rule_Condition o) cond = true.
Proof.
  revert rest. induction items as [|item items IH]; intros rest; simpl; [done|].
  destruct (sameCondition (rule_Condition item) cond) eqn:E; [naive_solver|].
  destruct (takeOld cond items) as [[found rest']|]; [|done]. intros [= -> <-].
  destruct (IH rest' eq_refl) as [Hp Hs]. split; [|done]. rewrite Hp. apply Permutation_swap.
Qed.

Lemma mergeOperations_ids oldOps newOps id :
  id ∈ ids_of (mergeOperations oldOps newOps) ↔ id ∈ ids_of oldOps ∨ id ∈ ids_of newOps.
Proof.
  unfold mergeOperations. case_bool_decide as Ho; [subst; set_solver|].
  case_bool_decide as Hn; [subst; set_solver|].
  rewrite fmap_app, elem_of_app, ids_of_range by apply opMap_key. rewrite opMap_Some. split.
  - intros [?|Hin]; [by right|]. left. apply list_elem_of_fmap in Hin as (op & -> & Hop).
    apply list_elem_of_filter in Hop as [_ ?]. by apply list_elem_of_fmap_2.
  - intros [Hin|?]; [|by left]. apply list_elem_of_fmap in Hin as (op & -> & Hop).
    destruct (opMap newOps !! op_ID op) eqn:E; [left; by apply opMap_Some; rewrite E|right].
    apply list_elem_of_fmap_2, list_elem_of_filter. done.
Qed.

#[global] Instance rules_name_proper data : Proper ((≡ₚ) ==> (=) ==> iff) (rules_name data).
Proof. intros l l' E op ? <-. unfold rules_name. by setoid_rewrite E. Qed.

Lemma mergeRuleItems_name data oldItems newItems op :
  rules_name data (mergeRuleItems oldItems newItems) op ↔
  rules_name data oldItems op ∨ rules_name data newItems op.
Proof.
  revert oldItems. induction newItems as [|item newItems IH]; intros oldItems; simpl.
  { rewrite rules_name_nil. tauto. }
  destruct (takeOld (rule_Condition item) oldItems) as [[o rest]|] eqn:E.
  - apply takeOld_spec in E as [Hp Hs]. rewrite Hp, !rules_name_cons, IH. simpl.
    rewrite mergeOperations_ids.
    destruct o as [co oo], item as [ci oi]. simpl in *.
    rewrite (sameCondition_applies data co ci (mergeOperations oo oi) oi) by done.
    rewrite (sameCondition_applies data co ci oo oi) by done. naive_solver.
  - rewrite !rules_name_cons, IH. naive_solver.
Qed.

(** A start-up policy merged into the stored one decides, conditions
    included, like the two side by side on every data map, and is in force
    exactly while both are. *)
Theorem init_merge_decides_like_both old new :
  let merged := mergeNewPolicyWithCondition old new in
  (∀ data op, level_says data [merged] op = level_says data [old; new] op) ∧
  (∀ t, in_force (pol_EndTime merged) t ↔ in_force (pol_EndTime old) t ∧ in_force (pol_EndTime new) t).
Proof.
  cbv zeta. split; [|apply calcMinEndTime_in_force]. intros data op.
  apply level_says_eq; unfold level_denies, level_allows; rewrite level_entries1, !level_entries2;
    simpl; by rewrite mergeRuleItems_name.
Qed.
End merge_conditions.

Definition sample_old : PolicyInfo :=
  sample_policy "p1" "x" "u1" AccessorUser (-1) [sample_rule ["read"]; sample_owner_rule ["write"]] [].
Definition sample_new : PolicyInfo :=
  sample_policy "" "x" "u1" AccessorUser 2000 [sample_rule ["read"; "list"]] [sample_rule ["write"]].

Lemma merge_decides_like_both_witness :
  (∀ data op, level_says data [mergeNewPolicy sample_old sample_new] op = level_says data [sample_old; sample_new] op) ∧
  pol_ID (mergeNewPolicy sample_old sample_new) = "p1" ∧
  (∀ t, in_force (pol_EndTime (mergeNewPolicy sample_old sample_new)) t ↔ in_force (-1) t ∧ in_force 2000 t).
Proof.
  destruct (merge_decides_like_both sample_old sample_new) as (H1 & H2 & _ & _ & _ & H3).
  - split; vm_compute; lia.
  - split_and!; [vm_compute; lia|vm_compute; lia|by_decision].
  - split_and!; [exact H1|exact H2|exact H3].
Defined.

Lemma unchanged_request_is_redundant_witness :
  (-1)%Z = (-1)%Z ∧
  ∀ data op, level_says data [sample_old] op =
    level_says data [sample_old; sample_policy "" "x" "u1" AccessorUser (-1) [sample_rule ["read"]] []] op.
Proof.
  apply (unchanged_request_is_redundant sample_old
    (sample_policy "" "x" "u1" AccessorUser (-1) [sample_rule ["read"]] [])).
  - split; vm_compute; lia.
  - split_and!; [vm_compute; lia|vm_compute; lia|by_decision].
  - reflexivity.
Defined.
