(* ===== verification/PolicyOps.v ===== *)
(** * Operations that change policies

    What [Create], [CreatePrivate], [InitPolicy], [Update] and [Delete] of
    [logics/policy.go] do to the policy table: they need the right to
    authorize, they change everything or nothing, and each row ends up as the
    request says. *)
From S2P Require Import Prelude Json Interfaces Common PolicyCalc PolicyCalcSpec Store PolicyDB PolicyDBSpec Sample Decision Listings Obligations Policy PolicyMerge.

Lemma ofold_unit_Ok {A} (f : A → outcome unit) (l : list A) :
  ofold (λ _ x, f x) tt l = Ok tt ↔ ∀ x, x ∈ l → f x = Ok tt.
Proof.
  induction l as [|x l IH]; simpl; [set_solver|]. split.
  - intros Hb. apply bind_Ok in Hb as ([] & Hx & Hl). rewrite IH in Hl. set_solver.
  - intros Hall. rewrite Hall by left. simpl. apply IH. set_solver.
Qed.

Section atomicity.
Context `{GoRuntime} `{DrivenUserMgnt} `{LogicsRole} `{LogicsResourceType} `{LogicsResourceTypeHierarchy}
  `{SqlEnv} (calc : store → LogicsPolicyCalc).

Lemma quiet_split cmp merge old names ps : quiet (splitNewAndUpdated cmp merge old names ps).
Proof. induction ps as [|p ps IH]; simpl; calls. Qed.
#[local] Hint Resolve quiet_split : isf.

Lemma quiet_getCreateAndUpdate ps m names : quiet (getCreateAndUpdatePolicy ps m names).
Proof. unfold getCreateAndUpdatePolicy. calls. Qed.
Lemma quiet_getCreateAndUpdateWithCondition ps m names : quiet (getCreateAndUpdatePolicyWithCondition ps m names).
Proof. unfold getCreateAndUpdatePolicyWithCondition. calls. Qed.
Lemma atomic_writePolicies new upd : atomic (writePolicies new upd).
Proof. unfold writePolicies. calls. Qed.
#[local] Hint Resolve quiet_getCreateAndUpdate quiet_getCreateAndUpdateWithCondition atomic_writePolicies : isf.

(** C4. An operation that does not succeed, because a check fails, another
    service or the database reports an error, the commit is refused, or the
    code panics, leaves every table as it was. *)
Theorem policy_writes_are_atomic visitor ps ids :
  atomic (policy_Create calc visitor ps) ∧ atomic (policy_CreatePrivate ps) ∧
  atomic (policy_InitPolicy ps) ∧ atomic (policy_Update calc visitor ps) ∧
  atomic (policy_Delete calc visitor ids).
Proof.
  unfold policy_Create, policy_CreatePrivate, policy_InitPolicy, policy_Update, policy_Delete.
  split_and!; calls.
Qed.
End atomicity.

(** ** Reading the policies of a request *)
Section reading.
Context `{GoRuntime} `{SqlEnv}.

Lemma scanWithAncestors_keys row p :
  scanWithAncestors row = Ok p →
  pol_ID p = p_id row ∧ pol_ResourceID p = p_resource_id row ∧ pol_ResourceType p = p_resource_type row ∧
  pol_AccessorID p = p_accessor_id row ∧ pol_EndTime p = p_end_time row ∧ pol_Condition p = p_condition row ∧
  rulesStrToInfo (p_operation row) = Ok (pol_Rules p).
Proof. unfold scanWithAncestors. intros Hs. obind. done. Qed.

Lemma scan_ids rows ps :
  Forall2 (λ row p, scanWithAncestors row = Ok p) rows ps → pol_ID <$> ps = p_id <$> rows.
Proof. induction 1 as [|row p rows ps Hs _ IH]; csimpl; [done|]. apply scanWithAncestors_keys in Hs as (-> & _). by f_equal. Qed.

(** The rows of the requested ids, as [Update] and [Delete] read them. *)
Lemma GetByPolicyIDs_spec s ids m :
  NoDup (p_id <$> t_policy s) → policyDB_GetByPolicyIDs s ids = Ok m →
  (∀ row, row ∈ t_policy s → p_id row ∈ ids → ∃ p, m !! p_id row = Some p ∧ scanWithAncestors row = Ok p) ∧
  (∀ id p, m !! id = Some p → ∃ row, row ∈ t_policy s ∧ p_id row = id ∧ id ∈ ids ∧ scanWithAncestors row = Ok p).
Proof.
  intros Hnd Hq. unfold policyDB_GetByPolicyIDs in Hq.
  case_bool_decide as E; [obind; subst; split; [intros ? _ Hin; by inversion Hin|done]|].
  apply stmt_Ok in Hq. obind. clear E. rename E0 into Hs. apply omap_all_Ok in Hs.
  set (rows := range_order 26 _) in *.
  assert (∀ row, row ∈ rows ↔ row ∈ t_policy s ∧ p_id row ∈ ids) as Hrows.
  { intros row. unfold rows. rewrite elem_of_range_order, list_elem_of_filter. tauto. }
  assert (NoDup (pol_ID <$> r)) as Hnd'.
  { rewrite (scan_ids _ _ Hs). unfold rows. rewrite range_order_perm. by apply NoDup_fmap_filter. }
  split.
  - intros row Hrow Hid. destruct (list_elem_of_lookup_1 rows row) as [i Hi]; [by apply Hrows|].
    destruct (Forall2_lookup_l _ _ _ _ _ Hs Hi) as (p & Hp & Hscan). exists p. split; [|done].
    apply scanWithAncestors_keys in Hscan as (<- & _).
    apply (foldl_insert_in pol_ID id); [done|]. by eapply list_elem_of_lookup_2.
  - intros id p Hp.
    assert (p ∈ r ∧ pol_ID p = id) as [Hin <-].
    { destruct (decide (id ∈ pol_ID <$> r)) as [Hid|Hid].
      - apply list_elem_of_fmap in Hid as (p' & -> & Hp').
        pose proof (foldl_insert_in pol_ID Datatypes.id r ∅ p' Hnd' Hp') as Hl. cbv beta in Hl.
        unfold Datatypes.id in Hl. rewrite Hl in Hp. by injection Hp as ->.
      - rewrite (foldl_insert_out pol_ID Datatypes.id) in Hp; [by rewrite lookup_empty in Hp|].
        intros x Hx <-. apply Hid. by apply list_elem_of_fmap_2. }
    destruct (list_elem_of_lookup_1 r p Hin) as [i Hi].
    destruct (Forall2_lookup_r _ _ _ _ _ Hs Hi) as (row & Hrow & Hscan).
    apply list_elem_of_lookup_2, Hrows in Hrow as [Hrow Hid]. exists row.
    apply scanWithAncestors_keys in Hscan as Hk. destruct Hk as (-> & _). done.
Qed.

Lemma elem_of_range_snd {V} site (m : gmap string V) v : v ∈ (range site m).*2 ↔ ∃ k, m !! k = Some v.
Proof.
  rewrite list_elem_of_fmap. split.
  - intros ([k v'] & -> & Hin). apply elem_of_range in Hin. eauto.
  - intros [k Hk]. exists (k, v). by rewrite elem_of_range.
Qed.

Lemma scanned_ids site (m : gmap string PolicyInfo) :
  (∀ id p, m !! id = Some p → pol_ID p = id) → pol_ID <$> (range site m).*2 = (range site m).*1.
Proof.
  intros Hm. rewrite <-list_fmap_compose. apply Forall_fmap_ext, Forall_forall.
  intros [k p] Hin. apply elem_of_range in Hin. simpl. by apply Hm.
Qed.

(** What the map read by [Update] and [Delete] holds. *)
Lemma read_policies s ids m row p site :
  NoDup (p_id <$> t_policy s) → policyDB_GetByPolicyIDs s ids = Ok m → row ∈ t_policy s →
  p ∈ (range site m).*2 → pol_ID p = p_id row ↔ p_id row ∈ ids ∧ scanWithAncestors row = Ok p.
Proof.
  intros Hnd Hm Hr Hp. destruct (GetByPolicyIDs_spec _ _ _ Hnd Hm) as [Hin Hout].
  apply elem_of_range_snd in Hp as [k Hk]. destruct (Hout k p Hk) as (row' & Hr' & <- & Hid & Hs').
  apply scanWithAncestors_keys in Hs' as Hk'. destruct Hk' as (Hp & _). rewrite Hp. split.
  - intros Heq. assert (row' = row) as <-; [|done].
    eapply (NoDup_fmap_inj_in p_id); [exact Hnd|done..].
  - intros [Hrid Hs]. destruct (Hin row Hr Hrid) as (q & Hq & Hsq). rewrite Hs in Hsq. injection Hsq as <-.
    apply scanWithAncestors_keys in Hs as (Hs & _). congruence.
Qed.
End reading.

(** ** Authority *)
Section authority.
Context `{GoRuntime} `{DrivenUserMgnt} `{LogicsRole} `{LogicsResourceType} `{LogicsResourceTypeHierarchy}
  `{SqlEnv} (calc : store → LogicsPolicyCalc).

(** The visitor may configure the resource: an administrator, or the decision
    service grants [authorize] on it. *)
Definition may_authorize (s : store) (visitor : Visitor) (ty id : string) : Prop :=
  (vis_Type visitor = RealName ∧ ∃ roles r, GetUserRolesByUserID (vis_ID visitor) = Ok roles ∧
     r ∈ roles ∧ r ∈ [SuperAdmin; SystemAdmin; SecurityAdmin]) ∨
  (∃ c, @CheckAccess (calc s)
     {| res_ID := id; res_Type := ty; res_Name := ""; res_Ancestors := []; res_CreatedBy := "" |}
     {| acc_ID := vis_ID visitor; acc_Type := vis_Type visitor; acc_Name := "" |} [authorizeOperation] [] = Ok c ∧
     Result c = true).

Lemma checkVisitorAuthorize_Ok s visitor (m : gmap string (gmap string bool)) ty ids id u :
  checkVisitorAuthorize calc s visitor m = Ok u → m !! ty = Some ids → is_Some (ids !! id) →
  may_authorize s visitor ty id.
Proof.
  destruct u. intros Hc Hty Hid. unfold checkVisitorAuthorize in Hc. apply bind_Ok in Hc as (isAdmin & Ha & Hc).
  destruct isAdmin.
  - left. destruct (vis_Type visitor); [|done..]. split; [done|].
    obind. apply existsb_exists in Ha as (t & Hin & Hd). apply bool_decide_eq_true in Hd.
    exists r, t. by rewrite list_elem_of_In.
  - right. rewrite (ofold_unit_Ok (λ kv, ofold (λ _ resourceID, _) tt (range 35 kv.2).*1)) in Hc.
    specialize (Hc (ty, ids)). rewrite elem_of_range in Hc. specialize (Hc Hty). simpl in Hc.
    rewrite (ofold_unit_Ok (λ resourceID, _)) in Hc. specialize (Hc id).
    rewrite elem_of_range_keys in Hc. specialize (Hc Hid). obind. rewrite negb_false_iff in Hc. eauto.
Qed.

Lemma authorizeMapOf_lookup ps p :
  p ∈ ps → ∃ ids, authorizeMapOf ps !! pol_ResourceType p = Some ids ∧ is_Some (ids !! pol_ResourceID p).
Proof.
  unfold authorizeMapOf. induction ps as [|q ps IH] using rev_ind; intros Hp; [by inversion Hp|].
  rewrite foldl_app. simpl. rewrite lookup_insert. apply elem_of_app in Hp as [Hp|Hp].
  - destruct (IH Hp) as (ids & Hids & Hid). case_decide as E; [|eauto].
    eexists. split; [done|]. rewrite E, Hids. simpl. rewrite lookup_insert. case_decide; eauto.
  - apply list_elem_of_singleton in Hp as ->. rewrite decide_True by done.
    eexists. split; [done|]. by rewrite lookup_insert_eq.
Qed.

Lemma authorize_all s visitor ps p u :
  checkVisitorAuthorize calc s visitor (authorizeMapOf ps) = Ok u → p ∈ ps →
  may_authorize s visitor (pol_ResourceType p) (pol_ResourceID p).
Proof.
  intros Hc Hp. destruct (authorizeMapOf_lookup ps p Hp) as (ids & Hids & Hid).
  by eapply checkVisitorAuthorize_Ok.
Qed.

Lemma rows_authorized s visitor ids m site row u :
  NoDup (p_id <$> t_policy s) → policyDB_GetByPolicyIDs s ids = Ok m →
  checkVisitorAuthorize calc s visitor (authorizeMapOf (range site m).*2) = Ok u →
  row ∈ t_policy s → p_id row ∈ ids → may_authorize s visitor (p_resource_type row) (p_resource_id row).
Proof.
  intros Hnd Hm Hc Hrow Hid. destruct (GetByPolicyIDs_spec _ _ _ Hnd Hm) as [Hin _].
  destruct (Hin row Hrow Hid) as (p & Hp & Hscan).
  apply scanWithAncestors_keys in Hscan as (_ & <- & <- & _).
  eapply authorize_all; [done|]. apply elem_of_range_snd. eauto.
Qed.

Lemma Create_authorized s visitor ps pids s' p :
  policy_Create calc visitor ps s = (Ok pids, s') → p ∈ ps → may_authorize s visitor (pol_ResourceType p) (pol_ResourceID p).
Proof.
  intros Hc Hp. unfold policy_Create in Hc. case_bool_decide as E; [subst; by inversion Hp|].
  obind. by eapply authorize_all.
Qed.

Lemma Update_authorized s visitor ps s' row :
  NoDup (p_id <$> t_policy s) → policy_Update calc visitor ps s = (Ok tt, s') →
  row ∈ t_policy s → p_id row ∈ pol_ID <$> ps → may_authorize s visitor (p_resource_type row) (p_resource_id row).
Proof.
  intros Hnd Hu Hrow Hid. unfold policy_Update in Hu.
  case_bool_decide as E; [rewrite E in Hid; by inversion Hid|]. obind.
  match goal with Hq : policyDB_GetByPolicyIDs _ _ = Ok _ |- _ =>
    destruct (GetByPolicyIDs_spec _ _ _ Hnd Hq) as [Hin _] end.
  case_match eqn:Hsz.
  { destruct (Hin row Hrow Hid) as (p & Hp & _). apply Nat.eqb_eq, map_size_empty_iff in Hsz. by rewrite Hsz in Hp. }
  obind. by eapply rows_authorized.
Qed.

Lemma Delete_authorized s visitor ids s' row :
  NoDup (p_id <$> t_policy s) → policy_Delete calc visitor ids s = (Ok tt, s') →
  row ∈ t_policy s → p_id row ∈ ids → may_authorize s visitor (p_resource_type row) (p_resource_id row).
Proof.
  intros Hnd Hd Hrow Hid. unfold policy_Delete in Hd.
  case_bool_decide as E; [rewrite E in Hid; by inversion Hid|]. obind. by eapply rows_authorized.
Qed.

(** C5. A successful [Create] means that the visitor is a super, system or
    security administrator or is granted [authorize] on every resource of the
    request; a successful [Update] or [Delete] that reaches a row means it for
    the resource of that row. *)
Theorem writes_need_authority s visitor ps ids :
  NoDup (p_id <$> t_policy s) →
  (∀ pids s', policy_Create calc visitor ps s = (Ok pids, s') →
     ∀ p, p ∈ ps → may_authorize s visitor (pol_ResourceType p) (pol_ResourceID p)) ∧
  (∀ s', policy_Update calc visitor ps s = (Ok tt, s') →
     ∀ row, row ∈ t_policy s → p_id row ∈ pol_ID <$> ps →
       may_authorize s visitor (p_resource_type row) (p_resource_id row)) ∧
  (∀ s', policy_Delete calc visitor ids s = (Ok tt, s') →
     ∀ row, row ∈ t_policy s → p_id row ∈ ids →
       may_authorize s visitor (p_resource_type row) (p_resource_id row)).
Proof.
  intros Hnd. split_and!; [intros pids s' Hc p|intros s' Hu row|intros s' Hd row];
    [by eapply Create_authorized|by eapply Update_authorized|by eapply Delete_authorized].
Qed.
End authority.

(** ** Effects on the table *)
Section rows.
Context `{SqlEnv}.

Lemma updateRow_id p row : p_id (updateRow p row) = p_id row.
Proof. unfold updateRow. by case_bool_decide. Qed.

(** Several updates, one after the other, on one row. *)
Definition updateAll (ps : list PolicyInfo) (row : policy_row) : policy_row := foldl (λ row p, updateRow p row) row ps.

Lemma updateAll_id ps row : p_id (updateAll ps row) = p_id row.
Proof. unfold updateAll. revert row. induction ps as [|p ps IH]; intros row; simpl; [done|]. by rewrite IH, updateRow_id. Qed.

Lemma updateAll_out ps row : p_id row ∉ pol_ID <$> ps → updateAll ps row = row.
Proof.
  unfold updateAll. revert row. induction ps as [|p ps IH]; intros row Hn; csimpl in *; [done|].
  assert (updateRow p row = row) as ->.
  { unfold updateRow. rewrite bool_decide_eq_false_2; [done|]. intros E. rewrite E in Hn. set_solver. }
  apply IH. set_solver.
Qed.

Lemma updateAll_in ps row p :
  NoDup (pol_ID <$> ps) → p ∈ ps → pol_ID p = p_id row → updateAll ps row = updateRow p row.
Proof.
  unfold updateAll. revert row. induction ps as [|q ps IH]; intros row Hnd Hp Hid; csimpl in *; [by inversion Hp|].
  apply NoDup_cons in Hnd as [Hq Hnd]. apply elem_of_cons in Hp as [->|Hp].
  - apply (updateAll_out ps). by rewrite updateRow_id, <-Hid.
  - assert (updateRow q row = row) as ->.
    { unfold updateRow. rewrite bool_decide_eq_false_2; [done|]. intros E. apply Hq.
      rewrite <-E, <-Hid. by apply list_elem_of_fmap_2. }
    by apply IH.
Qed.

Lemma policyDB_Update_rows ps s s' :
  policyDB_Update ps s = (Ok tt, s') → t_policy s' = updateAll ps <$> t_policy s.
Proof.
  unfold policyDB_Update. revert s. induction ps as [|p ps IH]; intros s; simpl.
  - intros [= <-]. symmetry. apply list_fmap_id.
  - intros Hb. obind. apply exec_cases in E as [[_ ->]|(e & ? & _)]; [|done].
    rewrite (IH _ Hb). simpl. rewrite <-list_fmap_compose. by apply list_fmap_ext.
Qed.

Lemma policyDB_Delete_rows ids s s' :
  policyDB_Delete ids s = (Ok tt, s') → t_policy s' = filter (λ row, p_id row ∉ ids) (t_policy s).
Proof.
  unfold policyDB_Delete. case_bool_decide as E.
  - intros [= <-]. subst. symmetry. apply filter_all. intros row _ Hin. by inversion Hin.
  - intros Hx. by apply exec_cases in Hx as [[_ ->]|(e & ? & _)].
Qed.

Lemma guarded_Update ps : (if bool_decide (ps = []) then mret tt else policyDB_Update ps) = policyDB_Update ps.
Proof. case_bool_decide; by subst. Qed.
Lemma guarded_Delete ids : (if bool_decide (ids = []) then mret tt else policyDB_Delete ids) = policyDB_Delete ids.
Proof. case_bool_decide; by subst. Qed.
End rows.

Section delete.
Context `{GoRuntime} `{DrivenUserMgnt} `{SqlEnv} (calc : store → LogicsPolicyCalc).

(** What [Delete] leaves of a row. *)
Definition deleted_row (ids : list string) (row : policy_row) : option policy_row :=
  if bool_decide (p_id row ∈ ids) then
    match scanWithAncestors row with
    | Ok p => if hasCondition p then Some (updateRow (keepConditional p) row) else None
    | _ => Some row
    end
  else Some row.

(** One row, given the policies that were read for the request. *)
Lemma deleted_row_split ids old row :
  NoDup (pol_ID <$> old) →
  (∀ p, p ∈ old → pol_ID p = p_id row ↔ p_id row ∈ ids ∧ scanWithAncestors row = Ok p) →
  (p_id row ∈ ids → ∃ p, p ∈ old ∧ scanWithAncestors row = Ok p) →
  deleted_row ids row =
  if decide (p_id row ∉ pol_ID <$> filter (λ p, hasCondition p = false) old)
  then Some (updateAll (keepConditional <$> filter (λ p, hasCondition p = true) old) row) else None.
Proof.
  intros Hnd Hread Hin. unfold deleted_row. case_bool_decide as Hid.
  - destruct (Hin Hid) as (p & Hp & Hs). rewrite Hs.
    assert (pol_ID p = p_id row) as Hpid by (by apply Hread).
    destruct (hasCondition p) eqn:Hc.
    + rewrite decide_True.
      * f_equal. symmetry. apply (updateAll_in _ _ (keepConditional p)); [|by apply list_elem_of_fmap_2, list_elem_of_filter|done].
        rewrite <-list_fmap_compose. by apply (NoDup_fmap_filter pol_ID).
      * intros Hdel. apply list_elem_of_fmap in Hdel as (q & Hq & Hqf). apply list_elem_of_filter in Hqf as [Hcq Hqo].
        symmetry in Hq. apply Hread in Hq as [_ Hq]; [|done]. congruence.
    + rewrite decide_False; [done|]. intros Hdel. apply Hdel. rewrite <-Hpid.
      by apply list_elem_of_fmap_2, list_elem_of_filter.
  - assert (∀ q, q ∈ old → pol_ID q ≠ p_id row) as Hno by (intros q Hq Heq; by apply Hread in Heq as [? _]).
    rewrite decide_True, updateAll_out; [done| |].
    + rewrite <-list_fmap_compose. intros Hu. apply list_elem_of_fmap in Hu as (q & Hq & Hqf).
      apply list_elem_of_filter in Hqf as [_ Hqo]. by apply (Hno q).
    + intros Hdel. apply list_elem_of_fmap in Hdel as (q & Hq & Hqf).
      apply list_elem_of_filter in Hqf as [_ Hqo]. by apply (Hno q).
Qed.

(** [Delete] removes the unconditional rules of the requested policies:
    a policy that has only such rules disappears, one that also has
    conditional rules keeps exactly these, and every other row stays as it
    is, in place. *)
Theorem Delete_effect visitor ids s s' :
  NoDup (p_id <$> t_policy s) →
  policy_Delete calc visitor ids s = (Ok tt, s') →
  t_policy s' = omap (deleted_row ids) (t_policy s).
Proof.
  intros Hnd Hd. unfold policy_Delete in Hd. case_bool_decide as E.
  { injection Hd as <-. subst. symmetry. apply omap_identity. intros row _. done. }
  obind. rename r into m, E0 into Hm. apply transaction_Ok in Hd.
  destruct (GetByPolicyIDs_spec _ _ _ Hnd Hm) as [Hin Hout].
  set (upd := keepConditional <$> filter (λ p, hasCondition p = true) (range 43 m).*2) in *.
  set (del := pol_ID <$> filter (λ p, hasCondition p = false) (range 43 m).*2) in *.
  rewrite guarded_Update, guarded_Delete in Hd. obind.
  match goal with Hu : policyDB_Update _ _ = (Ok ?u, _) |- _ => destruct u; apply policyDB_Update_rows in Hu as Hrows end.
  apply policyDB_Delete_rows in Hd. rewrite Hd, Hrows. clear Hd Hrows.
  assert (∀ row, row ∈ t_policy s →
    deleted_row ids row = if decide (p_id row ∉ del) then Some (updateAll upd row) else None) as Hrow.
  { intros row Hr. apply deleted_row_split.
    - rewrite scanned_ids; [apply NoDup_fst_range|]. intros id p Hp.
      destruct (Hout id p Hp) as (row' & _ & <- & _ & Hs). by apply scanWithAncestors_keys in Hs as (-> & _).
    - intros p Hp. by eapply read_policies.
    - intros Hid. destruct (Hin row Hr Hid) as (p & Hp & Hs). exists p. rewrite elem_of_range_snd. eauto. }
  clear -Hrow. induction (t_policy s) as [|row l IH]; csimpl; [done|].
  rewrite filter_cons, updateAll_id, Hrow by left. case_decide; simpl; [f_equal|]; apply IH; intros; apply Hrow; by right.
Qed.
End delete.

Section update.
Context `{GoRuntime} `{DrivenUserMgnt} `{LogicsResourceType} `{SqlEnv} (calc : store → LogicsPolicyCalc).

(** The policy [Update] writes for a request on a stored policy. *)
Definition overwritten (old p : PolicyInfo) : PolicyInfo :=
  let '(allow, deny) := getPolicyNoConditionOperations p in
  pol_set_Rules {| rules_Allow := overwriteUnconditional (rules_Allow (pol_Rules old)) allow;
                   rules_Deny := overwriteUnconditional (rules_Deny (pol_Rules old)) deny |} p.

(** What [Update] makes of a row. *)
Definition updated_row (ps : list PolicyInfo) (row : policy_row) : policy_row :=
  match filter (λ p, pol_ID p = p_id row) ps, scanWithAncestors row with
  | p :: _, Ok old => updateRow (overwritten old p) row
  | _, _ => row
  end.

Lemma overwrite_name `{JsonLogic} data rules ops op :
  single_unconditional rules →
  rules_name data (overwriteUnconditional rules ops) op ↔
  op ∈ ids_of ops ∨ rules_name data (filter conditional rules) op.
Proof.
  intros Hs. unfold overwriteUnconditional.
  assert (match overwriteFirst rules ops with
    | Some rules' => rules_name data rules' op ↔ op ∈ ids_of ops ∨ rules_name data (filter conditional rules) op
    | None => filter conditional rules = rules
    end) as Hgen.
  { induction rules as [|r rules IH]; simpl; [done|]. unfold single_unconditional in *.
    rewrite !filter_cons in *. destruct (isConditionEmpty (rule_Condition r)) eqn:E; simpl in *.
    - rewrite rules_name_cons. rewrite rule_applies_empty by done. simpl.
      rewrite (filter_all _ rules); [tauto|].
      intros x Hx. destruct (isConditionEmpty (rule_Condition x)) eqn:Ex; [|done].
      assert (x ∈ filter (λ r, isConditionEmpty (rule_Condition r) = true) rules) as Hin
        by (by apply list_elem_of_filter).
      destruct (filter _ rules); [by inversion Hin|simpl in Hs; lia].
    - specialize (IH Hs). destruct (overwriteFirst rules ops) as [rules'|]; [|by rewrite IH].
      rewrite !rules_name_cons, IH. naive_solver. }
  destruct (overwriteFirst rules ops) as [rules'|]; simpl; [done|].
  rewrite rules_name_cons, Hgen. unfold rule_applies. simpl. tauto.
Qed.

Lemma update_distinct ps m m' :
  ofold (λ (idDupCheck : gmap string bool) policy,
    _ ← fail_if (mget idDupCheck (pol_ID policy))
          (NewError PublicBadRequest ("policy id duplicate, policy.id " +:+ pol_ID policy));
    _ ← checkEndTime curTime (pol_EndTime policy);
    Ok (<[pol_ID policy := true]> idDupCheck)) m ps = Ok m' →
  NoDup (pol_ID <$> ps) ∧ (∀ p, p ∈ ps → mget m (pol_ID p) = false ∧ in_force (pol_EndTime p) (curTime + 1)).
Proof.
  revert m. induction ps as [|p ps IH]; intros m Hf; csimpl in *; [split; [constructor|]; intros p Hp; by inversion Hp|].
  obind. destruct r1. apply checkEndTime_Ok in E1. destruct (IH _ Hf) as [Hnd Hall]. split.
  - apply NoDup_cons. split; [|done]. intros Hin. apply list_elem_of_fmap in Hin as (q & Hq & Hin).
    destruct (Hall q Hin) as [Hq' _]. rewrite mget_insert, <-Hq, bool_decide_eq_true_2 in Hq' by done. done.
  - intros q Hq. apply elem_of_cons in Hq as [->|Hq].
    + split; [done|]. unfold in_force. lia.
    + destruct (Hall q Hq) as [Hm ?]. rewrite mget_insert, orb_false_iff in Hm. naive_solver.
Qed.

Lemma updateRules_Ok operationIDs m p p' :
  updateRules operationIDs m p = Ok p' →
  pol_ID p' = pol_ID p ∧ (∀ old, m !! pol_ID p = Some old → p' = overwritten old p).
Proof.
  unfold updateRules, overwritten. destruct (m !! pol_ID p) as [old|]; [|naive_solver].
  destruct (getPolicyNoConditionOperations p) as [allow deny] eqn:E. intros Hu. obind. split; [done|].
  by intros old' [= ->].
Qed.

Lemma updated_ids operationIDs m ps ps' :
  Forall2 (λ p p', updateRules operationIDs m p = Ok p') ps ps' → pol_ID <$> ps' = pol_ID <$> ps.
Proof. induction 1 as [|p p' ps ps' Hu _ IH]; csimpl; [done|]. apply updateRules_Ok in Hu as [-> _]. by f_equal. Qed.

(** [Update] overwrites, in place and for exactly the requested ids that
    exist, the unconditional rules of the row with those of the request,
    together with its end time; every other row stays as it is.  The
    conditional rules of the row keep their effect: on every data map the new
    rules name an operation when the request names it or a stored conditional
    rule does. *)
Theorem Update_effect `{JsonLogic} visitor ps s s' :
  NoDup (p_id <$> t_policy s) →
  policy_Update calc visitor ps s = (Ok tt, s') →
  t_policy s' = updated_row ps <$> t_policy s ∧
  (∀ old p data op, stored_form old → 
     (rules_name data (rules_Allow (pol_Rules (overwritten old p))) op ↔
      op ∈ ids_of (getPolicyNoConditionOperations p).1 ∨
      rules_name data (filter conditional (rules_Allow (pol_Rules old))) op) ∧
     (rules_name data (rules_Deny (pol_Rules (overwritten old p))) op ↔
      op ∈ ids_of (getPolicyNoConditionOperations p).2 ∨
      rules_name data (filter conditional (rules_Deny (pol_Rules old))) op)).
Proof.
  intros Hnd Hu. split; [|by intros old p data op [Ha Hd]; split; simpl; apply overwrite_name].
  unfold policy_Update in Hu. case_bool_decide as E.
  { injection Hu as <-. subst. symmetry. apply list_fmap_id. }
  obind. rename r0 into m. apply update_distinct in E0 as [Hndp _].
  match goal with Hq : policyDB_GetByPolicyIDs _ _ = Ok _ |- _ =>
    destruct (GetByPolicyIDs_spec _ _ _ Hnd Hq) as [Hin Hout] end.
  case_match eqn:Hsz.
  { injection Hu as <-. symmetry. etrans; [|apply list_fmap_id].
    apply Forall_fmap_ext, Forall_forall. intros row Hr. unfold updated_row.
    destruct (filter _ ps) as [|p l] eqn:Ef; [done|]. apply filter_cons_elem in Ef as [Hid Hp].
    destruct (Hin row Hr) as (q & Hq & _); [rewrite <-Hid; by apply list_elem_of_fmap_2|].
    apply Nat.eqb_eq, map_size_empty_iff in Hsz. by rewrite Hsz in Hq. }
  obind. match goal with Ho : omap_all _ _ = Ok ?l |- _ => rename l into ps'; apply omap_all_Ok in Ho; rename Ho into Hps' end.
  apply transaction_Ok, policyDB_Update_rows in Hu. rewrite Hu.
  apply Forall_fmap_ext, Forall_forall. intros row Hr. pose proof (updated_ids _ _ _ _ Hps') as Hids.
  unfold updated_row. destruct (filter (λ p, pol_ID p = p_id row) ps) as [|p l] eqn:Ef.
  { apply updateAll_out. rewrite Hids. intros Hid. apply list_elem_of_fmap in Hid as (p & Hid & Hp).
    by eapply filter_nil_not in Ef. }
  apply filter_cons_elem in Ef as [Hid Hp].
  destruct (Hin row Hr) as (old & Hold & Hs); [rewrite <-Hid; by apply list_elem_of_fmap_2|]. rewrite Hs.
  apply list_elem_of_lookup in Hp as [i Hi]. destruct (Forall2_lookup_l _ _ _ _ _ Hps' Hi) as (p' & Hp' & Hup).
  apply updateRules_Ok in Hup as [Hid' Hov]. rewrite Hid in Hov. rewrite <-(Hov old Hold).
  apply updateAll_in; [by rewrite Hids|by eapply list_elem_of_lookup_2|congruence].
Qed.
End update.
