(* ===== verification/PolicyCreate.v ===== *)
(** * Creating policies

    [Create] and [CreatePrivate]: the table keeps one policy per resource and
    accessor, and afterwards the policy of each requested resource and accessor
    decides like the one stored before together with the request. *)
From S2P Require Import Prelude Json Interfaces Common PolicyCalc PolicyCalcSpec Store PolicyDB PolicyDBSpec Sample Decision Listings Policy PolicyMerge PolicyOps.

(** The key of a policy: resource type, resource and accessor. *)
Definition key_row (row : policy_row) : string * string * string :=
  (p_resource_type row, p_resource_id row, p_accessor_id row).
Definition key_pol (p : PolicyInfo) : string * string * string :=
  (pol_ResourceType p, pol_ResourceID p, pol_AccessorID p).

(** The policies stored for the key of a request. *)
Definition stored_for (s : store) (p : PolicyInfo) : list PolicyInfo :=
  omap (λ row, match scanWithAncestors row with Ok q => Some q | _ => None end)
    (filter (λ row, key_row row = key_pol p) (t_policy s)).

(** A loop that fills a map from successful calls, one per key. *)
Lemma ofold_fill {V W} (f : string * V → outcome W) (bad : W → bool) (l : list (string * V)) (m m' : gmap string W) k x :
  NoDup l.*1 →
  ofold (λ m kv, match f kv with
                 | Ok w => Ok (if bad w then m else <[kv.1 := w]> m)
                 | Err e => Err e
                 | Panic w => Panic w
                 end) m l = Ok m' →
  (k, x) ∈ l → ∃ w, f (k, x) = Ok w ∧ m' !! k = if bad w then m !! k else Some w.
Proof.
  revert m. induction l as [|[k0 x0] l IH]; intros m Hnd Hf Hin; [by inversion Hin|].
  csimpl in *. apply NoDup_cons in Hnd as [Hk0 Hnd].
  destruct (f (k0, x0)) as [w|e|w] eqn:Ef; simpl in Hf; [|done|done].
  apply elem_of_cons in Hin as [[= -> ->]|Hin].
  - exists w. split; [done|].
    assert (∀ m1, ofold (λ m kv, match f kv with
        | Ok w => Ok (if bad w then m else <[kv.1 := w]> m) | Err e => Err e | Panic w => Panic w end) m1 l = Ok m' →
      m' !! k0 = m1 !! k0) as Hfr.
    { clear -Hk0. intros m1. revert m1. induction l as [|[k1 x1] l IH]; intros m1; simpl; [by intros [= <-]|].
      csimpl in Hk0. intros Hf. obind. destruct (f (k1, x1)); [|done|done]. obind.
      rewrite (IH ltac:(set_solver) _ Hf). case_match; [done|]. apply lookup_insert_ne. set_solver. }
    rewrite (Hfr _ Hf). case_match; [done|]. apply lookup_insert_eq.
  - destruct (IH _ Hnd Hf Hin) as (w' & Hw' & Hl). exists w'. split; [done|]. rewrite Hl.
    case_match; [|done]. case_match; [done|]. apply lookup_insert_ne.
    intros ->. apply Hk0. by eapply (list_elem_of_fmap_2 fst) in Hin.
Qed.

Section validate.
Context `{LogicsResourceTypeHierarchy} `{SqlEnv}.

(** A request that passes validation has no two policies with one key, ends
    in the future, names only declared operations, and no operation is both
    allowed and denied. *)
Lemma checkPolicyOperationValid_Ok ops p u :
  checkPolicyOperationValid ops p = Ok u →
  (∀ op, op ∈ ids_of (getPolicyNoConditionOperations p).1 ++ ids_of (getPolicyNoConditionOperations p).2 →
     mget ops op = true) ∧
  (∀ op, op ∈ ids_of (getPolicyNoConditionOperations p).1 → op ∈ ids_of (getPolicyNoConditionOperations p).2 → False) ∧
  ((getPolicyNoConditionOperations p).1 ≠ [] ∨ (getPolicyNoConditionOperations p).2 ≠ []).
Proof.
  unfold checkPolicyOperationValid. destruct (getPolicyNoConditionOperations p) as [allow deny]. simpl.
  destruct u. intros Hc. obind. rename r0 into dm.
  assert (∀ (l : list PolicyOperationItem) (m m' : gmap string bool), ofold (λ denyOperationMap deny,
      _ ← fail_if (negb (mget ops (op_ID deny)))
            (NewError PublicBadRequest ("operation " +:+ op_ID deny +:+ " not found"));
      Ok (<[op_ID deny := true]> denyOperationMap)) m l = Ok m' →
    (∀ op, op ∈ ids_of l → mget ops op = true ∧ mget m' op = true) ∧ ∀ op, mget m op = true → mget m' op = true) as Hdeny.
  { induction l as [|o l IH]; intros m m' Hf; csimpl in *; [obind; split; [intros op Hop; by inversion Hop|done]|].
    obind. rewrite negb_false_iff in *. destruct (IH _ _ Hf) as [H1 H2].
    assert (mget m' (op_ID o) = true) by (apply H2; by rewrite mget_insert, bool_decide_eq_true_2).
    split.
    - intros op Hop. apply elem_of_cons in Hop as [->|Hop]; [done|by apply H1].
    - intros op Hop. apply H2. rewrite mget_insert, Hop. apply orb_true_r. }
  destruct (Hdeny deny ∅ dm) as [Hd _]; [done|].
  rewrite (ofold_unit_Ok (λ allow, _)) in Hc.
  assert (∀ op, op ∈ ids_of allow → mget ops op = true ∧ mget dm op = false) as Ha.
  { intros op Hop. apply list_elem_of_fmap in Hop as (o & -> & Ho). specialize (Hc o Ho). obind.
    by rewrite negb_false_iff in *. }
  split_and!.
  - intros op [Hop|Hop]%elem_of_app; [by apply Ha|by apply Hd].
  - intros op Hop Hop'. destruct (Ha op Hop) as [_ Hx]. destruct (Hd op Hop') as [_ Hy]. congruence.
  - apply andb_false_iff in E as [E|E]; apply bool_decide_eq_false in E; auto.
Qed.

Lemma validateNew_Ok ops ps r :
  validateNew ops ps = Ok r →
  NoDup (key_pol <$> ps) ∧
  ∀ p, p ∈ ps → in_force (pol_EndTime p) (curTime + 1) ∧ checkResourceIDAndAncestors p = Ok tt ∧
    checkPolicyOperationValid (default ∅ (ops !! pol_ResourceType p)) p = Ok tt.
Proof.
  unfold validateNew. intros Hv. apply bind_Ok in Hv as (acc & Hv & _).
  enough (∀ dup tm rm acc, ofold (validateStep ops) (dup, tm, rm) ps = Ok acc →
    NoDup (key_pol <$> ps) ∧ (∀ p, p ∈ ps → (key_pol p ∉ dup) ∧ in_force (pol_EndTime p) (curTime + 1) ∧
       checkResourceIDAndAncestors p = Ok tt ∧
       checkPolicyOperationValid (default ∅ (ops !! pol_ResourceType p)) p = Ok tt)) as Hgen.
  { destruct (Hgen _ _ _ _ Hv) as [? Hall]. split; [done|]. intros p Hp. by destruct (Hall p Hp). }
  clear. induction ps as [|p ps IH]; intros dup tm rm acc' Hf; csimpl in *; [split; [constructor|intros p Hp; by inversion Hp]|].
  obind. repeat match goal with u : unit |- _ => destruct u end.
  destruct (IH _ _ _ _ Hf) as [Hnd Hall]. fold (key_pol p) in *. split.
  - apply NoDup_cons. split; [|done]. intros Hin. apply list_elem_of_fmap in Hin as (q & Hq & Hin).
    destruct (Hall q Hin) as [Hd _]. rewrite <-Hq in Hd. set_solver.
  - intros q [->|Hq]%elem_of_cons.
    + rewrite bool_decide_eq_false in *. split_and!; [done| |done|done].
      match goal with Hc : checkEndTime _ _ = _ |- _ => apply checkEndTime_Ok in Hc end. unfold in_force. lia.
    + destruct (Hall q Hq) as (Hd & ? & ? & ?). split_and!; [set_solver|done..].
Qed.
End validate.

(** ** What is already stored *)
Section old.
Context `{GoRuntime} `{SqlEnv}.

Lemma resourceTypeMapOf_lookup ps p :
  p ∈ ps → ∃ ids, resourceTypeMapOf ps !! pol_ResourceType p = Some ids ∧ pol_ResourceID p ∈ ids.
Proof.
  unfold resourceTypeMapOf. induction ps as [|q ps IH] using rev_ind; intros Hp; [by inversion Hp|].
  rewrite foldl_app. simpl. rewrite lookup_mappend. apply elem_of_app in Hp as [Hp|Hp].
  - destruct (IH Hp) as (ids & Hids & Hid). case_decide as E; [|eauto].
    eexists. split; [done|]. rewrite E, Hids. simpl. apply elem_of_app. by left.
  - apply list_elem_of_singleton in Hp as ->. rewrite decide_True by done.
    eexists. split; [done|]. apply elem_of_app. right. by apply list_elem_of_singleton.
Qed.

Lemma GetByResourceIDs_spec s ty ids m :
  policyDB_GetByResourceIDs s ty ids = Ok m →
  (∀ row, row ∈ t_policy s → p_resource_type row = ty → p_resource_id row ∈ ids →
     ∃ g q, m !! p_resource_id row = Some g ∧ q ∈ g ∧ scanWithAncestors row = Ok q) ∧
  (∀ id g q, m !! id = Some g → q ∈ g →
     ∃ row, row ∈ t_policy s ∧ p_resource_type row = ty ∧ p_resource_id row = id ∧ scanWithAncestors row = Ok q).
Proof.
  intros Hq. unfold policyDB_GetByResourceIDs in Hq. apply stmt_Ok, in_list_Ok in Hq as [_ Hq]. obind.
  rename r into qs, E into Hs. apply omap_all_Ok in Hs. set (rows := range_order 25 _) in *.
  assert (∀ row, row ∈ rows ↔ row ∈ t_policy s ∧ p_resource_id row ∈ ids ∧ p_resource_type row = ty) as Hrows.
  { intros row. unfold rows. rewrite elem_of_range_order, list_elem_of_filter. tauto. }
  split.
  - intros row Hr Hty Hid. destruct (list_elem_of_lookup_1 rows row) as [i Hi]; [by apply Hrows|].
    destruct (Forall2_lookup_l _ _ _ _ _ Hs Hi) as (q & Hq & Hscan).
    apply scanWithAncestors_keys in Hscan as Hk. destruct Hk as (_ & Hrid & _).
    assert (q ∈ filter (λ x, pol_ResourceID x = p_resource_id row) qs) as Hin.
    { apply list_elem_of_filter. split; [done|]. by eapply list_elem_of_lookup_2. }
    exists (filter (λ x, pol_ResourceID x = p_resource_id row) qs), q. split_and!; [|done|done].
    apply group_by_Some. split; [done|]. intros E. rewrite E in Hin. by inversion Hin.
  - intros id g q Hg Hin. apply group_by_Some in Hg as [-> _]. apply list_elem_of_filter in Hin as [Hid Hin].
    apply list_elem_of_lookup in Hin as [i Hi].
    destruct (Forall2_lookup_r _ _ _ _ _ Hs Hi) as (row & Hrow & Hscan).
    apply list_elem_of_lookup_2, Hrows in Hrow as (Hrow & _ & Hty). exists row.
    apply scanWithAncestors_keys in Hscan as Hk. destruct Hk as (_ & Hrid & _).
    split_and!; [done|done|congruence|done].
Qed.

Lemma byAccessor_Some ps a q : byAccessor ps !! a = Some q → q ∈ ps ∧ pol_AccessorID q = a.
Proof.
  unfold byAccessor. induction ps as [|p ps IH] using rev_ind; simpl; [by rewrite lookup_empty|].
  rewrite foldl_app. simpl. rewrite lookup_insert. case_decide; [set_solver|].
  intros Hq. destruct (IH Hq). split; [|done]. apply elem_of_app. by left.
Qed.

Lemma byAccessor_is_Some ps q : q ∈ ps → is_Some (byAccessor ps !! pol_AccessorID q).
Proof.
  unfold byAccessor. induction ps as [|p ps IH] using rev_ind; intros Hq; [by inversion Hq|].
  rewrite foldl_app. simpl. rewrite lookup_insert. case_decide; [by eexists|].
  apply elem_of_app in Hq as [Hq|Hq]; [by apply IH|]. apply list_elem_of_singleton in Hq as ->. done.
Qed.

(** The stored policy found for a request is the one with its key. *)
Lemma findOldPolicy_spec s ps old p :
  oldPolicies s (resourceTypeMapOf ps) = Ok old → p ∈ ps →
  match findOldPolicy old p with
  | Some o => ∃ row, row ∈ t_policy s ∧ key_row row = key_pol p ∧ scanWithAncestors row = Ok o
  | None => ∀ row, row ∈ t_policy s → key_row row ≠ key_pol p
  end.
Proof.
  intros Ho Hp. unfold oldPolicies in Ho.
  destruct (readOldPolicies s (resourceTypeMapOf ps)) as [rd|e|w] eqn:Er; simpl in Ho; [|done|done].
  injection Ho as <-. destruct (resourceTypeMapOf_lookup ps p Hp) as (ids & Hids & Hid).
  unfold readOldPolicies in Er.
  destruct (ofold_fill (λ kv, policyDB_GetByResourceIDs s kv.1 kv.2) (λ w, (size w =? 0)%nat)
    (range 40 (resourceTypeMapOf ps)) ∅ rd (pol_ResourceType p) ids) as (m & Hm & Hrd);
    [apply NoDup_fst_range|exact Er|by apply elem_of_range|].
  simpl in Hm. apply GetByResourceIDs_spec in Hm as [Hin Hout]. rewrite lookup_empty in Hrd.
  unfold findOldPolicy. rewrite lookup_fmap, Hrd.
  destruct ((size m =? 0)%nat) eqn:Hsz; simpl.
  { intros row Hr [= Hty Hrid Hacc]. destruct (Hin row Hr Hty) as (g & q & Hg & _); [by rewrite Hrid|].
    apply Nat.eqb_eq, map_size_empty_iff in Hsz. by rewrite Hsz in Hg. }
  rewrite lookup_fmap. destruct (m !! pol_ResourceID p) as [g|] eqn:Hg; simpl.
  - destruct (byAccessor g !! pol_AccessorID p) as [o|] eqn:Ha.
    + apply byAccessor_Some in Ha as [Hog Hacc]. destruct (Hout _ _ _ Hg Hog) as (row & Hr & Hty & Hrid & Hs).
      exists row. split_and!; [done| |done]. unfold key_row, key_pol.
      apply scanWithAncestors_keys in Hs as (_ & _ & _ & <- & _). congruence.
    + intros row Hr [= Hty Hrid Hacc]. destruct (Hin row Hr Hty) as (g' & q & Hg' & Hq & Hs); [by rewrite Hrid|].
      rewrite Hrid, Hg in Hg'. injection Hg' as <-. apply byAccessor_is_Some in Hq.
      apply scanWithAncestors_keys in Hs as (_ & _ & _ & Hk & _). rewrite Hk, Hacc, Ha in Hq. by destruct Hq.
  - intros row Hr [= Hty Hrid Hacc]. destruct (Hin row Hr Hty) as (g & q & Hg' & _); [by rewrite Hrid|].
    by rewrite Hrid, Hg in Hg'.
Qed.
End old.

(** ** The requests that are new and those that are merged *)
Section split.
Context `{GoRuntime} `{SqlEnv} (cmp : PolicyInfo → PolicyInfo → bool) (merge : PolicyInfo → PolicyInfo → PolicyInfo)
  (old : gmap string (gmap string (gmap string PolicyInfo))) (names : gmap string string).

(** The policy inserted for a request: a fresh id and the accessor's name. *)
Definition with_id (n : nat) (p : PolicyInfo) : PolicyInfo :=
  pol_set_ID_Name (uuid n) (default (pol_AccessorID p) (names !! pol_AccessorID p)) p.

(** The policy written for a request that has a stored policy. *)
Definition merged_of (p : PolicyInfo) : option PolicyInfo :=
  match findOldPolicy old p with
  | Some o => if cmp o p then None else Some (merge o p)
  | None => None
  end.

Lemma splitNewAndUpdated_spec ps s new upd pids s' :
  splitNewAndUpdated cmp merge old names ps s = (Ok (new, upd, pids), s') →
  tables s' = tables s ∧ length pids = length ps ∧ upd = omap merged_of ps ∧
  ∃ ns, Forall (λ n, seq_uuid s ≤ n) ns ∧
    new = zip_with with_id ns (filter (λ p, findOldPolicy old p = None) ps) ∧
    length ns = length (filter (λ p, findOldPolicy old p = None) ps).
Proof.
  revert s new upd pids s'. induction ps as [|p ps IH]; intros s new upd pids s'; simpl.
  { intros [= <- <- <- <-]. split_and!; try done. by exists []. }
  rewrite filter_cons. unfold merged_of at 1. destruct (findOldPolicy old p) as [o|] eqn:Ef; intros Hs.
  - apply M_bind_Ok in Hs as ([[new1 upd1] pids1] & s1 & Hs1 & Hr). injection Hr as <- <- <- <-.
    destruct (IH _ _ _ _ _ Hs1) as (Ht & Hl & -> & ns & Hns & -> & Hln). split_and!; [done|simpl; by rewrite Hl| |].
    + destruct (cmp o p); done.
    + exists ns. by rewrite decide_False.
  - apply M_bind_Ok in Hs as (id & s1 & [= <- <-] & Hs).
    apply M_bind_Ok in Hs as ([[new1 upd1] pids1] & s2 & Hs1 & Hr). injection Hr as <- <- <- <-.
    destruct (IH _ _ _ _ _ Hs1) as (Ht & Hl & -> & ns & Hns & -> & Hln). split_and!; [done|simpl; by rewrite Hl|done|].
    exists (seq_uuid s :: ns). rewrite decide_True by done. simpl. split_and!; [|done|by rewrite Hln].
    constructor; [done|]. eapply Forall_impl; [exact Hns|]. simpl. lia.
Qed.

Lemma zip_with_id_keys ns ps : length ns = length ps → key_pol <$> zip_with with_id ns ps = key_pol <$> ps.
Proof. revert ns. induction ps as [|p ps IH]; intros [|n ns] Hl; csimpl in *; try done. f_equal. apply IH. lia. Qed.

Lemma zip_with_id_ids ns ps q : q ∈ zip_with with_id ns ps → ∃ n p, n ∈ ns ∧ p ∈ ps ∧ q = with_id n p.
Proof.
  intros [i Hi]%list_elem_of_lookup. apply lookup_zip_with_Some in Hi as (n & p & -> & Hn & Hp).
  exists n, p. split_and!; [by eapply list_elem_of_lookup_2|by eapply list_elem_of_lookup_2|done].
Qed.

Lemma zip_with_id_in ns ps p : length ns = length ps → p ∈ ps → ∃ n, n ∈ ns ∧ with_id n p ∈ zip_with with_id ns ps.
Proof.
  intros Hl [i Hi]%list_elem_of_lookup. destruct (lookup_lt_is_Some_2 ns i) as [n Hn].
  { rewrite Hl. by eapply lookup_lt_Some. }
  exists n. split; [by eapply list_elem_of_lookup_2|]. apply (list_elem_of_lookup_2 _ i).
  rewrite lookup_zip_with, Hn. simpl. by rewrite Hi.
Qed.
End split.

Section write.
Context `{SqlEnv}.

Lemma policyDB_Create_rows ps s s' :
  policyDB_Create ps s = (Ok tt, s') →
  t_policy s' = t_policy s ++ imap (λ i p, newPolicyRow (seq_primary s + Z.of_nat i) p) ps.
Proof.
  unfold policyDB_Create. case_bool_decide as E.
  - intros [= <-]. subst. simpl. by rewrite app_nil_r.
  - intros Hx. by apply exec_cases in Hx as [[_ ->]|(e & ? & _)].
Qed.

Lemma guarded_Create ps : (if bool_decide (ps = []) then mret tt else policyDB_Create ps) = policyDB_Create ps.
Proof. case_bool_decide; by subst. Qed.

(** The table after the transaction. *)
Lemma writePolicies_rows new upd s u s' :
  writePolicies new upd s = (Ok u, s') →
  ∃ n, t_policy s' = updateAll upd <$> (t_policy s ++ imap (λ i p, newPolicyRow (n + Z.of_nat i) p) new).
Proof.
  unfold writePolicies. intros Hw. exists (seq_primary s). case_match eqn:E.
  - injection Hw as <-. apply andb_true_iff in E as [En%bool_decide_eq_true Eu%bool_decide_eq_true]. subst.
    simpl. rewrite app_nil_r. symmetry. apply list_fmap_id.
  - apply transaction_Ok in Hw. rewrite guarded_Create, guarded_Update in Hw. obind.
    match goal with Hc : policyDB_Create _ _ = (Ok ?u, _) |- _ => destruct u; apply policyDB_Create_rows in Hc; rename Hc into Hrows end.
    apply policyDB_Update_rows in Hw. by rewrite Hw, Hrows.
Qed.
End write.

(** ** The effect of a request *)
Section create.
Context `{GoRuntime} `{DrivenUserMgnt} `{LogicsRole} `{LogicsResourceType} `{LogicsResourceTypeHierarchy}
  `{SqlEnv} `{JsonLogic} (calc : store → LogicsPolicyCalc).

(** The table before the request: distinct ids and keys, ids that the id
    generator has not handed out again, and rows in stored form. *)
Record policy_table (s : store) : Prop := {
  pt_ids : NoDup (p_id <$> t_policy s);
  pt_keys : NoDup (key_row <$> t_policy s);
  pt_fresh : ∀ n, seq_uuid s ≤ n → uuid n ∉ p_id <$> t_policy s;
  pt_form : ∀ row, row ∈ t_policy s → ∃ q, scanWithAncestors row = Ok q ∧ stored_form q
}.

Lemma updateRow_key p row : key_row (updateRow p row) = key_row row.
Proof. unfold updateRow. by case_bool_decide. Qed.

Lemma updateAll_key ps row : key_row (updateAll ps row) = key_row row.
Proof. unfold updateAll. revert row. induction ps as [|p ps IH]; intros row; simpl; [done|]. by rewrite IH, updateRow_key. Qed.

Lemma new_rows_keys (n : Z) new :
  key_row <$> imap (λ i p, newPolicyRow (n + Z.of_nat i) p) new = key_pol <$> new.
Proof.
  revert n. induction new as [|p new IH]; intros n; csimpl; [done|]. f_equal.
  rewrite (imap_ext _ (λ i p, newPolicyRow (n + 1 + Z.of_nat i) p)) by (intros; simpl; f_equal; lia). apply IH.
Qed.

(** The stored policy of a key. *)
Lemma stored_for_row s p row q :
  NoDup (key_row <$> t_policy s) → row ∈ t_policy s → key_row row = key_pol p → scanWithAncestors row = Ok q →
  stored_for s p = [q].
Proof.
  intros Hnd Hr Hk Hs. unfold stored_for.
  assert (filter (λ row, key_row row = key_pol p) (t_policy s) = [row]) as ->; [|simpl; by rewrite Hs].
  induction (t_policy s) as [|x l IH]; [by inversion Hr|]. csimpl in Hnd. apply NoDup_cons in Hnd as [Hx Hnd].
  rewrite filter_cons. apply elem_of_cons in Hr as [->|Hr].
  - rewrite decide_True by done. f_equal. apply filter_none. intros y Hy Hyk. apply Hx.
    rewrite Hk, <-Hyk. by apply list_elem_of_fmap_2.
  - rewrite decide_False; [by apply IH|]. intros Hxk. apply Hx. rewrite Hxk, <-Hk. by apply list_elem_of_fmap_2.
Qed.

Lemma stored_for_none s p : (∀ row, row ∈ t_policy s → key_row row ≠ key_pol p) → stored_for s p = [].
Proof. intros Hno. unfold stored_for. by rewrite filter_none. Qed.

Lemma says_stored_rules data p q op :
  pol_Rules q = stored_rules (pol_Rules p) → level_says data [q] op = level_says data [p] op.
Proof.
  intros Hq. rewrite <-(level_says_stored data [p] op). csimpl.
  apply level_says_eq; unfold level_denies, level_allows; rewrite !level_entries1; simpl; by rewrite Hq.
Qed.

Lemma scan_updateRow u row o :
  scanWithAncestors row = Ok o → pol_ID u = p_id row →
  ∃ q, scanWithAncestors (updateRow u row) = Ok q ∧ pol_Rules q = stored_rules (pol_Rules u).
Proof.
  intros Hs Hid. unfold updateRow. rewrite bool_decide_eq_true_2 by done.
  unfold scanWithAncestors in *. obind. simpl. rewrite rules_read_back. simpl. rewrite E0. simpl. by eexists.
Qed.

Lemma scan_newRow n p :
  ∃ q, scanWithAncestors (newPolicyRow n p) = Ok q ∧ pol_Rules q = stored_rules (pol_Rules p).
Proof. unfold scanWithAncestors. simpl. rewrite rules_read_back. simpl. rewrite ancestors_read_back. simpl. by eexists. Qed.

Lemma NoDup_fmap_omap {A B K J} (k : A → K) (f : A → option B) (h : B → J) (l : list A) :
  NoDup (k <$> l) →
  (∀ x x' y y', x ∈ l → x' ∈ l → f x = Some y → f x' = Some y' → h y = h y' → k x = k x') →
  NoDup (h <$> omap f l).
Proof.
  induction l as [|x l IH]; intros Hnd Hinj; csimpl in *; [constructor|].
  apply NoDup_cons in Hnd as [Hx Hnd].
  assert (NoDup (h <$> omap f l)) as Hl.
  { apply IH; [done|]. intros x1 x2 y1 y2 Hx1 Hx2. apply Hinj; by right. }
  destruct (f x) as [y|] eqn:Ef; [|done]. csimpl. apply NoDup_cons. split; [|done].
  intros Hin. apply list_elem_of_fmap in Hin as (y' & Hy & Hy'). apply list_elem_of_omap in Hy' as (x' & Hx' & Hf').
  apply Hx. rewrite (Hinj x x' y y'); [by apply list_elem_of_fmap_2|left|by right|done|done|done].
Qed.

(** The rows that are merged into. *)
Lemma merged_of_row s ps old p u :
  policy_table s → oldPolicies s (resourceTypeMapOf ps) = Ok old → p ∈ ps →
  merged_of cmpPolicy mergeNewPolicy old p = Some u →
  ∃ row o, row ∈ t_policy s ∧ key_row row = key_pol p ∧ scanWithAncestors row = Ok o ∧
    pol_ID u = p_id row ∧ u = mergeNewPolicy o p.
Proof.
  intros Ht Ho Hp Hu. unfold merged_of in Hu. pose proof (findOldPolicy_spec s ps old p Ho Hp) as Hf.
  destruct (findOldPolicy old p) as [o|]; [|done]. destruct Hf as (row & Hr & Hk & Hs).
  destruct (cmpPolicy o p); [done|]. injection Hu as <-. exists row, o.
  apply scanWithAncestors_keys in Hs as Hs'. destruct Hs' as (Hid & _). done.
Qed.

Lemma merged_ids_distinct s ps old :
  policy_table s → NoDup (key_pol <$> ps) → oldPolicies s (resourceTypeMapOf ps) = Ok old →
  NoDup (pol_ID <$> omap (merged_of cmpPolicy mergeNewPolicy old) ps).
Proof.
  intros Ht Hnd Ho. eapply NoDup_fmap_omap; [exact Hnd|]. intros p p' u u' Hp Hp' Hu Hu' Heq.
  destruct (merged_of_row s ps old p u Ht Ho Hp Hu) as (row & o & Hr & Hk & _ & Hid & _).
  destruct (merged_of_row s ps old p' u' Ht Ho Hp' Hu') as (row' & o' & Hr' & Hk' & _ & Hid' & _).
  rewrite <-Hk, <-Hk'. f_equal. apply (NoDup_fmap_inj_in p_id (t_policy s)); [apply Ht|done|done|congruence].
Qed.

(** The row of one request afterwards. *)
Lemma request_row s ps old names ns n p :
  let upd := omap (merged_of cmpPolicy mergeNewPolicy old) ps in
  let new := zip_with (with_id names) ns (filter (λ p, findOldPolicy old p = None) ps) in
  policy_table s → NoDup (key_pol <$> ps) → (∀ p, p ∈ ps → plain_request p) →
  oldPolicies s (resourceTypeMapOf ps) = Ok old → Forall (λ n, seq_uuid s ≤ n) ns →
  length ns = length (filter (λ p, findOldPolicy old p = None) ps) → p ∈ ps →
  ∃ row q, row ∈ updateAll upd <$> (t_policy s ++ imap (λ i p, newPolicyRow (n + Z.of_nat i) p) new) ∧
    key_row row = key_pol p ∧ scanWithAncestors row = Ok q ∧
    ∀ data op, level_says data [q] op = level_says data (stored_for s p ++ [p]) op.
Proof.
  intros upd new Ht Hnd Hplain Ho Hns Hlen Hp. pose proof (findOldPolicy_spec s ps old p Ho Hp) as Hf.
  destruct (findOldPolicy old p) as [o|] eqn:Ef.
  - destruct Hf as (row & Hr & Hk & Hs). destruct (pt_form s Ht row Hr) as (o' & Hs' & Hform).
    rewrite Hs in Hs'. injection Hs' as <-. rewrite (stored_for_row s p row o) by (done || apply Ht).
    apply scanWithAncestors_keys in Hs as Hs'. destruct Hs' as (Hid & _).
    destruct (cmpPolicy o p) eqn:Hcmp.
    + exists row, o. split_and!; [|done|done|intros; apply unchanged_says; auto].
      apply list_elem_of_fmap. exists row. split; [|apply elem_of_app; by left].
      rewrite updateAll_out; [done|]. intros Hin. apply list_elem_of_fmap in Hin as (u & Hu & Hin).
      apply list_elem_of_omap in Hin as (p' & Hp' & Hm).
      destruct (merged_of_row s ps old p' u Ht Ho Hp' Hm) as (row' & o' & Hr' & Hk' & _ & Hid' & _).
      assert (row' = row) as -> by (apply (NoDup_fmap_inj_in p_id (t_policy s)); [apply Ht|done|done|congruence]).
      assert (p' = p) as -> by (apply (NoDup_fmap_inj_in key_pol ps); [done|done|done|congruence]).
      unfold merged_of in Hm. by rewrite Ef, Hcmp in Hm.
    + destruct (scan_updateRow (mergeNewPolicy o p) row o Hs Hid) as (q & Hq & Hrules).
      exists (updateRow (mergeNewPolicy o p) row), q. split_and!; [|by rewrite updateRow_key|done|].
      * apply list_elem_of_fmap. exists row. split; [|apply elem_of_app; by left].
        symmetry. apply updateAll_in; [by apply (merged_ids_distinct s)| |done].
        apply list_elem_of_omap. exists p. split; [done|]. unfold merged_of. by rewrite Ef, Hcmp.
      * intros data op. rewrite (says_stored_rules data (mergeNewPolicy o p) q) by done. apply merge_says; auto.
  - rewrite stored_for_none by done.
    destruct (zip_with_id_in names ns (filter (λ p, findOldPolicy old p = None) ps) p Hlen) as (k & Hkn & Hin);
      [by apply list_elem_of_filter|].
    apply list_elem_of_lookup in Hin as [i Hi].
    set (row := newPolicyRow (n + Z.of_nat i) (with_id names k p)).
    destruct (scan_newRow (n + Z.of_nat i) (with_id names k p)) as (q & Hq & Hrules).
    exists row, q. split_and!; [|done|done|intros; by apply says_stored_rules].
    apply list_elem_of_fmap. exists row. split.
    + rewrite updateAll_out; [done|]. simpl. intros Hin. apply list_elem_of_fmap in Hin as (u & Hu & Hin).
      apply list_elem_of_omap in Hin as (p' & Hp' & Hm).
      destruct (merged_of_row s ps old p' u Ht Ho Hp' Hm) as (row' & o' & Hr' & Hk' & _ & Hid' & _).
      rewrite Forall_forall in Hns. apply (pt_fresh s Ht k (Hns k Hkn)). rewrite Hu, Hid'. by apply list_elem_of_fmap_2.
    + apply elem_of_app. right. apply (list_elem_of_lookup_2 _ i). rewrite list_lookup_imap.
      unfold new. rewrite Hi. done.
Qed.

(** The keys afterwards. *)
Lemma request_keys s ps old names ns n upd :
  let new := zip_with (with_id names) ns (filter (λ p, findOldPolicy old p = None) ps) in
  policy_table s → NoDup (key_pol <$> ps) → oldPolicies s (resourceTypeMapOf ps) = Ok old →
  length ns = length (filter (λ p, findOldPolicy old p = None) ps) →
  NoDup (key_row <$> (updateAll upd <$> (t_policy s ++ imap (λ i p, newPolicyRow (n + Z.of_nat i) p) new))).
Proof.
  intros new Ht Hnd Ho Hlen. rewrite <-list_fmap_compose.
  erewrite (list_fmap_ext _ key_row) by (intros; apply updateAll_key).
  rewrite fmap_app, new_rows_keys. unfold new. rewrite zip_with_id_keys by done.
  apply NoDup_app. split_and!; [apply Ht| |by apply NoDup_fmap_filter].
  intros k Hk Hin. apply list_elem_of_fmap in Hk as (row & -> & Hr).
  apply list_elem_of_fmap in Hin as (p & Hkp & Hp). apply list_elem_of_filter in Hp as [Hf Hp].
  pose proof (findOldPolicy_spec s ps old p Ho Hp) as Hs. rewrite Hf in Hs. by apply (Hs row).
Qed.

(** What [Create] and [CreatePrivate] do after validation. *)
Lemma create_after_validation s ps names new upd pids s1 u s' :
  policy_table s → NoDup (key_pol <$> ps) → (∀ p, p ∈ ps → plain_request p) →
  getCreateAndUpdatePolicy ps (resourceTypeMapOf ps) names s = (Ok (new, upd, pids), s1) →
  writePolicies new upd s1 = (Ok u, s') →
  NoDup (key_row <$> t_policy s') ∧ length pids = length ps ∧
  ∀ p, p ∈ ps → ∃ row q, row ∈ t_policy s' ∧ key_row row = key_pol p ∧ scanWithAncestors row = Ok q ∧
    ∀ data op, level_says data [q] op = level_says data (stored_for s p ++ [p]) op.
Proof.
  intros Ht Hnd Hplain Hg Hw. unfold getCreateAndUpdatePolicy in Hg.
  apply M_bind_Ok in Hg as (old & s0 & Hold & Hg). rewrite reads_eq in Hold. injection Hold as Hold <-.
  apply splitNewAndUpdated_spec in Hg as (Htab & Hlen & -> & ns & Hns & -> & Hln).
  apply writePolicies_rows in Hw as (n & Hrows). injection Htab as Htab _ _ _. rewrite Htab in Hrows.
  rewrite Hrows. split_and!; [by apply request_keys|done|]. intros p Hp. by apply request_row.
Qed.

(** C3. After a successful [Create] the table still holds one policy per resource and accessor, one id is returned per
    request, and the stored policy of each request decides, on every data
    map, like the policy stored for that key before together with the
    request; no two requests of one call share a key, every request ends in
    the future and allows nothing it denies. *)
Theorem Create_effect visitor ps s pids s' :
  policy_table s → (∀ p, p ∈ ps → plain_request p) → ps ≠ [] →
  policy_Create calc visitor ps s = (Ok pids, s') →
  NoDup (key_row <$> t_policy s') ∧ length pids = length ps ∧ NoDup (key_pol <$> ps) ∧
  ∀ p, p ∈ ps →
    in_force (pol_EndTime p) (curTime + 1) ∧
    (∀ op, op ∈ ids_of (getPolicyNoConditionOperations p).1 →
           op ∉ ids_of (getPolicyNoConditionOperations p).2) ∧
    ∃ row q, row ∈ t_policy s' ∧ key_row row = key_pol p ∧ scanWithAncestors row = Ok q ∧
      ∀ data op, level_says data [q] op = level_says data (stored_for s p ++ [p]) op.
Proof.
  intros Ht Hplain Hne Hc. unfold policy_Create in Hc. rewrite bool_decide_eq_false_2 in Hc by done. obind.
  match goal with Hv : validateNew _ _ = Ok ?r |- _ => destruct r as [tm rm]; apply validateNew_Ok in Hv as [Hnd Hval] end.
  obind. match goal with Hg : getCreateAndUpdatePolicy _ _ _ _ = (Ok ?r, _) |- _ => destruct r as [[new upd] pids'] end.
  obind. injection Hc as <- <-.
  edestruct create_after_validation as (Hk & Hl & Hrow); [done..|].
  split_and!; [done|done|done|]. intros p Hp. destruct (Hval p Hp) as (Hend & _ & Hok).
  apply checkPolicyOperationValid_Ok in Hok as (_ & Hdis & _).
  split_and!; [done|intros op Ha Hd; by eapply Hdis|by apply Hrow].
Qed.

(** The private interface has the same effect without the authority check. *)
Lemma CreatePrivate_effect ps s u s' :
  policy_table s → (∀ p, p ∈ ps → plain_request p) → ps ≠ [] →
  policy_CreatePrivate ps s = (Ok u, s') →
  NoDup (key_row <$> t_policy s') ∧
  ∀ p, p ∈ ps → ∃ row q, row ∈ t_policy s' ∧ key_row row = key_pol p ∧ scanWithAncestors row = Ok q ∧
    ∀ data op, level_says data [q] op = level_says data (stored_for s p ++ [p]) op.
Proof.
  intros Ht Hplain Hne Hc. unfold policy_CreatePrivate in Hc. rewrite bool_decide_eq_false_2 in Hc by done. obind.
  match goal with Hv : validateNew _ _ = Ok ?r |- _ => destruct r as [tm rm]; apply validateNew_Ok in Hv as [Hnd Hval] end.
  obind. match goal with Hg : getCreateAndUpdatePolicy _ _ _ _ = (Ok ?r, _) |- _ => destruct r as [[new upd] pids'] end.
  edestruct create_after_validation as (Hk & Hl & Hrow); [done..|]. done.
Qed.
End create.

(** ** The sample table *)
Definition sample_admin : Visitor := {| vis_ID := "admin"; vis_Type := RealName; vis_Language := "en_us" |}.

(** A grant to merge into policy ["p3"] and one on a new resource. *)
Definition sample_request : list PolicyInfo := [
  sample_policy "" "x" "u1" AccessorUser 3000 [sample_rule ["read"]] [sample_rule ["write"]];
  sample_policy "" "z" "u2" AccessorUser (-1) [sample_rule ["read"]] []].

Lemma sample_policy_table : policy_table sample_store.
Proof.
  split.
  - by_decision.
  - by_decision.
  - intros n _. simpl. rewrite !elem_of_cons, elem_of_nil. by intros [?|[?|[?|[?|?]]]].
  - intros row Hr. apply list_elem_of_In in Hr.
    repeat (destruct Hr as [<-|Hr]; [eexists; split; [vm_compute; reflexivity|split; vm_compute; lia]|]). destruct Hr.
Qed.

Lemma Create_effect_witness :
  ∃ pids s', policy_Create policyCalc_service sample_admin sample_request sample_store = (Ok pids, s') ∧
    NoDup (key_row <$> t_policy s') ∧ length pids = 2 ∧ NoDup (key_pol <$> sample_request) ∧
    ∀ p, p ∈ sample_request →
      in_force (pol_EndTime p) (curTime + 1) ∧
      (∀ op, op ∈ ids_of (getPolicyNoConditionOperations p).1 → op ∉ ids_of (getPolicyNoConditionOperations p).2) ∧
      ∃ row q, row ∈ t_policy s' ∧ key_row row = key_pol p ∧ scanWithAncestors row = Ok q ∧
        ∀ data op, level_says data [q] op = level_says data (stored_for sample_store p ++ [p]) op.
Proof.
  destruct (policy_Create policyCalc_service sample_admin sample_request sample_store) as [[pids|e|w] s'] eqn:E;
    [|exfalso; apply (f_equal fst) in E; vm_compute in E; discriminate E..].
  exists pids, s'. split; [done|].
  apply (Create_effect policyCalc_service sample_admin sample_request sample_store pids s');
    [apply sample_policy_table| |done|exact E].
  intros p Hp. apply list_elem_of_In in Hp. destruct Hp as [<-|[<-|[]]];
    (split_and!; [vm_compute; lia|vm_compute; lia|by_decision]).
Defined.

Lemma writes_need_authority_witness :
  let admin := sample_admin in let ids := ["p3"] in
  (∀ pids s', policy_Create policyCalc_service admin sample_request sample_store = (Ok pids, s') →
     ∀ p, p ∈ sample_request → may_authorize policyCalc_service sample_store admin (pol_ResourceType p) (pol_ResourceID p)) ∧
  (∀ s', policy_Update policyCalc_service admin sample_request sample_store = (Ok tt, s') →
     ∀ row, row ∈ t_policy sample_store → p_id row ∈ pol_ID <$> sample_request →
       may_authorize policyCalc_service sample_store admin (p_resource_type row) (p_resource_id row)) ∧
  (∀ s', policy_Delete policyCalc_service admin ids sample_store = (Ok tt, s') →
     ∀ row, row ∈ t_policy sample_store → p_id row ∈ ids →
       may_authorize policyCalc_service sample_store admin (p_resource_type row) (p_resource_id row)).
Proof. apply writes_need_authority. by_decision. Defined.

Lemma Delete_effect_witness :
  ∃ s', policy_Delete policyCalc_service sample_admin ["p3"] sample_store = (Ok tt, s') ∧
    t_policy s' = omap (deleted_row ["p3"]) (t_policy sample_store).
Proof.
  destruct (policy_Delete policyCalc_service sample_admin ["p3"] sample_store) as [[[]|e|w] s'] eqn:E;
    [|exfalso; apply (f_equal fst) in E; vm_compute in E; discriminate E..].
  exists s'. split; [done|]. apply (Delete_effect policyCalc_service sample_admin); [by_decision|exact E].
Defined.

Lemma Update_effect_witness :
  let ps := [sample_policy "p3" "" "" 0 3000 [sample_rule ["read"]] []] in
  ∃ s', policy_Update policyCalc_service sample_admin ps sample_store = (Ok tt, s') ∧
    t_policy s' = updated_row ps <$> t_policy sample_store.
Proof.
  cbv zeta.
  destruct (policy_Update policyCalc_service sample_admin [sample_policy "p3" "" "" 0 3000 [sample_rule ["read"]] []]
    sample_store) as [[[]|e|w] s'] eqn:E; [|exfalso; apply (f_equal fst) in E; vm_compute in E; discriminate E..].
  exists s'. split; [done|].
  apply (Update_effect policyCalc_service sample_admin [sample_policy "p3" "" "" 0 3000 [sample_rule ["read"]] []]
    sample_store s'); [by_decision|exact E].
Defined.
