(* ===== verification/PolicyList.v ===== *)
(** * Listing policies

    The pages of [GetPagination] and what [GetResourcePolicy] does past the
    last page. *)
From S2P Require Import Prelude Json Interfaces Common PolicyCalc PolicyCalcSpec Store PolicyDB PolicyDBSpec Sample Decision Listings Policy PolicyMerge PolicyOps PolicyCreate.

Section listing.
Context `{GoRuntime} `{DrivenUserMgnt} `{LogicsResourceType} `{LogicsObligation} `{LogicsObligationType} `{SqlEnv}
  (calc : store → LogicsPolicyCalc).

(** Filling in names and departments does not change which policy it is. *)
Lemma fillNames_ID opeInfo deps p : pol_ID (fillNames opeInfo (fillParentDeps deps p)) = pol_ID p.
Proof. unfold fillNames. by destruct (getPolicyNoConditionOperations _), (sortOperationAndFillName _ _ _). Qed.

Lemma onlyUnconditional_ids ps :
  pol_ID <$> onlyUnconditional ps =
  pol_ID <$> filter (λ p, (getPolicyNoConditionOperations p).1 ≠ [] ∨ (getPolicyNoConditionOperations p).2 ≠ []) ps.
Proof.
  unfold onlyUnconditional. induction ps as [|p ps IH]; csimpl; [done|]. rewrite filter_cons.
  simpl. destruct (firstUnconditional (rules_Allow (pol_Rules p))) as [|o allow],
    (firstUnconditional (rules_Deny (pol_Rules p))) as [|d deny]; csimpl; first [exact IH|by f_equal].
Qed.

(** [GetPagination] counts the policies on the resource that have an
    unconditional rule and returns the requested page of them, in the order
    of the table read (newest first); an offset past the end gives an empty
    page, and the limit -1 all of them. *)
Theorem GetPagination_page s visitor params count page :
  (0 ≤ pp_Offset params)%Z → (0 ≤ pp_Limit params)%Z → (pp_Offset params + pp_Limit params < 2 ^ 63)%Z →
  policy_GetPagination calc s visitor params = Ok (count, page) →
  ∃ all, policyDB_GetPagination s params = Ok all ∧
    let shown := filter (λ p, (getPolicyNoConditionOperations p).1 ≠ [] ∨
                              (getPolicyNoConditionOperations p).2 ≠ []) all in
    count = Z.of_nat (length shown) ∧
    pol_ID <$> page = take (Z.to_nat (pp_Limit params)) (drop (Z.to_nat (pp_Offset params)) (pol_ID <$> shown)).
Proof.
  intros Ho Hl Hs Hg. unfold policy_GetPagination in Hg. obind. rename r0 into all. exists all. split; [done|].
  cbv zeta. rewrite <-onlyUnconditional_ids, <-(length_fmap pol_ID), <-onlyUnconditional_ids, length_fmap.
  destruct ((length all =? 0)%nat) eqn:El.
  { apply Nat.eqb_eq, nil_length_inv in El. subst. obind. subst. simpl. by rewrite drop_nil, take_nil. }
  destruct ((Z.of_nat (length (onlyUnconditional all)) =? 0)%Z) eqn:Ec.
  { obind. subst. assert (onlyUnconditional all = []) as -> by (apply nil_length_inv; lia).
    simpl. by rewrite drop_nil, take_nil. }
  rewrite applyPagination_page in Hg by done. simpl in Hg.
  rewrite <-fmap_drop, <-fmap_take.
  destruct ((length (take _ (drop _ (onlyUnconditional all))) =? 0)%nat); obind; subst; [done|].
  split; [done|]. rewrite <-list_fmap_compose. apply list_fmap_ext. intros i p _. apply fillNames_ID.
Qed.

(** Past the last page the two listings differ: [GetPagination] returns
    the count with an empty page, and [GetResourcePolicy], which reads the
    first policy of the page without looking at its length, panics. *)
Theorem GetResourcePolicy_past_the_end s visitor params all u :
  let pagination := {| pp_ResourceID := rpp_ResourceID params; pp_ResourceType := rpp_ResourceType params;
                       pp_Offset := rpp_Offset params; pp_Limit := rpp_Limit params |} in
  checkVisitorAuthorize calc s visitor {[rpp_ResourceType params := {[rpp_ResourceID params := true]}]} = Ok u →
  policyDB_GetPagination s pagination = Ok all →
  onlyUnconditional all ≠ [] →
  (Z.of_nat (length (onlyUnconditional all)) ≤ rpp_Offset params)%Z → rpp_Limit params ≠ (-1)%Z →
  policy_GetResourcePolicy calc s visitor params = Panic "index out of range [0] with length 0" ∧
  policy_GetPagination calc s visitor pagination = Ok (Z.of_nat (length (onlyUnconditional all)), []).
Proof.
  intros pagination Ha Hq Hne Hoff Hlim.
  assert (length all ≠ 0) as Hl by (intros E; apply nil_length_inv in E; by subst).
  assert (length (onlyUnconditional all) ≠ 0) as Hl' by (intros E; by apply nil_length_inv in E).
  assert (applyPagination (onlyUnconditional all) (rpp_Offset params) (rpp_Limit params) = Ok []) as Hp.
  { unfold applyPagination. rewrite (proj2 (Z.eqb_neq _ _)) by done.
    rewrite (proj2 (Z.leb_le _ _) Hoff), orb_true_r. done. }
  unfold policy_GetResourcePolicy, policy_GetPagination. simpl. fold pagination.
  rewrite Ha, Hq. simpl.
  rewrite (proj2 (Nat.eqb_neq _ _) Hl), (proj2 (Z.eqb_neq _ _)) by lia. rewrite Hp. done.
Qed.
End listing.

Definition sample_obligation_types : LogicsObligationType :=
  {| ObligationType_GetByIDSInternal _ := Ok [] |}.
#[local] Existing Instance sample_obligation_types.

Lemma GetPagination_page_witness :
  let params := {| pp_ResourceID := "x"; pp_ResourceType := "doc"; pp_Offset := 0; pp_Limit := 10 |} in
  ∃ count page, policy_GetPagination policyCalc_service sample_store sample_admin params = Ok (count, page) ∧
    ∃ all, policyDB_GetPagination sample_store params = Ok all ∧
      let shown := filter (λ p, (getPolicyNoConditionOperations p).1 ≠ [] ∨
                                (getPolicyNoConditionOperations p).2 ≠ []) all in
      count = Z.of_nat (length shown) ∧ pol_ID <$> page = take 10 (drop 0 (pol_ID <$> shown)).
Proof.
  cbv zeta.
  destruct (policy_GetPagination policyCalc_service sample_store sample_admin
    {| pp_ResourceID := "x"; pp_ResourceType := "doc"; pp_Offset := 0; pp_Limit := 10 |}) as [[count page]|e|w] eqn:E;
    [|vm_compute in E; discriminate E..].
  exists count, page. split; [done|].
  apply (GetPagination_page policyCalc_service sample_store sample_admin
    {| pp_ResourceID := "x"; pp_ResourceType := "doc"; pp_Offset := 0; pp_Limit := 10 |}); [simpl; lia..|exact E].
Defined.

Lemma GetResourcePolicy_past_the_end_witness :
  let params := {| rpp_ResourceID := "x"; rpp_ResourceType := "doc"; rpp_Offset := 1; rpp_Limit := 10; rpp_Include := [] |} in
  policy_GetResourcePolicy policyCalc_service sample_store sample_admin params
    = Panic "index out of range [0] with length 0" ∧
  policy_GetPagination policyCalc_service sample_store sample_admin
    {| pp_ResourceID := "x"; pp_ResourceType := "doc"; pp_Offset := 1; pp_Limit := 10 |} = Ok (1%Z, []).
Proof.
  cbv zeta.
  destruct (policyDB_GetPagination sample_store
    {| pp_ResourceID := "x"; pp_ResourceType := "doc"; pp_Offset := 1; pp_Limit := 10 |}) as [all|e|w] eqn:E;
    [|vm_compute in E; discriminate E..].
  assert (length (onlyUnconditional all) = 1) as Hl.
  { vm_compute in E. injection E as <-. reflexivity. }
  change 1%Z with (Z.of_nat 1) at 3. rewrite <-Hl.
  apply (GetResourcePolicy_past_the_end policyCalc_service sample_store sample_admin
    {| rpp_ResourceID := "x"; rpp_ResourceType := "doc"; rpp_Offset := 1; rpp_Limit := 10; rpp_Include := [] |} all tt);
    [vm_compute; reflexivity|exact E| |simpl; lia|done].
  intros Hn. by rewrite Hn in Hl.
Defined.
