(* ===== verification/RoleDB.v ===== *)
(** * Storage of roles and members ([Authorization/dbaccess/role.go], [role_member.go])

    The JSON encoding of a role's resource-type scope and every statement on
    [t_role] and [t_role_member].  The column [f_visibility] of [t_role] is
    written with 0 and never read; it has no counterpart here. *)
From S2P Require Import Prelude Json Interfaces Common Store.

(** ** The scope of a role *)
Definition rtsi_types (info : ResourceTypeScopeInfo) : list ResourceTypeScope := default [] (rtsi_Types info).

Definition resourceTypeScopeInfoToString (info : ResourceTypeScopeInfo) : text :=
  marshal (jobj [("unlimited", JBool (rtsi_Unlimited info));
                 ("types", JArr ((λ t, jobj [("id", JStr (rts_ResourceTypeID t))]) <$> rtsi_types info))]).

(** An element that is not an object is skipped, an id that is not a string
    panics. *)
Definition parseScopeTypes (typesArray : list json) : outcome (list ResourceTypeScope) :=
  ofold (λ types typeVal,
    match typeVal with
    | JObj typeMap =>
        id ← assert_string (jget typeMap "id");
        Ok (types ++ [{| rts_ResourceTypeID := id; rts_ResourceTypeName := "" |}])
    | _ => Ok types
    end) [] typesArray.

Definition resourceTypeScopeInfoFromString (resourceTypeScopeStr : text) : outcome ResourceTypeScopeInfo :=
  result ← unmarshal_map resourceTypeScopeStr;
  unlimited ← match result !! "unlimited" with Some v => assert_bool v | None => Ok false end;
  types ← match result !! "types" with
          | Some (JArr typesArray) => types ← parseScopeTypes typesArray; Ok (Some types)
          | _ => Ok None
          end;
  Ok {| rtsi_Unlimited := unlimited; rtsi_Types := types |}.

(** The scope as it is read back: the names are not stored. *)
Definition stored_scope (info : ResourceTypeScopeInfo) : ResourceTypeScopeInfo :=
  {| rtsi_Unlimited := rtsi_Unlimited info;
     rtsi_Types := Some ((λ t, {| rts_ResourceTypeID := rts_ResourceTypeID t; rts_ResourceTypeName := "" |})
                           <$> rtsi_types info) |}.

(** ** Scanning a role *)
Definition scanRole (row : role_row) : outcome RoleInfo :=
  scope ← resourceTypeScopeInfoFromString (r_resource_scope row);
  Ok {| role_ID := r_id row; role_Name := r_name row; role_Description := r_description row;
        role_Source := r_source row; role_Scope := scope;
        role_CreateTime := r_created_time row; role_ModifyTime := r_modify_time row |}.

(** [GetRoleByName] and [GetAllUserRolesInternal] do not select [f_source]. *)
Definition scanRoleNoSource (row : role_row) : outcome RoleInfo :=
  scope ← resourceTypeScopeInfoFromString (r_resource_scope row);
  Ok {| role_ID := r_id row; role_Name := r_name row; role_Description := r_description row;
        role_Source := RoleSourceNone; role_Scope := scope;
        role_CreateTime := r_created_time row; role_ModifyTime := r_modify_time row |}.

Definition dataAdminRoleID : string := "00990824-4bf7-11f0-8fa7-865d5643e61f".
Definition aiAdminRoleID : string := "3fb94948-5169-11f0-b662-3a7bdba2913f".
Definition applicationAdminRoleID : string := "1572fb82-526f-11f0-bde6-e674ec8dde71".

(** The stored integer of a source. *)
Definition source_number (src : RoleSource) : Z :=
  match src with RoleSourceNone => 0 | RoleSourceSystem => 1 | RoleSourceBusiness => 2 | RoleSourceUser => 3 end.

(** [case f_id when ... then 0 ... else 3 end] *)
Definition businessRoleOrder (id : string) : Z :=
  if bool_decide (id = dataAdminRoleID) then 0
  else if bool_decide (id = aiAdminRoleID) then 1
  else if bool_decide (id = applicationAdminRoleID) then 2 else 3.

Definition role_list_key (pinned : bool) (row : role_row) : list Z :=
  source_number (r_source row) ::
  (if pinned then [if bool_decide (r_source row = RoleSourceBusiness) then businessRoleOrder (r_id row) else 3%Z]
   else []) ++
  [(- r_modify_time row)%Z; (- r_primary row)%Z].

Section statements.
Context `{GoRuntime} `{SqlEnv} `{SqlLike}.

(** [and f_x like '%keyword%'], left out for an empty keyword. *)
Definition matches (keyword value : string) : bool :=
  bool_decide (keyword = "") || like value ("%" +:+ keyword +:+ "%").

(** ** [t_role] *)
Definition newRoleRow (primary : Z) (role : RoleInfo) : role_row :=
  {| r_primary := primary; r_id := role_ID role; r_name := role_Name role; r_source := role_Source role;
     r_resource_scope := resourceTypeScopeInfoToString (role_Scope role);
     r_description := role_Description role; r_created_time := curTime; r_modify_time := curTime |}.

Definition roleDB_AddRoles (roles : list RoleInfo) : M store unit :=
  if bool_decide (length roles = 0) then mret tt
  else exec "role.AddRoles" (λ s,
    bump_primary (length roles)
      (set_role (λ t, t ++ imap (λ i role, newRoleRow (seq_primary s + Z.of_nat i) role) roles) s)).

Definition roleDB_DeleteRole (id : string) : M store unit :=
  exec "role.DeleteRole" (set_role (filter (λ row, r_id row ≠ id))).

(** [update ... set f_name = ?, ..., f_modify_time = ? where f_id = ?] with
    the columns that changed. *)
Definition modifyRow (id name : string) (nameChanged : bool) (description : string) (descriptionChanged : bool)
    (scopes : ResourceTypeScopeInfo) (scopesChanged : bool) (row : role_row) : role_row :=
  if bool_decide (r_id row = id)
  then {| r_primary := r_primary row; r_id := r_id row;
          r_name := if nameChanged then name else r_name row; r_source := r_source row;
          r_resource_scope := if scopesChanged then resourceTypeScopeInfoToString scopes else r_resource_scope row;
          r_description := if descriptionChanged then description else r_description row;
          r_created_time := r_created_time row; r_modify_time := curTime |}
  else row.

Definition roleDB_ModifyRole (id name : string) (nameChanged : bool) (description : string)
    (descriptionChanged : bool) (scopes : ResourceTypeScopeInfo) (scopesChanged : bool) : M store unit :=
  exec "role.ModifyRole" (set_role (fmap
    (modifyRow id name nameChanged description descriptionChanged scopes scopesChanged))).

Definition roleDB_SetRoleByID (id : string) (role : RoleInfo) : M store unit :=
  exec "role.SetRoleByID" (set_role (fmap
    (modifyRow id (role_Name role) true (role_Description role) true (role_Scope role) true))).

(** [for rows.Next()] into one variable: the last row stays, the zero value
    stands for no row. *)
Definition scan_last (scan : role_row → outcome RoleInfo) (rows : list role_row) : outcome RoleInfo :=
  ofold (λ _ row, scan row) RoleInfo_zero rows.

Definition roleDB_GetRoleByID (s : store) (id : string) : outcome RoleInfo :=
  stmt "role.GetRoleByID" (scan_last scanRole (range_order 51 (filter (λ row, r_id row = id) (t_role s)))).

Definition roleDB_GetRoleByName (s : store) (name : string) : outcome RoleInfo :=
  stmt "role.GetRoleByName"
    (scan_last scanRoleNoSource (range_order 52 (filter (λ row, r_name row = name) (t_role s)))).

Definition roleDB_GetRoleByIDs (s : store) (ids : list string) : outcome (gmap string RoleInfo) :=
  if bool_decide (length ids = 0) then Ok ∅
  else stmt "role.GetRoleByIDs"
    (infos ← omap_all scanRole (range_order 53 (filter (λ row, r_id row ∈ ids) (t_role s)));
     Ok (foldl (λ m info, <[role_ID info := info]> m) ∅ infos)).

(** The rows of [GetRoles] and [GetRolesSum]. *)
Definition roles_found (s : store) (info : RoleSearchInfo) : list role_row :=
  filter (λ row, r_source row ∈ rs_RoleSources info ∧ matches (rs_Keyword info) (r_name row) = true) (t_role s).

Definition roleDB_GetRoles (s : store) (info : RoleSearchInfo) : outcome (list RoleInfo) :=
  if bool_decide (rs_RoleSources info = []) then Ok []
  else
    let pinned := bool_decide (RoleSourceBusiness ∈ rs_RoleSources info) in
    stmt "role.GetRoles"
      (rows ← sql_limit (rs_Offset info) (rs_Limit info)
                (order_by (role_list_key pinned) (roles_found s info));
       omap_all scanRole rows).

Definition roleDB_GetRolesSum (s : store) (info : RoleSearchInfo) : outcome Z :=
  if bool_decide (rs_RoleSources info = []) then Ok 0%Z
  else stmt "role.GetRolesSum" (Ok (Z.of_nat (length (roles_found s info)))).

Definition roleDB_GetAllUserRolesInternal (s : store) (keyword : string) : outcome (list RoleInfo) :=
  stmt "role.GetAllUserRolesInternal"
    (omap_all scanRoleNoSource (range_order 54 (filter (λ row,
       r_source row = RoleSourceUser ∧ matches keyword (r_name row) = true) (t_role s)))).

(** ** [t_role_member] *)
Definition newMemberRow (roleID : string) (primary : Z) (info : RoleMemberInfo) : member_row :=
  {| m_primary := primary; m_role_id := roleID; m_member_id := rm_ID info; m_member_type := rm_MemberType info;
     m_member_name := rm_Name info; m_created_time := curTime; m_modify_time := curTime |}.

Definition memberDB_AddRoleMembers (id : string) (infos : list RoleMemberInfo) : M store unit :=
  if bool_decide (length infos = 0) then mret tt
  else exec "roleMember.AddRoleMembers" (λ s,
    bump_primary (length infos)
      (set_member (λ t, t ++ imap (λ i info, newMemberRow id (seq_primary s + Z.of_nat i) info) infos) s)).

Definition memberDB_DeleteRoleMembers (id : string) (membersIDs : list string) : M store unit :=
  if bool_decide (membersIDs = []) then mret tt
  else exec "roleMember.DeleteRoleMembers"
    (set_member (filter (λ row, ¬ (m_role_id row = id ∧ m_member_id row ∈ membersIDs)))).

Definition members_found (s : store) (id : string) (info : RoleMemberSearchInfo) : list member_row :=
  filter (λ row, m_role_id row = id ∧
    (rms_MemberTypes info = [] ∨ m_member_type row ∈ rms_MemberTypes info) ∧
    matches (rms_Keyword info) (m_member_name row) = true) (t_role_member s).

Definition memberDB_GetRoleMembersNum (s : store) (id : string) (info : RoleMemberSearchInfo) : outcome Z :=
  stmt "roleMember.GetRoleMembersNum" (Ok (Z.of_nat (length (members_found s id info)))).

Definition scanMember (row : member_row) : RoleMemberInfo :=
  {| rm_ID := m_member_id row; rm_MemberType := m_member_type row; rm_Name := m_member_name row;
     rm_ParentDeps := []; rm_CreateTime := 0; rm_ModifyTime := 0 |}.

Definition member_list_key (row : member_row) : list Z := [(- m_modify_time row)%Z; (- m_primary row)%Z].

Definition memberDB_GetPaginationByRoleID (s : store) (id : string) (info : RoleMemberSearchInfo)
  : outcome (list RoleMemberInfo) :=
  stmt "roleMember.GetPaginationByRoleID"
    (sql_limit (rms_Offset info) (rms_Limit info)
       (scanMember <$> order_by member_list_key (members_found s id info))).

Definition memberDB_GetRoleMembersByRoleID (s : store) (id : string) : outcome (list RoleMemberInfo) :=
  stmt "roleMember.GetRoleMembersByRoleID"
    (Ok (scanMember <$> range_order 55 (filter (λ row, m_role_id row = id) (t_role_member s)))).

(** Only the id of a role is scanned. *)
Definition roleOfID (id : string) : RoleInfo :=
  {| role_ID := id; role_Name := ""; role_Description := ""; role_Source := RoleSourceNone;
     role_Scope := {| rtsi_Unlimited := false; rtsi_Types := None |}; role_CreateTime := 0; role_ModifyTime := 0 |}.

Definition memberDB_GetRoleByMembers (s : store) (memberIDs : list string) : outcome (list RoleInfo) :=
  stmt "roleMember.GetRoleByMembers"
    (in_list memberIDs
      (Ok ((λ row, roleOfID (m_role_id row)) <$>
             range_order 56 (filter (λ row, m_member_id row ∈ memberIDs) (t_role_member s))))).

Definition memberDB_DeleteByMemberIDs (memberIDs : list string) : M store unit :=
  if bool_decide (memberIDs = []) then mret tt
  else exec "roleMember.DeleteByMemberIDs" (set_member (filter (λ row, m_member_id row ∉ memberIDs))).

Definition memberDB_DeleteByRoleID (roleID : string) : M store unit :=
  exec "roleMember.DeleteByRoleID" (set_member (filter (λ row, m_role_id row ≠ roleID))).

Definition memberDB_UpdateMemberName (memberID name : string) : M store unit :=
  exec "roleMember.UpdateMemberName" (set_member (fmap (λ row,
    if bool_decide (m_member_id row = memberID)
    then {| m_primary := m_primary row; m_role_id := m_role_id row; m_member_id := m_member_id row;
            m_member_type := m_member_type row; m_member_name := name;
            m_created_time := m_created_time row; m_modify_time := m_modify_time row |}
    else row))).
End statements.

(** ** Facts *)
Lemma parseScopeTypes_encoded ts :
  parseScopeTypes ((λ t, jobj [("id", JStr (rts_ResourceTypeID t))]) <$> ts) =
  Ok ((λ t, {| rts_ResourceTypeID := rts_ResourceTypeID t; rts_ResourceTypeName := "" |}) <$> ts).
Proof. unfold parseScopeTypes. by apply (ofold_append _ _ (λ t, {| rts_ResourceTypeID := _; rts_ResourceTypeName := "" |}) ts []). Qed.

(** What is written for a scope reads back as the scope without the names. *)
Lemma scope_round_trip info :
  resourceTypeScopeInfoFromString (resourceTypeScopeInfoToString info) = Ok (stored_scope info).
Proof.
  transitivity (
    types ← (types ← parseScopeTypes ((λ t, jobj [("id", JStr (rts_ResourceTypeID t))]) <$> rtsi_types info);
             Ok (Some types));
    Ok {| rtsi_Unlimited := rtsi_Unlimited info; rtsi_Types := types |}); [done|].
  by rewrite parseScopeTypes_encoded.
Qed.
