(* ===== verification/Event.v ===== *)
(** * Events ([Authorization/logics/event.go])

    The hub through which the service reacts to changes made elsewhere: other
    components register handlers, an event runs the handlers of its kind in
    registration order and stops at the first error. *)
From S2P Require Import Prelude Json Interfaces Store.

Record event := {
  userDeletedHandlers : list (string → M store unit);
  depDeletedHandlers : list (string → M store unit);
  userGroupDeletedHandlers : list (string → M store unit);
  orgNameModifiedHandlers : list (string → string → M store unit);
  userNameModifiedHandlers : list (string → string → M store unit);
  depNameModifiedHandlers : list (string → string → M store unit);
  groupNameModifiedHandlers : list (string → string → M store unit);
  appDeletedHandlers : list (string → M store unit);
  appNameModifiedHandlers : list (AppInfo → M store unit);
  roleDeletedHandlers : list (string → M store unit);
  roleNameModifiedHandlers : list (string → string → M store unit)
}.

Definition NewEvent : event := {|
  userDeletedHandlers := []; depDeletedHandlers := []; userGroupDeletedHandlers := [];
  orgNameModifiedHandlers := []; userNameModifiedHandlers := []; depNameModifiedHandlers := [];
  groupNameModifiedHandlers := []; appDeletedHandlers := []; appNameModifiedHandlers := [];
  roleDeletedHandlers := []; roleNameModifiedHandlers := [] |}.

(** ** Registration *)
Definition RegisterUserDeleted (f : string → M store unit) (e : event) : event :=
  {| userDeletedHandlers := userDeletedHandlers e ++ [f]; depDeletedHandlers := depDeletedHandlers e;
     userGroupDeletedHandlers := userGroupDeletedHandlers e; orgNameModifiedHandlers := orgNameModifiedHandlers e;
     userNameModifiedHandlers := userNameModifiedHandlers e; depNameModifiedHandlers := depNameModifiedHandlers e;
     groupNameModifiedHandlers := groupNameModifiedHandlers e; appDeletedHandlers := appDeletedHandlers e;
     appNameModifiedHandlers := appNameModifiedHandlers e; roleDeletedHandlers := roleDeletedHandlers e;
     roleNameModifiedHandlers := roleNameModifiedHandlers e |}.
Definition RegisterDepartmentDeleted (f : string → M store unit) (e : event) : event :=
  {| userDeletedHandlers := userDeletedHandlers e; depDeletedHandlers := depDeletedHandlers e ++ [f];
     userGroupDeletedHandlers := userGroupDeletedHandlers e; orgNameModifiedHandlers := orgNameModifiedHandlers e;
     userNameModifiedHandlers := userNameModifiedHandlers e; depNameModifiedHandlers := depNameModifiedHandlers e;
     groupNameModifiedHandlers := groupNameModifiedHandlers e; appDeletedHandlers := appDeletedHandlers e;
     appNameModifiedHandlers := appNameModifiedHandlers e; roleDeletedHandlers := roleDeletedHandlers e;
     roleNameModifiedHandlers := roleNameModifiedHandlers e |}.
Definition RegisterUserGroupDeleted (f : string → M store unit) (e : event) : event :=
  {| userDeletedHandlers := userDeletedHandlers e; depDeletedHandlers := depDeletedHandlers e;
     userGroupDeletedHandlers := userGroupDeletedHandlers e ++ [f]; orgNameModifiedHandlers := orgNameModifiedHandlers e;
     userNameModifiedHandlers := userNameModifiedHandlers e; depNameModifiedHandlers := depNameModifiedHandlers e;
     groupNameModifiedHandlers := groupNameModifiedHandlers e; appDeletedHandlers := appDeletedHandlers e;
     appNameModifiedHandlers := appNameModifiedHandlers e; roleDeletedHandlers := roleDeletedHandlers e;
     roleNameModifiedHandlers := roleNameModifiedHandlers e |}.
Definition RegisterOrgNameModified (f : string → string → M store unit) (e : event) : event :=
  {| userDeletedHandlers := userDeletedHandlers e; depDeletedHandlers := depDeletedHandlers e;
     userGroupDeletedHandlers := userGroupDeletedHandlers e; orgNameModifiedHandlers := orgNameModifiedHandlers e ++ [f];
     userNameModifiedHandlers := userNameModifiedHandlers e; depNameModifiedHandlers := depNameModifiedHandlers e;
     groupNameModifiedHandlers := groupNameModifiedHandlers e; appDeletedHandlers := appDeletedHandlers e;
     appNameModifiedHandlers := appNameModifiedHandlers e; roleDeletedHandlers := roleDeletedHandlers e;
     roleNameModifiedHandlers := roleNameModifiedHandlers e |}.
Definition RegisterUserNameModified (f : string → string → M store unit) (e : event) : event :=
  {| userDeletedHandlers := userDeletedHandlers e; depDeletedHandlers := depDeletedHandlers e;
     userGroupDeletedHandlers := userGroupDeletedHandlers e; orgNameModifiedHandlers := orgNameModifiedHandlers e;
     userNameModifiedHandlers := userNameModifiedHandlers e ++ [f]; depNameModifiedHandlers := depNameModifiedHandlers e;
     groupNameModifiedHandlers := groupNameModifiedHandlers e; appDeletedHandlers := appDeletedHandlers e;
     appNameModifiedHandlers := appNameModifiedHandlers e; roleDeletedHandlers := roleDeletedHandlers e;
     roleNameModifiedHandlers := roleNameModifiedHandlers e |}.
Definition RegisterDepartmentNameModified (f : string → string → M store unit) (e : event) : event :=
  {| userDeletedHandlers := userDeletedHandlers e; depDeletedHandlers := depDeletedHandlers e;
     userGroupDeletedHandlers := userGroupDeletedHandlers e; orgNameModifiedHandlers := orgNameModifiedHandlers e;
     userNameModifiedHandlers := userNameModifiedHandlers e; depNameModifiedHandlers := depNameModifiedHandlers e ++ [f];
     groupNameModifiedHandlers := groupNameModifiedHandlers e; appDeletedHandlers := appDeletedHandlers e;
     appNameModifiedHandlers := appNameModifiedHandlers e; roleDeletedHandlers := roleDeletedHandlers e;
     roleNameModifiedHandlers := roleNameModifiedHandlers e |}.
Definition RegisterUserGroupNameModified (f : string → string → M store unit) (e : event) : event :=
  {| userDeletedHandlers := userDeletedHandlers e; depDeletedHandlers := depDeletedHandlers e;
     userGroupDeletedHandlers := userGroupDeletedHandlers e; orgNameModifiedHandlers := orgNameModifiedHandlers e;
     userNameModifiedHandlers := userNameModifiedHandlers e; depNameModifiedHandlers := depNameModifiedHandlers e;
     groupNameModifiedHandlers := groupNameModifiedHandlers e ++ [f]; appDeletedHandlers := appDeletedHandlers e;
     appNameModifiedHandlers := appNameModifiedHandlers e; roleDeletedHandlers := roleDeletedHandlers e;
     roleNameModifiedHandlers := roleNameModifiedHandlers e |}.
Definition RegisterAppDeleted (f : string → M store unit) (e : event) : event :=
  {| userDeletedHandlers := userDeletedHandlers e; depDeletedHandlers := depDeletedHandlers e;
     userGroupDeletedHandlers := userGroupDeletedHandlers e; orgNameModifiedHandlers := orgNameModifiedHandlers e;
     userNameModifiedHandlers := userNameModifiedHandlers e; depNameModifiedHandlers := depNameModifiedHandlers e;
     groupNameModifiedHandlers := groupNameModifiedHandlers e; appDeletedHandlers := appDeletedHandlers e ++ [f];
     appNameModifiedHandlers := appNameModifiedHandlers e; roleDeletedHandlers := roleDeletedHandlers e;
     roleNameModifiedHandlers := roleNameModifiedHandlers e |}.
Definition RegisterAppNameModified (f : AppInfo → M store unit) (e : event) : event :=
  {| userDeletedHandlers := userDeletedHandlers e; depDeletedHandlers := depDeletedHandlers e;
     userGroupDeletedHandlers := userGroupDeletedHandlers e; orgNameModifiedHandlers := orgNameModifiedHandlers e;
     userNameModifiedHandlers := userNameModifiedHandlers e; depNameModifiedHandlers := depNameModifiedHandlers e;
     groupNameModifiedHandlers := groupNameModifiedHandlers e; appDeletedHandlers := appDeletedHandlers e;
     appNameModifiedHandlers := appNameModifiedHandlers e ++ [f]; roleDeletedHandlers := roleDeletedHandlers e;
     roleNameModifiedHandlers := roleNameModifiedHandlers e |}.
Definition RegisterRoleDeleted (f : string → M store unit) (e : event) : event :=
  {| userDeletedHandlers := userDeletedHandlers e; depDeletedHandlers := depDeletedHandlers e;
     userGroupDeletedHandlers := userGroupDeletedHandlers e; orgNameModifiedHandlers := orgNameModifiedHandlers e;
     userNameModifiedHandlers := userNameModifiedHandlers e; depNameModifiedHandlers := depNameModifiedHandlers e;
     groupNameModifiedHandlers := groupNameModifiedHandlers e; appDeletedHandlers := appDeletedHandlers e;
     appNameModifiedHandlers := appNameModifiedHandlers e; roleDeletedHandlers := roleDeletedHandlers e ++ [f];
     roleNameModifiedHandlers := roleNameModifiedHandlers e |}.
Definition RegisterRoleNameModified (f : string → string → M store unit) (e : event) : event :=
  {| userDeletedHandlers := userDeletedHandlers e; depDeletedHandlers := depDeletedHandlers e;
     userGroupDeletedHandlers := userGroupDeletedHandlers e; orgNameModifiedHandlers := orgNameModifiedHandlers e;
     userNameModifiedHandlers := userNameModifiedHandlers e; depNameModifiedHandlers := depNameModifiedHandlers e;
     groupNameModifiedHandlers := groupNameModifiedHandlers e; appDeletedHandlers := appDeletedHandlers e;
     appNameModifiedHandlers := appNameModifiedHandlers e; roleDeletedHandlers := roleDeletedHandlers e;
     roleNameModifiedHandlers := roleNameModifiedHandlers e ++ [f] |}.

(** ** Dispatch *)
Section dispatch.
Context (e : event).

Definition UserDeleted (userID : string) : M store unit := for_each (λ f, f userID) (userDeletedHandlers e).
Definition DepartmentDeleted (depID : string) : M store unit := for_each (λ f, f depID) (depDeletedHandlers e).
Definition UserGroupDeleted (groupID : string) : M store unit :=
  for_each (λ f, f groupID) (userGroupDeletedHandlers e).
Definition AppDeleted (appID : string) : M store unit := for_each (λ f, f appID) (appDeletedHandlers e).
Definition AppNameModified (info : AppInfo) : M store unit := for_each (λ f, f info) (appNameModifiedHandlers e).

(** The handlers of the kind of organisation object, then those of all. *)
Definition OrgNameModified (id name : string) (orgType : AccessorType) : M store unit :=
  _ ← for_each (λ f : string → string → M store unit, f id name)
        (if bool_decide (orgType = AccessorUser) then userNameModifiedHandlers e
         else if bool_decide (orgType = AccessorDepartment) then depNameModifiedHandlers e
         else if bool_decide (orgType = AccessorGroup) then groupNameModifiedHandlers e
         else []);
  for_each (λ f : string → string → M store unit, f id name) (orgNameModifiedHandlers e).

Definition RoleDeleted (roleID : string) : M store unit := for_each (λ f, f roleID) (roleDeletedHandlers e).
Definition RoleNameModified (roleID name : string) : M store unit :=
  for_each (λ f : string → string → M store unit, f roleID name) (roleNameModifiedHandlers e).
End dispatch.
