(* ===== verification/Role.v ===== *)
(** * Roles ([Authorization/logics/role.go])

    Administration of roles and their members, the queries on them, and the
    handlers [NewLogicsRole] registers. *)
From Stdlib Require Import Ascii.
From S2P Require Import Prelude Json Interfaces Common PolicyCalc Store Policy RoleDB Event.

(** ** Text

    Request strings come out of [encoding/json], which yields valid UTF-8. *)

(** [utf8.RuneCountInString]: the bytes that do not continue a rune. *)
Definition continues_rune (c : ascii) : bool :=
  let n := nat_of_ascii c in ((128 <=? n) && (n <? 192))%nat.
Fixpoint RuneCountInString (s : string) : nat :=
  match s with
  | EmptyString => 0
  | String c s => (if continues_rune c then 0 else 1) + RuneCountInString s
  end.

(** The characters | \ / : * ? < > and the double quote. *)
Definition illegalChars : list ascii := map ascii_of_nat [124; 92; 47; 58; 42; 63; 34; 60; 62].
Definition ContainsAny (s : string) (chars : list ascii) : bool :=
  existsb (λ c, contains_char c s) chars.

(** The UTF-8 encodings of the runes [unicode.IsSpace] accepts. *)
Definition utf8_spaces : list (list ascii) := map (map ascii_of_nat)
  ([[9]; [10]; [11]; [12]; [13]; [32]; [194; 133]; [194; 160]; [225; 154; 128]] ++
   map (λ n, [226; 128; n]) [128; 129; 130; 131; 132; 133; 134; 135; 136; 137; 138; 168; 169; 175] ++
   [[226; 129; 159]; [227; 128; 128]]).

Fixpoint drop_prefix (p l : list ascii) : option (list ascii) :=
  match p, l with
  | [], _ => Some l
  | c :: p, d :: l => if decide (c = d) then drop_prefix p l else None
  | _ :: _, [] => None
  end.
(** Strips leading members of [spaces]; [fuel] is at least the length. *)
Fixpoint trim_start (fuel : nat) (spaces : list (list ascii)) (l : list ascii) : list ascii :=
  match fuel with
  | 0 => l
  | S fuel => match omap (λ p, drop_prefix p l) spaces with
              | rest :: _ => trim_start fuel spaces rest
              | [] => l
              end
  end.
Definition TrimSpace (s : string) : string :=
  let l := String.list_ascii_of_string s in
  let l := trim_start (length l) utf8_spaces l in
  let l := reverse (trim_start (length l) (reverse <$> utf8_spaces) (reverse l)) in
  String.string_of_list_ascii l.

Definition checkName (name : string) : outcome unit :=
  let length := RuneCountInString name in
  fail_if (ContainsAny name illegalChars || (length <? 1)%nat || (128 <? length)%nat)
    (NewError PublicBadRequest "role name is illegal").

(** ** Handlers *)
Section handlers.
Context `{SqlEnv}.
Definition deleteMemberByMemberID (memberID : string) : M store unit := memberDB_DeleteByMemberIDs [memberID].
Definition updateMemberName (memberID name : string) : M store unit := memberDB_UpdateMemberName memberID name.
Definition role_updateAppName (info : AppInfo) : M store unit :=
  memberDB_UpdateMemberName (app_ID info) (app_Name info).
End handlers.

(** [NewLogicsRole] and [NewPolicy] register their handlers on the one event
    object; [NewPolicy] creates the role object first. *)
Definition NewLogicsRole_register `{SqlEnv} (e : event) : event :=
  RegisterAppNameModified role_updateAppName
    (RegisterOrgNameModified updateMemberName
      (RegisterAppDeleted deleteMemberByMemberID
        (RegisterDepartmentDeleted deleteMemberByMemberID
          (RegisterUserGroupDeleted deleteMemberByMemberID
            (RegisterUserDeleted deleteMemberByMemberID e))))).

Definition NewPolicy_register `{SqlEnv} (e : event) : event :=
  RegisterRoleNameModified updatePolicyAccessorName
    (RegisterRoleDeleted deletePolicyByAccessorID
      (RegisterAppNameModified updateAppName
        (RegisterOrgNameModified updatePolicyAccessorName
          (RegisterAppDeleted deletePolicyByAccessorID
            (RegisterDepartmentDeleted deletePolicyByAccessorID
              (RegisterUserGroupDeleted deletePolicyByAccessorID
                (RegisterUserDeleted deletePolicyByAccessorID e))))))).

Definition wired_event `{SqlEnv} : event := NewPolicy_register (NewLogicsRole_register NewEvent).

Section role.
Context `{GoRuntime} `{DrivenUserMgnt} `{LogicsResourceType} `{SqlEnv} `{SqlLike} (e : event).

(** The visitor check of this service, and of the resource-type and
    obligation services. *)
Definition role_checkVisitorType (visitor : Visitor) : outcome unit :=
  roleTypes ← match vis_Type visitor with
              | RealName => GetUserRolesByUserID (vis_ID visitor)
              | _ => Ok []
              end;
  checkVisitorType visitor roleTypes [RealName] [SuperAdmin; SystemAdmin; SecurityAdmin].

Definition roleNotFound (visitor : Visitor) : gerror :=
  NewError RoleNotFound (i18n_Load i18nRoleNotFound (vis_Language visitor)).

Definition checkAndFilterResourceTypeScopeInfo (info : ResourceTypeScopeInfo) : outcome ResourceTypeScopeInfo :=
  if rtsi_Unlimited info then Ok {| rtsi_Unlimited := true; rtsi_Types := None |}
  else
    acc ← ofold (λ (acc : gmap string bool * list string) v,
      let '(checkDupMap, resourceTypeIDs) := acc in
      _ ← fail_if (bool_decide (rts_ResourceTypeID v = ""))
            (NewError PublicBadRequest "resource_type_scope is empty");
      _ ← fail_if (bool_decide (is_Some (checkDupMap !! rts_ResourceTypeID v)))
            (NewError PublicBadRequest "resource_type_scope is duplicate");
      Ok (<[rts_ResourceTypeID v := true]> checkDupMap, resourceTypeIDs ++ [rts_ResourceTypeID v]))
      (∅, []) (rtsi_types info);
    let '(_, resourceTypeIDs) := acc in
    if (length resourceTypeIDs =? 0)%nat then Ok {| rtsi_Unlimited := false; rtsi_Types := None |}
    else
      resourceTypeInfosMap ← GetByIDsInternal resourceTypeIDs;
      let types := filter (λ v, is_Some (resourceTypeInfosMap !! rts_ResourceTypeID v)) (rtsi_types info) in
      Ok {| rtsi_Unlimited := false; rtsi_Types := if bool_decide (types = []) then None else Some types |}.

(** ** Administration of roles *)
Definition role_AddRole (visitor : Visitor) (role : RoleInfo) : M store string :=
  _ ← lift (role_checkVisitorType visitor);
  _ ← lift (checkName (role_Name role));
  info ← reads (λ s, roleDB_GetRoleByName s (role_Name role));
  _ ← lift (fail_if (negb (bool_decide (role_ID info = "")))
              (NewError RoleNameConflict "role name already exists"));
  scope ← lift (checkAndFilterResourceTypeScopeInfo (role_Scope role));
  id ← new_uuid;
  _ ← roleDB_AddRoles [{| role_ID := id; role_Name := role_Name role; role_Description := role_Description role;
        role_Source := RoleSourceUser; role_Scope := scope; role_CreateTime := role_CreateTime role;
        role_ModifyTime := role_ModifyTime role |}];
  mret id.

Definition role_DeleteRole (visitor : Visitor) (roleID : string) : M store unit :=
  _ ← lift (role_checkVisitorType visitor);
  info ← reads (λ s, roleDB_GetRoleByID s roleID);
  if bool_decide (role_ID info = "") then mret tt
  else
    _ ← roleDB_DeleteRole (role_ID info);
    _ ← memberDB_DeleteByRoleID roleID;
    RoleDeleted e roleID.

Definition role_ModifyRole (visitor : Visitor) (roleID name : string) (nameChanged : bool) (description : string)
    (descriptionChanged : bool) (resourceTypeScopes : ResourceTypeScopeInfo) (resourceTypeScopesChanged : bool)
  : M store unit :=
  _ ← lift (role_checkVisitorType visitor);
  info ← reads (λ s, roleDB_GetRoleByID s roleID);
  _ ← lift (fail_if (bool_decide (role_ID info = "")) (roleNotFound visitor));
  _ ← reads (λ s,
        if nameChanged then
          info ← roleDB_GetRoleByName s name;
          fail_if (negb (bool_decide (role_ID info = "")) && negb (bool_decide (role_ID info = roleID)))
            (NewError RoleNameConflict "role name already exists")
        else Ok tt);
  scopes ← lift (if resourceTypeScopesChanged then checkAndFilterResourceTypeScopeInfo resourceTypeScopes
                 else Ok resourceTypeScopes);
  _ ← roleDB_ModifyRole roleID name nameChanged description descriptionChanged scopes resourceTypeScopesChanged;
  if nameChanged then RoleNameModified e roleID name else mret tt.

(** ** Members *)
Definition memberIDSet (members : list RoleMemberInfo) : gmap string bool := set_of (rm_ID <$> members).

Definition rm_set_Name (name : string) (m : RoleMemberInfo) : RoleMemberInfo :=
  {| rm_ID := rm_ID m; rm_MemberType := rm_MemberType m; rm_Name := name; rm_ParentDeps := rm_ParentDeps m;
     rm_CreateTime := rm_CreateTime m; rm_ModifyTime := rm_ModifyTime m |}.

Definition role_AddRoleMembers (visitor : Visitor) (roleID : string) (infos : gmap string RoleMemberInfo)
  : M store unit :=
  _ ← lift (role_checkVisitorType visitor);
  info ← reads (λ s, roleDB_GetRoleByID s roleID);
  _ ← lift (fail_if (bool_decide (role_ID info = "")) (roleNotFound visitor));
  oldMembers ← reads (λ s, memberDB_GetRoleMembersByRoleID s roleID);
  let oldMembersMap := memberIDSet oldMembers in
  let newMembers := filter (λ temp, oldMembersMap !! rm_ID temp = None) (range 57 infos).*2 in
  if (length newMembers =? 0)%nat then mret tt
  else
    let idTypeMap : gmap string AccessorType :=
      foldl (λ m temp, <[rm_ID temp := rm_MemberType temp]> m) ∅ newMembers in
    idNameMap ← lift (GetNameByAccessorIDs idTypeMap);
    memberDB_AddRoleMembers roleID
      ((λ temp, rm_set_Name (default "" (idNameMap !! rm_ID temp)) temp) <$> newMembers).

Definition role_DeleteRoleMembers (visitor : Visitor) (roleID : string) (infos : gmap string RoleMemberInfo)
  : M store unit :=
  _ ← lift (role_checkVisitorType visitor);
  info ← reads (λ s, roleDB_GetRoleByID s roleID);
  _ ← lift (fail_if (bool_decide (role_ID info = "")) (roleNotFound visitor));
  memberDB_DeleteRoleMembers roleID (rm_ID <$> (range 58 infos).*2).

Definition AddOrDeleteRoleMemebers (visitor : Visitor) (method roleID : string) (infos : gmap string RoleMemberInfo)
  : M store unit :=
  if bool_decide (method = "POST") then role_AddRoleMembers visitor roleID infos
  else if bool_decide (method = "DELETE") then role_DeleteRoleMembers visitor roleID infos
  else lift (Err (NewError PublicBadRequest ("unsupported method: " +:+ method))).

(** The loop of [GetRoleMembers] over the page: users are collected, a
    department takes its parent departments, the others get none. *)
Definition rm_set_ParentDeps (deps : list (list Department)) (m : RoleMemberInfo) : RoleMemberInfo :=
  {| rm_ID := rm_ID m; rm_MemberType := rm_MemberType m; rm_Name := rm_Name m; rm_ParentDeps := deps;
     rm_CreateTime := rm_CreateTime m; rm_ModifyTime := rm_ModifyTime m |}.

Definition fillDepartment (outInfo : RoleMemberInfo) : outcome RoleMemberInfo :=
  if bool_decide (rm_MemberType outInfo = AccessorUser) then Ok outInfo
  else if bool_decide (rm_MemberType outInfo = AccessorDepartment) then
    dep ← GetParentDepartmentsByDepartmentID (rm_ID outInfo);
    Ok (rm_set_ParentDeps (rm_ParentDeps outInfo ++ [dep]) outInfo)
  else Ok (rm_set_ParentDeps [] outInfo).

Definition fillUser (userInfoMaps : gmap string UserInfo) (outInfo : RoleMemberInfo) : RoleMemberInfo :=
  if bool_decide (rm_MemberType outInfo = AccessorUser)
  then rm_set_ParentDeps (from_option user_ParentDeps [] (userInfoMaps !! rm_ID outInfo)) outInfo
  else outInfo.

Definition role_GetRoleMembers (s : store) (visitor : Visitor) (roleID : string) (info : RoleMemberSearchInfo)
  : outcome (Z * list RoleMemberInfo) :=
  _ ← role_checkVisitorType visitor;
  roleInfo ← roleDB_GetRoleByID s roleID;
  _ ← fail_if (bool_decide (role_ID roleInfo = "")) (roleNotFound visitor);
  let info := {| rms_Offset := rms_Offset info; rms_Limit := rms_Limit info;
                 rms_MemberTypes := rms_MemberTypes info; rms_Keyword := TrimSpace (rms_Keyword info) |} in
  num ← memberDB_GetRoleMembersNum s roleID info;
  if (0 <? num)%Z then
    outInfos ← memberDB_GetPaginationByRoleID s roleID info;
    let userIDs := map rm_ID (filter (λ m, rm_MemberType m = AccessorUser) outInfos) in
    outInfos ← omap_all fillDepartment outInfos;
    userInfoMaps ← BatchGetUserInfoByID userIDs;
    Ok (num, map (fillUser userInfoMaps) outInfos)
  else Ok (num, []).

(** ** Queries *)
Definition role_GetRoleByMembers (s : store) (memberIDs : list string) : outcome (list RoleInfo) :=
  memberDB_GetRoleByMembers s memberIDs.
Definition role_GetRolesByIDs (s : store) (roleIDs : list string) : outcome (gmap string RoleInfo) :=
  roleDB_GetRoleByIDs s roleIDs.

Definition role_set_Types (types : option (list ResourceTypeScope)) (r : RoleInfo) : RoleInfo :=
  {| role_ID := role_ID r; role_Name := role_Name r; role_Description := role_Description r;
     role_Source := role_Source r;
     role_Scope := {| rtsi_Unlimited := rtsi_Unlimited (role_Scope r); rtsi_Types := types |};
     role_CreateTime := role_CreateTime r; role_ModifyTime := role_ModifyTime r |}.

(** The type ids of the roles with a limited scope, each once. *)
Definition scopeTypeIDs (infos : list RoleInfo) : list string :=
  first_occurrences [] (infos ≫= λ info,
    if rtsi_Unlimited (role_Scope info) then [] else rts_ResourceTypeID <$> rtsi_types (role_Scope info)).

Definition fillTypeNames (resourceTypeInfosMap : gmap string ResourceType) (info : RoleInfo) : RoleInfo :=
  if rtsi_Unlimited (role_Scope info) then info
  else role_set_Types (option_map (map (λ t,
         match resourceTypeInfosMap !! rts_ResourceTypeID t with
         | Some ty => {| rts_ResourceTypeID := rts_ResourceTypeID t; rts_ResourceTypeName := rt_Name ty |}
         | None => t
         end)) (rtsi_Types (role_Scope info))) info.

Definition role_GetRoles (s : store) (visitor : Visitor) (info : RoleSearchInfo) : outcome (Z * list RoleInfo) :=
  _ ← role_checkVisitorType visitor;
  let info := {| rs_Offset := rs_Offset info; rs_Limit := rs_Limit info; rs_Keyword := TrimSpace (rs_Keyword info);
                 rs_RoleSources := rs_RoleSources info |} in
  num ← roleDB_GetRolesSum s info;
  if (0 <? num)%Z then
    infos ← roleDB_GetRoles s info;
    let resourceTypeIDs := scopeTypeIDs infos in
    resourceTypeInfosMap ← (if (0 <? length resourceTypeIDs)%nat then GetByIDsInternal resourceTypeIDs else Ok ∅);
    Ok (num, map (fillTypeNames resourceTypeInfosMap) infos)
  else Ok (num, []).

(** ** Start-up data *)
Definition checkRoleChange (old newInfo : RoleInfo) : bool :=
  negb (bool_decide (role_Name old = role_Name newInfo)) ||
  negb (bool_decide (role_Description old = role_Description newInfo)) ||
  negb (bool_decide (role_Scope old = role_Scope newInfo)).

(** The loop of [InitRoles]: the roles whose name is new are returned. *)
Fixpoint initRolesLoop (roles : list RoleInfo) : M store (list RoleInfo) :=
  match roles with
  | [] => mret []
  | role :: roles =>
      oldInfo ← reads (λ s, roleDB_GetRoleByName s (role_Name role));
      if negb (bool_decide (role_ID oldInfo = "")) then
        _ ← (if checkRoleChange oldInfo role then roleDB_SetRoleByID (role_ID oldInfo) role else mret tt);
        initRolesLoop roles
      else
        tmpRoles ← initRolesLoop roles;
        mret (role :: tmpRoles)
  end.

Definition role_InitRoles (roles : list RoleInfo) : M store unit :=
  if (length roles =? 0)%nat then mret tt
  else tmpRoles ← initRolesLoop roles; roleDB_AddRoles tmpRoles.

Definition role_InitRoleMemebers (infoMap : gmap string (list RoleMemberInfo)) : M store unit :=
  for_each (λ kv : string * list RoleMemberInfo,
    let '(roleID, infos) := kv in
    oldMembers ← reads (λ s, memberDB_GetRoleMembersByRoleID s roleID);
    let oldMembersMap := memberIDSet oldMembers in
    memberDB_AddRoleMembers roleID (filter (λ info, oldMembersMap !! rm_ID info = None) infos))
    (range 59 infoMap).

(** ** Roles of a resource type, and of a user *)
Definition later_modified (a b : RoleInfo) : bool := (role_ModifyTime b <? role_ModifyTime a)%Z.

Definition role_GetResourceTypeRoles (s : store) (info : ResourceTypeRoleSearchInfo) : outcome (Z * list RoleInfo) :=
  resourceTypeMap ← GetByIDsInternal [rtr_ResourceTypeID info];
  _ ← fail_if (bool_decide (resourceTypeMap !! rtr_ResourceTypeID info = None))
        (NewError PublicBadRequest "resource_type_id is not exist");
  roles ← roleDB_GetAllUserRolesInternal s (TrimSpace (rtr_Keyword info));
  let resultRoles := filter (λ role, rtsi_Unlimited (role_Scope role) = true ∨
    rtr_ResourceTypeID info ∈ rts_ResourceTypeID <$> rtsi_types (role_Scope role)) roles in
  if (length resultRoles =? 0)%nat then Ok (0%Z, [])
  else
    let resultRoles := sort_slice later_modified resultRoles in
    let count := Z.of_nat (length resultRoles) in
    let start := rtr_Offset info in
    let stop := int64_wrap (start + rtr_Limit info) in
    if (count <=? start)%Z then Ok (count, [])
    else
      let stop := if (count <? stop)%Z then count else stop in
      outInfo ← go_slice resultRoles start stop;
      Ok (count, outInfo).

(** The position of a role in [init_data/role_order.json]. *)
Definition initRoleOrder (roleOrderStr : text) : outcome (gmap string Z) :=
  rolesJson ← unmarshal_slice roleOrderStr;
  acc ← ofold (λ (acc : gmap string Z * Z) roleJson,
    let '(roleSortOrder, i) := acc in
    roleDr ← assert_map roleJson;
    roleID ← match roleDr !! "id" with Some v => assert_string v | None => Ok "" end;
    Ok (<[roleID := (i + 1)%Z]> roleSortOrder, (i + 1)%Z)) (∅, 0%Z) rolesJson;
  Ok acc.1.

(** The comparison of [slices.SortFunc]; [true] for a negative result. *)
Definition role_before (roleSortOrder : gmap string Z) (a b : RoleInfo) : bool :=
  match roleSortOrder !! role_ID a, roleSortOrder !! role_ID b with
  | Some orderA, Some orderB => (orderA <? orderB)%Z
  | Some _, None => true
  | None, Some _ => false
  | None, None => later_modified a b
  end.

(** The de-duplicating loop: a role is kept once when its source is asked
    for. *)
Definition keepSources (sources : list RoleSource) (roles : list RoleInfo) : list RoleInfo :=
  (foldl (λ (acc : list RoleInfo * gmap string bool) role,
    let '(tmpRoles, dupMap) := acc in
    if bool_decide (is_Some (dupMap !! role_ID role)) then acc
    else if bool_decide (role_Source role ∈ [RoleSourceSystem; RoleSourceBusiness; RoleSourceUser] ∧
                         role_Source role ∈ sources)
    then (tmpRoles ++ [role], <[role_ID role := true]> dupMap)
    else acc) ([], ∅) roles).1.

(** The page, with every bound clamped. *)
Definition clampedPage {T} (l : list T) (offset limit : Z) : outcome (list T) :=
  if (limit =? -1)%Z then Ok l
  else
    let n := Z.of_nat (length l) in
    let start := offset in
    let stop := int64_wrap (offset + limit) in
    let start := if (n <? start)%Z then n else start in
    let stop := if (n <? stop)%Z then n else stop in
    let start := if (start <? 0)%Z then 0%Z else start in
    let stop := if (stop <? start)%Z then start else stop in
    go_slice l start stop.

Definition role_GetAccessorRoles (roleSortOrder : gmap string Z) (s : store) (param : AccessorRoleSearchInfo)
  : outcome (Z * list RoleInfo) :=
  accessTokens ← GetAccessorIDsByUserID (ars_AccessorID param);
  let accessTokens := accessTokens ++ [rootDepID] in
  roles ← memberDB_GetRoleByMembers s accessTokens;
  let pagedAccessTokens := map role_ID roles in
  let hasRoleSourceSystem := bool_decide (RoleSourceSystem ∈ ars_RoleSources param) in
  pagedAccessTokens ← (if hasRoleSourceSystem then
      roleTypes ← GetUserRolesByUserID (ars_AccessorID param);
      Ok (foldl (λ toks t, match systemRoleID t with Some id => toks ++ [id] | None => toks end)
            pagedAccessTokens roleTypes)
    else Ok pagedAccessTokens);
  if (length pagedAccessTokens =? 0)%nat then Ok (0%Z, [])
  else
    roleInfosMap ← roleDB_GetRoleByIDs s pagedAccessTokens;
    let roles := (λ roleID, default RoleInfo_zero (roleInfosMap !! roleID)) <$> pagedAccessTokens in
    let sources := if (length (ars_RoleSources param) =? 0)%nat then [RoleSourceBusiness; RoleSourceUser]
                   else ars_RoleSources param in
    let tmpRoles := keepSources sources roles in
    let tmpRoles := sort_slice (role_before roleSortOrder) tmpRoles in
    let count := Z.of_nat (length tmpRoles) in
    if (count =? 0)%Z then Ok (0%Z, [])
    else
      outInfo ← clampedPage tmpRoles (ars_Offset param) (ars_Limit param);
      Ok (count, outInfo).
End role.

(** The role service the decision and policy services call, over the store at
    the time of the call. *)
Definition role_service `{GoRuntime} `{SqlEnv} (s : store) : LogicsRole := {|
  GetRoleByMembers := role_GetRoleByMembers s;
  GetRolesByIDs := role_GetRolesByIDs s
|}.
