(* ===== verification/RoleScope.v ===== *)
(** * The resource types in the scope of a role

    [GetRoleByID] of [logics/role.go]: the role with the operations of every
    resource type it is limited to, as a flat list or along the hierarchy of
    resource types. *)
From S2P Require Import Prelude Json Interfaces Common Store Policy RoleDB Event Role.

Definition operationResponse (visitor : Visitor) (operation : ResourceTypeOperation) : ResourceTypeOperationResponse :=
  {| rtor_ID := rto_ID operation;
     rtor_Name := getOperationNameByLanguage (rto_Name operation) (vis_Language visitor);
     rtor_Description := rto_Description operation |}.

(** [None] is [ok == false]. *)
Definition getResourceTypeInfo (visitor : Visitor) (resourceTypeID : string)
    (resourceTypeInfoMap : gmap string ResourceType) : option ResourceTypeScopeWithOperation :=
  match resourceTypeInfoMap !! resourceTypeID with
  | None => None
  | Some resourceTypeInfo =>
      let scoped scope := operationResponse visitor <$>
        filter (λ operation, scope ∈ rto_Scope operation) (rt_Operation resourceTypeInfo) in
      Some {| rtso_ID := rt_ID resourceTypeInfo; rtso_Name := rt_Name resourceTypeInfo;
              rtso_Description := rt_Description resourceTypeInfo;
              rtso_InstanceURL := rt_InstanceURL resourceTypeInfo;
              rtso_DataStruct := rt_DataStruct resourceTypeInfo;
              rtso_TypeOperation := scoped ScopeType; rtso_InstanceOperation := scoped ScopeInstance;
              rtso_Children := [] |}
  end.

Definition rtso_set_Children (children : list ResourceTypeScopeWithOperation) (t : ResourceTypeScopeWithOperation)
  : ResourceTypeScopeWithOperation :=
  {| rtso_ID := rtso_ID t; rtso_Name := rtso_Name t; rtso_Description := rtso_Description t;
     rtso_InstanceURL := rtso_InstanceURL t; rtso_DataStruct := rtso_DataStruct t;
     rtso_TypeOperation := rtso_TypeOperation t; rtso_InstanceOperation := rtso_InstanceOperation t;
     rtso_Children := children |}.

(** [for _, id := range resourceTypeIDs { ...; if !ok { continue }; append }] *)
Definition getResourceTypeScopeInfoFlat (visitor : Visitor) (resourceTypeIDs : list string)
    (resourceTypeInfoMap : gmap string ResourceType) : list ResourceTypeScopeWithOperation :=
  omap (λ id, getResourceTypeInfo visitor id resourceTypeInfoMap) resourceTypeIDs.

(** [collectChildrenIDs]: every id below a node. *)
Fixpoint idsBelow (h : ResourceTypeHierarchy) : list string :=
  match h with MkHierarchy _ children => children ≫= λ c, rth_ResourceTypeID c :: idsBelow c end.

(** One child in [fillChildrenFromHierarchy]; [None] is [continue]. *)
Fixpoint fillChild (visitor : Visitor) (resourceTypeIDSet : gmap string bool)
    (resourceTypeInfoMap : gmap string ResourceType) (child : ResourceTypeHierarchy)
  : option ResourceTypeScopeWithOperation :=
  match child with
  | MkHierarchy id children =>
      if negb (mget resourceTypeIDSet id) then None
      else match getResourceTypeInfo visitor id resourceTypeInfoMap with
           | None => None
           | Some scope =>
               Some (if bool_decide (length children = 0) then scope
                     else rtso_set_Children
                       (omap (fillChild visitor resourceTypeIDSet resourceTypeInfoMap) children) scope)
           end
  end.

Section scope.
Context `{GoRuntime} `{DrivenUserMgnt} `{LogicsResourceType} `{LogicsResourceTypeHierarchy} `{SqlEnv}.

Definition getResourceTypeScopeInfoHierarchy (visitor : Visitor) (resourceTypeIDs : list string)
    (resourceTypeInfoMap : gmap string ResourceType) : outcome (list ResourceTypeScopeWithOperation) :=
  resourceTypeHierarchyMap ← Hierarchy_GetAll;
  let roots := (range 60 resourceTypeHierarchyMap).*2 in
  let topMap := set_of (rth_ResourceTypeID <$> roots) in
  let childrenMap := set_of (roots ≫= idsBelow) in
  Ok (omap (λ resourceTypeID,
    if negb (mget topMap resourceTypeID) && mget childrenMap resourceTypeID then None
    else match getResourceTypeInfo visitor resourceTypeID resourceTypeInfoMap with
         | None => None
         | Some tmp =>
             Some (match resourceTypeHierarchyMap !! resourceTypeID with
                   | Some hierarchy =>
                       if (0 <? length (rth_Children hierarchy))%nat
                       then rtso_set_Children
                              (omap (fillChild visitor (set_of resourceTypeIDs) resourceTypeInfoMap)
                                 (rth_Children hierarchy)) tmp
                       else tmp
                   | None => tmp
                   end)
         end) resourceTypeIDs).

Definition getResourceTypeScopeInfo (visitor : Visitor) (info : ResourceTypeScopeInfo) (viewMode : string)
  : outcome ResourceTypeScopeInfoWithOperation :=
  '(resourceTypeIDs, resourceTypeInfoMap) ←
    (if rtsi_Unlimited info then
       resourceTypeInfos ← GetAllInternal;
       Ok (map rt_ID resourceTypeInfos,
           foldl (λ (m : gmap string ResourceType) t, <[rt_ID t := t]> m) ∅ resourceTypeInfos)
     else
       let resourceTypeIDs := rts_ResourceTypeID <$> rtsi_types info in
       resourceTypeInfoMap ← GetByIDsInternal resourceTypeIDs;
       Ok (resourceTypeIDs, resourceTypeInfoMap));
  types ← (if bool_decide (viewMode = ResourceTypeViewModeFlat)
           then Ok (getResourceTypeScopeInfoFlat visitor resourceTypeIDs resourceTypeInfoMap)
           else if bool_decide (viewMode = ResourceTypeViewModeHierarchy)
           then getResourceTypeScopeInfoHierarchy visitor resourceTypeIDs resourceTypeInfoMap
           else Ok []);
  Ok {| rtsw_Unlimited := rtsi_Unlimited info; rtsw_Types := types |}.

Definition role_GetRoleByID (s : store) (visitor : Visitor) (roleID viewMode : string)
  : outcome RoleInfoWithResourceTypeOperation :=
  _ ← role_checkVisitorType visitor;
  tmpInfo ← roleDB_GetRoleByID s roleID;
  _ ← fail_if (bool_decide (role_ID tmpInfo = "")) (roleNotFound visitor);
  scope ← getResourceTypeScopeInfo visitor (role_Scope tmpInfo) viewMode;
  Ok {| riw_ID := role_ID tmpInfo; riw_Name := role_Name tmpInfo; riw_Description := role_Description tmpInfo;
        riw_Source := role_Source tmpInfo; riw_Scope := scope; riw_CreateTime := 0; riw_ModifyTime := 0 |}.
End scope.
