(* ===== verification/RoleSpec.v ===== *)
(** * Correctness of the role service

    Role names and ids stay unique under every sequence of administrative
    calls, and each call has the effect its request describes. *)
From S2P Require Import Prelude Json Interfaces Common PolicyCalc Store PolicyDB Policy RoleDB Event Role.

(** ** Lookups *)
Section lookups.
Context `{GoRuntime} `{SqlEnv}.

Lemma scan_last_Ok scan rows info :
  scan_last scan rows = Ok info → (rows = [] ∧ info = RoleInfo_zero) ∨ ∃ row, row ∈ rows ∧ scan row = Ok info.
Proof.
  unfold scan_last. generalize RoleInfo_zero. induction rows as [|row rows IH]; intros z; simpl.
  - intros [= <-]. by left.
  - intros Hb. obind. apply IH in Hb as [[-> ->]|(row' & Hin & Hs)]; right.
    + exists row. split; [left|done].
    + exists row'. split; [by right|done].
Qed.

Lemma scanRole_id row info : scanRole row = Ok info → role_ID info = r_id row ∧ role_Name info = r_name row.
Proof. unfold scanRole. intros Hs. by obind. Qed.
Lemma scanRole_ids rows infos : omap_all scanRole rows = Ok infos → role_ID <$> infos = r_id <$> rows.
Proof.
  intros Hs%omap_all_Ok. induction Hs as [|row info rows infos Hs _ IH]; csimpl; [done|].
  apply scanRole_id in Hs as [-> _]. by f_equal.
Qed.
Lemma scanRoleNoSource_id row info :
  scanRoleNoSource row = Ok info → role_ID info = r_id row ∧ role_Name info = r_name row.
Proof. unfold scanRoleNoSource. intros Hs. by obind. Qed.

Lemma filter_range_nil {A} site (P : A → Prop) `{∀ x, Decision (P x)} l :
  range_order site (filter P l) = [] → ∀ x, x ∈ l → ¬ P x.
Proof.
  intros Hr x Hx HP. assert (x ∈ range_order site (filter P l)) as Hin.
  { apply elem_of_range_order. by apply list_elem_of_filter. }
  rewrite Hr in Hin. by inversion Hin.
Qed.

(** What the code learns from [GetRoleByName] and [GetRoleByID]. *)
Lemma GetRoleByName_spec s name info :
  Forall (λ row, r_id row ≠ "") (t_role s) → roleDB_GetRoleByName s name = Ok info →
  (role_ID info = "" ∧ name ∉ r_name <$> t_role s) ∨
  (role_ID info ≠ "" ∧ ∃ row, row ∈ t_role s ∧ r_name row = name ∧ r_id row = role_ID info).
Proof.
  intros Hne Hg. apply stmt_Ok, scan_last_Ok in Hg as [[Hr ->]|(row & Hin & Hs)].
  - left. split; [done|]. intros (row & -> & Hrow)%list_elem_of_fmap.
    by eapply (filter_range_nil 52 (λ row', r_name row' = r_name row)).
  - apply elem_of_range_order, list_elem_of_filter in Hin as [Hn Hin]. apply scanRoleNoSource_id in Hs as [Hs _].
    right. rewrite Hs. split; [|by exists row]. rewrite Forall_forall in Hne. by apply Hne.
Qed.

Lemma GetRoleByID_spec s id info :
  Forall (λ row, r_id row ≠ "") (t_role s) → roleDB_GetRoleByID s id = Ok info →
  (role_ID info = "" ∧ id ∉ r_id <$> t_role s) ∨ (role_ID info = id ∧ id ≠ "" ∧ id ∈ r_id <$> t_role s).
Proof.
  intros Hne Hg. apply stmt_Ok, scan_last_Ok in Hg as [[Hr ->]|(row & Hin & Hs)].
  - left. split; [done|]. intros (row & -> & Hrow)%list_elem_of_fmap.
    by eapply (filter_range_nil 51 (λ row', r_id row' = r_id row)).
  - apply elem_of_range_order, list_elem_of_filter in Hin as [Hn Hin]. apply scanRole_id in Hs as [Hs _].
    right. rewrite Hs. split; [done|]. subst id. split; [rewrite Forall_forall in Hne; by apply Hne|].
    by apply list_elem_of_fmap_2.
Qed.
End lookups.

(** ** The role table *)
Section table.
Context (gen : nat → string).

(** Ids and names are unique, no id is empty, and the id generator has not
    handed out an id of the table again. *)
Record role_table (s : store) : Prop := {
  rt_ids : NoDup (r_id <$> t_role s);
  rt_names : NoDup (r_name <$> t_role s);
  rt_nonempty : Forall (λ row, r_id row ≠ "") (t_role s);
  rt_fresh : ∀ n, seq_uuid s ≤ n → gen n ∉ r_id <$> t_role s
}.

(** It depends on the ids and the names only. *)
Lemma role_table_ext s s' :
  r_id <$> t_role s' = r_id <$> t_role s → r_name <$> t_role s' = r_name <$> t_role s →
  seq_uuid s ≤ seq_uuid s' → role_table s → role_table s'.
Proof.
  intros Hids Hnames Hseq [Hi Hn Hne Hf]. split; rewrite ?Hids, ?Hnames; try done.
  - rewrite Forall_forall in *. intros row Hr. apply (list_elem_of_fmap_2 r_id) in Hr. rewrite Hids in Hr.
    apply list_elem_of_fmap in Hr as (row' & -> & Hr). by apply Hne.
  - intros n Hle. apply Hf. lia.
Qed.
Lemma role_table_same s s' :
  t_role s' = t_role s → seq_uuid s ≤ seq_uuid s' → role_table s → role_table s'.
Proof. intros Ht. apply role_table_ext; by rewrite Ht. Qed.

Lemma modifyRow_id `{SqlEnv} id name nc d dc sc scc row : r_id (modifyRow id name nc d dc sc scc row) = r_id row.
Proof. unfold modifyRow. by case_bool_decide. Qed.

Lemma modifyRow_ids `{SqlEnv} id name nc d dc sc scc (rows : list role_row) :
  r_id <$> (modifyRow id name nc d dc sc scc <$> rows) = r_id <$> rows.
Proof. rewrite <-list_fmap_compose. apply list_fmap_ext. intros i row _. apply modifyRow_id. Qed.

Lemma modifyRow_name `{SqlEnv} id name nc d dc sc scc row :
  r_name (modifyRow id name nc d dc sc scc row) = if bool_decide (r_id row = id ∧ nc = true) then name else r_name row.
Proof. unfold modifyRow. destruct nc; repeat case_bool_decide; simpl; naive_solver. Qed.

Lemma modifyRow_names_out `{SqlEnv} id name nc d dc sc scc (rows : list role_row) :
  id ∉ r_id <$> rows → r_name <$> (modifyRow id name nc d dc sc scc <$> rows) = r_name <$> rows.
Proof.
  intros Hid. rewrite <-list_fmap_compose. apply Forall_fmap_ext, Forall_forall. intros row Hr. simpl.
  rewrite modifyRow_name, bool_decide_eq_false_2; [done|]. intros [E _]. apply Hid. rewrite <-E.
  by apply list_elem_of_fmap_2.
Qed.

(** Renaming one role to a name no other role has. *)
Lemma rename_names `{SqlEnv} id name nc d dc sc scc (rows : list role_row) :
  NoDup (r_id <$> rows) → NoDup (r_name <$> rows) →
  (nc = true → ∀ row, row ∈ rows → r_name row = name → r_id row = id) →
  NoDup (r_name <$> (modifyRow id name nc d dc sc scc <$> rows)).
Proof.
  induction rows as [|row rows IH]; csimpl; intros Hi Hn Hname; [constructor|].
  apply NoDup_cons in Hi as [Hi Hi']. apply NoDup_cons in Hn as [Hn Hn'].
  rewrite modifyRow_name. case_bool_decide as E.
  - destruct E as [<- ->]. rewrite modifyRow_names_out by done. apply NoDup_cons. split; [|done].
    intros (row' & Hnm & Hr')%list_elem_of_fmap. apply Hi.
    rewrite <-(Hname eq_refl row' (list_elem_of_further _ _ _ Hr') (eq_sym Hnm)). by apply list_elem_of_fmap_2.
  - apply NoDup_cons. split; [|apply IH; [done|done|intros ? row' ?; apply Hname; [done|by right]]].
    rewrite <-list_fmap_compose. intros (row' & Hnm & Hr')%list_elem_of_fmap. simpl in Hnm.
    rewrite modifyRow_name in Hnm. case_bool_decide as E'.
    + destruct E' as [_ ->]. apply E. split; [|done]. apply (Hname eq_refl); [left|done].
    + apply Hn. rewrite Hnm. by apply list_elem_of_fmap_2.
Qed.

Lemma role_table_modify `{SqlEnv} id name nc d dc sc scc s :
  role_table s → (nc = true → ∀ row, row ∈ t_role s → r_name row = name → r_id row = id) →
  role_table (set_role (fmap (modifyRow id name nc d dc sc scc)) s).
Proof.
  intros [Hi Hn Hne Hf] Hname. split; simpl.
  - by rewrite modifyRow_ids.
  - by apply rename_names.
  - rewrite Forall_fmap. eapply Forall_impl; [exact Hne|]. intros row. simpl. by rewrite modifyRow_id.
  - intros n Hle. rewrite modifyRow_ids. by apply Hf.
Qed.

Lemma newRoleRow_ids `{SqlEnv} n roles :
  r_id <$> imap (λ i role, newRoleRow (n + Z.of_nat i) role) roles = role_ID <$> roles.
Proof. rewrite fmap_imap. apply imap_const. Qed.
Lemma newRoleRow_names `{SqlEnv} n roles :
  r_name <$> imap (λ i role, newRoleRow (n + Z.of_nat i) role) roles = role_Name <$> roles.
Proof. rewrite fmap_imap. apply imap_const. Qed.

Lemma role_table_add `{SqlEnv} roles n k s :
  role_table s → NoDup (role_ID <$> roles) → NoDup (role_Name <$> roles) →
  (∀ role, role ∈ roles → role_ID role ≠ "" ∧ (role_ID role ∉ r_id <$> t_role s) ∧
     (role_Name role ∉ r_name <$> t_role s) ∧ ∀ m, seq_uuid s ≤ m → gen m ≠ role_ID role) →
  role_table (bump_primary k (set_role (λ t, t ++ imap (λ i role, newRoleRow (n + Z.of_nat i) role) roles) s)).
Proof.
  intros [Hi Hn Hne Hf] Hid Hname Hnew. split; simpl; rewrite ?fmap_app, ?newRoleRow_ids, ?newRoleRow_names.
  - apply NoDup_app. split_and!; [done| |done]. intros x Hx (role & -> & Hr)%list_elem_of_fmap.
    by apply Hnew in Hr as (_ & ? & _).
  - apply NoDup_app. split_and!; [done| |done]. intros x Hx (role & -> & Hr)%list_elem_of_fmap.
    by apply Hnew in Hr as (_ & _ & ? & _).
  - apply Forall_app. split; [done|]. apply Forall_forall. intros row Hr.
    apply (list_elem_of_fmap_2 r_id) in Hr. rewrite newRoleRow_ids in Hr.
    apply list_elem_of_fmap in Hr as (role & -> & Hr). by apply Hnew in Hr as (? & _).
  - intros m Hm. rewrite elem_of_app. intros [Hx|(role & Hg & Hr)%list_elem_of_fmap]; [by eapply Hf|].
    apply Hnew in Hr as (_ & _ & _ & Hg'). by apply (Hg' m).
Qed.
End table.

(** ** Every sequence of calls *)

(** A call that leaves the role table alone. *)
Definition same_roles : relation store := λ s s', t_role s' = t_role s ∧ seq_uuid s ≤ seq_uuid s'.
#[global] Instance same_roles_preorder : PreOrder same_roles.
Proof. split; [done|]. intros s1 s2 s3 [? ?] [? ?]. split; [congruence|lia]. Qed.
Abbreviation keeps_roles := (within same_roles).

Lemma keeps_roles_exec `{SqlEnv} label f :
  (∀ s, t_role (f s) = t_role s ∧ seq_uuid (f s) = seq_uuid s) → keeps_roles (exec label f).
Proof. intros Hf. apply within_exec; [apply _|]. intros s. destruct (Hf s) as [Hr Hu]. split; [done|by rewrite Hu]. Qed.

(** Follows the code of a call that only writes other tables. *)
Ltac keeps := follow ltac:(by apply keeps_roles_exec).

Section steps.
Context `{GoRuntime} `{DrivenUserMgnt} `{LogicsResourceType} (gen : nat → string).

(** The call ends, in whatever way, with a good role table. *)
Definition safe {A} (m : M store A) (s : store) : Prop := ∀ r s', m s = (r, s') → role_table gen s'.

Lemma safe_keep {A} (m : M store A) s : keeps_roles m → role_table gen s → safe m s.
Proof. intros Hm Ht r s' Hs. apply Hm in Hs as [Hr Hu]. by eapply role_table_same. Qed.
Lemma safe_bind {A B} (m : M store A) (k : A → M store B) s :
  safe m s → (∀ a s1, m s = (Ok a, s1) → role_table gen s1 → safe (k a) s1) → safe (x ← m; k x) s.
Proof.
  intros Hm Hk r s' Hb. apply M_bind_cases in Hb as [(a & s1 & E & E')|[(e & E & _)|(w & E & _)]].
  - eapply Hk; [exact E|by eapply Hm|exact E'].
  - by eapply Hm.
  - by eapply Hm.
Qed.
Lemma safe_reads {A B} (f : store → outcome A) (k : A → M store B) s :
  role_table gen s → (∀ a, f s = Ok a → safe (k a) s) → safe (x ← reads f; k x) s.
Proof.
  intros Ht Hk. apply safe_bind; [by intros r s' [= <- <-]|]. intros a s1 Hr _. rewrite reads_eq in Hr.
  injection Hr as Hr <-. by apply Hk.
Qed.
Lemma safe_lift {A B} (o : outcome A) (k : A → M store B) s :
  role_table gen s → (∀ a, o = Ok a → safe (k a) s) → safe (x ← lift o; k x) s.
Proof. intros Ht Hk. by apply (safe_reads (λ _, o)). Qed.

Lemma safe_modify `{SqlEnv} label id name nc d dc sc scc s :
  role_table gen s → (nc = true → ∀ row, row ∈ t_role s → r_name row = name → r_id row = id) →
  safe (exec label (set_role (fmap (modifyRow id name nc d dc sc scc)))) s.
Proof.
  intros Ht Hn r s' Hx. apply exec_cases in Hx as [[_ ->]|(e & _ & ->)]; [|done]. by apply role_table_modify.
Qed.

(** The policy and member handlers of the wired service do not touch roles. *)
Lemma wired_RoleDeleted `{SqlEnv} id : keeps_roles (RoleDeleted wired_event id).
Proof.
  apply within_each; [apply _|]. simpl. intros f ->%list_elem_of_singleton. by apply keeps_roles_exec.
Qed.
Lemma wired_RoleNameModified `{SqlEnv} id name : keeps_roles (RoleNameModified wired_event id name).
Proof.
  apply within_each; [apply _|]. simpl. intros f ->%list_elem_of_singleton. by apply keeps_roles_exec.
Qed.

Lemma role_table_delete s id : role_table gen s → role_table gen (set_role (filter (λ row, r_id row ≠ id)) s).
Proof.
  intros [Hi Hn Hne Hf]. split; simpl.
  - by apply NoDup_fmap_filter.
  - by apply NoDup_fmap_filter.
  - rewrite Forall_forall in *. intros row [_ Hr]%list_elem_of_filter. by apply Hne.
  - intros n Hle Hin. apply (Hf n Hle). apply list_elem_of_fmap in Hin as (row & -> & Hr).
    apply list_elem_of_filter in Hr as [_ Hr]. by apply list_elem_of_fmap_2.
Qed.

Lemma DeleteRole_safe `{SqlEnv} visitor id s :
  role_table gen s → safe (role_DeleteRole wired_event visitor id) s.
Proof.
  intros Ht. apply safe_lift; [done|intros _ _]. apply safe_reads; [done|intros info _].
  case_bool_decide; [by apply safe_keep; [apply within_ret, _|]|].
  apply safe_bind.
  { intros r s' Hx. apply exec_cases in Hx as [[_ ->]|(? & _ & ->)]; [by apply role_table_delete|done]. }
  intros _ s1 _ Ht1. apply safe_bind; [by apply safe_keep; [apply keeps_roles_exec|]|].
  intros _ s2 _ Ht2. apply safe_keep; [apply wired_RoleDeleted|done].
Qed.

Lemma ModifyRole_safe `{SqlEnv} visitor id name nc d dc sc scc s :
  role_table gen s → safe (role_ModifyRole wired_event visitor id name nc d dc sc scc) s.
Proof.
  intros Ht. apply safe_lift; [done|intros _ _]. apply safe_reads; [done|intros info Hid].
  apply safe_lift; [done|intros [] Hne]. apply safe_reads; [done|intros [] Hname].
  apply safe_lift; [done|intros scopes _]. apply safe_bind.
  - apply safe_modify; [done|]. intros -> row Hr Hnm. obind.
    match goal with Hg : roleDB_GetRoleByName _ _ = _ |- _ =>
      apply GetRoleByName_spec in Hg as [[_ Hout]|[Hne' (row' & Hr' & Hn' & Hid')]]; [| |by apply (rt_nonempty gen)] end.
    + destruct Hout. rewrite <-Hnm. by apply list_elem_of_fmap_2.
    + assert (row' = row) as ->.
      { eapply (NoDup_fmap_inj_in r_name); [apply (rt_names gen); exact Ht|done|done|congruence]. }
      apply andb_false_iff in Hname as [Hx|Hx]; apply negb_false_iff, bool_decide_eq_true in Hx; congruence.
  - intros _ s1 _ Ht1. case_match; [|by apply safe_keep; [apply within_ret, _|]].
    apply safe_keep; [apply wired_RoleNameModified|done].
Qed.

Lemma AddRole_safe `{SqlEnv} visitor role s :
  uuid = gen → Inj (=) (=) gen → (∀ n, gen n ≠ "") →
  role_table gen s → safe (role_AddRole visitor role) s.
Proof.
  intros Hu Hinj Hne Ht. apply safe_lift; [done|intros _ _]. apply safe_lift; [done|intros _ _].
  apply safe_reads; [done|intros info Hg]. apply safe_lift; [done|intros [] Hnone].
  apply safe_lift; [done|intros scope _].
  apply GetRoleByName_spec in Hg as [[_ Hout]|[Hsome _]]; [| |by apply (rt_nonempty gen)].
  2:{ obind. by rewrite negb_false_iff, bool_decide_eq_true in Hnone. }
  apply safe_bind.
  { intros r s' [= <- <-]. by apply (role_table_same gen s); [|simpl; lia|]. }
  intros id s1 [= <- <-] Ht1. apply safe_bind; [|by intros; apply safe_keep; [apply within_ret, _|]].
  intros r s' Hx. apply exec_cases in Hx as [[_ ->]|(? & _ & ->)]; [|done].
  apply role_table_add; [done|apply NoDup_singleton|apply NoDup_singleton|].
  intros role' ->%list_elem_of_singleton. simpl. rewrite Hu. split_and!; [done|by apply (rt_fresh gen s)|done|].
  intros m Hm Heq. apply Hinj in Heq. lia.
Qed.

(** Start-up roles that were not renamed since. *)
Definition init_data_ok (roles : list RoleInfo) (s : store) : Prop :=
  NoDup (role_ID <$> roles) ∧ NoDup (role_Name <$> roles) ∧
  ∀ role, role ∈ roles → role_ID role ≠ "" ∧ (∀ n, gen n ≠ role_ID role) ∧
    ∀ row, row ∈ t_role s → r_id row = role_ID role → r_name row = role_Name role.

Lemma rename_same `{SqlEnv} row id name d dc sc scc (rows : list role_row) :
  NoDup (r_id <$> rows) → row ∈ rows → r_id row = id → r_name row = name →
  r_name <$> (modifyRow id name true d dc sc scc <$> rows) = r_name <$> rows.
Proof.
  intros Hi Hr <- <-. rewrite <-list_fmap_compose. apply Forall_fmap_ext, Forall_forall. intros row' Hr'. simpl.
  rewrite modifyRow_name. case_bool_decide as E; [|done]. destruct E as [E _].
  by rewrite (NoDup_fmap_inj_in r_id rows row row').
Qed.

Lemma initRolesLoop_spec `{SqlEnv} roles s r s' :
  role_table gen s → initRolesLoop roles s = (r, s') →
  r_id <$> t_role s' = r_id <$> t_role s ∧ r_name <$> t_role s' = r_name <$> t_role s ∧ seq_uuid s' = seq_uuid s ∧
  ∀ tmp, r = Ok tmp → tmp `sublist_of` roles ∧ ∀ role, role ∈ tmp → role_Name role ∉ r_name <$> t_role s.
Proof.
  revert s r s'. induction roles as [|role roles IH]; intros s r s' Ht Hl; simpl in Hl.
  { injection Hl as <- <-. split_and!; try done. intros tmp [= <-]. split; [done|]. by intros ? ?%elem_of_nil. }
  mcase Hl; [|by split_and!..].
  apply GetRoleByName_spec in E as [[E Hout]|[Hne (row & Hr & Hnm & Hid)]]; [| |by apply (rt_nonempty gen)].
  - rewrite bool_decide_eq_true_2 in Hl by done. simpl in Hl. mcase Hl.
    + injection Hl as <- <-. apply IH in E0 as (-> & -> & -> & Hsub); [|done]. split_and!; try done.
      intros tmp [= <-]. destruct (Hsub _ eq_refl) as [Hs Hn]. split; [by constructor|].
      intros role' [->|Hr]%elem_of_cons; [done|by apply Hn].
    + by apply IH in E0 as (-> & -> & -> & _); [split_and!|].
    + by apply IH in E0 as (-> & -> & -> & _); [split_and!|].
  - rewrite bool_decide_eq_false_2 in Hl by done. simpl in Hl.
    assert (∀ b r1 s1, (if (b : bool) then roleDB_SetRoleByID (role_ID r0) role else mret tt) s = (r1, s1) →
      r_id <$> t_role s1 = r_id <$> t_role s ∧ r_name <$> t_role s1 = r_name <$> t_role s ∧ seq_uuid s1 = seq_uuid s)
      as Hset.
    { intros [] r1 s1 Hx; [|by injection Hx as <- <-]. apply exec_cases in Hx as [[_ ->]|(? & _ & ->)]; [|done].
      simpl. rewrite modifyRow_ids. split_and!; try done.
      eapply rename_same; [by apply (rt_ids gen)|exact Hr|done|done]. }
    mcase Hl; apply Hset in E as (Hi & Hn & Hu); [|by rewrite Hi, Hn, Hu..].
    apply IH in Hl as (-> & -> & -> & Hsub); [|by eapply role_table_ext; [done|done|lia|]].
    rewrite Hi, Hn, Hu. split_and!; try done. intros tmp Heq. destruct (Hsub tmp Heq) as [Hs Hnn].
    split; [by constructor|]. intros role' Hr'. rewrite <-Hn. by apply Hnn.
Qed.

Lemma InitRoles_safe `{SqlEnv} roles s :
  role_table gen s → init_data_ok roles s → safe (role_InitRoles roles) s.
Proof.
  intros Ht (Hi & Hn & Hok). unfold role_InitRoles. case_match; [by apply safe_keep; [apply within_ret, _|]|].
  apply safe_bind.
  { intros r s' Hl. apply initRolesLoop_spec in Hl as (? & ? & ? & _); [|done]. eapply role_table_ext; [done|done|lia|done]. }
  intros tmp s1 Hl Ht1. apply initRolesLoop_spec in Hl as (Hids & Hnames & Hu & Hsub); [|done].
  destruct (Hsub tmp eq_refl) as [Hs Hnew].
  intros r s' Hx. unfold roleDB_AddRoles in Hx. case_bool_decide; [by injection Hx as <- <-|].
  apply exec_cases in Hx as [[_ ->]|(? & _ & ->)]; [|done]. apply role_table_add.
  - done.
  - eapply sublist_NoDup; [exact Hi|by apply fmap_sublist].
  - eapply sublist_NoDup; [exact Hn|by apply fmap_sublist].
  - intros role Hr. assert (role ∈ roles) as Hr' by (by eapply elem_of_sublist).
    destruct (Hok role Hr') as (Hne & Hg & Hrow). rewrite Hids, Hnames. split_and!; [done| |by apply Hnew|done].
    intros (row & Heq & Hrow')%list_elem_of_fmap. apply (Hnew role Hr).
    rewrite <-(Hrow row Hrow' (eq_sym Heq)). by apply list_elem_of_fmap_2.
Qed.

Lemma members_keep `{SqlEnv} visitor method roleID infos :
  keeps_roles (AddOrDeleteRoleMemebers visitor method roleID infos).
Proof.
  unfold AddOrDeleteRoleMemebers, role_AddRoleMembers, role_DeleteRoleMembers, memberDB_AddRoleMembers,
    memberDB_DeleteRoleMembers. keeps.
Qed.
Lemma init_members_keep `{SqlEnv} infoMap : keeps_roles (role_InitRoleMemebers infoMap).
Proof. unfold role_InitRoleMemebers, memberDB_AddRoleMembers. keeps. Qed.

Lemma events_keep `{SqlEnv} :
  (∀ id, keeps_roles (UserDeleted wired_event id)) ∧ (∀ id, keeps_roles (DepartmentDeleted wired_event id)) ∧
  (∀ id, keeps_roles (UserGroupDeleted wired_event id)) ∧ (∀ id, keeps_roles (AppDeleted wired_event id)) ∧
  (∀ info, keeps_roles (AppNameModified wired_event info)) ∧
  (∀ id name orgType, keeps_roles (OrgNameModified wired_event id name orgType)).
Proof.
  unfold UserDeleted, DepartmentDeleted, UserGroupDeleted, AppDeleted, AppNameModified, OrgNameModified.
  split_and!; intros; simpl; keeps.
Qed.
End steps.

(** ** The calls that reach the role table *)
Section reachable.
Context `{GoRuntime} `{DrivenUserMgnt} `{LogicsResourceType} (gen : nat → string).

(** One call of the role service or one event, under any clock and any
    database faults; all draw ids from one generator. *)
Inductive role_call : store → store → Prop :=
| call_AddRole (env : SqlEnv) visitor role s r s' :
    uuid = gen → role_AddRole visitor role s = (r, s') → role_call s s'
| call_ModifyRole (env : SqlEnv) visitor id name nc d dc sc scc s r s' :
    role_ModifyRole wired_event visitor id name nc d dc sc scc s = (r, s') → role_call s s'
| call_DeleteRole (env : SqlEnv) visitor id s r s' :
    role_DeleteRole wired_event visitor id s = (r, s') → role_call s s'
| call_Members (env : SqlEnv) visitor method id infos s r s' :
    AddOrDeleteRoleMemebers visitor method id infos s = (r, s') → role_call s s'
| call_InitRoles (env : SqlEnv) roles s r s' :
    init_data_ok gen roles s → role_InitRoles roles s = (r, s') → role_call s s'
| call_InitRoleMembers (env : SqlEnv) infoMap s r s' :
    role_InitRoleMemebers infoMap s = (r, s') → role_call s s'
| call_UserDeleted (env : SqlEnv) id s r s' : UserDeleted wired_event id s = (r, s') → role_call s s'
| call_DepartmentDeleted (env : SqlEnv) id s r s' : DepartmentDeleted wired_event id s = (r, s') → role_call s s'
| call_UserGroupDeleted (env : SqlEnv) id s r s' : UserGroupDeleted wired_event id s = (r, s') → role_call s s'
| call_AppDeleted (env : SqlEnv) id s r s' : AppDeleted wired_event id s = (r, s') → role_call s s'
| call_AppNameModified (env : SqlEnv) info s r s' : AppNameModified wired_event info s = (r, s') → role_call s s'
| call_OrgNameModified (env : SqlEnv) id name orgType s r s' :
    OrgNameModified wired_event id name orgType s = (r, s') → role_call s s'.

Lemma role_call_safe s s' :
  Inj (=) (=) gen → (∀ n, gen n ≠ "") → role_call s s' → role_table gen s → role_table gen s'.
Proof.
  intros Hinj Hne Hc Ht. destruct Hc as [env v role s r s' Hu Hc|env v id nm nc d dc sc scc s r s' Hc|env v id s r s' Hc
    |env v m id infos s r s' Hc|env roles s r s' Hok Hc|env m s r s' Hc|env id s r s' Hc|env id s r s' Hc
    |env id s r s' Hc|env id s r s' Hc|env info s r s' Hc|env id nm ty s r s' Hc].
  - by eapply AddRole_safe.
  - by eapply ModifyRole_safe.
  - by eapply DeleteRole_safe.
  - exact (safe_keep gen _ _ (members_keep _ _ _ _) Ht _ _ Hc).
  - by eapply InitRoles_safe.
  - exact (safe_keep gen _ _ (init_members_keep _) Ht _ _ Hc).
  - eapply safe_keep; [|exact Ht|exact Hc]. apply events_keep.
  - eapply safe_keep; [|exact Ht|exact Hc]. apply events_keep.
  - eapply safe_keep; [|exact Ht|exact Hc]. apply events_keep.
  - eapply safe_keep; [|exact Ht|exact Hc]. apply events_keep.
  - eapply safe_keep; [|exact Ht|exact Hc]. apply events_keep.
  - eapply safe_keep; [|exact Ht|exact Hc]. apply events_keep.
Qed.

(** C27. Whatever calls of the role service and whatever events arrive, in
    any order, successful or not, role ids and role names stay unique, as
    long as the start-up data meets the built-in roles under their own
    names. *)
Theorem role_names_stay_unique s s' :
  Inj (=) (=) gen → (∀ n, gen n ≠ "") → role_table gen s → rtc role_call s s' →
  NoDup (r_id <$> t_role s') ∧ NoDup (r_name <$> t_role s').
Proof.
  intros Hinj Hne Ht Hc. assert (role_table gen s') as Ht'.
  { induction Hc as [|s s1 s' Hc _ IH]; [done|]. apply IH. by eapply role_call_safe. }
  split; [apply (rt_ids gen s' Ht')|apply (rt_names gen s' Ht')].
Qed.
End reachable.
