(* ===== verification/Mq.v ===== *)
(** * Messages from other services ([Authorization/driveradapters/mq_handler.go], [go-lib/rest/check_req.go])

    A message is a byte string that denotes JSON or not.  A handler that
    returns [nil] has the message acknowledged; one that returns an error has
    it delivered again. *)
From Stdlib Require Import Ascii.
From S2P Require Import Prelude Json Interfaces Common Store PolicyDB Policy Event.

(** ** The shape of a message *)
Inductive Kind : Set := KInvalid | KBool | KFloat64 | KString | KSlice | KMap.
#[global] Instance Kind_eq_dec : EqDecision Kind.
Proof. solve_decision. Defined.

(** [reflect.ValueOf(v).Kind()] *)
Definition kind_of (j : json) : Kind :=
  match j with
  | JNull => KInvalid | JBool _ => KBool | JNum _ => KFloat64 | JStr _ => KString | JArr _ => KSlice | JObj _ => KMap
  end.

#[warnings="-register-all"]
Inductive JSONValueDesc : Type := Desc (kind : Kind) (required : bool) (valueDesc : list (string * JSONValueDesc)).
Definition desc_Required (d : JSONValueDesc) : bool := let '(Desc _ r _) := d in r.

Definition bad_request (msg : string) : gerror := MkErr "HTTP.BadRequest" msg [].

(** [CheckJSONValue]; the [Exist] marks it leaves are read by no handler
    here. *)
Fixpoint CheckJSONValue (key : string) (jsonV : json) (d : JSONValueDesc) : outcome unit :=
  match d with
  | Desc kind _ valueDesc =>
      if negb (bool_decide (kind_of jsonV = kind)) then Err (bad_request ("type of " +:+ key))
      else match jsonV with
           | JObj obj =>
               (fix fields (l : list (string * JSONValueDesc)) : outcome unit :=
                  match l with
                  | [] => Ok tt
                  | (k, desc) :: l =>
                      _ ← match obj !! k with
                          | Some v => CheckJSONValue (key +:+ "." +:+ k) v desc
                          | None => fail_if (desc_Required desc) (bad_request (key +:+ "." +:+ k +:+ " is required"))
                          end;
                      fields l
                  end) valueDesc
           | JArr arr =>
               (fix find (l : list (string * JSONValueDesc)) : outcome unit :=
                  match l with
                  | [] => match arr with [] => Ok tt | _ :: _ => Panic "nil pointer dereference" end
                  | (k, desc) :: l =>
                      if bool_decide (k = "element")
                      then ofold (λ _ element, CheckJSONValue (key +:+ "[]") element desc) tt arr
                      else find l
                  end) valueDesc
           | _ => Ok tt
           end
  end.

Definition unmarshal_any (t : text) : outcome json :=
  match t with TJson j => Ok j | TRaw _ => Err json_syntax_error end.

Definition string_field : JSONValueDesc := Desc KString true [].

Definition getIDInNsqMsg (message : text) : outcome string :=
  jsonV ← unmarshal_any message;
  _ ← CheckJSONValue "body" jsonV (Desc KMap true [("id", string_field)]);
  m ← assert_map jsonV;
  assert_string (jget m "id").

(** [getGroupDeleteParamsInNsqMsq] repeats it. *)
Definition getGroupDeleteParamsInNsqMsq (message : text) : outcome string := getIDInNsqMsg message.

Definition getAppInfoInNsqMsg (message : text) : outcome AppInfo :=
  jsonV ← unmarshal_any message;
  _ ← CheckJSONValue "body" jsonV (Desc KMap true [("id", string_field); ("new_name", string_field)]);
  m ← assert_map jsonV;
  id ← assert_string (jget m "id");
  name ← assert_string (jget m "new_name");
  Ok {| app_ID := id; app_Name := name |}.

(** [StrToAccessorTypeMap] on the four kinds that pass the check. *)
Definition orgTypeOf (strType : string) : option AccessorType :=
  if bool_decide (strType = "user") then Some AccessorUser
  else if bool_decide (strType = "group") then Some AccessorGroup
  else if bool_decide (strType = "department") then Some AccessorDepartment
  else if bool_decide (strType = "contactor") then Some AccessorContactor
  else None.

Definition getNameUpdateParamsInNsqMsg (message : text) : outcome (string * string * AccessorType) :=
  jsonV ← unmarshal_any message;
  _ ← CheckJSONValue "body" jsonV
        (Desc KMap true [("id", string_field); ("new_name", string_field); ("type", string_field)]);
  m ← assert_map jsonV;
  strType ← assert_string (jget m "type");
  orgType ← match orgTypeOf strType with
            | Some t => Ok t
            | None => Err (NewError PublicBadRequest "invalid org type")
            end;
  id ← assert_string (jget m "id");
  name ← assert_string (jget m "new_name");
  Ok (id, name, orgType).

(** ** Acknowledging *)

(** An error of the service has a code [A.B...]; an error value without a
    code (a database driver's) is written with a code that has no dot. *)
Definition plain_error (e : gerror) : Prop := contains_char "."%char (err_code e) = false.

(** No handler here gets a [rest.HTTPError]: it comes from HTTP calls only. *)
Definition needReTry (e : gerror) : bool :=
  match split_at "."%char (err_code e) with
  | _ :: code :: _ => bool_decide (code = "InternalServerError") || bool_decide (code = "ServiceUnavailable")
  | _ => true
  end.

(** [if err = m(); err != nil { if needReTry(err) { return err } }; return nil] *)
Definition acknowledge (m : M store unit) : M store unit := λ s,
  match m s with
  | (Err e, s') => if needReTry e then (Err e, s') else (Ok tt, s')
  | r => r
  end.

(** A message that cannot be read is acknowledged and dropped. *)
Definition on_message {A} (o : outcome A) (k : A → M store unit) : M store unit :=
  match o with
  | Ok a => acknowledge (k a)
  | Err _ => mret tt
  | Panic w => lift (Panic w)
  end.

(** The JSON schema validator, a third-party library, on the schema embedded
    for a handler; [None] is a valid document, otherwise the text of the error
    or the joined messages of the result. *)
Class JsonSchema := { Validate : string → text → option string }.

Definition validateAndBind `{JsonSchema} (schema : string) (body : text) : outcome (gmap string json) :=
  match Validate schema body with
  | Some msg => Err (NewError PublicBadRequest msg)
  | None => unmarshal_map body
  end.

Section handlers.
Context (e : event) `{SqlEnv} `{JsonSchema}.

Definition mq_userDeleted (message : text) : M store unit :=
  on_message (getIDInNsqMsg message) (UserDeleted e).
Definition mq_userGroupDeleted (message : text) : M store unit :=
  on_message (getGroupDeleteParamsInNsqMsq message) (UserGroupDeleted e).
Definition mq_appDeleted (message : text) : M store unit :=
  on_message (getIDInNsqMsg message) (AppDeleted e).
(** [decode] is the third-party [jsoniter.Unmarshal] into the struct with one
    field [id]. *)
Definition mq_deptDelete (decode : text → outcome string) (message : text) : M store unit :=
  on_message (decode message) (DepartmentDeleted e).
Definition mq_updateOrgName (message : text) : M store unit :=
  on_message (getNameUpdateParamsInNsqMsg message) (λ '(id, name, orgType), OrgNameModified e id name orgType).
Definition mq_appNameModified (message : text) : M store unit :=
  on_message (getAppInfoInNsqMsg message) (AppNameModified e).

(** A type assertion that fails after validation stops the handler. *)
Definition mq_updateResourceName (message : text) : M store unit :=
  match validateAndBind "resource_name_modify" message with
  | Err _ => mret tt
  | Panic w => lift (Panic w)
  | Ok jsonV =>
      resourceID ← lift (assert_string (jget jsonV "id"));
      resourceType ← lift (assert_string (jget jsonV "type"));
      resourceName ← lift (assert_string (jget jsonV "name"));
      acknowledge (policy_UpdateResourceName resourceID resourceType resourceName)
  end.

Definition mq_updateResourceAncestors (message : text) : M store unit :=
  match validateAndBind "resource_ancestors_modify" message with
  | Err _ => mret tt
  | Panic w => lift (Panic w)
  | Ok jsonV =>
      resourceID ← lift (assert_string (jget jsonV "id"));
      resourceType ← lift (assert_string (jget jsonV "type"));
      ancestorsAny ← lift (assert_slice (jget jsonV "ancestors"));
      ancestors ← lift (omap_all (λ a,
        am ← assert_map a;
        id ← assert_string (jget am "id");
        type ← assert_string (jget am "type");
        name ← assert_string (jget am "name");
        Ok {| anc_ID := id; anc_Type := type; anc_Name := name |}) ancestorsAny);
      acknowledge (policy_UpdateResourceAncestors resourceID resourceType ancestors)
  end.
End handlers.

(** ** Facts *)
Lemma getIDInNsqMsg_spec message id :
  getIDInNsqMsg message = Ok id ↔ ∃ m, message = TJson (JObj m) ∧ m !! "id" = Some (JStr id).
Proof.
  unfold getIDInNsqMsg. split.
  - intros Hg. obind. destruct message as [j|]; [|done]. injection E as <-.
    destruct j as [| | | | |m]; try done. cbn [assert_map] in E1. injection E1 as <-. exists m. split; [done|].
    unfold jget in Hg. destruct (m !! "id") as [[| | |s| |]|]; try done. simpl in Hg. by injection Hg as ->.
  - intros (m & -> & Hm). simpl. rewrite Hm. simpl. unfold jget. by rewrite Hm.
Qed.

Lemma getIDInNsqMsg_total message : ∀ w, getIDInNsqMsg message ≠ Panic w.
Proof.
  intros w. unfold getIDInNsqMsg. destruct message as [[| | | | |m]|]; try done. simpl.
  unfold jget. destruct (m !! "id") as [[| | |s| |]|]; done.
Qed.

Lemma split_at_plain sep s : contains_char sep s = false → split_at sep s = [s].
Proof.
  induction s as [|c s IH]; simpl; [done|]. intros [Hc Hs]%orb_false_iff.
  apply bool_decide_eq_false in Hc. rewrite decide_False by done. by rewrite IH.
Qed.

Lemma needReTry_plain e : plain_error e → needReTry e = true.
Proof. intros Hp. unfold needReTry. by rewrite split_at_plain. Qed.
