(* ===== verification/RoleOps.v ===== *)
(** * Effects of role administration and of deletion events

    What deleting a role, a user, a department, a group or an application
    leaves in the tables, also when the database fails half-way, and what
    adding and removing members does. *)
From S2P Require Import Prelude Json Interfaces Common PolicyCalc Store PolicyDB Policy RoleDB Event Role RoleSpec Mq.

(** The tables no handler of a deletion touches. *)
Definition other_tables (s : store) :=
  (t_role s, t_obligation s, t_obligation_type s, t_resource_type s, t_resource_type_hierarchy s).

(** ** Deletion of an accessor *)

(** Nothing refers to the accessor any more, and nothing else changed. *)
Definition forgets (id : string) (s s' : store) : Prop :=
  t_role_member s' = filter (λ row, m_member_id row ≠ id) (t_role_member s) ∧
  t_policy s' = filter (λ row, p_accessor_id row ≠ id) (t_policy s) ∧
  other_tables s' = other_tables s.

(** A state on the way: each table is untouched or done. *)
Definition forgetting (id : string) (s s1 : store) : Prop :=
  (t_role_member s1 = t_role_member s ∨
   t_role_member s1 = filter (λ row, m_member_id row ≠ id) (t_role_member s)) ∧
  (t_policy s1 = t_policy s ∨ t_policy s1 = filter (λ row, p_accessor_id row ≠ id) (t_policy s)) ∧
  other_tables s1 = other_tables s.

Lemma filter_twice {A} (P : A → Prop) `{∀ x, Decision (P x)} (l : list A) : filter P (filter P l) = filter P l.
Proof. apply filter_all. by intros x [? _]%list_elem_of_filter. Qed.

Lemma forgetting_forgets id s s1 s' : forgetting id s s1 → forgets id s1 s' → forgets id s s'.
Proof.
  intros (Hm & Hp & Ho) (Hm' & Hp' & Ho'). split_and!; [| |congruence].
  - rewrite Hm'. by destruct Hm as [->| ->]; [|apply filter_twice].
  - rewrite Hp'. by destruct Hp as [->| ->]; [|apply filter_twice].
Qed.
Lemma forgetting_trans id s s1 s2 : forgetting id s s1 → forgetting id s1 s2 → forgetting id s s2.
Proof.
  intros (Hm & Hp & Ho) (Hm' & Hp' & Ho'). split_and!; [| |congruence].
  - destruct Hm as [Hm|Hm], Hm' as [Hm'|Hm']; rewrite Hm in Hm'; rewrite ?filter_twice in Hm'; auto.
  - destruct Hp as [Hp|Hp], Hp' as [Hp'|Hp']; rewrite Hp in Hp'; rewrite ?filter_twice in Hp'; auto.
Qed.

Section cascade.
Context `{SqlEnv}.

(** The handlers registered for the four kinds of accessor. *)
Definition cascade (id : string) : M store unit :=
  for_each (λ f, f id) [deleteMemberByMemberID; deletePolicyByAccessorID].

Lemma wired_cascade id :
  UserDeleted wired_event id = cascade id ∧ DepartmentDeleted wired_event id = cascade id ∧
  UserGroupDeleted wired_event id = cascade id ∧ AppDeleted wired_event id = cascade id.
Proof. done. Qed.

Lemma exec_fault label f s r s' :
  exec label f s = (r, s') → (r = Ok tt ∧ s' = f s) ∨ ∃ e, r = Err e ∧ sql_fault label = Some e ∧ s' = s.
Proof. unfold exec. destruct (sql_fault label) as [e|] eqn:E; intros [= <- <-]; eauto. Qed.

Lemma filter_not_in {A} (f : A → string) id (l : list A) :
  filter (λ row, f row ∉ [id]) l = filter (λ row, f row ≠ id) l.
Proof. apply list_filter_iff. intros x. set_solver. Qed.

Lemma cascade_cases id s r s' :
  cascade id s = (r, s') →
  (r = Ok tt ∧ forgets id s s') ∨
  ∃ e label, r = Err e ∧ sql_fault label = Some e ∧ forgetting id s s'.
Proof.
  intros Hc. unfold cascade in Hc. cbn [for_each] in Hc.
  assert (∀ s1, s1 = set_member (filter (λ row, m_member_id row ∉ [id])) s →
    t_role_member s1 = filter (λ row, m_member_id row ≠ id) (t_role_member s) ∧ t_policy s1 = t_policy s ∧
    other_tables s1 = other_tables s) as Hs1 by (intros s1 ->; simpl; by rewrite filter_not_in).
  mcase Hc.
  - apply exec_fault in E as [[_ Es]|(e & ? & _)]; [|done]. destruct (Hs1 _ Es) as (Hm & Hp & Ho).
    mcase Hc.
    + injection Hc as <- <-. apply exec_fault in E as [[_ ->]|(e & ? & _)]; [|done]. left. split; [done|].
      split_and!; simpl; [done|by rewrite filter_not_in, Hp|done].
    + apply exec_fault in E as [[? _]|(e & [= ->] & Hf & ->)]; [done|]. right. exists e, "policy.DeleteByAccessorIDs".
      split_and!; [done|done|]. by split_and!; [right|left|].
    + by apply exec_fault in E as [[? _]|(e & ? & _)].
  - apply exec_fault in E as [[? _]|(e & [= ->] & Hf & ->)]; [done|]. right. exists e, "roleMember.DeleteByMemberIDs".
    split_and!; [done|done|]. by split_and!; [left|left|].
  - by apply exec_fault in E as [[? _]|(e & ? & _)].
Qed.
End cascade.

(** Every database error is a driver error. *)
Definition driver_errors (env : SqlEnv) : Prop := ∀ label e, sql_fault label = Some e → plain_error e.

(** A message is delivered until the handler returns [nil]; each attempt meets
    its own database faults. *)
Inductive delivery (handler : SqlEnv → M store unit) : store → store → Prop :=
| acknowledged env s s' :
    driver_errors env → handler env s = (Ok tt, s') → delivery handler s s'
| redelivered env s e s1 s' :
    driver_errors env → handler env s = (Err e, s1) → delivery handler s1 s' → delivery handler s s'.

Lemma acknowledge_cascade (env : SqlEnv) id s r s' :
  driver_errors env → acknowledge (cascade id) s = (r, s') →
  (r = Ok tt ∧ forgets id s s') ∨ (∃ e, r = Err e ∧ forgetting id s s').
Proof.
  intros He Ha. unfold acknowledge in Ha. destruct (cascade id s) as [r1 s1] eqn:Ec.
  apply cascade_cases in Ec as [[-> Hf]|(e & label & -> & Hl & Hf)].
  - injection Ha as <- <-. by left.
  - rewrite needReTry_plain in Ha by (by eapply He). injection Ha as <- <-. right. eauto.
Qed.

Lemma delivery_forgets handler id s s' :
  (∀ env, handler env = acknowledge (@cascade env id)) → delivery handler s s' → forgets id s s'.
Proof.
  intros Hh Hd. induction Hd as [env s s' He Hr|env s e s1 s' He Hr _ IH]; rewrite Hh in Hr;
    apply (acknowledge_cascade env) in Hr as [[? Hf]|(e' & ? & Hf)]; try done.
  by eapply forgetting_forgets.
Qed.

Lemma cascade_fault_free (env : SqlEnv) id s :
  (∀ label, @sql_fault env label = None) → ∃ s', acknowledge (cascade id) s = (Ok tt, s').
Proof.
  intros Hf. unfold acknowledge. destruct (cascade id s) as [r s'] eqn:Ec.
  apply cascade_cases in Ec as [[-> _]|(e & label & _ & Hl & _)]; [by eexists|]. by rewrite Hf in Hl.
Qed.

(** C28. A message "user, group, application or department deleted" is
    acknowledged by every attempt that meets no database fault, whatever the
    attempts before left; and once it is acknowledged, after however many
    failed attempts, no role membership and no policy refers to the accessor
    and nothing else has changed. *)
Theorem deletion_messages_converge message id decode handler s :
  getIDInNsqMsg message = Ok id → decode message = Ok id →
  handler ∈ [λ env, mq_userDeleted wired_event message; λ env, mq_userGroupDeleted wired_event message;
             λ env, mq_appDeleted wired_event message; λ env, mq_deptDelete wired_event decode message] →
  (∀ env s1, (∀ label, @sql_fault env label = None) → ∃ s', handler env s1 = (Ok tt, s')) ∧
  (∀ s', delivery handler s s' → forgets id s s').
Proof.
  intros Hm Hdec Hh. assert (∀ env, handler env = acknowledge (@cascade env id)) as Heq.
  { intros env.
    unfold mq_userDeleted, mq_userGroupDeleted, mq_appDeleted, mq_deptDelete, getGroupDeleteParamsInNsqMsq in Hh.
    rewrite Hm, Hdec in Hh. simpl in Hh.
    repeat (apply elem_of_cons in Hh as [->|Hh]; [reflexivity|]). by apply elem_of_nil in Hh. }
  split.
  - intros env s1 Hf. rewrite Heq. by apply cascade_fault_free.
  - intros s' Hd. by eapply delivery_forgets.
Qed.

(** ** Deleting a role *)
Section delete_role.
Context `{GoRuntime} `{DrivenUserMgnt}.

Lemma wired_RoleDeleted_eq `{SqlEnv} id :
  RoleDeleted wired_event id = (_ ← deletePolicyByAccessorID id; mret tt).
Proof. done. Qed.

(** A successful [DeleteRole] of an existing role removes the role, its
    memberships and the policies granted to it, and nothing else; deleting a
    role that does not exist changes nothing. *)
Lemma DeleteRole_effect `{SqlEnv} visitor id s s' :
  Forall (λ row, r_id row ≠ "") (t_role s) →
  role_DeleteRole wired_event visitor id s = (Ok tt, s') →
  (id ∈ r_id <$> t_role s →
     t_role s' = filter (λ row, r_id row ≠ id) (t_role s) ∧
     t_role_member s' = filter (λ row, m_role_id row ≠ id) (t_role_member s) ∧
     t_policy s' = filter (λ row, p_accessor_id row ≠ id) (t_policy s) ∧
     (t_obligation s', t_obligation_type s', t_resource_type s', t_resource_type_hierarchy s') =
     (t_obligation s, t_obligation_type s, t_resource_type s, t_resource_type_hierarchy s)) ∧
  (id ∉ r_id <$> t_role s → s' = s).
Proof.
  intros Hne Hd. unfold role_DeleteRole in Hd. obind.
  match goal with Hg : roleDB_GetRoleByID _ _ = Ok _ |- _ =>
    apply GetRoleByID_spec in Hg as [[Hz Hout]|(Hid & Hidne & Hin)]; [| |done] end.
  - rewrite bool_decide_eq_true_2 in Hd by done. injection Hd as <-. done.
  - rewrite Hid, bool_decide_eq_false_2 in Hd by done. obind. split; [intros _|done].
    match goal with Hx : roleDB_DeleteRole _ _ = (Ok _, _), Hy : memberDB_DeleteByRoleID _ _ = (Ok _, _) |- _ =>
      apply exec_fault in Hx as [[_ ->]|(? & ? & _)]; [|done];
      apply exec_fault in Hy as [[_ ->]|(? & ? & _)]; [|done] end.
    rewrite wired_RoleDeleted_eq in Hd. apply M_bind_Ok in Hd as ([] & s3 & Hp & [= <-]).
    apply exec_fault in Hp as [[_ ->]|(? & ? & _)]; [|done]. simpl. by rewrite filter_not_in.
Qed.

(** [DeleteRole] is neither transactional nor repeatable: when the
    statement that removes the memberships fails, the role is gone but its
    memberships and policies stay, and calling it again succeeds without
    removing them. *)
Theorem DeleteRole_retry_leaves_orphans (env env' : SqlEnv) visitor id info e s :
  Forall (λ row, r_id row ≠ "") (t_role s) → id ∈ r_id <$> t_role s →
  role_checkVisitorType visitor = Ok tt → @roleDB_GetRoleByID _ env s id = Ok info →
  @sql_fault env "role.DeleteRole" = None → @sql_fault env "roleMember.DeleteByRoleID" = Some e →
  @sql_fault env' "role.GetRoleByID" = None →
  ∃ s1, @role_DeleteRole _ _ env (@wired_event env) visitor id s = (Err e, s1) ∧
    t_role s1 = filter (λ row, r_id row ≠ id) (t_role s) ∧
    t_role_member s1 = t_role_member s ∧ t_policy s1 = t_policy s ∧
    @role_DeleteRole _ _ env' (@wired_event env') visitor id s1 = (Ok tt, s1).
Proof.
  intros Hne Hin Hv Hg Hf1 Hf2 Hf'.
  destruct (GetRoleByID_spec _ _ _ Hne Hg) as [[_ Hout]|(Hid & Hidne & _)]; [done|].
  exists (set_role (filter (λ row, r_id row ≠ id)) s). split_and!; [|done..|].
  - unfold role_DeleteRole. rewrite (M_bind_unfold _ _ _ tt s) by (by rewrite lift_eq, Hv).
    rewrite (M_bind_unfold _ _ _ info s) by (by rewrite reads_eq, Hg).
    rewrite Hid, bool_decide_eq_false_2 by done.
    rewrite (M_bind_unfold _ _ _ tt (set_role (filter (λ row, r_id row ≠ id)) s)).
    2:{ unfold roleDB_DeleteRole, exec. by rewrite Hf1. }
    apply M_bind_Err. unfold memberDB_DeleteByRoleID, exec. by rewrite Hf2.
  - unfold role_DeleteRole. rewrite (M_bind_unfold _ _ _ tt (set_role (filter (λ row, r_id row ≠ id)) s)) by (by rewrite lift_eq, Hv).
    rewrite (M_bind_unfold _ _ _ RoleInfo_zero (set_role (filter (λ row, r_id row ≠ id)) s)); [done|].
    rewrite reads_eq. unfold roleDB_GetRoleByID, stmt. rewrite Hf'. simpl.
    rewrite (filter_none _ (filter _ _)); [|by intros row [? _]%list_elem_of_filter].
    by rewrite (proj1 (Permutation_nil_r _) (range_order_perm 51 _ [])).
Qed.
End delete_role.
