(* ===== verification/RoleAdmin.v ===== *)
(** * Creating and changing roles and their members

    What a successful [AddRole], [ModifyRole], [AddRoleMembers] or
    [DeleteRoleMembers] means for the request, the visitor and the tables. *)
From S2P Require Import Prelude Json Interfaces Common PolicyCalc Store PolicyDB Policy RoleDB Event Role RoleSpec RoleOps.

(** ** The checks *)
Lemma checkName_Ok name :
  checkName name = Ok tt ↔
  1 ≤ RuneCountInString name ≤ 128 ∧ ∀ c, c ∈ illegalChars → contains_char c name = false.
Proof.
  unfold checkName. rewrite fail_if_Ok, !orb_false_iff, Nat.ltb_ge, Nat.ltb_ge. unfold ContainsAny.
  split.
  - intros [[Hc ?] ?]. split; [lia|]. intros c Hin. destruct (contains_char c name) eqn:E; [|done].
    assert (existsb (λ c, contains_char c name) illegalChars = true) as Ht; [|by rewrite Hc in Ht].
    apply existsb_exists. exists c. by rewrite <-list_elem_of_In.
  - intros [? Hc]. split_and!; [|lia|lia]. apply not_true_is_false. intros (c & Hin & E)%existsb_exists.
    rewrite <-list_elem_of_In in Hin. by rewrite Hc in E.
Qed.

Section checks.
Context `{DrivenUserMgnt} `{LogicsResourceType}.

(** A super, system or security administrator. *)
Definition is_admin (visitor : Visitor) : Prop :=
  vis_Type visitor = RealName ∧ ∃ roles r, GetUserRolesByUserID (vis_ID visitor) = Ok roles ∧
    r ∈ roles ∧ r ∈ [SuperAdmin; SystemAdmin; SecurityAdmin].

Lemma role_checkVisitorType_Ok visitor : role_checkVisitorType visitor = Ok tt ↔ is_admin visitor.
Proof.
  unfold role_checkVisitorType, is_admin. destruct (vis_Type visitor) eqn:Ev; simpl.
  - destruct (GetUserRolesByUserID (vis_ID visitor)) as [roles| |] eqn:Er; simpl.
    + rewrite checkVisitorType_admin. split.
      * intros (_ & r & Hr & Hin). split; [done|]. by exists roles, r.
      * intros (_ & roles' & r & [= <-] & Hr & Hin). by eauto.
    + split; [done|]. by intros (_ & ? & ? & ? & _).
    + split; [done|]. by intros (_ & ? & ? & ? & _).
  - rewrite checkVisitorType_admin, Ev. split; by intros [? _].
  - rewrite checkVisitorType_admin, Ev. split; by intros [? _].
  - rewrite checkVisitorType_admin, Ev. split; by intros [? _].
Qed.

Lemma scope_ids_loop (types : list ResourceTypeScope) (m : gmap string bool) ids r :
  (∀ k, is_Some (m !! k) ↔ k ∈ ids) → NoDup ids →
  ofold (λ (acc : gmap string bool * list string) v,
    let '(checkDupMap, resourceTypeIDs) := acc in
    _ ← fail_if (bool_decide (rts_ResourceTypeID v = "")) (NewError PublicBadRequest "resource_type_scope is empty");
    _ ← fail_if (bool_decide (is_Some (checkDupMap !! rts_ResourceTypeID v)))
          (NewError PublicBadRequest "resource_type_scope is duplicate");
    Ok (<[rts_ResourceTypeID v := true]> checkDupMap, resourceTypeIDs ++ [rts_ResourceTypeID v])) (m, ids) types = Ok r →
  r.2 = ids ++ (rts_ResourceTypeID <$> types) ∧ NoDup (ids ++ (rts_ResourceTypeID <$> types)) ∧
  ∀ t, t ∈ types → rts_ResourceTypeID t ≠ "".
Proof.
  revert m ids. induction types as [|t types IH]; intros m ids Hm Hnd; csimpl.
  - intros [= <-]. rewrite app_nil_r. split_and!; [done|done|by intros t ?%elem_of_nil].
  - intros Hb. apply bind_Ok in Hb as (acc & Hb & Hl). apply bind_Ok in Hb as ([] & E%fail_if_Ok & Hb).
    apply bind_Ok in Hb as ([] & E0%fail_if_Ok & [= <-]). rewrite bool_decide_eq_false in E, E0.
    apply IH in Hl as (Hr & Hnd' & Hne).
    + rewrite <-app_assoc in Hr, Hnd'. split_and!; [done|done|]. intros t' [->|Ht]%elem_of_cons; auto.
    + intros k. rewrite lookup_insert_is_Some', Hm. set_solver.
    + apply NoDup_app. split_and!; [done| |apply NoDup_singleton]. intros x Hx ->%list_elem_of_singleton.
      apply E0. by apply Hm.
Qed.

(** The scope that is stored: no limit, or the requested types that exist. *)
Lemma checkAndFilter_Ok info scope :
  checkAndFilterResourceTypeScopeInfo info = Ok scope →
  if rtsi_Unlimited info then scope = {| rtsi_Unlimited := true; rtsi_Types := None |}
  else rtsi_Unlimited scope = false ∧ NoDup (rts_ResourceTypeID <$> rtsi_types info) ∧
    (∀ t, t ∈ rtsi_types info → rts_ResourceTypeID t ≠ "") ∧
    ∃ m : gmap string ResourceType,
      (rtsi_types info ≠ [] → GetByIDsInternal (rts_ResourceTypeID <$> rtsi_types info) = Ok m) ∧
      rtsi_types scope = filter (λ t, is_Some (m !! rts_ResourceTypeID t)) (rtsi_types info).
Proof.
  unfold checkAndFilterResourceTypeScopeInfo. destruct (rtsi_Unlimited info); [by intros [= <-]|].
  intros Hb. apply bind_Ok in Hb as ([dups ids] & Hl & Hb). apply scope_ids_loop in Hl as (Hr & Hnd & Hne);
    [|intros k; rewrite lookup_empty; set_solver|constructor]. simpl in Hr, Hnd. subst ids.
  rewrite length_fmap in Hb. destruct (rtsi_types info) as [|t ts] eqn:Et.
  - simpl in Hb. injection Hb as <-. split_and!; try done. by exists ∅.
  - simpl in Hb. apply bind_Ok in Hb as (m & Hm & Hb). injection Hb as <-. split_and!; try done.
    exists m. split; [done|]. unfold rtsi_types. simpl. case_bool_decide as E; [by rewrite E|done].
Qed.
End checks.

Section admin.
Context `{GoRuntime} `{DrivenUserMgnt} `{LogicsResourceType} `{SqlEnv}.

(** A successful [AddRole] was asked by an administrator, for a legal
    name that no role has, and adds exactly one role: with a new id, created
    by a user, with the requested types that exist as its scope; reading it
    back gives the request. *)
Theorem AddRole_effect visitor role s id s' :
  Forall (λ row, r_id row ≠ "") (t_role s) → role_AddRole visitor role s = (Ok id, s') →
  is_admin visitor ∧
  (1 ≤ RuneCountInString (role_Name role) ≤ 128 ∧
   ∀ c, c ∈ illegalChars → contains_char c (role_Name role) = false) ∧
  (role_Name role ∉ r_name <$> t_role s) ∧
  ∃ scope row, checkAndFilterResourceTypeScopeInfo (role_Scope role) = Ok scope ∧
    t_role s' = t_role s ++ [row] ∧ id = uuid (seq_uuid s) ∧
    scanRole row = Ok {| role_ID := id; role_Name := role_Name role; role_Description := role_Description role;
      role_Source := RoleSourceUser; role_Scope := stored_scope scope;
      role_CreateTime := curTime; role_ModifyTime := curTime |} ∧
    t_policy s' = t_policy s ∧ t_role_member s' = t_role_member s.
Proof.
  intros Hne Ha. unfold role_AddRole in Ha.
  mstep Ha as [] Hv. mstep Ha as [] Hc. mstep Ha as info Hg. mstep Ha as [] Hn%fail_if_Ok. mstep Ha as scope Hs.
  mstep Ha as id' Hu. injection Hu as <- <-. mstep Ha as [] Hadd. injection Ha as <- <-.
  apply GetRoleByName_spec in Hg as [[_ Hout]|[Hsome _]]; [| |done].
  2:{ by rewrite negb_false_iff, bool_decide_eq_true in Hn. }
  apply exec_fault in Hadd as [[_ ->]|(? & ? & _)]; [|done].
  split; [by apply role_checkVisitorType_Ok|]. split; [by apply checkName_Ok|]. split; [done|].
  eexists scope, _. split_and!; [done|reflexivity|done| |done|done].
  unfold scanRole. cbn [newRoleRow r_resource_scope role_Scope]. by rewrite scope_round_trip.
Qed.

(** ** Changing a role *)

(** Policies carry the current name of the role they are granted to. *)
Definition role_names_agree (s : store) : Prop :=
  ∀ row p, row ∈ t_role s → p ∈ t_policy s → p_accessor_id p = r_id row → p_accessor_name p = r_name row.

Lemma wired_RoleNameModified_eq id name :
  RoleNameModified wired_event id name = (_ ← updatePolicyAccessorName id name; mret tt).
Proof. done. Qed.

(** A successful [ModifyRole] was asked by an administrator for an
    existing role, under a name no other role has; it changes the requested
    columns of that role only, and the policies granted to it keep carrying
    its name. *)
Theorem ModifyRole_effect visitor id name nc d dc sc scc s s' :
  Forall (λ row, r_id row ≠ "") (t_role s) → role_names_agree s →
  role_ModifyRole wired_event visitor id name nc d dc sc scc s = (Ok tt, s') →
  is_admin visitor ∧ id ∈ r_id <$> t_role s ∧
  (∃ scopes, (scc = true → checkAndFilterResourceTypeScopeInfo sc = Ok scopes) ∧
     t_role s' = modifyRow id name nc d dc scopes scc <$> t_role s) ∧
  t_role_member s' = t_role_member s ∧
  p_operation <$> t_policy s' = p_operation <$> t_policy s ∧
  role_names_agree s'.
Proof.
  intros Hne Hagree Hm. unfold role_ModifyRole in Hm.
  mstep Hm as [] Hv. mstep Hm as info Hg. mstep Hm as [] Hex%fail_if_Ok. mstep Hm as [] Hn. mstep Hm as scopes Hs.
  mstep Hm as [] Hup. apply exec_fault in Hup as [[_ ->]|(? & ? & _)]; [|done].
  rewrite bool_decide_eq_false in Hex.
  apply GetRoleByID_spec in Hg as [[? _]|(_ & _ & Hin)]; [done| |done].
  split; [by apply role_checkVisitorType_Ok|]. split; [done|].
  assert (∀ row, r_id (modifyRow id name nc d dc scopes scc row) = r_id row ∧
    r_name (modifyRow id name nc d dc scopes scc row) =
    if bool_decide (r_id row = id ∧ nc = true) then name else r_name row) as Hrow.
  { intros row. by rewrite modifyRow_id, modifyRow_name. }
  destruct nc.
  - rewrite wired_RoleNameModified_eq in Hm. mstep Hm as [] Hp. injection Hm as <-.
    apply exec_fault in Hp as [[_ ->]|(? & ? & _)]; [|done].
    split; [by exists scopes; split; [by intros ->|]|]. split; [done|]. split.
    + simpl. rewrite <-list_fmap_compose. apply list_fmap_ext. intros i p _. simpl. by case_bool_decide.
    + intros row p (row0 & -> & Hr)%list_elem_of_fmap (p0 & -> & Hp)%list_elem_of_fmap.
      destruct (Hrow row0) as [-> ->]. specialize (Hagree row0 p0 Hr Hp).
      repeat case_bool_decide; simpl; naive_solver.
  - injection Hm as <-. split; [exists scopes; split; [by intros ->|done]|]. split; [done|]. split; [done|].
    intros row p (row0 & -> & Hr)%list_elem_of_fmap Hp. destruct (Hrow row0) as [-> ->].
    rewrite bool_decide_eq_false_2 by naive_solver. by apply Hagree.
Qed.
End admin.

(** ** Members *)
Section members.
Context `{GoRuntime} `{DrivenUserMgnt} `{SqlEnv}.

Abbreviation membership := (λ row, (m_role_id row, m_member_id row)).

Lemma newMemberRow_pairs roleID n infos :
  membership <$> imap (λ i info, newMemberRow roleID (n + Z.of_nat i) info) infos =
  (λ info, (roleID, rm_ID info)) <$> infos.
Proof. rewrite fmap_imap. apply (imap_const (λ info, (roleID, rm_ID info))). Qed.

Lemma memberIDSet_lookup members id : memberIDSet members !! id = None ↔ id ∉ rm_ID <$> members.
Proof.
  unfold memberIDSet. rewrite <-mget_set_of. unfold mget.
  assert (∀ b, set_of (rm_ID <$> members) !! id = Some b → b = true) as Hb.
  { unfold set_of. generalize (∅ : gmap string bool) (lookup_empty (M := gmap string) (A := bool) id).
    induction (rm_ID <$> members) as [|x l IH]; simpl; intros m Hm b; [by rewrite Hm|].
    destruct (decide (x = id)) as [->|]; [|by apply IH; rewrite lookup_insert_ne].
    clear IH Hm. assert (∀ m : gmap string bool, m !! id = Some true →
      foldl (λ m k, <[k := true]> m) m l !! id = Some true) as Hg.
    { induction l as [|y l IH]; intros m' Hm'; simpl; [done|]. apply IH. rewrite lookup_insert. by case_decide. }
    rewrite Hg by apply lookup_insert_eq. by intros [= <-]. }
  destruct (set_of (rm_ID <$> members) !! id) as [b|] eqn:E; simpl; [|done].
  rewrite (Hb b eq_refl). naive_solver.
Qed.

(** The members of a role, as both calls read them. *)
Lemma GetRoleMembers_ids s roleID members :
  memberDB_GetRoleMembersByRoleID s roleID = Ok members →
  ∀ id, id ∈ rm_ID <$> members ↔ (roleID, id) ∈ membership <$> t_role_member s.
Proof.
  intros Hg id. apply stmt_Ok in Hg. injection Hg as <-. rewrite <-list_fmap_compose, !list_elem_of_fmap.
  split.
  - intros (row & -> & Hr). apply elem_of_range_order, list_elem_of_filter in Hr as [<- Hr]. by exists row.
  - intros (row & [= -> ->] & Hr). exists row. split; [done|]. apply elem_of_range_order. by apply list_elem_of_filter.
Qed.

(** A successful [AddRoleMembers] was asked by an administrator for an
    existing role; afterwards exactly the old members and the requested ones
    are members, nobody twice, and every other membership is as before. *)
Theorem AddRoleMembers_effect visitor roleID (infos : gmap string RoleMemberInfo) s s' :
  Forall (λ row, r_id row ≠ "") (t_role s) → (∀ k m, infos !! k = Some m → rm_ID m = k) →
  NoDup (membership <$> t_role_member s) →
  role_AddRoleMembers visitor roleID infos s = (Ok tt, s') →
  is_admin visitor ∧ roleID ∈ r_id <$> t_role s ∧
  NoDup (membership <$> t_role_member s') ∧
  (∀ role id, (role, id) ∈ membership <$> t_role_member s' ↔
     (role, id) ∈ membership <$> t_role_member s ∨ (role = roleID ∧ is_Some (infos !! id))) ∧
  t_role s' = t_role s ∧ t_policy s' = t_policy s.
Proof.
  intros Hne Hkeys Hnd Ha. unfold role_AddRoleMembers in Ha.
  mstep Ha as [] Hv. mstep Ha as info Hg. mstep Ha as [] Hex%fail_if_Ok. mstep Ha as old Hold.
  rewrite bool_decide_eq_false in Hex.
  apply GetRoleByID_spec in Hg as [[? _]|(_ & _ & Hin)]; [done| |done].
  split; [by apply role_checkVisitorType_Ok|]. split; [done|].
  pose proof (GetRoleMembers_ids _ _ _ Hold) as Hids.
  set (new := filter _ _) in *.
  assert (∀ m, m ∈ new ↔ infos !! rm_ID m = Some m ∧ (roleID, rm_ID m) ∉ membership <$> t_role_member s) as Hnew.
  { intros m. unfold new. rewrite list_elem_of_filter, memberIDSet_lookup, Hids, (list_elem_of_fmap snd). split.
    - intros (Hout & [k m'] & -> & Hm). apply elem_of_range in Hm. simpl in *. by pose proof (Hkeys k m' Hm) as <-.
    - intros (Hm & Hout). split; [done|]. exists (rm_ID m, m). split; [done|]. by apply elem_of_range. }
  assert (NoDup (rm_ID <$> new)) as Hndn.
  { unfold new. apply NoDup_fmap_filter. rewrite <-list_fmap_compose.
    rewrite (list_fmap_ext _ fst (range 57 infos)); [apply NoDup_fst_range|].
    intros i [k m] Hl. apply list_elem_of_lookup_2, elem_of_range in Hl. simpl. by apply Hkeys. }
  assert (∀ rows, membership <$> rows = (λ m, (roleID, rm_ID m)) <$> new →
    NoDup (membership <$> (t_role_member s ++ rows)) ∧
    ∀ role id, (role, id) ∈ membership <$> (t_role_member s ++ rows) ↔
      (role, id) ∈ membership <$> t_role_member s ∨ (role = roleID ∧ is_Some (infos !! id))) as Hfinal.
  { intros rows Hrows. rewrite fmap_app, Hrows. split.
    - apply NoDup_app. split_and!; [done| |].
      + intros x Hx (m & -> & Hm)%list_elem_of_fmap. by apply Hnew in Hm as [_ ?].
      + change ((λ m, (roleID, rm_ID m)) <$> new) with ((pair roleID ∘ rm_ID) <$> new).
        rewrite list_fmap_compose. apply NoDup_fmap_2; [by intros ?? [= ]|done].
    - intros role id. rewrite elem_of_app, (list_elem_of_fmap _ new). split.
      + intros [?|(m & [= -> ->] & Hm)]; [by left|]. apply Hnew in Hm as [Hm _]. eauto.
      + intros [?|[-> [m Hm]]]; [by left|]. pose proof (Hkeys id m Hm) as <-.
        destruct (decide ((roleID, rm_ID m) ∈ membership <$> t_role_member s)); [by left|].
        right. exists m. split; [done|]. by apply Hnew. }
  destruct (length new =? 0) eqn:El.
  - injection Ha as <-. apply Nat.eqb_eq, length_zero_iff_nil in El.
    destruct (Hfinal []) as [Hn He]; [by rewrite El|]. rewrite app_nil_r in Hn, He. done.
  - mstep Ha as names Hnames. unfold memberDB_AddRoleMembers in Ha. rewrite bool_decide_eq_false_2 in Ha.
    2:{ rewrite length_fmap. intros E. by rewrite E in El. }
    apply exec_fault in Ha as [[_ ->]|(? & ? & _)]; [|done]. simpl.
    destruct (Hfinal (imap (λ i info, newMemberRow roleID (seq_primary s + Z.of_nat i) info)
      ((λ temp, rm_set_Name (default "" (names !! rm_ID temp)) temp) <$> new))) as [Hn He]; [|done].
    rewrite newMemberRow_pairs, <-list_fmap_compose. done.
Qed.

(** A successful [DeleteRoleMembers] was asked by an administrator for an
    existing role and removes exactly the requested memberships of it. *)
Theorem DeleteRoleMembers_effect visitor roleID (infos : gmap string RoleMemberInfo) s s' :
  Forall (λ row, r_id row ≠ "") (t_role s) → (∀ k m, infos !! k = Some m → rm_ID m = k) →
  role_DeleteRoleMembers visitor roleID infos s = (Ok tt, s') →
  is_admin visitor ∧ roleID ∈ r_id <$> t_role s ∧
  t_role_member s' = filter (λ row, ¬ (m_role_id row = roleID ∧ is_Some (infos !! m_member_id row))) (t_role_member s) ∧
  t_role s' = t_role s ∧ t_policy s' = t_policy s.
Proof.
  intros Hne Hkeys Hd. unfold role_DeleteRoleMembers in Hd.
  mstep Hd as [] Hv. mstep Hd as info Hg. mstep Hd as [] Hex%fail_if_Ok. rewrite bool_decide_eq_false in Hex.
  apply GetRoleByID_spec in Hg as [[? _]|(_ & _ & Hin)]; [done| |done].
  split; [by apply role_checkVisitorType_Ok|]. split; [done|].
  assert (∀ id, id ∈ rm_ID <$> (range 58 infos).*2 ↔ is_Some (infos !! id)) as Hids.
  { intros id. rewrite <-list_fmap_compose, list_elem_of_fmap. split.
    - intros ([k m] & -> & Hm). apply elem_of_range in Hm. simpl. rewrite (Hkeys k m Hm). eauto.
    - intros [m Hm]. exists (id, m). split; [symmetry; by apply Hkeys|by apply elem_of_range]. }
  unfold memberDB_DeleteRoleMembers in Hd. case_bool_decide as E.
  - injection Hd as <-. split; [|done]. symmetry. apply filter_all. intros row _ [_ Hs].
    apply Hids in Hs. rewrite E in Hs. by apply elem_of_nil in Hs.
  - apply exec_fault in Hd as [[_ ->]|(? & ? & _)]; [|done]. simpl. split; [|done].
    apply list_filter_iff. intros row. by rewrite Hids.
Qed.
End members.
