(* ===== verification/RoleQuery.v ===== *)
(** * Queries on roles

    The identities a user acts under, read from the membership table; the
    roles of a user; the page of a role list. *)
From S2P Require Import Prelude Json Interfaces Common PolicyCalc Store PolicyDB Listings Policy RoleDB Event Role RoleSpec.

(** ** Sorting and paging *)

(** The comparison "not greater" of a total preorder, as [sort.Slice] wants
    it. *)
Lemma strict_weak_of_key {A} (key : A → list Z) : strict_weak (λ a b, negb (lex_le (key b) (key a))).
Proof.
  split.
  - intros a. rewrite negb_false_iff. by destruct (lex_le_total (key a) (key a)).
  - intros a b c Hab Hbc. rewrite negb_true_iff in *. apply not_true_is_false. intros Hca.
    destruct (lex_le_total (key a) (key b)) as [Hle|Hle]; [|by rewrite Hle in Hab].
    rewrite (lex_le_trans _ _ _ Hca Hle) in Hbc. done.
  - intros a b c Hab Hbc. rewrite negb_false_iff in *. by eapply lex_le_trans.
Qed.

Definition role_sort_key (order : gmap string Z) (r : RoleInfo) : list Z :=
  match order !! role_ID r with Some o => [0; o] | None => [1; (- role_ModifyTime r)] end%Z.

Lemma role_before_key order a b :
  role_before order a b = negb (lex_le (role_sort_key order b) (role_sort_key order a)).
Proof.
  unfold role_before, role_sort_key, later_modified.
  destruct (order !! role_ID a), (order !! role_ID b); simpl; try done.
  - destruct (Z.ltb_spec z z0), (Z.ltb_spec z0 z), (Z.eqb_spec z0 z); simpl; try done; lia.
  - destruct (Z.ltb_spec (role_ModifyTime b) (role_ModifyTime a)),
      (Z.ltb_spec (- role_ModifyTime b) (- role_ModifyTime a)),
      (Z.eqb_spec (- role_ModifyTime b) (- role_ModifyTime a)); simpl; try done; lia.
Qed.

Lemma role_before_strict_weak order : strict_weak (role_before order).
Proof.
  pose proof (strict_weak_of_key (role_sort_key order)) as [Hi Ht Hc].
  split; intros *; rewrite !role_before_key; [apply Hi|apply Ht|apply Hc].
Qed.

(** The clamped page never indexes out of range. *)
Lemma clampedPage_total {T} (l : list T) offset limit : ∃ page, clampedPage l offset limit = Ok page.
Proof.
  unfold clampedPage. case_match; [eauto|]. generalize (int64_wrap (offset + limit)) as stop. intros stop.
  set (n := Z.of_nat (length l)). eexists. apply go_slice_Ok.
  - destruct (Z.ltb_spec n offset), (Z.ltb_spec n stop); repeat case_match; lia.
  - destruct (Z.ltb_spec n offset), (Z.ltb_spec n stop); repeat case_match; lia.
Qed.

Lemma clampedPage_nil {T} offset limit (page : list T) : clampedPage [] offset limit = Ok page → page = [].
Proof.
  unfold clampedPage. case_match; [by intros [= <-]|]. set (start := if (_ <? 0)%Z then _ else _).
  set (stop := if (_ <? start)%Z then _ else _). unfold go_slice. case_match; [|done]. intros [= <-].
  by rewrite drop_nil, take_nil.
Qed.

Lemma clampedPage_page {T} (l : list T) offset limit :
  (0 ≤ offset)%Z → (0 ≤ limit)%Z → (offset + limit < 2 ^ 63)%Z →
  clampedPage l offset limit = Ok (take (Z.to_nat limit) (drop (Z.to_nat offset) l)).
Proof.
  intros Ho Hl Hs. unfold clampedPage. rewrite (proj2 (Z.eqb_neq _ _)) by lia. rewrite int64_wrap_small by lia.
  set (n := Z.of_nat (length l)). unfold go_slice.
  destruct (Z.ltb_spec n offset), (Z.ltb_spec n (offset + limit)); try lia.
  - rewrite (proj2 (Z.ltb_ge n 0)), Z.ltb_irrefl by lia. rewrite !(proj2 (Z.leb_le _ _)) by lia. simpl.
    rewrite (drop_ge l (Z.to_nat offset)) by lia. rewrite drop_ge by lia. by rewrite !take_nil.
  - rewrite (proj2 (Z.ltb_ge offset 0)) by lia. rewrite (proj2 (Z.ltb_ge n offset)) by lia.
    rewrite !(proj2 (Z.leb_le _ _)) by lia. simpl. f_equal.
    rewrite !take_ge by (rewrite length_drop; lia). done.
  - rewrite (proj2 (Z.ltb_ge offset 0)) by lia. rewrite (proj2 (Z.ltb_ge (offset + limit) offset)) by lia.
    rewrite !(proj2 (Z.leb_le _ _)) by lia. simpl. do 2 f_equal. lia.
Qed.

(** ** Filtering by source *)
Definition wanted (sources : list RoleSource) (r : RoleInfo) : Prop :=
  role_Source r ∈ [RoleSourceSystem; RoleSourceBusiness; RoleSourceUser] ∧ role_Source r ∈ sources.

Lemma keepSources_spec sources roles :
  (∀ r r', r ∈ roles → r' ∈ roles → role_ID r = role_ID r' → r = r') →
  NoDup (role_ID <$> keepSources sources roles) ∧
  ∀ r, r ∈ keepSources sources roles ↔ r ∈ roles ∧ wanted sources r.
Proof.
  unfold keepSources.
  assert (∀ l acc (m : gmap string bool),
    (∀ r r', r ∈ acc ++ l → r' ∈ acc ++ l → role_ID r = role_ID r' → r = r') →
    (∀ k, is_Some (m !! k) ↔ k ∈ role_ID <$> acc) → NoDup (role_ID <$> acc) → (∀ r, r ∈ acc → wanted sources r) →
    let out := (foldl (λ (p : list RoleInfo * gmap string bool) role,
      let '(tmpRoles, dupMap) := p in
      if bool_decide (is_Some (dupMap !! role_ID role)) then p
      else if bool_decide (role_Source role ∈ [RoleSourceSystem; RoleSourceBusiness; RoleSourceUser] ∧
                           role_Source role ∈ sources)
      then (tmpRoles ++ [role], <[role_ID role := true]> dupMap) else p) (acc, m) l).1 in
    NoDup (role_ID <$> out) ∧ ∀ r, r ∈ out ↔ (r ∈ acc ∨ r ∈ l) ∧ wanted sources r) as Hgen.
  { induction l as [|role l IH]; intros acc m Hinj Hm Hnd Hw; simpl.
    { split; [done|]. set_solver. }
    assert (∀ r r', r ∈ acc ++ l → r' ∈ acc ++ l → role_ID r = role_ID r' → r = r') as Hinj'.
    { intros r r' Hr Hr'. apply Hinj; set_solver. }
    case_bool_decide as Hdup.
    - destruct (IH acc m Hinj' Hm Hnd Hw) as [Hn He]. split; [done|]. intros r. rewrite He.
      apply Hm, list_elem_of_fmap in Hdup as (r' & Hid & Hr').
      assert (role = r') as -> by (apply Hinj; [set_solver|set_solver|done]). set_solver.
    - case_bool_decide as Hw'.
      + destruct (IH (acc ++ [role]) (<[role_ID role := true]> m)) as [Hn He].
        * intros r r' Hr Hr'. apply Hinj; set_solver.
        * intros k. rewrite lookup_insert_is_Some', Hm, fmap_app. set_solver.
        * rewrite fmap_app. apply NoDup_app. split_and!; [done| |apply NoDup_singleton].
          intros x Hx ->%list_elem_of_singleton. apply Hdup. by apply Hm.
        * intros r [Hr| ->%list_elem_of_singleton]%elem_of_app; [by apply Hw|done].
        * split; [done|]. intros r. rewrite He. set_solver.
      + destruct (IH acc m Hinj' Hm Hnd Hw) as [Hn He]. split; [done|]. intros r. rewrite He. unfold wanted in *. set_solver. }
  intros Hinj. destruct (Hgen roles [] ∅) as [Hn He].
  - by intros r r' Hr Hr'; apply Hinj.
  - intros k. rewrite lookup_empty. split; [by intros [? ?]|by intros ?%elem_of_nil].
  - constructor.
  - by intros r ?%elem_of_nil.
  - split; [done|]. intros r. rewrite He. set_solver.
Qed.

Section queries.
Context `{GoRuntime} `{DrivenUserMgnt} `{SqlEnv}.

Lemma GetRoleByMembers_spec s ids roles :
  memberDB_GetRoleByMembers s ids = Ok roles →
  ∀ id, id ∈ role_ID <$> roles ↔ ∃ row, row ∈ t_role_member s ∧ m_role_id row = id ∧ m_member_id row ∈ ids.
Proof.
  intros Hg id. apply stmt_Ok, in_list_Ok in Hg as [_ Hg]. injection Hg as <-.
  rewrite <-list_fmap_compose, list_elem_of_fmap. split.
  - intros (row & -> & Hr). apply elem_of_range_order, list_elem_of_filter in Hr as [Hm Hr]. by exists row.
  - intros (row & Hr & <- & Hm). exists row. split; [done|]. apply elem_of_range_order. by apply list_elem_of_filter.
Qed.

Lemma GetRoleByMembers_total s ids :
  sql_fault "roleMember.GetRoleByMembers" = None → ids ≠ [] → ∃ roles, memberDB_GetRoleByMembers s ids = Ok roles.
Proof.
  intros Hf Hne. unfold memberDB_GetRoleByMembers, stmt, in_list. rewrite Hf, bool_decide_eq_false_2 by done. eauto.
Qed.

(** The identities a user acts under are, without repetition, the ids
    the organisation gives (the user, its departments and groups), the root
    department, every role one of these is a member of in the membership
    table, and the system roles the user holds. *)
Theorem identities_from_membership a ids types s :
  acc_Type a = RealName → GetAccessorIDsByUserID (acc_ID a) = Ok ids →
  GetUserRolesByUserID (acc_ID a) = Ok types → sql_fault "roleMember.GetRoleByMembers" = None →
  ∃ toks, @getAccessorIDs _ (role_service s) a = Ok toks ∧ NoDup toks ∧
    ∀ t, t ∈ toks ↔ t ∈ ids ∨ t = rootDepID ∨
      (∃ row, row ∈ t_role_member s ∧ m_role_id row = t ∧ (m_member_id row ∈ ids ∨ m_member_id row = rootDepID)) ∨
      t ∈ omap systemRoleID types.
Proof.
  intros Ht Hids Htypes Hf. destruct (GetRoleByMembers_total s (ids ++ [rootDepID]) Hf) as [roles Hroles].
  { by destruct ids. }
  destruct (@user_identities _ (role_service s) a ids roles types Ht Hids Hroles Htypes) as (toks & Hok & Hnd & Hin).
  exists toks. split_and!; [done|done|]. intros t. rewrite Hin, (GetRoleByMembers_spec _ _ _ Hroles).
  setoid_rewrite elem_of_app. by setoid_rewrite list_elem_of_singleton.
Qed.

Lemma GetRoleByIDs_spec s ids m :
  NoDup (r_id <$> t_role s) → roleDB_GetRoleByIDs s ids = Ok m →
  ∀ id info, m !! id = Some info ↔ ∃ row, row ∈ t_role s ∧ r_id row = id ∧ id ∈ ids ∧ scanRole row = Ok info.
Proof.
  intros Hnd Hg id info. unfold roleDB_GetRoleByIDs in Hg. case_bool_decide as E.
  { injection Hg as <-. apply length_zero_iff_nil in E as ->. rewrite lookup_empty. set_solver. }
  apply stmt_Ok in Hg. obind. rename E0 into Hinfos.
  pose proof (λ y, omap_all_elem _ _ _ y Hinfos) as Helem.
  assert (NoDup (role_ID <$> r)) as Hnd'.
  { rewrite (scanRole_ids _ _ Hinfos).
    rewrite range_order_perm. by apply NoDup_fmap_filter. }
  rewrite (lookup_keyed role_ID r id info Hnd'), Helem. split.
  - intros [(row & Hr & Hs) <-]. apply elem_of_range_order, list_elem_of_filter in Hr as [Hi Hr].
    apply scanRole_id in Hs as Hk. destruct Hk as [-> _]. by exists row.
  - intros (row & Hr & <- & Hi & Hs). apply scanRole_id in Hs as Hk. destruct Hk as [-> _]. split; [|done].
    exists row. split; [|done]. apply elem_of_range_order. by apply list_elem_of_filter.
Qed.

Lemma GetRoleByIDs_total s ids :
  sql_fault "role.GetRoleByIDs" = None → (∀ row, row ∈ t_role s → ∃ info, scanRole row = Ok info) →
  ∃ m, roleDB_GetRoleByIDs s ids = Ok m.
Proof.
  intros Hf Hr. unfold roleDB_GetRoleByIDs. case_bool_decide; [eauto|]. unfold stmt. rewrite Hf.
  destruct (omap_all_total scanRole (range_order 53 (filter (λ row, r_id row ∈ ids) (t_role s)))) as [infos Hi].
  { intros row. rewrite elem_of_range_order, list_elem_of_filter. intros [_ ?]. by apply Hr. }
  rewrite Hi. simpl. eauto.
Qed.

(** The roles a user has and asks for. *)
Definition accessor_role (s : store) (ids : list string) (types : list SystemRoleType) (asked : list RoleSource)
    (sources : list RoleSource) (info : RoleInfo) : Prop :=
  ∃ row, row ∈ t_role s ∧ scanRole row = Ok info ∧ wanted sources info ∧
    ((∃ m, m ∈ t_role_member s ∧ m_role_id m = r_id row ∧ (m_member_id m ∈ ids ∨ m_member_id m = rootDepID)) ∨
     (RoleSourceSystem ∈ asked ∧ r_id row ∈ omap systemRoleID types)).

(** The list before paging, given the role ids of the user: an id without a
    role reads as the zero value, which has no source. *)
Lemma accessor_roles_of_ids s toks m sources :
  NoDup (r_id <$> t_role s) → Forall (λ row, r_id row ≠ "") (t_role s) → roleDB_GetRoleByIDs s toks = Ok m →
  let roles := keepSources sources ((λ id, default RoleInfo_zero (m !! id)) <$> toks) in
  NoDup (role_ID <$> roles) ∧
  ∀ info, info ∈ roles ↔ ∃ row, row ∈ t_role s ∧ r_id row ∈ toks ∧ scanRole row = Ok info ∧ wanted sources info.
Proof.
  intros Hnd Hne Hm roles. pose proof (GetRoleByIDs_spec _ _ _ Hnd Hm) as Hspec. rewrite Forall_forall in Hne.
  assert (∀ info, info ∈ (λ id, default RoleInfo_zero (m !! id)) <$> toks →
    info = RoleInfo_zero ∨ ∃ row, row ∈ t_role s ∧ r_id row ∈ toks ∧ scanRole row = Ok info ∧ role_ID info = r_id row) as Hin.
  { intros info (id & -> & Hid)%list_elem_of_fmap. destruct (m !! id) as [info|] eqn:E; [right|by left].
    apply Hspec in E as (row & Hr & <- & Hi & Hs). exists row. by apply scanRole_id in Hs as Hk; destruct Hk. }
  destruct (keepSources_spec sources ((λ id, default RoleInfo_zero (m !! id)) <$> toks)) as [Hn He].
  { intros r r' Hr Hr' Hid. apply Hin in Hr as [->|(row & Hr & _ & Hs & Hk)], Hr' as [->|(row' & Hr' & _ & Hs' & Hk')].
    - done.
    - by destruct (Hne row' Hr'); rewrite <-Hk', <-Hid.
    - by destruct (Hne row Hr); rewrite <-Hk, Hid.
    - assert (row = row') as <-; [|congruence]. eapply (NoDup_fmap_inj_in r_id); [exact Hnd|done|done|congruence]. }
  split; [done|]. intros info. unfold roles. rewrite He. split.
  - intros [[->|(row & Hr & Ht & Hs & _)]%Hin Hw]; [|by exists row]. destruct Hw as [Hw _]. simpl in Hw. set_solver.
  - intros (row & Hr & Ht & Hs & Hw). split; [|done]. apply list_elem_of_fmap. exists (r_id row). split; [|done].
    assert (m !! r_id row = Some info) as ->; [|done]. apply Hspec. by exists row.
Qed.

(** [GetAccessorRoles] succeeds for every offset and limit; it counts and
    pages, without repetition, exactly the stored roles of the requested
    sources that the user has by membership or, when system roles are asked
    for, by its system role; built-in roles come first in their fixed order,
    then the others, most recently modified first. *)
Theorem GetAccessorRoles_exact order s param ids types :
  NoDup (r_id <$> t_role s) → Forall (λ row, r_id row ≠ "") (t_role s) →
  (∀ row, row ∈ t_role s → ∃ info, scanRole row = Ok info) →
  GetAccessorIDsByUserID (ars_AccessorID param) = Ok ids → GetUserRolesByUserID (ars_AccessorID param) = Ok types →
  sql_fault "roleMember.GetRoleByMembers" = None → sql_fault "role.GetRoleByIDs" = None →
  let asked := ars_RoleSources param in
  let sources := if (length asked =? 0)%nat then [RoleSourceBusiness; RoleSourceUser] else asked in
  ∃ all page, role_GetAccessorRoles order s param = Ok (Z.of_nat (length all), page) ∧
    clampedPage all (ars_Offset param) (ars_Limit param) = Ok page ∧
    NoDup (role_ID <$> all) ∧ (∀ info, info ∈ all ↔ accessor_role s ids types asked sources info) ∧
    StronglySorted (λ a b, role_before order b a = false) all.
Proof.
  intros Hnd Hne Hread Hids Htypes Hf1 Hf2 asked sources. unfold role_GetAccessorRoles. rewrite Hids. cbn [mbind outcome_bind].
  destruct (GetRoleByMembers_total s (ids ++ [rootDepID]) Hf1) as [roles Hroles]; [by destruct ids|].
  rewrite Hroles. cbn [mbind outcome_bind]. fold asked. rewrite Htypes. cbn [mbind outcome_bind].
  set (toks := map role_ID roles ++ (if bool_decide (RoleSourceSystem ∈ asked) then omap systemRoleID types else [])).
  match goal with |- ∃ all page, (x ← ?o; _) = _ ∧ _ => assert (o = Ok toks) as -> end.
  { unfold toks. case_bool_decide; [by rewrite system_role_tokens|by rewrite app_nil_r]. }
  cbn [mbind outcome_bind].
  assert (∀ t, t ∈ toks ↔ (∃ m, m ∈ t_role_member s ∧ m_role_id m = t ∧ (m_member_id m ∈ ids ∨ m_member_id m = rootDepID)) ∨
    (RoleSourceSystem ∈ asked ∧ t ∈ omap systemRoleID types)) as Htoks.
  { intros t. unfold toks. rewrite elem_of_app. fold (fmap (M:=list) role_ID roles).
    rewrite (GetRoleByMembers_spec _ _ _ Hroles). setoid_rewrite elem_of_app. setoid_rewrite list_elem_of_singleton.
    case_bool_decide; set_solver. }
  destruct (GetRoleByIDs_total s toks Hf2 Hread) as [m Hm].
  destruct (accessor_roles_of_ids s toks m sources Hnd Hne Hm) as [Hn He].
  set (roles' := keepSources _ _) in *. set (all := sort_slice (role_before order) roles').
  assert (all ≡ₚ roles') as Hp by apply sort_slice_perm.
  assert (∀ info, info ∈ all ↔ accessor_role s ids types asked sources info) as Hall.
  { intros info. rewrite Hp, He. unfold accessor_role. setoid_rewrite Htoks. naive_solver. }
  assert (StronglySorted (λ a b, role_before order b a = false) all) as Hsorted
    by apply sort_slice_sorted, role_before_strict_weak.
  assert (NoDup (role_ID <$> all)) as Hnd' by (by rewrite Hp).
  destruct (clampedPage_total all (ars_Offset param) (ars_Limit param)) as [page Hpage].
  exists all, page. split_and!; [|done..].
  assert (all = [] → page = []) as Hempty.
  { intros Hall0. rewrite Hall0 in Hpage. by apply clampedPage_nil in Hpage. }
  destruct (Nat.eqb_spec (length toks) 0) as [Ht|_].
  - apply length_zero_iff_nil in Ht. assert (all = []) as Hall0.
    { assert (roles' = []) as Hr0 by (unfold roles'; by rewrite Ht). rewrite Hr0 in Hp. by apply Permutation_nil_r in Hp. }
    by rewrite Hempty, Hall0.
  - rewrite Hm. cbn [mbind outcome_bind]. fold sources roles' all.
    destruct (Z.eqb_spec (Z.of_nat (length all)) 0) as [Hz|_].
    + assert (all = []) as Hall0 by (destruct all; simpl in Hz; [done|lia]). by rewrite Hempty, Hall0.
    + by rewrite Hpage.
Qed.
End queries.
