(* ===== verification/RoleSample.v ===== *)
(** * Roles on the sample deployment

    The theorems on roles evaluated on a concrete role table: role ["r1"] with
    the member ["u1"], the built-in role of the data administrators, and a
    policy granted to ["r1"]. *)
From S2P Require Import Prelude Json Interfaces Common PolicyCalc Store PolicyDB Sample Listings Policy RoleDB Event Role RoleScope RoleSpec Mq RoleOps RoleAdmin RoleQuery.

Definition sample_scope : ResourceTypeScopeInfo :=
  {| rtsi_Unlimited := false; rtsi_Types := Some [{| rts_ResourceTypeID := "doc"; rts_ResourceTypeName := "" |}] |}.
Definition sample_role (id name : string) (source : RoleSource) : RoleInfo :=
  {| role_ID := id; role_Name := name; role_Description := ""; role_Source := source; role_Scope := sample_scope;
     role_CreateTime := 0; role_ModifyTime := 0 |}.
Definition sample_member (id : string) : RoleMemberInfo :=
  {| rm_ID := id; rm_MemberType := AccessorUser; rm_Name := ""; rm_ParentDeps := []; rm_CreateTime := 0;
     rm_ModifyTime := 0 |}.

Definition role_store : store := {|
  t_policy := [@newPolicyRow sample_sql 0
    {| pol_ID := "p1"; pol_ResourceID := "*"; pol_ResourceType := "doc"; pol_ResourceName := "";
       pol_Ancestors := []; pol_HasAncestors := false; pol_AccessorID := "r1"; pol_AccessorType := AccessorRole;
       pol_AccessorName := "editors"; pol_ParentDeps := [];
       pol_Rules := {| rules_Allow := [sample_rule ["read"]]; rules_Deny := [] |};
       pol_Condition := ""; pol_EndTime := -1; pol_CreateTime := 0; pol_ModifyTime := 0 |}];
  t_role := [newRoleRow 0 (sample_role "r1" "editors" RoleSourceUser);
             newRoleRow 1 (sample_role dataAdminRoleID "data" RoleSourceBusiness)];
  t_role_member := [newMemberRow "r1" 0 (sample_member "u1")];
  t_obligation := []; t_obligation_type := []; t_resource_type := []; t_resource_type_hierarchy := [];
  seq_primary := 2; seq_uuid := 0
|}.
Definition sample_admin : Visitor := {| vis_ID := "admin"; vis_Type := RealName; vis_Language := "en-us" |}.

(** The server of [sample_sql] failing one statement. *)
Definition failing_sql (label : string) : SqlEnv := {|
  sql_fault l := if bool_decide (l = label) then Some (MkErr "driver" "connection lost" []) else None;
  curTime := 1000; uuid := @uuid sample_sql; begin_fault := None; commit_fault := None
|}.

Lemma sample_uuid_inj : Inj (=) (=) (@uuid sample_sql).
Proof. intros n m E. simpl in E. apply (inj pretty.pretty). by injection E. Qed.

Lemma role_store_table : role_table (@uuid sample_sql) role_store.
Proof.
  split.
  - by apply (bool_decide_unpack _).
  - by apply (bool_decide_unpack _).
  - by apply (bool_decide_unpack _).
  - intros n _ Hin. apply elem_of_cons in Hin as [Hin|Hin]; [done|]. by apply list_elem_of_singleton in Hin.
Qed.

Lemma identities_from_membership_witness :
  ∃ toks, @getAccessorIDs _ (role_service role_store) (sample_user "u1") = Ok toks ∧ NoDup toks ∧ "r1" ∈ toks.
Proof.
  destruct (identities_from_membership (sample_user "u1") ["u1"; "d1"] [NormalUser] role_store)
    as (toks & Hok & Hnd & Hin); [reflexivity..|].
  exists toks. split_and!; [done|done|]. apply Hin. right. right. left.
  exists (newMemberRow "r1" 0 (sample_member "u1")). split_and!; [left|done|left; left].
Defined.

Lemma role_names_stay_unique_witness :
  let s' := (role_AddRole sample_admin (sample_role "" "readers" RoleSourceUser) role_store).2 in
  length (t_role s') = 3 ∧ NoDup (r_id <$> t_role s') ∧ NoDup (r_name <$> t_role s').
Proof.
  split; [vm_compute; reflexivity|].
  apply (role_names_stay_unique (@uuid sample_sql) role_store).
  - apply sample_uuid_inj.
  - intros n. simpl. discriminate.
  - apply role_store_table.
  - eapply rtc_l; [|apply rtc_refl]. eapply (call_AddRole (@uuid sample_sql) sample_sql); [reflexivity|].
    apply surjective_pairing.
Defined.

(** The first delivery fails after the memberships, the second succeeds. *)
Definition deleted_message : text := TJson (jobj [("id", JStr "u1")]).
Lemma deletion_messages_converge_witness :
  ∃ s', delivery (λ env, @mq_userDeleted (@wired_event env) deleted_message) role_store s' ∧
    forgets "u1" role_store s' ∧ t_role_member s' = [].
Proof.
  set (h := λ env, @mq_userDeleted (@wired_event env) deleted_message).
  set (s1 := (h (failing_sql "policy.DeleteByAccessorIDs") role_store).2).
  exists (h sample_sql s1).2. assert (delivery h role_store (h sample_sql s1).2) as Hd.
  { eapply (redelivered _ (failing_sql "policy.DeleteByAccessorIDs")).
    - intros l e. simpl. case_bool_decide; [|done]. intros [= <-]. reflexivity.
    - instantiate (2 := MkErr "driver" "connection lost" []). instantiate (1 := s1). vm_compute. reflexivity.
    - eapply (acknowledged _ sample_sql); [by intros l e|]. vm_compute. reflexivity. }
  split; [exact Hd|]. split; [|vm_compute; reflexivity].
  apply (deletion_messages_converge deleted_message "u1" getIDInNsqMsg h role_store).
  - reflexivity.
  - reflexivity.
  - left.
  - exact Hd.
Defined.

(** ** Deleting *)
Example DeleteRole_sample :
  let s' := (role_DeleteRole wired_event sample_admin "r1" role_store).2 in
  t_role_member s' = [] ∧ t_policy s' = filter (λ row, p_accessor_id row ≠ "r1") (t_policy role_store).
Proof.
  intros s'. destruct (DeleteRole_effect sample_admin "r1" role_store s') as [Hd _].
  - apply (rt_nonempty _ _ role_store_table).
  - vm_compute. reflexivity.
  - destruct Hd as (_ & Hm & Hp & _); [left|]. split; [rewrite Hm; reflexivity|exact Hp].
Defined.

(** After the failed deletion and its successful repetition the role is gone,
    and its former member may still read every document. *)
Lemma DeleteRole_retry_leaves_orphans_witness :
  ∃ s1, @role_DeleteRole _ _ sample_sql wired_event sample_admin "r1" s1 = (Ok tt, s1) ∧
    ("r1" ∉ r_id <$> t_role s1) ∧
    @policyCalc_Check _ _ _ (policyCalcDB s1) (role_service s1) _ (sample_resource "x" "u2" []) (sample_user "u1")
      ["read"] [] = Ok {| Result := true; OperatrionOblist := ∅ |}.
Proof.
  destruct (DeleteRole_retry_leaves_orphans (failing_sql "roleMember.DeleteByRoleID") sample_sql sample_admin "r1"
    {| role_ID := "r1"; role_Name := "editors"; role_Description := ""; role_Source := RoleSourceUser;
       role_Scope := sample_scope; role_CreateTime := 1000; role_ModifyTime := 1000 |} (MkErr "driver" "connection lost" []) role_store)
    as (s1 & Hfail & Hr & Hm & Hp & Hretry).
  - apply (rt_nonempty _ _ role_store_table).
  - left.
  - reflexivity.
  - vm_compute. reflexivity.
  - reflexivity.
  - reflexivity.
  - reflexivity.
  - assert (s1 = (@role_DeleteRole _ _ (failing_sql "roleMember.DeleteByRoleID")
      (@wired_event (failing_sql "roleMember.DeleteByRoleID")) sample_admin "r1" role_store).2) as -> by (by rewrite Hfail).
    eexists. split_and!; [exact Hretry| |vm_compute; reflexivity].
    rewrite Hr. by apply (bool_decide_unpack _).
Defined.

(** ** Creating and changing *)
Lemma AddRole_effect_witness :
  let r := role_AddRole sample_admin (sample_role "" "readers" RoleSourceUser) role_store in
  r.1 = Ok "uuid-0" ∧ is_admin sample_admin ∧ ∃ row, t_role r.2 = t_role role_store ++ [row] ∧
    ∃ info, scanRole row = Ok info ∧ role_Name info = "readers" ∧ role_Source info = RoleSourceUser.
Proof.
  intros r. split; [vm_compute; reflexivity|].
  destruct (AddRole_effect sample_admin (sample_role "" "readers" RoleSourceUser) role_store "uuid-0" r.2)
    as (Ha & _ & _ & scope & row & _ & Hr & _ & Hs & _).
  - apply (rt_nonempty _ _ role_store_table).
  - vm_compute. reflexivity.
  - split; [exact Ha|]. exists row. split; [exact Hr|]. eexists. split_and!; [exact Hs|reflexivity..].
Defined.

Lemma ModifyRole_effect_witness :
  let r := role_ModifyRole wired_event sample_admin "r1" "writers" true "" false sample_scope false role_store in
  r.1 = Ok tt ∧ p_accessor_name <$> t_policy r.2 = ["writers"] ∧ role_names_agree r.2.
Proof.
  intros r. split; [vm_compute; reflexivity|]. split; [vm_compute; reflexivity|].
  apply (ModifyRole_effect sample_admin "r1" "writers" true "" false sample_scope false role_store).
  - apply (rt_nonempty _ _ role_store_table).
  - intros row p Hr ->%list_elem_of_singleton Hid. apply elem_of_cons in Hr as [->|Hr]; [reflexivity|].
    apply list_elem_of_singleton in Hr as ->. discriminate.
  - vm_compute. reflexivity.
Defined.

(** ["u1"] is a member already, ["u2"] is added once. *)
Definition sample_new_members : gmap string RoleMemberInfo :=
  {["u1" := sample_member "u1"; "u2" := sample_member "u2"]}.
Lemma sample_new_members_keys k m : sample_new_members !! k = Some m → rm_ID m = k.
Proof.
  unfold sample_new_members. intros [[<- <-]|[_ Hm]]%lookup_insert_Some; [done|]. by apply lookup_singleton_Some in Hm as [<- <-].
Qed.

Lemma AddRoleMembers_effect_witness :
  let r := role_AddRoleMembers sample_admin "r1" sample_new_members role_store in
  r.1 = Ok tt ∧ length (t_role_member r.2) = 2 ∧ ∃ row, row ∈ t_role_member r.2 ∧ m_member_id row = "u2".
Proof.
  intros r. split; [vm_compute; reflexivity|]. split; [vm_compute; reflexivity|].
  destruct (AddRoleMembers_effect sample_admin "r1" sample_new_members role_store r.2) as (_ & _ & _ & Hin & _).
  - apply (rt_nonempty _ _ role_store_table).
  - apply sample_new_members_keys.
  - by apply (bool_decide_unpack _).
  - vm_compute. reflexivity.
  - assert (("r1", "u2") ∈ (λ row, (m_role_id row, m_member_id row)) <$> t_role_member r.2) as Hu.
    { apply Hin. right. split; [done|by eexists]. }
    apply list_elem_of_fmap in Hu as (row & E & Hr). injection E as _ E. by exists row.
Defined.

Lemma DeleteRoleMembers_effect_witness :
  let r := role_DeleteRoleMembers sample_admin "r1" sample_new_members role_store in
  r.1 = Ok tt ∧ t_role_member r.2 = [] ∧ t_policy r.2 = t_policy role_store.
Proof.
  intros r. split; [vm_compute; reflexivity|].
  destruct (DeleteRoleMembers_effect sample_admin "r1" sample_new_members role_store r.2) as (_ & _ & Hm & _ & Hp).
  - apply (rt_nonempty _ _ role_store_table).
  - apply sample_new_members_keys.
  - vm_compute. reflexivity.
  - split; [rewrite Hm; vm_compute; reflexivity|exact Hp].
Defined.

(** ** Listing *)
Lemma GetAccessorRoles_exact_witness :
  ∃ all page, role_GetAccessorRoles {[dataAdminRoleID := 1%Z]} role_store
      {| ars_AccessorID := "u1"; ars_AccessorType := AccessorUser; ars_RoleSources := []; ars_Offset := 0;
         ars_Limit := 10 |} = Ok (Z.of_nat (length all), page) ∧ NoDup (role_ID <$> all).
Proof.
  destruct (GetAccessorRoles_exact {[dataAdminRoleID := 1%Z]} role_store
      {| ars_AccessorID := "u1"; ars_AccessorType := AccessorUser; ars_RoleSources := []; ars_Offset := 0;
         ars_Limit := 10 |} ["u1"; "d1"] [NormalUser]) as (all & page & Hok & _ & Hnd & _).
  - apply (rt_ids _ _ role_store_table).
  - apply (rt_nonempty _ _ role_store_table).
  - intros row Hr. apply elem_of_cons in Hr as [->|Hr]; [|apply list_elem_of_singleton in Hr as ->];
      eexists; vm_compute; reflexivity.
  - reflexivity.
  - reflexivity.
  - reflexivity.
  - reflexivity.
  - by exists all, page.
Defined.

(** ** Built-in roles

    [InitRoles] looks its roles up by name: after an administrator renames a
    built-in role, the next start inserts a second row with the same id. *)
Example InitRoles_after_rename :
  let s := (role_ModifyRole wired_event sample_admin dataAdminRoleID "stewards" true "" false sample_scope false role_store).2 in
  let s' := (role_InitRoles [sample_role dataAdminRoleID "data" RoleSourceBusiness] s).2 in
  r_id <$> t_role s' = ["r1"; dataAdminRoleID; dataAdminRoleID].
Proof. vm_compute. reflexivity. Qed.
