(* ===== verification/ResourceTypeDB.v ===== *)
(** * Storage of resource types and their hierarchy
      ([Authorization/dbaccess/resource_type.go], [resource_type_hierarchy.go])

    The JSON text of the operations of a type and of the tree below a type,
    and every statement on [t_resource_type] and [t_resource_type_hierarchy].

    A type's operations are built by [append] from nil everywhere, so the
    empty list is nil and is written as [null]; the names and scopes of an
    operation start as an empty slice and are written as arrays. *)
From S2P Require Import Prelude Json Interfaces Common Store.

(** ** The operations of a type *)
Definition marshalOperationName (n : OperationName) : json :=
  jobj [("language", JStr (opn_Language n)); ("value", JStr (opn_Value n))].
Definition marshalOperation (op : ResourceTypeOperation) : json :=
  jobj [("id", JStr (rto_ID op)); ("name", JArr (marshalOperationName <$> rto_Name op));
        ("description", JStr (rto_Description op)); ("scope", JArr (JStr <$> rto_Scope op))].
Definition marshalOperations (ops : list ResourceTypeOperation) : text :=
  marshal (match ops with [] => JNull | _ => JArr (marshalOperation <$> ops) end).

(** [json.Unmarshal] into the structs: an absent member or [null] leaves the
    zero value, another kind of value is an error.  The column is written by
    [json.Marshal] only, so members have the names of the struct tags. *)
Definition decode_string (m : gmap string json) (k : string) : outcome string :=
  match jget m k with JNull => Ok "" | JStr s => Ok s | _ => Err json_type_error end.
Definition decode_slice {A} (f : json → outcome A) (j : json) : outcome (list A) :=
  match j with JNull => Ok [] | JArr l => omap_all f l | _ => Err json_type_error end.
Definition decode_struct {A} (f : gmap string json → outcome A) (j : json) : outcome A :=
  match j with JNull => f ∅ | JObj m => f m | _ => Err json_type_error end.

Definition unmarshalOperationName : json → outcome OperationName := decode_struct (λ m,
  language ← decode_string m "language";
  value ← decode_string m "value";
  Ok {| opn_Language := language; opn_Value := value |}).
Definition unmarshalScope (j : json) : outcome string :=
  match j with JNull => Ok "" | JStr s => Ok s | _ => Err json_type_error end.
Definition unmarshalOperation : json → outcome ResourceTypeOperation := decode_struct (λ m,
  id ← decode_string m "id";
  name ← decode_slice unmarshalOperationName (jget m "name");
  description ← decode_string m "description";
  scope ← decode_slice unmarshalScope (jget m "scope");
  Ok {| rto_ID := id; rto_Name := name; rto_Description := description; rto_Scope := scope |}).
Definition unmarshalOperations (t : text) : outcome (list ResourceTypeOperation) :=
  match t with TJson j => decode_slice unmarshalOperation j | TRaw _ => Err json_syntax_error end.

(** ** The tree below a type *)
Fixpoint convertHierarchyToJSONItem (child : ResourceTypeHierarchy) : json :=
  match child with
  | MkHierarchy id children =>
      jobj [("resource_type_id", JStr id); ("children", JArr (convertHierarchyToJSONItem <$> children))]
  end.
Definition convertHierarchyToJSONItems (children : list ResourceTypeHierarchy) : list json :=
  convertHierarchyToJSONItem <$> children.
Definition convertHierarchyChildrenToJSONString (children : list ResourceTypeHierarchy) : text :=
  marshal (JArr (convertHierarchyToJSONItems children)).

(** A value read as an item of the array ([None] is [continue]) and as the
    member ["children"]; [item_equation] below states the first as the code
    does. *)
Fixpoint readHierarchy (j : json) : option ResourceTypeHierarchy * list ResourceTypeHierarchy :=
  match j with
  | JObj itemMap =>
      let resourceTypeID := match itemMap !! "resource_type_id" with Some (JStr id) => id | _ => "" end in
      (Some (MkHierarchy resourceTypeID (from_option snd [] ((readHierarchy <$> itemMap) !! "children"))), [])
  | JArr jsonItems => (None, omap (λ item, (readHierarchy item).1) jsonItems)
  | _ => (None, [])
  end.
Definition convertJSONItem (item : json) : option ResourceTypeHierarchy := (readHierarchy item).1.
Definition convertJSONItemsToHierarchy (jsonItems : list json) : list ResourceTypeHierarchy :=
  omap convertJSONItem jsonItems.
Definition convertJSONStringToHierarchyChildren (jsonStr : text) : outcome (list ResourceTypeHierarchy) :=
  jsonItems ← unmarshal_slice jsonStr;
  Ok (convertJSONItemsToHierarchy jsonItems).

Lemma item_equation item :
  convertJSONItem item =
  match item with
  | JObj itemMap =>
      Some (MkHierarchy (match itemMap !! "resource_type_id" with Some (JStr id) => id | _ => "" end)
        (match itemMap !! "children" with
         | Some (JArr childrenArray) => convertJSONItemsToHierarchy childrenArray
         | _ => []
         end))
  | _ => None
  end.
Proof.
  destruct item as [| | | | |m]; try done. unfold convertJSONItem. simpl. rewrite lookup_fmap.
  destruct (m !! "children") as [[]|]; done.
Qed.

(** ** Statements *)
Section statements.
Context `{GoRuntime} `{SqlEnv}.

(** [scanTimes] tells whether the statement selects the two time columns;
    [f_hidden] is selected by none. *)
Definition scanResourceType (scanTimes : bool) (row : resource_type_row) : outcome ResourceType :=
  operation ← unmarshalOperations (t_operation row);
  Ok {| rt_ID := t_id row; rt_Name := t_name row; rt_Description := t_description row;
        rt_InstanceURL := t_instance_url row; rt_DataStruct := t_data_struct row; rt_Operation := operation;
        rt_Hidden := false; rt_CreateTime := if scanTimes then t_create_time row else 0;
        rt_ModifyTime := if scanTimes then t_modify_time row else 0 |}.

Definition resourceTypeDB_GetPagination (s : store) (offset limit : Z) : outcome (Z * list ResourceType) :=
  let visible := filter (λ row, t_hidden row = false) (t_resource_type s) in
  count ← stmt "resourceType.GetPagination.count" (Ok (Z.of_nat (length visible)));
  rows ← stmt "resourceType.GetPagination" (sql_limit offset limit (order_by (λ row, [t_primary row]) visible));
  resources ← omap_all (scanResourceType true) rows;
  Ok (count, resources).

Definition updateResourceTypeRow (resource : ResourceType) (row : resource_type_row) : resource_type_row :=
  if bool_decide (t_id row = rt_ID resource)
  then {| t_primary := t_primary row; t_id := t_id row; t_name := rt_Name resource;
          t_description := rt_Description resource; t_instance_url := rt_InstanceURL resource;
          t_data_struct := rt_DataStruct resource; t_operation := marshalOperations (rt_Operation resource);
          t_hidden := rt_Hidden resource; t_create_time := t_create_time row; t_modify_time := curTime |}
  else row.
Definition newResourceTypeRow (primary : Z) (resource : ResourceType) : resource_type_row :=
  {| t_primary := primary; t_id := rt_ID resource; t_name := rt_Name resource;
     t_description := rt_Description resource; t_instance_url := rt_InstanceURL resource;
     t_data_struct := rt_DataStruct resource; t_operation := marshalOperations (rt_Operation resource);
     t_hidden := rt_Hidden resource; t_create_time := curTime; t_modify_time := curTime |}.

(** [rows.Next()] on [select f_id ... where f_id = ?]. *)
Definition resourceTypeDB_Set (resource : ResourceType) : M store unit :=
  found ← reads (λ s, stmt "resourceType.Set.query"
            (Ok (bool_decide (rt_ID resource ∈ t_id <$> t_resource_type s))));
  if (found : bool)
  then exec "resourceType.Set.update" (set_resource_type (fmap (updateResourceTypeRow resource)))
  else exec "resourceType.Set.insert" (λ s,
    bump_primary 1 (set_resource_type (λ t, t ++ [newResourceTypeRow (seq_primary s) resource]) s)).

Definition resourceTypeDB_Delete (resourceID : string) : M store unit :=
  exec "resourceType.Delete" (set_resource_type (filter (λ row, t_id row ≠ resourceID))).

Definition resourceTypeDB_GetByIDs (s : store) (resourceTypeIDs : list string) : outcome (gmap string ResourceType) :=
  if bool_decide (length resourceTypeIDs = 0) then Ok ∅
  else stmt "resourceType.GetByIDs"
    (resources ← omap_all (scanResourceType false)
       (range_order 70 (filter (λ row, t_id row ∈ resourceTypeIDs) (t_resource_type s)));
     Ok (foldl (λ m resource, <[rt_ID resource := resource]> m) ∅ resources)).

Definition resourceTypeDB_GetAllInternal (s : store) : outcome (list ResourceType) :=
  stmt "resourceType.GetAllInternal"
    (omap_all (scanResourceType false) (range_order 71 (filter (λ row, t_hidden row = false) (t_resource_type s)))).

Definition resourceTypeDB_GetAllInternalWithHidden (s : store) : outcome (list ResourceType) :=
  stmt "resourceType.GetAllInternalWithHidden"
    (omap_all (scanResourceType false) (range_order 72 (t_resource_type s))).

(** ** [t_resource_type_hierarchy] *)
Definition hierarchyDB_Set (hierarchy : ResourceTypeHierarchy) : M store unit :=
  let hierarchyStr := convertHierarchyChildrenToJSONString (rth_Children hierarchy) in
  let resourceTypeID := rth_ResourceTypeID hierarchy in
  found ← reads (λ s, stmt "hierarchy.Set.query"
            (Ok (bool_decide (resourceTypeID ∈ h_resource_type_id <$> t_resource_type_hierarchy s))));
  if (found : bool)
  then exec "hierarchy.Set.update" (set_hierarchy (fmap (λ row,
         if bool_decide (h_resource_type_id row = resourceTypeID)
         then {| h_primary := h_primary row; h_resource_type_id := h_resource_type_id row;
                 h_children := hierarchyStr; h_created := h_created row; h_modified := curTime |}
         else row)))
  else exec "hierarchy.Set.insert" (λ s, bump_primary 1 (set_hierarchy (λ t, t ++
         [{| h_primary := seq_primary s; h_resource_type_id := resourceTypeID; h_children := hierarchyStr;
             h_created := curTime; h_modified := curTime |}]) s)).

Definition scanHierarchy (row : hierarchy_row) : outcome ResourceTypeHierarchy :=
  children ← convertJSONStringToHierarchyChildren (h_children row);
  Ok (MkHierarchy (h_resource_type_id row) children).

Definition hierarchyDB_GetAll (s : store) : outcome (gmap string ResourceTypeHierarchy) :=
  stmt "hierarchy.GetAll"
    (hierarchies ← omap_all scanHierarchy (range_order 73 (t_resource_type_hierarchy s));
     Ok (foldl (λ m hierarchy, <[rth_ResourceTypeID hierarchy := hierarchy]> m) ∅ hierarchies)).
End statements.

(** ** Facts *)

(** The rows after "update when the key is found, insert otherwise". *)
Lemma upsert_rows {A} (key : A → string) (id : string) (upd : A → A) (new : A) (l l' : list A) :
  NoDup (key <$> l) → (∀ r, key (upd r) = key r) → key new = id →
  l' = (if bool_decide (id ∈ key <$> l) then (λ r, if bool_decide (key r = id) then upd r else r) <$> l
        else l ++ [new]) →
  NoDup (key <$> l') ∧ id ∈ key <$> l' ∧
  ∀ r, r ∈ l' ↔ (r ∈ l ∧ key r ≠ id) ∨
    (∃ r0, r0 ∈ l ∧ key r0 = id ∧ r = upd r0) ∨ ((id ∉ key <$> l) ∧ r = new).
Proof.
  intros Hnd Hupd Hnew ->. case_bool_decide as E.
  - assert (∀ r, key (if bool_decide (key r = id) then upd r else r) = key r) as Hk.
    { intros r. by case_bool_decide. }
    rewrite <-list_fmap_compose. rewrite (list_fmap_ext _ key l) by (intros; apply Hk). split_and!; [done|done|].
    intros r. rewrite list_elem_of_fmap. split.
    + intros (r0 & -> & Hr). case_bool_decide; [right; left; eauto|by left].
    + intros [[Hr Hne]|[(r0 & Hr & Hk0 & ->)|[? _]]]; [|exists r0; by rewrite bool_decide_eq_true_2|done].
      exists r. by rewrite bool_decide_eq_false_2.
  - rewrite fmap_app. split_and!.
    + apply NoDup_app. split_and!; [done| |apply NoDup_singleton]. intros x Hx ->%list_elem_of_singleton. by rewrite Hnew in Hx.
    + rewrite elem_of_app. right. simpl. rewrite Hnew. left.
    + intros r. rewrite elem_of_app, list_elem_of_singleton. split.
      * intros [Hr| ->]; [left|by right; right]. split; [done|]. intros <-. apply E. by apply list_elem_of_fmap_2.
      * intros [[Hr _]|[(r0 & Hr & <- & _)|[_ ->]]]; [by left| |by right]. destruct E. by apply list_elem_of_fmap_2.
Qed.

(** Induction on a tree, with the hypothesis for every child. *)
Lemma hierarchy_tree_ind (P : ResourceTypeHierarchy → Prop) :
  (∀ id children, Forall P children → P (MkHierarchy id children)) → ∀ h, P h.
Proof.
  intros Hnode. fix IH 1. intros [id children]. apply Hnode. induction children; constructor; [apply IH|done].
Qed.

(** What is written for a tree reads back as the tree. *)
Lemma items_round_trip children :
  Forall (λ h, convertJSONItem (convertHierarchyToJSONItem h) = Some h) children →
  convertJSONItemsToHierarchy (convertHierarchyToJSONItems children) = children.
Proof.
  unfold convertJSONItemsToHierarchy, convertHierarchyToJSONItems.
  induction 1 as [|c cs Hc _ IH]; [done|]. rewrite fmap_cons. simpl. rewrite Hc. by f_equal.
Qed.
Lemma hierarchy_item_round_trip h : convertJSONItem (convertHierarchyToJSONItem h) = Some h.
Proof.
  induction h as [id children IH] using hierarchy_tree_ind. rewrite item_equation. simpl. do 2 f_equal.
  by apply items_round_trip.
Qed.
Lemma hierarchy_round_trip children :
  convertJSONStringToHierarchyChildren (convertHierarchyChildrenToJSONString children) = Ok children.
Proof.
  transitivity (Ok (convertJSONItemsToHierarchy (convertHierarchyToJSONItems children))); [done|]. f_equal.
  apply items_round_trip, Forall_true, hierarchy_item_round_trip.
Qed.

Lemma decode_slice_encoded {A} (f : json → outcome A) (g : A → json) l :
  (∀ a, f (g a) = Ok a) → decode_slice f (JArr (g <$> l)) = Ok l.
Proof.
  intros Hfg. apply omap_all_inverse. by intros a _.
Qed.

Lemma operation_round_trip op : unmarshalOperation (marshalOperation op) = Ok op.
Proof.
  transitivity (
    name ← decode_slice unmarshalOperationName (JArr (marshalOperationName <$> rto_Name op));
    scope ← decode_slice unmarshalScope (JArr (JStr <$> rto_Scope op));
    Ok {| rto_ID := rto_ID op; rto_Name := name; rto_Description := rto_Description op; rto_Scope := scope |}); [done|].
  rewrite (decode_slice_encoded _ _ (rto_Name op)) by (by intros []).
  rewrite (decode_slice_encoded _ _ (rto_Scope op)) by done. by destruct op.
Qed.
Lemma operations_round_trip ops : unmarshalOperations (marshalOperations ops) = Ok ops.
Proof.
  destruct ops as [|op ops]; [done|]. apply (decode_slice_encoded _ marshalOperation (op :: ops)), operation_round_trip.
Qed.
