(* ===== verification/ResourceType.v ===== *)
(** * Resource types and their hierarchy
      ([Authorization/logics/resource_type.go], [resource_type_hierarchy.go])

    The services the decision, policy, role and obligation services ask for
    the declared types, their operations and the tree of types. *)
From Stdlib Require Import Ascii.
From S2P Require Import Prelude Json Interfaces Common Store Policy Role ResourceTypeDB.

(** ** The id of a type *)
Definition nameMaxLength : nat := 50.

(** [[a-zA-Z0-9_]] *)
Definition id_char (c : ascii) : bool :=
  let n := nat_of_ascii c in
  ((97 <=? n) && (n <=? 122) || (65 <=? n) && (n <=? 90) || (48 <=? n) && (n <=? 57) || (n =? 95))%nat.
Fixpoint all_chars (p : ascii → bool) (s : string) : bool :=
  match s with EmptyString => true | String c s => p c && all_chars p s end.

(** The two checks of [Set] and [SetPrivate]: [len] counts bytes. *)
Definition checkTypeID (id : string) : outcome unit :=
  _ ← fail_if (nameMaxLength <? String.length id)%nat (NewError PublicBadRequest "id length must less than 50");
  fail_if (bool_decide (id = "") || negb (all_chars id_char id))
    (NewError PublicBadRequest "invalid id, only number or letter or underline").

(** [reflect.DeepEqual] on the operations: see [ResourceTypeDB] on nil and
    empty slices. *)
Definition checkResourceTypeChange (old newInfo : ResourceType) : bool :=
  negb (bool_decide (rt_Name old = rt_Name newInfo)) ||
  negb (bool_decide (rt_InstanceURL old = rt_InstanceURL newInfo)) ||
  negb (bool_decide (rt_DataStruct old = rt_DataStruct newInfo)) ||
  negb (bool_decide (rt_Description old = rt_Description newInfo)) ||
  negb (bool_decide (rt_Hidden old = rt_Hidden newInfo)) ||
  negb (bool_decide (rt_Operation old = rt_Operation newInfo)).

(** ** Trees *)
Fixpoint findInChild (resourceTypeID : string) (child : ResourceTypeHierarchy) : option ResourceTypeHierarchy :=
  match child with
  | MkHierarchy id children =>
      if bool_decide (id = resourceTypeID) then Some child
      else first_some (findInChild resourceTypeID) children
  end.
(** [None] is the result [false]. *)
Definition findInChildren (children : list ResourceTypeHierarchy) (resourceTypeID : string)
  : option ResourceTypeHierarchy := first_some (findInChild resourceTypeID) children.

Definition Hierarchy_zero : ResourceTypeHierarchy := MkHierarchy "" [].

Definition typeMap (resourceTypes : list ResourceType) : gmap string ResourceType :=
  foldl (λ m info, <[rt_ID info := info]> m) ∅ resourceTypes.

#[warnings="-register-all"]
Inductive ChildrenResourceTypeOperation : Type := MkChildrenOperation {
  cro_ResourceTypeID : string; cro_Name : string; cro_Operations : list ResourceTypeOperationResponse;
  cro_Children : list ChildrenResourceTypeOperation
}.

Section resourceType.
Context `{GoRuntime} `{DrivenUserMgnt} `{SqlEnv}.

(** ** The hierarchy service *)
Definition typeNotFound (id : string) : gerror := NewError PublicBadRequest ("resource type not found: " +:+ id).

Fixpoint checkDuplicate (s : store) (hierarchie : ResourceTypeHierarchy) : outcome unit :=
  match hierarchie with
  | MkHierarchy id children =>
      resourceTypes ← resourceTypeDB_GetAllInternalWithHidden s;
      let resourceTypeInfoMap := typeMap resourceTypes in
      _ ← fail_if (bool_decide (resourceTypeInfoMap !! id = None)) (typeNotFound id);
      _ ← ofold (λ (checkDupMap : gmap string bool) child,
            _ ← fail_if (bool_decide (resourceTypeInfoMap !! rth_ResourceTypeID child = None))
                  (typeNotFound (rth_ResourceTypeID child));
            _ ← fail_if (bool_decide (is_Some (checkDupMap !! rth_ResourceTypeID child)))
                  (NewError PublicBadRequest "同一层级不能有重复的资源类型");
            Ok (<[rth_ResourceTypeID child := true]> checkDupMap)) ∅ children;
      each_ok (checkDuplicate s) children
  end.

Definition hierarchy_SetPrivate (hierarchie : ResourceTypeHierarchy) : M store unit :=
  _ ← reads (λ s, checkDuplicate s hierarchie);
  hierarchyDB_Set hierarchie.

Definition hierarchy_Get (s : store) (resourceTypeID : string) : outcome ResourceTypeHierarchy :=
  resourceTypeHierarchyMap ← hierarchyDB_GetAll s;
  match resourceTypeHierarchyMap !! resourceTypeID with
  | Some resourceTypeHierarchy => Ok resourceTypeHierarchy
  | None =>
      Ok (default Hierarchy_zero (first_some (λ kv : string * ResourceTypeHierarchy,
            findInChildren (rth_Children kv.2) resourceTypeID) (range 74 resourceTypeHierarchyMap)))
  end.

Definition hierarchy_HasHierarchy (s : store) (resourceTypeID : string) : outcome bool :=
  resourceTypeHierarchyMap ← hierarchyDB_GetAll s;
  Ok (existsb (λ kv : string * ResourceTypeHierarchy,
        bool_decide (kv.1 = resourceTypeID) ||
        bool_decide (is_Some (findInChildren (rth_Children kv.2) resourceTypeID)))
      (range 75 resourceTypeHierarchyMap)).

Definition hierarchy_GetAll (s : store) : outcome (gmap string ResourceTypeHierarchy) := hierarchyDB_GetAll s.

(** [convertJSONItemsToResourceTypeHierarchy] repeats the reader of the
    database layer. *)
Definition convertJSONItemsToResourceTypeHierarchy (jsonItems : list json) : list ResourceTypeHierarchy :=
  convertJSONItemsToHierarchy jsonItems.
Definition LoadResourceTypeHierarchyFromInitData (initDataStr : text) : outcome (list ResourceTypeHierarchy) :=
  jsonItems ← unmarshal_slice initDataStr;
  Ok (convertJSONItemsToResourceTypeHierarchy jsonItems).
Definition hierarchy_Init (initDataStr : text) : M store unit :=
  resourceTypeHierarchys ← lift (LoadResourceTypeHierarchyFromInitData initDataStr);
  for_each hierarchy_SetPrivate resourceTypeHierarchys.

(** ** The resource-type service *)
Definition resourceType_checkVisitorType (visitor : Visitor) : outcome unit :=
  roleTypes ← match vis_Type visitor with
              | RealName => GetUserRolesByUserID (vis_ID visitor)
              | _ => Ok []
              end;
  checkVisitorType visitor roleTypes [RealName] [SuperAdmin; SystemAdmin; SecurityAdmin].

Definition resourceType_GetPagination (s : store) (visitor : Visitor) (offset limit : Z)
  : outcome (Z * list ResourceType) :=
  _ ← resourceType_checkVisitorType visitor;
  resourceTypeDB_GetPagination s offset limit.

Definition resourceType_Set (visitor : Visitor) (resourceType : ResourceType) : M store unit :=
  _ ← lift (resourceType_checkVisitorType visitor);
  _ ← lift (checkTypeID (rt_ID resourceType));
  resourceTypeDB_Set resourceType.

(** [if ok && !changed { continue or return }; r.db.Set(...)] *)
Definition setWhenChanged (resourceType : ResourceType) : M store unit :=
  infoMap ← reads (λ s, resourceTypeDB_GetByIDs s [rt_ID resourceType]);
  match infoMap !! rt_ID resourceType with
  | Some info => if checkResourceTypeChange info resourceType then resourceTypeDB_Set resourceType else mret tt
  | None => resourceTypeDB_Set resourceType
  end.

Definition resourceType_InitResourceTypes (resourceTypes : list ResourceType) : M store unit :=
  for_each setWhenChanged resourceTypes.

Definition resourceType_SetPrivate (resourceType : ResourceType) : M store unit :=
  _ ← lift (checkTypeID (rt_ID resourceType));
  setWhenChanged resourceType.

Definition resourceType_Delete (visitor : Visitor) (resourceTypeID : string) : M store unit :=
  _ ← lift (resourceType_checkVisitorType visitor);
  resourceTypeDB_Delete resourceTypeID.

Definition resourceType_GetByID (s : store) (resourceTypeID : string) : outcome ResourceType :=
  resourceTypeMap ← resourceTypeDB_GetByIDs s [resourceTypeID];
  Ok (default ResourceType_zero (resourceTypeMap !! resourceTypeID)).

Definition getOperations (visitor : Visitor) (resourceTypeInfo : ResourceType) (scope : string)
  : list ResourceTypeOperationResponse :=
  omap (λ operation,
    if bool_decide (scope ∈ rto_Scope operation)
    then Some {| rtor_ID := rto_ID operation;
                 rtor_Name := getOperationNameByLanguage (rto_Name operation) (vis_Language visitor);
                 rtor_Description := rto_Description operation |}
    else None) (rt_Operation resourceTypeInfo).

(** [operationsMap] keeps the operations of a child type for its next
    occurrence. *)
Definition childOperation (visitor : Visitor) (scope : string) (resourceTypeMap : gmap string ResourceType)
    (acc : gmap string (list ResourceTypeOperationResponse) * list ChildrenResourceTypeOperation)
    (child : ResourceTypeHierarchy)
  : gmap string (list ResourceTypeOperationResponse) * list ChildrenResourceTypeOperation :=
  let '(operationsMap, childrenOperations) := acc in
  match resourceTypeMap !! rth_ResourceTypeID child with
  | None => acc
  | Some childResourceType =>
      let '(operations, operationsMap) :=
        match operationsMap !! rth_ResourceTypeID child with
        | Some operations => (operations, operationsMap)
        | None =>
            let operations := getOperations visitor childResourceType scope in
            (operations, <[rth_ResourceTypeID child := operations]> operationsMap)
        end in
      (operationsMap, childrenOperations ++
        [{| cro_ResourceTypeID := rth_ResourceTypeID child; cro_Name := rt_Name childResourceType;
            cro_Operations := operations; cro_Children := [] |}])
  end.
Definition getChildrenOperations (visitor : Visitor) (resourceTypeHierarchy : ResourceTypeHierarchy) (scope : string)
    (resourceTypeMap : gmap string ResourceType) : list ChildrenResourceTypeOperation :=
  (foldl (childOperation visitor scope resourceTypeMap) (∅, []) (rth_Children resourceTypeHierarchy)).2.

Definition resourceType_GetAllOperation (s : store) (visitor : Visitor) (resourceTypeID scope : string)
  : outcome (list ResourceTypeOperationResponse * list ChildrenResourceTypeOperation) :=
  resourceTypes ← resourceTypeDB_GetAllInternalWithHidden s;
  let resourceTypeMap := typeMap resourceTypes in
  match resourceTypeMap !! resourceTypeID with
  | None => Ok ([], [])
  | Some resourceTypeInfo =>
      let operations := getOperations visitor resourceTypeInfo scope in
      if bool_decide (scope = ScopeType) then Ok (operations, [])
      else
        resourceTypeHierarchy ← hierarchy_Get s resourceTypeID;
        if (length (rth_Children resourceTypeHierarchy) =? 0)%nat then Ok (operations, [])
        else Ok (operations, getChildrenOperations visitor resourceTypeHierarchy ScopeType resourceTypeMap)
  end.

Definition resourceType_GetByIDsInternal (s : store) (resourceTypeIDs : list string)
  : outcome (gmap string ResourceType) := resourceTypeDB_GetByIDs s resourceTypeIDs.
Definition resourceType_GetAllInternal (s : store) : outcome (list ResourceType) := resourceTypeDB_GetAllInternal s.
End resourceType.

(** ** The services the other components call *)
Definition resourceType_service `{GoRuntime} `{SqlEnv} (s : store) : LogicsResourceType := {|
  GetByIDsInternal := resourceType_GetByIDsInternal s;
  GetAllInternal := resourceType_GetAllInternal s
|}.
Definition hierarchy_service `{GoRuntime} `{SqlEnv} (s : store) : LogicsResourceTypeHierarchy := {|
  HasHierarchy := hierarchy_HasHierarchy s;
  Hierarchy_GetAll := hierarchy_GetAll s;
  Hierarchy_Get := hierarchy_Get s
|}.
