(* ===== verification/ResourceTypeSpec.v ===== *)
(** * What the resource-type and hierarchy services promise

    The trees that are accepted, what a lookup in them finds, what setting and
    deleting does to the tables, and what the other services read. *)
From S2P Require Import Prelude Json Interfaces Common Store Policy Role RoleOps RoleAdmin ResourceTypeDB ResourceType.

(** ** Trees *)

(** Every type of the tree is declared and no node has two children of one
    type. *)
#[warnings="-register-all"]
Inductive valid_tree (declared : list string) : ResourceTypeHierarchy → Prop :=
| valid_node id children :
    id ∈ declared → NoDup (rth_ResourceTypeID <$> children) → Forall (valid_tree declared) children →
    valid_tree declared (MkHierarchy id children).

(** The nodes of a tree, each before its children. *)
Fixpoint preorder (h : ResourceTypeHierarchy) : list ResourceTypeHierarchy :=
  match h with MkHierarchy _ children => h :: (children ≫= preorder) end.

Lemma first_some_find {A B} (f : A → option B) (nodes : A → list B) (P : B → Prop) `{∀ b, Decision (P b)} l :
  Forall (λ x, f x = head (filter P (nodes x))) l → first_some f l = head (filter P (l ≫= nodes)).
Proof.
  induction 1 as [|x l Hx _ IH]; [done|]. csimpl. rewrite filter_app, Hx.
  destruct (filter P (nodes x)) as [|b bs]; simpl; [done|done].
Qed.

Lemma findInChild_find id h : findInChild id h = head (filter (λ n, rth_ResourceTypeID n = id) (preorder h)).
Proof.
  induction h as [id' children IH] using hierarchy_tree_ind. simpl. rewrite filter_cons. simpl.
  case_bool_decide as E; [by rewrite decide_True|]. rewrite decide_False by done. by apply first_some_find.
Qed.

(** The recursive search returns the first node with the given type id in
    the order "node before children, siblings from left to right", and
    nothing exactly when no node has it. *)
Lemma findInChildren_first children id :
  findInChildren children id = head (filter (λ n, rth_ResourceTypeID n = id) (children ≫= preorder)).
Proof. apply first_some_find, Forall_true. intros h. apply findInChild_find. Qed.

Lemma valid_tree_node declared h n : valid_tree declared h → n ∈ preorder h → valid_tree declared n.
Proof.
  revert n. induction h as [id children IH] using hierarchy_tree_ind. intros n Hv. simpl.
  intros [->|Hn]%elem_of_cons; [done|]. apply list_elem_of_bind in Hn as (c & Hn & Hc).
  inversion Hv as [? ? _ _ Hvs]; subst. rewrite Forall_forall in IH, Hvs. by eapply IH; [|apply Hvs|].
Qed.

Lemma typeMap_ids infos id : typeMap infos !! id = None ↔ id ∉ rt_ID <$> infos.
Proof.
  unfold typeMap. rewrite (foldl_insert_None rt_ID (λ x, x) infos ∅ id), lookup_empty. naive_solver.
Qed.

Section trees.
Context `{GoRuntime} `{SqlEnv}.

(** The loop over the children of a node. *)
Lemma siblings_loop (types : gmap string ResourceType) children (m : gmap string bool) :
  (∃ m', ofold (λ (checkDupMap : gmap string bool) child,
     _ ← fail_if (bool_decide (types !! rth_ResourceTypeID child = None)) (typeNotFound (rth_ResourceTypeID child));
     _ ← fail_if (bool_decide (is_Some (checkDupMap !! rth_ResourceTypeID child)))
           (NewError PublicBadRequest "同一层级不能有重复的资源类型");
     Ok (<[rth_ResourceTypeID child := true]> checkDupMap)) m children = Ok m') ↔
  Forall (λ c, is_Some (types !! rth_ResourceTypeID c)) children ∧ NoDup (rth_ResourceTypeID <$> children) ∧
  Forall (λ c, m !! rth_ResourceTypeID c = None) children.
Proof.
  revert m. induction children as [|c cs IH]; intros m; csimpl.
  - split; [|eauto]. intros _. split_and!; [constructor|constructor|constructor].
  - rewrite !Forall_cons, NoDup_cons. destruct (types !! rth_ResourceTypeID c) as [t|] eqn:Et; simpl.
    2:{ split; [by intros [? ?]|]. intros [[Hs _] _]. by destruct Hs. }
    destruct (m !! rth_ResourceTypeID c) as [b|] eqn:Em; simpl.
    { split; [by intros [? ?]|]. by intros (_ & _ & ? & _). }
    rewrite IH. assert (Forall (λ c', <[rth_ResourceTypeID c:=true]> m !! rth_ResourceTypeID c' = None) cs ↔
      (rth_ResourceTypeID c ∉ rth_ResourceTypeID <$> cs) ∧ Forall (λ c', m !! rth_ResourceTypeID c' = None) cs) as ->.
    { rewrite !Forall_forall, list_elem_of_fmap. setoid_rewrite lookup_insert_None. naive_solver. }
    naive_solver.
Qed.

(** [checkDuplicate] accepts a tree exactly when every type in it is declared,
    hidden types included, and no node has two children of the same type; on a
    readable table it never panics. *)
Lemma checkDuplicate_spec s types h :
  resourceTypeDB_GetAllInternalWithHidden s = Ok types →
  (checkDuplicate s h = Ok tt ↔ valid_tree (rt_ID <$> types) h) ∧ ∀ w, checkDuplicate s h ≠ Panic w.
Proof.
  intros Ht. induction h as [id children IH] using hierarchy_tree_ind. simpl. rewrite Ht. simpl.
  assert (∀ i, is_Some (typeMap types !! i) ↔ i ∈ rt_ID <$> types) as Hdecl.
  { intros i. rewrite <-not_eq_None_Some, typeMap_ids. destruct (decide (i ∈ rt_ID <$> types)); naive_solver. }
  assert (each_ok (checkDuplicate s) children = Ok tt ↔ Forall (valid_tree (rt_ID <$> types)) children) as Hrec.
  { rewrite each_ok_Ok, !Forall_forall. rewrite Forall_forall in IH. split; intros Hall c Hc; by apply (IH c Hc), Hall. }
  assert (panic_free (each_ok (checkDuplicate s) children)) as Hpf.
  { apply panic_free_each_ok. eapply Forall_impl; [exact IH|]. by intros c [_ ?]. }
  pose proof (siblings_loop (typeMap types) children ∅) as Hsib.
  set (loop := ofold _ _ _) in *. split.
  - split.
    + intros Hc. apply bind_Ok in Hc as ([] & Hid%fail_if_Ok & Hc). apply bind_Ok in Hc as (m' & Hloop & Hc).
      destruct (proj1 Hsib (ex_intro _ _ Hloop)) as (Hds & Hnd & _).
      constructor; [|done|by apply Hrec]. apply Hdecl. by rewrite <-not_eq_None_Some, <-bool_decide_eq_false.
    + inversion 1 as [? ? Hid Hnd Hvs]; subst. rewrite bool_decide_eq_false_2 by (by apply not_eq_None_Some, Hdecl). simpl.
      destruct (proj2 Hsib) as [m' ->]; [|by apply Hrec].
      split_and!; [|done|by apply Forall_true; intros; apply lookup_empty].
      eapply Forall_impl; [exact Hvs|]. intros c Hv. apply Hdecl. by inversion Hv.
  - apply panic_free_bind; [auto with isf|]. intros _ _. apply panic_free_bind; [|done].
    apply panic_free_ofold. intros a x _. repeat (apply panic_free_bind; [auto with isf|intros _ _]). auto with isf.
Qed.

(** ** The stored trees *)
Lemma scanHierarchy_id row h : scanHierarchy row = Ok h → rth_ResourceTypeID h = h_resource_type_id row.
Proof. unfold scanHierarchy. intros Hs. by apply bind_Ok in Hs as (children & _ & [= <-]). Qed.

Lemma scanned_tree_ids rows hs :
  omap_all scanHierarchy rows = Ok hs → rth_ResourceTypeID <$> hs = h_resource_type_id <$> rows.
Proof.
  intros Hs. apply omap_all_Ok in Hs. induction Hs as [|row h rows hs Hr _ IH]; csimpl; [done|].
  by rewrite (scanHierarchy_id _ _ Hr), IH.
Qed.

Lemma hierarchyDB_GetAll_spec s m :
  NoDup (h_resource_type_id <$> t_resource_type_hierarchy s) → hierarchyDB_GetAll s = Ok m →
  ∀ id h, m !! id = Some h ↔
    ∃ row, row ∈ t_resource_type_hierarchy s ∧ h_resource_type_id row = id ∧ scanHierarchy row = Ok h.
Proof.
  intros Hnd Hg id h. apply stmt_Ok in Hg. apply bind_Ok in Hg as (hs & Hs & [= <-]).
  assert (NoDup (rth_ResourceTypeID <$> hs)) as Hnd'.
  { rewrite (scanned_tree_ids _ _ Hs). by rewrite range_order_perm. }
  rewrite (lookup_keyed rth_ResourceTypeID hs id h Hnd'), (omap_all_elem _ _ _ _ Hs).
  setoid_rewrite elem_of_range_order. split.
  - intros [(row & Hr & Hsc) <-]. exists row. by rewrite (scanHierarchy_id _ _ Hsc).
  - intros (row & Hr & <- & Hsc). split; [by exists row|]. by apply scanHierarchy_id.
Qed.

Lemma hierarchyDB_GetAll_total s :
  sql_fault "hierarchy.GetAll" = None →
  (∀ row, row ∈ t_resource_type_hierarchy s → ∃ h, scanHierarchy row = Ok h) → ∃ m, hierarchyDB_GetAll s = Ok m.
Proof.
  intros Hf Hr. unfold hierarchyDB_GetAll, stmt. rewrite Hf.
  destruct (omap_all_total scanHierarchy (range_order 73 (t_resource_type_hierarchy s))) as [hs ->]; [|by eexists].
  intros row. rewrite elem_of_range_order. apply Hr.
Qed.

Lemma hierarchyDB_GetAll_readable s m :
  hierarchyDB_GetAll s = Ok m → ∀ row, row ∈ t_resource_type_hierarchy s → ∃ h, scanHierarchy row = Ok h.
Proof.
  intros Hg row Hr. apply stmt_Ok in Hg. apply bind_Ok in Hg as (hs & Hs & _). apply omap_all_Ok in Hs.
  apply (elem_of_range_order 73) in Hr. apply list_elem_of_lookup in Hr as [i Hi].
  destruct (Forall2_lookup_l _ _ _ _ _ Hs Hi) as (h & _ & Hh). by exists h.
Qed.

Lemma scanHierarchy_written p id children t1 t2 :
  scanHierarchy {| h_primary := p; h_resource_type_id := id;
    h_children := convertHierarchyChildrenToJSONString children; h_created := t1; h_modified := t2 |} =
  Ok (MkHierarchy id children).
Proof. unfold scanHierarchy. cbn [h_children h_resource_type_id]. by rewrite hierarchy_round_trip. Qed.

(** [hierarchyDB_Set] writes one row, for the root of the tree. *)
Lemma hierarchyDB_Set_rows h s s' :
  NoDup (h_resource_type_id <$> t_resource_type_hierarchy s) → hierarchyDB_Set h s = (Ok tt, s') →
  NoDup (h_resource_type_id <$> t_resource_type_hierarchy s') ∧
  rth_ResourceTypeID h ∈ h_resource_type_id <$> t_resource_type_hierarchy s' ∧
  (∀ row, h_resource_type_id row ≠ rth_ResourceTypeID h →
     row ∈ t_resource_type_hierarchy s' ↔ row ∈ t_resource_type_hierarchy s) ∧
  (∀ row, row ∈ t_resource_type_hierarchy s' → h_resource_type_id row = rth_ResourceTypeID h → scanHierarchy row = Ok h) ∧
  (t_policy s', t_role s', t_role_member s', t_obligation s', t_obligation_type s', t_resource_type s') =
  (t_policy s, t_role s, t_role_member s, t_obligation s, t_obligation_type s, t_resource_type s).
Proof.
  intros Hnd Hs. unfold hierarchyDB_Set in Hs. mstep Hs as found Hq. apply stmt_Ok in Hq. injection Hq as <-.
  set (upd := λ row, {| h_primary := h_primary row; h_resource_type_id := h_resource_type_id row;
    h_children := convertHierarchyChildrenToJSONString (rth_Children h); h_created := h_created row; h_modified := curTime |}).
  set (new := {| h_primary := seq_primary s; h_resource_type_id := rth_ResourceTypeID h;
    h_children := convertHierarchyChildrenToJSONString (rth_Children h); h_created := curTime; h_modified := curTime |}).
  destruct (upsert_rows h_resource_type_id (rth_ResourceTypeID h) upd new (t_resource_type_hierarchy s)
    (t_resource_type_hierarchy s')) as (Hnd' & Hid & Hrows); [done|done|done| |].
  { case_bool_decide; apply exec_cases in Hs as [[_ ->]|(? & ? & _)]; done. }
  split_and!; [done|done| | |].
  - intros row Hne. rewrite Hrows. split; [|by left]. intros [[? _]|[(r0 & _ & Hk & ->)|[_ ->]]]; done.
  - intros row Hr Hk. apply Hrows in Hr as [[_ ?]|[(r0 & _ & Hk0 & ->)|[_ ->]]]; [done| |];
      unfold upd, new; rewrite scanHierarchy_written; [rewrite Hk0|]; by destruct h.
  - case_bool_decide; apply exec_cases in Hs as [[_ ->]|(? & ? & _)]; done.
Qed.

Lemma hierarchyDB_Set_read_back h s s' m :
  NoDup (h_resource_type_id <$> t_resource_type_hierarchy s) → hierarchyDB_GetAll s = Ok m →
  hierarchyDB_Set h s = (Ok tt, s') → hierarchyDB_GetAll s' = Ok (<[rth_ResourceTypeID h := h]> m).
Proof.
  intros Hnd Hm Hs. destruct (hierarchyDB_Set_rows h s s' Hnd Hs) as (Hnd' & Hid & Hother & Hown & _).
  assert (sql_fault "hierarchy.GetAll" = None) as Hf.
  { unfold hierarchyDB_GetAll, stmt in Hm. by destruct (sql_fault _). }
  destruct (hierarchyDB_GetAll_total s' Hf) as [m' Hm'].
  { intros row Hr. destruct (decide (h_resource_type_id row = rth_ResourceTypeID h)); [exists h; by apply Hown|].
    eapply hierarchyDB_GetAll_readable; [exact Hm|]. by apply Hother. }
  rewrite Hm'. f_equal. apply map_eq. intros id. apply option_eq. intros t.
  rewrite (hierarchyDB_GetAll_spec _ _ Hnd' Hm'), lookup_insert_Some, (hierarchyDB_GetAll_spec _ _ Hnd Hm). split.
  - intros (row & Hr & <- & Ht). destruct (decide (h_resource_type_id row = rth_ResourceTypeID h)) as [E|E].
    + left. split; [done|]. rewrite (Hown _ Hr E) in Ht. by injection Ht.
    + right. split; [done|]. exists row. by rewrite <-Hother.
  - intros [[<- <-]|[Hne (row & Hr & <- & Ht)]].
    + apply list_elem_of_fmap in Hid as (row & E & Hr). exists row. split_and!; [done|done|]. by apply Hown.
    + exists row. by rewrite Hother.
Qed.

(** C39. On a readable store, setting a tree succeeds exactly when every type
    in it is declared and no node has two children of one type.  Then the
    service returns the trees it returned before with this one under its
    root, and no other table changes; otherwise nothing changes. *)
Theorem SetPrivate_exact h s m types :
  NoDup (h_resource_type_id <$> t_resource_type_hierarchy s) → hierarchy_GetAll s = Ok m →
  resourceTypeDB_GetAllInternalWithHidden s = Ok types → (∀ label, sql_fault label = None) →
  (valid_tree (rt_ID <$> types) h → ∃ s', hierarchy_SetPrivate h s = (Ok tt, s') ∧
     hierarchy_GetAll s' = Ok (<[rth_ResourceTypeID h := h]> m) ∧
     NoDup (h_resource_type_id <$> t_resource_type_hierarchy s') ∧
     (t_policy s', t_role s', t_role_member s', t_obligation s', t_obligation_type s', t_resource_type s') =
     (t_policy s, t_role s, t_role_member s, t_obligation s, t_obligation_type s, t_resource_type s)) ∧
  (¬ valid_tree (rt_ID <$> types) h → ∃ e, hierarchy_SetPrivate h s = (Err e, s)).
Proof.
  intros Hnd Hm Ht Hf. destruct (checkDuplicate_spec s types h Ht) as [Hc Hpf]. unfold hierarchy_SetPrivate. split.
  - intros Hv%Hc. rewrite (M_bind_unfold _ _ _ tt s) by (by rewrite reads_eq, Hv).
    assert (∃ s', hierarchyDB_Set h s = (Ok tt, s')) as [s' Hs].
    { unfold hierarchyDB_Set. rewrite (M_bind_unfold _ _ _ (bool_decide (rth_ResourceTypeID h ∈
        h_resource_type_id <$> t_resource_type_hierarchy s)) s).
      - unfold exec. case_bool_decide; rewrite Hf; eauto.
      - rewrite reads_eq. unfold stmt. by rewrite Hf. }
    exists s'. destruct (hierarchyDB_Set_rows h s s' Hnd Hs) as (Hnd' & _ & _ & _ & Htabs).
    split_and!; [done|exact (hierarchyDB_Set_read_back h s s' m Hnd Hm Hs)|done|done].
  - intros Hv. destruct (checkDuplicate s h) as [[]|e|w] eqn:E.
    + by destruct Hv; apply Hc.
    + exists e. apply M_bind_Err. by rewrite reads_eq, E.
    + by destruct (Hpf w).
Qed.

(** ** Looking a type up in the stored trees *)
Lemma first_some_Some {A B} (f : A → option B) l b : first_some f l = Some b → ∃ x, x ∈ l ∧ f x = Some b.
Proof.
  induction l as [|x l IH]; simpl; [done|]. destruct (f x) as [b'|] eqn:E.
  - intros [= ->]. exists x. split; [left|done].
  - intros (y & Hy & Hf)%IH. exists y. split; [by right|done].
Qed.
Lemma first_some_None {A B} (f : A → option B) l : first_some f l = None ↔ ∀ x, x ∈ l → f x = None.
Proof.
  induction l as [|x l IH]; simpl; [split; [by intros _ x ?%elem_of_nil|done]|].
  destruct (f x) as [b'|] eqn:E; [|rewrite IH; set_solver]. split; [done|]. intros Hx. by rewrite Hx in E by left.
Qed.

Lemma findInChildren_Some h id n :
  findInChildren (rth_Children h) id = Some n → n ∈ preorder h ∧ rth_ResourceTypeID n = id.
Proof.
  unfold findInChildren. rewrite (first_some_find _ preorder (λ n, rth_ResourceTypeID n = id))
    by (apply Forall_true; intros; apply findInChild_find).
  intros Hh. apply head_Some_elem_of in Hh. apply list_elem_of_filter in Hh as [Hid Hn].
  split; [|done]. destruct h as [id' cs]. by right.
Qed.
Lemma findInChildren_None h id n :
  findInChildren (rth_Children h) id = None → n ∈ preorder h → rth_ResourceTypeID n = id → n = h.
Proof.
  unfold findInChildren. rewrite (first_some_find _ preorder (λ n, rth_ResourceTypeID n = id))
    by (apply Forall_true; intros; apply findInChild_find).
  rewrite head_None. intros Hf Hn Hid. destruct h as [id' cs]. apply elem_of_cons in Hn as [->|Hn]; [done|].
  by destruct (filter_nil_not _ _ n Hf Hn).
Qed.

(** The type occurs in a stored tree. *)
Definition in_hierarchy (m : gmap string ResourceTypeHierarchy) (id : string) (n : ResourceTypeHierarchy) : Prop :=
  ∃ root h, m !! root = Some h ∧ n ∈ preorder h ∧ rth_ResourceTypeID n = id.

(** [HasHierarchy] tells whether the type occurs anywhere in the stored
    trees.  [Get] returns the tree stored for the type when it is a root, a
    subtree of that type when it occurs below a root only, and the empty tree
    when it does not occur; which of several subtrees is left open by the
    iteration order of the map. *)
Theorem hierarchy_lookup_exact s m id :
  (∀ root h, m !! root = Some h → rth_ResourceTypeID h = root) → hierarchy_GetAll s = Ok m →
  (∃ b, hierarchy_HasHierarchy s id = Ok b ∧ (b = true ↔ ∃ n, in_hierarchy m id n)) ∧
  (∃ t, hierarchy_Get s id = Ok t ∧
     (∀ h, m !! id = Some h → t = h) ∧
     (in_hierarchy m id t ∨ ((∀ n, ¬ in_hierarchy m id n) ∧ t = Hierarchy_zero))).
Proof.
  intros Hroots Hm. unfold hierarchy_HasHierarchy, hierarchy_Get. unfold hierarchy_GetAll in Hm. rewrite Hm. simpl. split.
  - eexists. split; [done|]. rewrite existsb_exists. setoid_rewrite <-list_elem_of_In. split.
    + intros ([root h] & Hr%elem_of_range & [E|E]%orb_true_iff); rewrite bool_decide_eq_true in E; simpl in E.
      * subst. exists h, id, h. split_and!; [done| |by apply Hroots]. destruct h. left.
      * destruct E as [n Hn]. apply findInChildren_Some in Hn as [? ?]. by exists n, root, h.
    + intros (n & root & h & Hr & Hn & Hid). exists (root, h). split; [by apply elem_of_range|]. simpl.
      apply orb_true_iff. rewrite !bool_decide_eq_true.
      destruct (findInChildren (rth_Children h) id) as [n'|] eqn:E; [right; by eexists|left].
      rewrite <-(Hroots _ _ Hr). by rewrite <-(findInChildren_None h id n E Hn Hid).
  - destruct (m !! id) as [h|] eqn:Eid.
    + exists h. split_and!; [done|by intros ? [= <-]|]. left. exists id, h. split_and!; [done| |by apply Hroots].
      destruct h. left.
    + eexists. split_and!; [done|by intros|].
      destruct (first_some _ (range 74 m)) as [n|] eqn:E; simpl.
      * left. apply first_some_Some in E as ([root h] & Hr%elem_of_range & Hn). simpl in Hn.
        apply findInChildren_Some in Hn as [? ?]. by exists root, h.
      * right. split; [|done]. intros n (root & h & Hr & Hn & Hid). rewrite first_some_None in E.
        specialize (E (root, h) (proj2 (elem_of_range _ _ _ _) Hr)). simpl in E.
        pose proof (findInChildren_None h id n E Hn Hid) as ->. rewrite (Hroots _ _ Hr) in Hid. subst.
        by rewrite Eid in Hr.
Qed.
End trees.

(** ** Operations *)
Section operations.
Context `{GoRuntime} `{SqlEnv}.

(** The operations of a declared child, without the table of operations. *)
Definition operationsOfChild (visitor : Visitor) (scope : string) (resourceTypeMap : gmap string ResourceType)
    (child : ResourceTypeHierarchy) : option ChildrenResourceTypeOperation :=
  t ← resourceTypeMap !! rth_ResourceTypeID child;
  Some {| cro_ResourceTypeID := rth_ResourceTypeID child; cro_Name := rt_Name t;
          cro_Operations := getOperations visitor t scope; cro_Children := [] |}.

(** Saving the operations of a child type does not change the answer. *)
Lemma getChildrenOperations_spec visitor h scope types :
  getChildrenOperations visitor h scope types = omap (operationsOfChild visitor scope types) (rth_Children h).
Proof.
  unfold getChildrenOperations. generalize (rth_Children h). intros cs.
  assert (∀ acc (saved : gmap string (list ResourceTypeOperationResponse)),
    (∀ id ops, saved !! id = Some ops → ∃ t, types !! id = Some t ∧ ops = getOperations visitor t scope) →
    (foldl (childOperation visitor scope types) (saved, acc) cs).2 =
    acc ++ omap (operationsOfChild visitor scope types) cs) as Hg; [|by apply (Hg [] ∅)].
  induction cs as [|c cs IH]; intros acc saved Hs; simpl; [by rewrite app_nil_r|].
  unfold operationsOfChild at 1.
  destruct (types !! rth_ResourceTypeID c) as [t|] eqn:Et; simpl; [|by apply IH].
  destruct (saved !! rth_ResourceTypeID c) as [ops|] eqn:Es.
  - destruct (Hs _ _ Es) as (t' & Ht' & ->). rewrite Et in Ht'. injection Ht' as <-. by rewrite IH, <-app_assoc.
  - rewrite IH, <-app_assoc; [done|]. intros id ops [[<- <-]|[_ Ho]]%lookup_insert_Some; eauto.
Qed.
End operations.
