(* ===== verification/ResourceTypeOps.v ===== *)
(** * Effects on the table of resource types

    What setting, initialising and deleting types leaves in the table, and
    that no sequence of calls makes a stored type or tree unreadable. *)
From S2P Require Import Prelude Json Interfaces Common Store Policy Role RoleSpec RoleOps RoleAdmin ResourceTypeDB ResourceType ResourceTypeSpec.

(** ** The id of a type *)
Lemma all_chars_forall p s : all_chars p s = true ↔ ∀ c, contains_char c s = true → p c = true.
Proof.
  induction s as [|c s IH]; simpl; [done|]. rewrite andb_true_iff, IH. setoid_rewrite orb_true_iff.
  setoid_rewrite bool_decide_eq_true. naive_solver.
Qed.

(** 1 to 50 bytes, letters, digits and underlines. *)
Definition legal_type_id (id : string) : Prop :=
  1 ≤ String.length id ≤ 50 ∧ ∀ c, contains_char c id = true → id_char c = true.

Lemma checkTypeID_Ok id : checkTypeID id = Ok tt ↔ legal_type_id id.
Proof.
  unfold checkTypeID, legal_type_id, nameMaxLength. split.
  - intros Hc. apply bind_Ok in Hc as ([] & Hl%fail_if_Ok & Hc%fail_if_Ok). apply Nat.ltb_ge in Hl.
    apply orb_false_iff in Hc as [Hne Hc]. rewrite bool_decide_eq_false in Hne.
    rewrite negb_false_iff, all_chars_forall in Hc. split; [|done]. split; [|done].
    destruct id; [done|]. simpl. lia.
  - intros [[Hl1 Hl2] Hc]. rewrite (proj2 (Nat.ltb_ge _ _)) by done. simpl.
    rewrite bool_decide_eq_false_2 by (by intros ->; simpl in Hl1; lia). simpl.
    by rewrite (proj2 (all_chars_forall _ _) Hc).
Qed.

(** ** Reading *)

(** What is read of a type that was set: the column [f_hidden] is not
    selected, the times are not selected either. *)
Definition stored_type (t : ResourceType) : ResourceType :=
  {| rt_ID := rt_ID t; rt_Name := rt_Name t; rt_Description := rt_Description t; rt_InstanceURL := rt_InstanceURL t;
     rt_DataStruct := rt_DataStruct t; rt_Operation := rt_Operation t; rt_Hidden := false;
     rt_CreateTime := 0; rt_ModifyTime := 0 |}.

Section reads.
Context `{GoRuntime} `{SqlEnv}.

Lemma scanResourceType_id b row t : scanResourceType b row = Ok t → rt_ID t = t_id row.
Proof. unfold scanResourceType. intros Hs. by apply bind_Ok in Hs as (ops & _ & [= <-]). Qed.

Lemma scannedTypes_ids b rows ts :
  omap_all (scanResourceType b) rows = Ok ts → rt_ID <$> ts = t_id <$> rows.
Proof.
  intros Hs. apply omap_all_Ok in Hs. induction Hs as [|row t rows ts Hr _ IH]; csimpl; [done|].
  by rewrite (scanResourceType_id _ _ _ Hr), IH.
Qed.

Lemma types_by_ids s ids m :
  NoDup (t_id <$> t_resource_type s) → resourceTypeDB_GetByIDs s ids = Ok m →
  ∀ id t, m !! id = Some t ↔
    ∃ row, row ∈ t_resource_type s ∧ t_id row = id ∧ id ∈ ids ∧ scanResourceType false row = Ok t.
Proof.
  intros Hnd Hg id t. unfold resourceTypeDB_GetByIDs in Hg. case_bool_decide as E.
  { injection Hg as <-. apply length_zero_iff_nil in E as ->. rewrite lookup_empty. set_solver. }
  apply stmt_Ok in Hg. apply bind_Ok in Hg as (ts & Hs & [= <-]).
  assert (NoDup (rt_ID <$> ts)) as Hnd'.
  { rewrite (scannedTypes_ids _ _ _ Hs), range_order_perm. by apply NoDup_fmap_filter. }
  rewrite (lookup_keyed rt_ID ts id t Hnd'), (omap_all_elem _ _ _ _ Hs).
  setoid_rewrite elem_of_range_order. setoid_rewrite list_elem_of_filter. split.
  - intros [(row & [Hi Hr] & Hsc) <-]. rewrite (scanResourceType_id _ _ _ Hsc). by exists row.
  - intros (row & Hr & <- & Hi & Hsc). split; [by exists row|]. by apply (scanResourceType_id _ _ _ Hsc).
Qed.

(** Every stored row can be read. *)
Definition readable (row : resource_type_row) : Prop := ∃ ops, unmarshalOperations (t_operation row) = Ok ops.
Record type_table (s : store) : Prop := {
  ty_ids : NoDup (t_id <$> t_resource_type s);
  ty_readable : Forall readable (t_resource_type s);
  ty_trees : NoDup (h_resource_type_id <$> t_resource_type_hierarchy s);
  ty_trees_readable : Forall (λ row, ∃ h, scanHierarchy row = Ok h) (t_resource_type_hierarchy s)
}.

Lemma scan_readable b row : readable row → ∃ t, scanResourceType b row = Ok t.
Proof. intros [ops Ho]. unfold scanResourceType. rewrite Ho. by eexists. Qed.

Lemma types_by_ids_total s ids :
  sql_fault "resourceType.GetByIDs" = None → Forall readable (t_resource_type s) →
  ∃ m, resourceTypeDB_GetByIDs s ids = Ok m.
Proof.
  intros Hf Hr. unfold resourceTypeDB_GetByIDs. case_bool_decide; [by eexists|]. unfold stmt. rewrite Hf.
  destruct (omap_all_total (scanResourceType false)
    (range_order 70 (filter (λ row, t_id row ∈ ids) (t_resource_type s)))) as [ts ->]; [|by eexists].
  intros row. rewrite elem_of_range_order, list_elem_of_filter. intros [_ Hrow]. rewrite Forall_forall in Hr.
  by apply scan_readable, Hr.
Qed.

(** ** Setting a type *)
Lemma Set_rows t s s' :
  NoDup (t_id <$> t_resource_type s) → resourceTypeDB_Set t s = (Ok tt, s') →
  NoDup (t_id <$> t_resource_type s') ∧ rt_ID t ∈ t_id <$> t_resource_type s' ∧
  (∀ row, t_id row ≠ rt_ID t → row ∈ t_resource_type s' ↔ row ∈ t_resource_type s) ∧
  (∀ row, row ∈ t_resource_type s' → t_id row = rt_ID t →
     scanResourceType false row = Ok (stored_type t) ∧ t_hidden row = rt_Hidden t) ∧
  (t_policy s', t_role s', t_role_member s', t_obligation s', t_obligation_type s', t_resource_type_hierarchy s') =
  (t_policy s, t_role s, t_role_member s, t_obligation s, t_obligation_type s, t_resource_type_hierarchy s).
Proof.
  intros Hnd Hs. unfold resourceTypeDB_Set in Hs. mstep Hs as found Hq. apply stmt_Ok in Hq. injection Hq as <-.
  set (upd := λ row, {| t_primary := t_primary row; t_id := t_id row; t_name := rt_Name t;
    t_description := rt_Description t; t_instance_url := rt_InstanceURL t; t_data_struct := rt_DataStruct t;
    t_operation := marshalOperations (rt_Operation t); t_hidden := rt_Hidden t;
    t_create_time := t_create_time row; t_modify_time := curTime |}).
  destruct (upsert_rows t_id (rt_ID t) upd (newResourceTypeRow (seq_primary s) t) (t_resource_type s)
    (t_resource_type s')) as (Hnd' & Hid & Hrows); [done|done|done| |].
  { case_bool_decide; apply exec_cases in Hs as [[_ ->]|(? & ? & _)]; done. }
  split_and!; [done|done| | |].
  - intros row Hne. rewrite Hrows. split; [|by left]. intros [[? _]|[(r0 & _ & Hk & ->)|[_ ->]]]; done.
  - intros row Hr Hk. apply Hrows in Hr as [[_ ?]|[(r0 & _ & Hk0 & ->)|[_ ->]]]; [done| |]; unfold scanResourceType;
      cbn [t_operation t_id t_name t_description t_instance_url t_data_struct t_hidden upd newResourceTypeRow];
      rewrite operations_round_trip, ?Hk0; done.
  - case_bool_decide; apply exec_cases in Hs as [[_ ->]|(? & ? & _)]; done.
Qed.

Lemma stored_readable row t : scanResourceType false row = Ok t → readable row.
Proof. unfold scanResourceType, readable. intros Hs. apply bind_Ok in Hs as (ops & Ho & _). eauto. Qed.

Lemma Set_keeps_table t s s' : type_table s → resourceTypeDB_Set t s = (Ok tt, s') → type_table s'.
Proof.
  intros [Hi Hr Hh Hhr] Hs. destruct (Set_rows t s s' Hi Hs) as (Hnd' & _ & Hother & Hown & Htabs).
  injection Htabs as _ _ _ _ _ Hhier. split; rewrite ?Hhier; [done| |done|done].
  rewrite Forall_forall in Hr |- *. intros row Hrow. destruct (decide (t_id row = rt_ID t)) as [E|E].
  - eapply stored_readable, Hown; done.
  - by apply Hr, Hother.
Qed.
End reads.

(** ** Every call keeps the tables readable *)
Section calls.
Context `{GoRuntime}.

(** A statement that fails leaves the store alone. *)
Lemma Set_cases (env : SqlEnv) t s r s' : resourceTypeDB_Set t s = (r, s') → r = Ok tt ∨ s' = s.
Proof.
  intros Hs. unfold resourceTypeDB_Set in Hs. mcase Hs; [|by right..].
  case_match; apply exec_cases in Hs as [[-> _]|(? & _ & ->)]; auto.
Qed.
Lemma hierarchyDB_Set_cases (env : SqlEnv) h s r s' : hierarchyDB_Set h s = (r, s') → r = Ok tt ∨ s' = s.
Proof.
  intros Hs. unfold hierarchyDB_Set in Hs. mcase Hs; [|by right..].
  case_match; apply exec_cases in Hs as [[-> _]|(? & _ & ->)]; auto.
Qed.

#[local] Instance type_table_preorder : PreOrder (λ s s', type_table s → type_table s').
Proof. split; [by intros s|]. by intros s1 s2 s3 H12 H23 ?%H12%H23. Qed.
Abbreviation keeps_table := (within (λ s s', type_table s → type_table s')).

Lemma keeps_Set (env : SqlEnv) t : keeps_table (resourceTypeDB_Set t).
Proof.
  intros s r s' Hs Ht. destruct (Set_cases _ _ _ _ _ Hs) as [->| ->]; [|done]. by eapply Set_keeps_table.
Qed.
Lemma keeps_Delete (env : SqlEnv) id : keeps_table (resourceTypeDB_Delete id).
Proof.
  intros s r s' Hs [Hi Hr Hh Hhr]. apply exec_cases in Hs as [[_ ->]|(? & _ & ->)]; [|done]. split; simpl; try done.
  - by apply NoDup_fmap_filter.
  - rewrite Forall_forall in *. intros row [_ ?]%list_elem_of_filter. by apply Hr.
Qed.
Lemma keeps_hierarchy_Set (env : SqlEnv) h : keeps_table (hierarchyDB_Set h).
Proof.
  intros s r s' Hs Ht. destruct (hierarchyDB_Set_cases _ _ _ _ _ Hs) as [->| ->]; [|done].
  destruct Ht as [Hi Hr Hh Hhr]. destruct (hierarchyDB_Set_rows h s s' Hh Hs) as (Hnd' & _ & Hother & Hown & Htabs).
  injection Htabs as _ _ _ _ _ Htypes. split; rewrite ?Htypes; try done.
  rewrite Forall_forall in *. intros row Hrow.
  destruct (decide (h_resource_type_id row = rth_ResourceTypeID h)) as [E|E]; [exists h; by apply Hown|].
  by apply Hhr, Hother.
Qed.
#[local] Hint Resolve keeps_Set keeps_Delete keeps_hierarchy_Set : isf.

Ltac keeps_tables := follow ltac:(by auto with isf).

Context `{DrivenUserMgnt}.

(** One call of the two services, under any clock and any database faults. *)
Inductive type_call : store → store → Prop :=
| call_Set (env : SqlEnv) visitor t s r s' : resourceType_Set visitor t s = (r, s') → type_call s s'
| call_SetPrivate (env : SqlEnv) t s r s' : resourceType_SetPrivate t s = (r, s') → type_call s s'
| call_Delete (env : SqlEnv) visitor id s r s' : resourceType_Delete visitor id s = (r, s') → type_call s s'
| call_InitResourceTypes (env : SqlEnv) ts s r s' : resourceType_InitResourceTypes ts s = (r, s') → type_call s s'
| call_SetHierarchy (env : SqlEnv) h s r s' : hierarchy_SetPrivate h s = (r, s') → type_call s s'
| call_InitHierarchy (env : SqlEnv) str s r s' : hierarchy_Init str s = (r, s') → type_call s s'.

Lemma type_call_keeps s s' : type_call s s' → type_table s → type_table s'.
Proof.
  assert (∀ (env : SqlEnv) t, keeps_table (setWhenChanged t)) as Hset by (intros; unfold setWhenChanged; keeps_tables).
  intros Hc Ht. destruct Hc as [env v t s r s' Hc|env t s r s' Hc|env v id s r s' Hc|env ts s r s' Hc
    |env h s r s' Hc|env str s r s' Hc]; revert Hc Ht.
  - apply (λ k : keeps_table _, k s r s'). unfold resourceType_Set. keeps_tables.
  - apply (λ k : keeps_table _, k s r s'). unfold resourceType_SetPrivate. keeps_tables.
  - apply (λ k : keeps_table _, k s r s'). unfold resourceType_Delete. keeps_tables.
  - apply (λ k : keeps_table _, k s r s'). unfold resourceType_InitResourceTypes. keeps_tables.
  - apply (λ k : keeps_table _, k s r s'). unfold hierarchy_SetPrivate. keeps_tables.
  - apply (λ k : keeps_table _, k s r s'). unfold hierarchy_Init, hierarchy_SetPrivate. keeps_tables.
Qed.

(** C29. Whatever calls of the resource-type and hierarchy services arrive, in
    any order and with any database faults, ids stay unique and every stored
    operation list and every stored tree stays readable: a read that the
    database does not refuse succeeds. *)
Theorem types_stay_readable (env : SqlEnv) s s' ids :
  type_table s → rtc type_call s s' → (∀ label, sql_fault label = None) →
  type_table s' ∧
  (∃ m, resourceType_GetByIDsInternal s' ids = Ok m) ∧ (∃ ts, resourceType_GetAllInternal s' = Ok ts) ∧
  (∃ ts, resourceTypeDB_GetAllInternalWithHidden s' = Ok ts) ∧ (∃ m, hierarchy_GetAll s' = Ok m).
Proof.
  intros Ht Hc Hf. assert (type_table s') as Ht'.
  { induction Hc as [|s s1 s' Hc _ IH]; [done|]. by apply IH, (type_call_keeps s). }
  destruct Ht' as [Hi Hr Hh Hhr] eqn:E. clear E.
  assert (∀ l, (∀ row, row ∈ l → row ∈ t_resource_type s') → ∃ ts, omap_all (scanResourceType false) l = Ok ts) as Hall.
  { intros l Hl. apply omap_all_total. intros row Hrow. rewrite Forall_forall in Hr. by apply scan_readable, Hr, Hl. }
  split_and!; [done|by apply types_by_ids_total| | |].
  - unfold resourceType_GetAllInternal, resourceTypeDB_GetAllInternal, stmt. rewrite Hf. apply Hall.
    intros row. rewrite elem_of_range_order, list_elem_of_filter. by intros [_ ?].
  - unfold resourceTypeDB_GetAllInternalWithHidden, stmt. rewrite Hf. apply Hall. intros row. by rewrite elem_of_range_order.
  - apply hierarchyDB_GetAll_total; [done|]. by rewrite Forall_forall in Hhr.
Qed.
End calls.

(** ** Setting and reading back *)
Section set.
Context `{GoRuntime} `{DrivenUserMgnt} `{SqlEnv}.

(** A successful [Set] was asked by an administrator for a legal id;
    afterwards the services read the type as it was set and every other type
    as before, and no other table changed. *)
Theorem Set_read_back visitor t s s' ids m :
  type_table s → resourceType_Set visitor t s = (Ok tt, s') → resourceType_GetByIDsInternal s ids = Ok m →
  is_admin visitor ∧ legal_type_id (rt_ID t) ∧ type_table s' ∧
  resourceType_GetByIDsInternal s' ids =
    Ok (if bool_decide (rt_ID t ∈ ids) then <[rt_ID t := stored_type t]> m else m) ∧
  (t_policy s', t_role s', t_role_member s', t_obligation s', t_obligation_type s', t_resource_type_hierarchy s') =
  (t_policy s, t_role s, t_role_member s, t_obligation s, t_obligation_type s, t_resource_type_hierarchy s).
Proof.
  intros Ht Hs Hm. unfold resourceType_Set in Hs. mstep Hs as [] Hv. mstep Hs as [] Hid.
  pose proof (Set_keeps_table t s s' Ht Hs) as Ht'.
  destruct (Set_rows t s s' (ty_ids s Ht) Hs) as (_ & Hin & Hother & Hown & Htabs).
  split; [by apply role_checkVisitorType_Ok|]. split; [by apply checkTypeID_Ok|]. split_and!; [done| |done].
  assert (∃ m', resourceTypeDB_GetByIDs s' ids = Ok m') as [m' Hm'].
  { unfold resourceType_GetByIDsInternal, resourceTypeDB_GetByIDs in *. case_bool_decide; [by eexists|].
    assert (sql_fault "resourceType.GetByIDs" = None) as Hf by (unfold stmt in Hm; by destruct (sql_fault _)).
    pose proof (types_by_ids_total s' ids Hf (ty_readable s' Ht')) as Htot. unfold resourceTypeDB_GetByIDs in Htot.
    by rewrite bool_decide_eq_false_2 in Htot. }
  unfold resourceType_GetByIDsInternal in *. rewrite Hm'. f_equal. apply map_eq. intros id. apply option_eq. intros t'.
  rewrite (types_by_ids _ _ _ (ty_ids s' Ht') Hm').
  assert (m !! id = Some t' ↔ ∃ row, row ∈ t_resource_type s ∧ t_id row = id ∧ id ∈ ids ∧
    scanResourceType false row = Ok t') as Hspec by apply (types_by_ids _ _ _ (ty_ids s Ht) Hm).
  destruct (decide (id = rt_ID t)) as [->|Hne].
  - case_bool_decide as E; [rewrite lookup_insert_eq|].
    + split.
      * intros (row & Hr & Hk & _ & Hsc). destruct (Hown row Hr Hk) as [Hsc' _]. congruence.
      * intros [= <-]. apply list_elem_of_fmap in Hin as (row & Hk & Hr). exists row.
        destruct (Hown row Hr (eq_sym Hk)) as [Hsc' _]. by rewrite <-Hk.
    + rewrite Hspec. split; by intros (row & _ & _ & ? & _).
  - assert ((if bool_decide (rt_ID t ∈ ids) then <[rt_ID t:=stored_type t]> m else m) !! id = m !! id) as ->.
    { case_bool_decide; [|done]. by rewrite lookup_insert_ne. }
    rewrite Hspec. split; intros (row & Hr & Hk & Hi & Hsc); exists row; (split; [apply Hother; [congruence|done]|done]).
Qed.

(** ** Start-up *)
Lemma stored_unchanged t : rt_Hidden t = false → checkResourceTypeChange (stored_type t) t = false.
Proof. intros Hh. unfold checkResourceTypeChange. simpl. rewrite !bool_decide_eq_true_2 by done. done. Qed.

(** The table holds the type, with nothing to change. *)
Definition settled (s : store) (t : ResourceType) : Prop :=
  ∃ row info, row ∈ t_resource_type s ∧ t_id row = rt_ID t ∧ scanResourceType false row = Ok info ∧
    checkResourceTypeChange info t = false.

Lemma Set_settles t s s' :
  type_table s → rt_Hidden t = false → resourceTypeDB_Set t s = (Ok tt, s') →
  settled s' t ∧ ∀ u, rt_ID u ≠ rt_ID t → settled s u → settled s' u.
Proof.
  intros Ht Hh Hs. destruct (Set_rows t s s' (ty_ids s Ht) Hs) as (_ & Hin & Hother & Hown & _). split.
  - apply list_elem_of_fmap in Hin as (row & Hk & Hr). exists row, (stored_type t).
    split_and!; [done|done|by apply Hown|by apply stored_unchanged].
  - intros u Hne (row & info & Hr & Hk & Hrest). exists row, info. split_and!; [|done|apply Hrest..].
    apply Hother; [congruence|done].
Qed.

Lemma setWhenChanged_settles t s s' :
  type_table s → rt_Hidden t = false → setWhenChanged t s = (Ok tt, s') →
  type_table s' ∧ settled s' t ∧ ∀ u, rt_ID u ≠ rt_ID t → settled s u → settled s' u.
Proof.
  intros Ht Hh Hs. unfold setWhenChanged in Hs. mstep Hs as m Hm.
  assert (resourceTypeDB_Set t s = (Ok tt, s') →
    type_table s' ∧ settled s' t ∧ ∀ u, rt_ID u ≠ rt_ID t → settled s u → settled s' u) as Hset.
  { intros Hs'. split; [by eapply Set_keeps_table|by apply Set_settles]. }
  destruct (m !! rt_ID t) as [info|] eqn:E; [|by apply Hset].
  destruct (checkResourceTypeChange info t) eqn:Ec; [by apply Hset|]. injection Hs as <-.
  apply (types_by_ids _ _ _ (ty_ids s Ht) Hm) in E as (row & Hr & Hk & _ & Hsc).
  split_and!; [done|by exists row, info|done].
Qed.

Lemma settled_no_write t s :
  type_table s → sql_fault "resourceType.GetByIDs" = None → settled s t → setWhenChanged t s = (Ok tt, s).
Proof.
  intros Ht Hf (row & info & Hr & Hk & Hsc & Hc). unfold setWhenChanged.
  destruct (types_by_ids_total s [rt_ID t] Hf (ty_readable s Ht)) as [m Hm].
  rewrite (M_bind_unfold _ _ _ m s) by (by rewrite reads_eq, Hm).
  assert (m !! rt_ID t = Some info) as ->; [|by rewrite Hc].
  apply (types_by_ids _ _ _ (ty_ids s Ht) Hm). exists row. split_and!; [done|done|left|done].
Qed.

Lemma init_settles ts s s' :
  type_table s → NoDup (rt_ID <$> ts) → Forall (λ t, rt_Hidden t = false) ts →
  resourceType_InitResourceTypes ts s = (Ok tt, s') →
  type_table s' ∧ Forall (settled s') ts ∧ ∀ u, (rt_ID u ∉ rt_ID <$> ts) → settled s u → settled s' u.
Proof.
  unfold resourceType_InitResourceTypes. revert s. induction ts as [|t ts IH]; csimpl; intros s Ht Hnd Hh Hs.
  { injection Hs as <-. by split_and!. }
  apply NoDup_cons in Hnd as [Hout Hnd]. apply Forall_cons in Hh as [Hh Hhs].
  mstep Hs as [] E. rename s' into s2. match type of E with _ = (_, ?s1) => rename s1 into s1 end.
  destruct (setWhenChanged_settles t s _ Ht Hh E) as (Ht1 & Hst & Hkeep).
  destruct (IH _ Ht1 Hnd Hhs Hs) as (Ht2 & Hsts & Hkeep2). split_and!; [done|constructor; [by apply Hkeep2|done]|].
  intros u [Hne Hu]%not_elem_of_cons Hset. by apply Hkeep2, Hkeep.
Qed.
End set.

(** Initialising the resource types twice is the same as once: after a
    start that succeeded, the next start writes nothing (types that are not
    hidden; [f_hidden] is not read back, so hidden types are rewritten at
    every start). *)
Theorem InitResourceTypes_idempotent `{GoRuntime} (env env' : SqlEnv) ts s s' :
  type_table s → NoDup (rt_ID <$> ts) → Forall (λ t, rt_Hidden t = false) ts →
  @resourceType_InitResourceTypes _ env ts s = (Ok tt, s') → @sql_fault env' "resourceType.GetByIDs" = None →
  @resourceType_InitResourceTypes _ env' ts s' = (Ok tt, s').
Proof.
  intros Ht Hnd Hh Hs Hf. destruct (init_settles ts s s' Ht Hnd Hh Hs) as (Ht' & Hsts & _). clear Hs Hnd Hh.
  unfold resourceType_InitResourceTypes. induction Hsts as [|t ts Hst _ IH]; simpl; [done|].
  by rewrite (M_bind_unfold _ _ _ tt s') by (by apply settled_no_write).
Qed.
