(* ===== verification/ObligationDB.v ===== *)
(** * Storage of obligations and obligation types
      ([Authorization/dbaccess/obligation.go], [obligation_type.go])

    The JSON text of the resource types and operations an obligation type
    applies to, and every statement on [t_obligation] and
    [t_obligation_type]. *)
From S2P Require Import Prelude Json Interfaces Common Store.

(** ** The scope of an obligation type *)

(** [operations] is declared nil and filled by [append]: without operations it
    is marshalled as [null]. *)
Definition operationsScopeJSON (scope : ObligationOperationsScopeInfo) : json :=
  if oos_Unlimited scope
  then jobj [("unlimited", JBool true); ("operations", JArr [])]
  else jobj [("unlimited", JBool false);
             ("operations", match oos_Operations scope with
                            | [] => JNull
                            | ops => JArr ((λ op, jobj [("id", JStr (oop_ID op))]) <$> ops)
                            end)].
Definition resourceTypeScopeJSON (rt : ObligationResourceTypeScope) : json :=
  jobj [("id", JStr (ors_ResourceTypeID rt)); ("applicable_operations", operationsScopeJSON (ors_OperationsScope rt))].
Definition obligationType_scopeToString (info : ObligationResourceTypeScopeInfo) : text :=
  marshal (if orsi_Unlimited info
           then jobj [("unlimited", JBool true); ("resource_types", JArr [])]
           else jobj [("unlimited", JBool false); ("resource_types", JArr (resourceTypeScopeJSON <$> orsi_Types info))]).

(** Every assertion here panics on a value of another kind. *)
Definition readObligationOperation (operationJson : json) : outcome ObligationOperation :=
  operationJsonMap ← assert_map operationJson;
  operationID ← assert_string (jget operationJsonMap "id");
  Ok {| oop_ID := operationID; oop_Name := "" |}.
Definition readOperationsScope (operationsScopeJson : gmap string json) : outcome ObligationOperationsScopeInfo :=
  unlimited ← assert_bool (jget operationsScopeJson "unlimited");
  if (unlimited : bool) then Ok {| oos_Unlimited := true; oos_Operations := [] |}
  else
    operationsJson ← assert_slice (jget operationsScopeJson "operations");
    operations ← omap_all readObligationOperation operationsJson;
    Ok {| oos_Unlimited := false; oos_Operations := operations |}.
Definition readResourceTypeScope (resourceTypeJson : json) : outcome ObligationResourceTypeScope :=
  resourceTypeJsonMap ← assert_map resourceTypeJson;
  resourceTypeID ← assert_string (jget resourceTypeJsonMap "id");
  operationsScopeJson ← assert_map (jget resourceTypeJsonMap "applicable_operations");
  operationsScopeInfo ← readOperationsScope operationsScopeJson;
  Ok {| ors_ResourceTypeID := resourceTypeID; ors_ResourceTypeName := "";
        ors_OperationsScope := operationsScopeInfo |}.
Definition stringToResourceTypeScopeInfo (jsonStr : text) : outcome ObligationResourceTypeScopeInfo :=
  data ← unmarshal_map jsonStr;
  unlimited ← assert_bool (jget data "unlimited");
  if (unlimited : bool) then Ok {| orsi_Unlimited := true; orsi_Types := [] |}
  else
    resourceTypesJson ← assert_slice (jget data "resource_types");
    types ← omap_all readResourceTypeScope resourceTypesJson;
    Ok {| orsi_Unlimited := false; orsi_Types := types |}.

(** [json.Unmarshal] into an [any]. *)
Definition unmarshal_value (t : text) : outcome json :=
  match t with TJson j => Ok j | TRaw _ => Err json_syntax_error end.
(** [if str != "" { json.Unmarshal(str, &v) }], with the value [v] had. *)
Definition unmarshal_optional (v : json) (t : text) : outcome json :=
  if bool_decide (t = TRaw "") then Ok v else unmarshal_value t.
(** [var bytes []byte; if v != nil { bytes = json.Marshal(v) }; string(bytes)] *)
Definition marshal_optional (v : json) : text :=
  match v with JNull => TRaw "" | _ => marshal v end.

Definition ObligationTypeInfo_zero : ObligationTypeInfo :=
  {| ot_ID := ""; ot_Name := ""; ot_Description := "";
     ot_ResourceTypeScope := {| orsi_Unlimited := false; orsi_Types := [] |};
     ot_Schema := JNull; ot_DefaultValue := JNull; ot_UiSchema := JNull; ot_CreatedTime := 0; ot_ModifyTime := 0 |}.
Definition ObligationInfo_zero : ObligationInfo :=
  {| ob_ID := ""; ob_TypeID := ""; ob_Name := ""; ob_Description := ""; ob_Value := JNull;
     ob_CreatedTime := 0; ob_ModifyTime := 0 |}.

(** One iteration of [for rows.Next()] scanning into [info]. *)
Definition scanObligationType (info : ObligationTypeInfo) (row : obligation_type_row) : outcome ObligationTypeInfo :=
  schema ← unmarshal_value (ot_schema row);
  defaultValue ← unmarshal_optional (ot_DefaultValue info) (ot_default_value row);
  uiSchema ← unmarshal_optional (ot_UiSchema info) (ot_ui_schema row);
  resourceTypeScope ← stringToResourceTypeScopeInfo (ot_applicable_resource_types row);
  Ok {| ot_ID := ot_id row; ot_Name := ot_name row; ot_Description := ot_description row;
        ot_ResourceTypeScope := resourceTypeScope; ot_Schema := schema; ot_DefaultValue := defaultValue;
        ot_UiSchema := uiSchema; ot_CreatedTime := ot_created row; ot_ModifyTime := ot_modified row |}.
Definition scanObligation (row : obligation_row) : outcome ObligationInfo :=
  value ← unmarshal_value (o_value row);
  Ok {| ob_ID := o_id row; ob_TypeID := o_type_id row; ob_Name := o_name row; ob_Description := o_description row;
        ob_Value := value; ob_CreatedTime := o_created row; ob_ModifyTime := o_modified row |}.

Section statements.
Context `{GoRuntime} `{SqlEnv}.

(** ** [t_obligation_type] *)
Definition updateObligationTypeRow (info : ObligationTypeInfo) (row : obligation_type_row) : obligation_type_row :=
  {| ot_primary := ot_primary row; ot_id := ot_id row; ot_name := ot_Name info; ot_description := ot_Description info;
     ot_applicable_resource_types := obligationType_scopeToString (ot_ResourceTypeScope info);
     ot_schema := marshal (ot_Schema info); ot_ui_schema := marshal_optional (ot_UiSchema info);
     ot_default_value := marshal_optional (ot_DefaultValue info);
     ot_created := ot_created row; ot_modified := curTime |}.
Definition newObligationTypeRow (primary : Z) (info : ObligationTypeInfo) : obligation_type_row :=
  {| ot_primary := primary; ot_id := ot_ID info; ot_name := ot_Name info; ot_description := ot_Description info;
     ot_applicable_resource_types := obligationType_scopeToString (ot_ResourceTypeScope info);
     ot_schema := marshal (ot_Schema info); ot_ui_schema := marshal_optional (ot_UiSchema info);
     ot_default_value := marshal_optional (ot_DefaultValue info);
     ot_created := curTime; ot_modified := curTime |}.

Definition obligationTypeDB_Set (info : ObligationTypeInfo) : M store unit :=
  found ← reads (λ s, stmt "obligationType.Set.query"
            (Ok (bool_decide (ot_ID info ∈ ot_id <$> t_obligation_type s))));
  if (found : bool)
  then exec "obligationType.Set.update" (set_obligation_type (fmap (λ row,
         if bool_decide (ot_id row = ot_ID info) then updateObligationTypeRow info row else row)))
  else exec "obligationType.Set.insert" (λ s, bump_primary 1
         (set_obligation_type (λ t, t ++ [newObligationTypeRow (seq_primary s) info]) s)).

Definition obligationTypeDB_Delete (obligationTypeID : string) : M store unit :=
  exec "obligationType.Delete" (set_obligation_type (filter (λ row, ot_id row ≠ obligationTypeID))).

(** The rows are scanned into one variable. *)
Definition obligationTypeDB_GetByID (s : store) (obligationTypeID : string) : outcome ObligationTypeInfo :=
  stmt "obligationType.GetByID"
    (ofold scanObligationType ObligationTypeInfo_zero
       (range_order 80 (filter (λ row, ot_id row = obligationTypeID) (t_obligation_type s)))).

Definition scanObligationTypes (rows : list obligation_type_row) : outcome (list ObligationTypeInfo) :=
  omap_all (scanObligationType ObligationTypeInfo_zero) rows.

Definition obligationTypeDB_Get (s : store) (offset limit : Z) : outcome (Z * list ObligationTypeInfo) :=
  count ← stmt "obligationType.Get.count" (Ok (Z.of_nat (length (t_obligation_type s))));
  rows ← stmt "obligationType.Get" (sql_limit offset limit (range_order 81 (t_obligation_type s)));
  resultInfos ← scanObligationTypes rows;
  Ok (count, resultInfos).

Definition obligationTypeDB_GetAll (s : store) : outcome (list ObligationTypeInfo) :=
  stmt "obligationType.GetAll" (scanObligationTypes
    (order_by (λ row, [(- ot_modified row)%Z]) (range_order 82 (t_obligation_type s)))).

Definition obligationTypeDB_GetByIDs (s : store) (ids : list string) : outcome (list ObligationTypeInfo) :=
  if bool_decide (length ids = 0) then Ok []
  else stmt "obligationType.GetByIDs" (scanObligationTypes
         (range_order 83 (filter (λ row, ot_id row ∈ ids) (t_obligation_type s)))).

(** ** [t_obligation] *)
Definition obligationDB_Add (info : ObligationInfo) : M store unit :=
  exec "obligation.Add" (λ s, bump_primary 1 (set_obligation (λ t, t ++
    [{| o_primary := seq_primary s; o_id := ob_ID info; o_type_id := ob_TypeID info; o_name := ob_Name info;
        o_description := ob_Description info; o_value := marshal (ob_Value info);
        o_created := curTime; o_modified := curTime |}]) s)).

Definition updateObligationRow (obligationID name : string) (nameChanged : bool) (description : string)
    (descriptionChanged : bool) (value : json) (valueChanged : bool) (row : obligation_row) : obligation_row :=
  if bool_decide (o_id row = obligationID)
  then {| o_primary := o_primary row; o_id := o_id row; o_type_id := o_type_id row;
          o_name := if nameChanged then name else o_name row;
          o_description := if descriptionChanged then description else o_description row;
          o_value := if valueChanged then marshal value else o_value row;
          o_created := o_created row; o_modified := curTime |}
  else row.
Definition obligationDB_Update (obligationID name : string) (nameChanged : bool) (description : string)
    (descriptionChanged : bool) (value : json) (valueChanged : bool) : M store unit :=
  exec "obligation.Update" (set_obligation (fmap
    (updateObligationRow obligationID name nameChanged description descriptionChanged value valueChanged))).

Definition obligationDB_Delete (obligationID : string) : M store unit :=
  exec "obligation.Delete" (set_obligation (filter (λ row, o_id row ≠ obligationID))).

Definition obligationDB_GetByID (s : store) (obligationID : string) : outcome ObligationInfo :=
  stmt "obligation.GetByID" (ofold (λ _ row, scanObligation row) ObligationInfo_zero
    (range_order 84 (filter (λ row, o_id row = obligationID) (t_obligation s)))).

Definition obligationDB_Get (s : store) (offset limit : Z) : outcome (Z * list ObligationInfo) :=
  count ← stmt "obligation.Get.count" (Ok (Z.of_nat (length (t_obligation s))));
  rows ← stmt "obligation.Get" (sql_limit offset limit (range_order 85 (t_obligation s)));
  resultInfos ← omap_all scanObligation rows;
  Ok (count, resultInfos).

Definition obligationDB_GetByObligationTypeIDs (s : store) (obligationTypeIDMap : gmap string bool)
  : outcome (gmap string (list ObligationInfo)) :=
  if bool_decide (obligationTypeIDMap = ∅) then Ok ∅
  else
    let IDS := (range 86 obligationTypeIDMap).*1 in
    stmt "obligation.GetByObligationTypeIDs"
      (infos ← omap_all scanObligation (range_order 87 (filter (λ row, o_type_id row ∈ IDS) (t_obligation s)));
       Ok (group_by ob_TypeID infos)).

Definition obligationDB_GetByIDs (s : store) (ids : list string) : outcome (list ObligationInfo) :=
  if bool_decide (length ids = 0) then Ok []
  else stmt "obligation.GetByIDs"
         (omap_all scanObligation (range_order 88 (filter (λ row, o_id row ∈ ids) (t_obligation s)))).
End statements.
