(* ===== verification/Obligation.v ===== *)
(** * Obligations and obligation types
      ([Authorization/logics/obligation.go], [obligation_type.go])

    An obligation type declares the resource types and operations it applies
    to and the JSON schema of its values; an obligation is a value of a type.
    The policy service refers to both by id. *)
From S2P Require Import Prelude Json Interfaces Common Store Policy Role ObligationDB.

(** The JSON schema library [gojsonschema]: whether [NewSchema] compiles a
    schema, and the outcome of [Validate] on a value: an error, or the
    messages of [result.Errors()], none for a valid value. *)
Class GoJsonSchema := {
  NewSchema : json → bool;
  schema_Validate : json → json → string + list string
}.

(** [strings.Join(msgList, "; ")] *)
Fixpoint join_messages (l : list string) : string :=
  match l with
  | [] => ""
  | [x] => x
  | x :: l => x +:+ "; " +:+ join_messages l
  end.

Definition ot_set_Types (types : list ObligationResourceTypeScope) (info : ObligationTypeInfo) : ObligationTypeInfo :=
  {| ot_ID := ot_ID info; ot_Name := ot_Name info; ot_Description := ot_Description info;
     ot_ResourceTypeScope := {| orsi_Unlimited := orsi_Unlimited (ot_ResourceTypeScope info); orsi_Types := types |};
     ot_Schema := ot_Schema info; ot_DefaultValue := ot_DefaultValue info; ot_UiSchema := ot_UiSchema info;
     ot_CreatedTime := ot_CreatedTime info; ot_ModifyTime := ot_ModifyTime info |}.
Definition ors_set_Name (name : string) (t : ObligationResourceTypeScope) : ObligationResourceTypeScope :=
  {| ors_ResourceTypeID := ors_ResourceTypeID t; ors_ResourceTypeName := name;
     ors_OperationsScope := ors_OperationsScope t |}.
Definition ors_set_Operations (ops : list ObligationOperation) (t : ObligationResourceTypeScope)
  : ObligationResourceTypeScope :=
  {| ors_ResourceTypeID := ors_ResourceTypeID t; ors_ResourceTypeName := ors_ResourceTypeName t;
     ors_OperationsScope := {| oos_Unlimited := oos_Unlimited (ors_OperationsScope t); oos_Operations := ops |} |}.

(** ** Which obligation types apply to an operation *)
Definition appendTo (info : ObligationTypeInfo) (m : gmap string (list ObligationTypeInfo)) (operation : string)
  : gmap string (list ObligationTypeInfo) := mappend operation [info] m.

Definition addObligationType (resourceTypeID : string) (operationIDs : list string)
    (resultInfos : gmap string (list ObligationTypeInfo)) (info : ObligationTypeInfo)
  : gmap string (list ObligationTypeInfo) :=
  if orsi_Unlimited (ot_ResourceTypeScope info) then foldl (appendTo info) resultInfos operationIDs
  else
    match first_some (λ t, if bool_decide (ors_ResourceTypeID t = resourceTypeID) then Some t else None)
            (orsi_Types (ot_ResourceTypeScope info)) with
    | None => resultInfos
    | Some resourceTypeTmp =>
        if oos_Unlimited (ors_OperationsScope resourceTypeTmp)
        then foldl (appendTo info) resultInfos operationIDs
        else foldl (λ m operationTmp,
               foldl (λ m operation, if bool_decide (oop_ID operationTmp = operation) then appendTo info m operation else m)
                 m operationIDs)
               resultInfos (oos_Operations (ors_OperationsScope resourceTypeTmp))
    end.
Definition getOperationSet (resourceTypeID : string) (operationIDs : list string)
    (allObligationTypes : list ObligationTypeInfo) : gmap string (list ObligationTypeInfo) :=
  let resultInfos := foldl (λ (m : gmap string (list ObligationTypeInfo)) operation, <[operation := []]> m) ∅ operationIDs in
  foldl (addObligationType resourceTypeID operationIDs) resultInfos allObligationTypes.

Definition checkObligationTypeChange (old newInfo : ObligationTypeInfo) : bool :=
  negb (bool_decide (ot_Name old = ot_Name newInfo)) ||
  negb (bool_decide (ot_Description old = ot_Description newInfo)) ||
  negb (bool_decide (ot_ResourceTypeScope old = ot_ResourceTypeScope newInfo)) ||
  negb (bool_decide (ot_Schema old = ot_Schema newInfo)) ||
  negb (bool_decide (ot_UiSchema old = ot_UiSchema newInfo)) ||
  negb (bool_decide (ot_DefaultValue old = ot_DefaultValue newInfo)).

Section obligationType.
Context `{GoRuntime} `{DrivenUserMgnt} `{LogicsResourceType} `{SqlEnv} `{GoJsonSchema}.

Definition obligationType_checkVisitorType (visitor : Visitor) : outcome unit :=
  roleTypes ← match vis_Type visitor with
              | RealName => GetUserRolesByUserID (vis_ID visitor)
              | _ => Ok []
              end;
  checkVisitorType visitor roleTypes [RealName] [SuperAdmin; SystemAdmin; SecurityAdmin].

Definition checkResourceTypeAndOperation (info : ObligationTypeInfo) : outcome unit :=
  if orsi_Unlimited (ot_ResourceTypeScope info) then Ok tt
  else
    resourceTypeInfos ← GetAllInternal;
    let resourceTypeInfoMap : gmap string ResourceType :=
      foldl (λ m t, <[rt_ID t := t]> m) ∅ resourceTypeInfos in
    each_ok (λ resourceTypeScope,
      match resourceTypeInfoMap !! ors_ResourceTypeID resourceTypeScope with
      | None => Err (NewError PublicBadRequest ("resource type not found: " +:+ ors_ResourceTypeID resourceTypeScope))
      | Some resourceTypeInfo =>
          if oos_Unlimited (ors_OperationsScope resourceTypeScope) then Ok tt
          else
            let operationMap := set_of (rto_ID <$> rt_Operation resourceTypeInfo) in
            each_ok (λ operation,
              fail_if (bool_decide (operationMap !! oop_ID operation = None))
                (NewError PublicBadRequest ("resource type " +:+ ors_ResourceTypeID resourceTypeScope +:+
                   " operation not found: " +:+ oop_ID operation)))
              (oos_Operations (ors_OperationsScope resourceTypeScope))
      end) (orsi_Types (ot_ResourceTypeScope info)).

(** The checks [Set] and [SetPrivate] share. *)
Definition checkSchema (info : ObligationTypeInfo) : outcome unit :=
  _ ← fail_if (negb (NewSchema (ot_Schema info))) (NewError PublicBadRequest "schema is invalid");
  match ot_DefaultValue info with
  | JNull => Ok tt
  | value =>
      match schema_Validate (ot_Schema info) value with
      | inl e => Err (NewError PublicBadRequest e)
      | inr [] => Ok tt
      | inr msgList => Err (NewError PublicBadRequest (join_messages msgList))
      end
  end.

Definition obligationType_SetPrivate (info : ObligationTypeInfo) : M store unit :=
  _ ← lift (checkSchema info);
  _ ← lift (checkResourceTypeAndOperation info);
  obligationTypeDB_Set info.

Definition obligationType_Set (visitor : Visitor) (info : ObligationTypeInfo) : M store unit :=
  _ ← lift (obligationType_checkVisitorType visitor);
  _ ← lift (checkSchema info);
  _ ← lift (checkResourceTypeAndOperation info);
  obligationTypeDB_Set info.

Definition obligationType_Delete (visitor : Visitor) (obligationTypeID : string) : M store unit :=
  _ ← lift (obligationType_checkVisitorType visitor);
  obligationTypeDB_Delete obligationTypeID.

(** [getResourceTypesOperation]: the names of the operations by type and
    operation id, and the types by id. *)
Definition getTypesAndOperationNames (visitor : Visitor)
  : outcome (gmap string (gmap string string) * gmap string ResourceType) :=
  resourceTypeInfos ← GetAllInternal;
  let resourceTypeInfoMap : gmap string ResourceType := foldl (λ m t, <[rt_ID t := t]> m) ∅ resourceTypeInfos in
  let operationInfoMap : gmap string (gmap string string) :=
    (λ t, foldl (λ (m : gmap string string) operation,
       <[rto_ID operation := getOperationNameByLanguage (rto_Name operation) (vis_Language visitor)]> m) ∅
       (rt_Operation t)) <$> resourceTypeInfoMap in
  Ok (operationInfoMap, resourceTypeInfoMap).

Definition fillOperationNames (operationInfoMap : gmap string (gmap string string)) (t : ObligationResourceTypeScope)
  : ObligationResourceTypeScope :=
  ors_set_Operations ((λ operation,
    {| oop_ID := oop_ID operation;
       oop_Name := default "" (default ∅ (operationInfoMap !! ors_ResourceTypeID t) !! oop_ID operation) |})
    <$> oos_Operations (ors_OperationsScope t)) t.

Definition obligationType_GetByID (s : store) (visitor : Visitor) (obligationTypeID : string)
  : outcome ObligationTypeInfo :=
  _ ← obligationType_checkVisitorType visitor;
  info ← obligationTypeDB_GetByID s obligationTypeID;
  _ ← fail_if (bool_decide (ot_ID info = ""))
        (NewError PublicNotFound ("obligation_type_id " +:+ obligationTypeID +:+ " not found "));
  if orsi_Unlimited (ot_ResourceTypeScope info) then Ok info
  else
    '(operationInfoMap, resourceTypeInfoMap) ← getTypesAndOperationNames visitor;
    Ok (ot_set_Types ((λ t,
      match resourceTypeInfoMap !! ors_ResourceTypeID t with
      | None => t
      | Some resourceTypeInfo =>
          let t := ors_set_Name (rt_Name resourceTypeInfo) t in
          if oos_Unlimited (ors_OperationsScope t) then t else fillOperationNames operationInfoMap t
      end) <$> orsi_Types (ot_ResourceTypeScope info)) info).

(** The loop of [Get] over the types of the [i]-th result, as the code has it:
    the name of the [j]-th type is written to the [i]-th, and the [i]-th is
    asked whether its operations are limited; both index out of range when the
    result has at most [i] types. *)
Definition fillTypeAt (i : nat) (operationInfoMap : gmap string (gmap string string))
    (resourceTypeInfoMap : gmap string ResourceType) (types : list ObligationResourceTypeScope) (j : nat)
  : outcome (list ObligationResourceTypeScope) :=
  match types !! j with
  | None => Ok types
  | Some tj =>
      match resourceTypeInfoMap !! ors_ResourceTypeID tj with
      | None => Ok types
      | Some resourceTypeInfo =>
          match types !! i with
          | None => Panic "index out of range"
          | Some ti =>
              let types := <[i := ors_set_Name (rt_Name resourceTypeInfo) ti]> types in
              if oos_Unlimited (ors_OperationsScope ti) then Ok types
              else Ok (alter (fillOperationNames operationInfoMap) j types)
          end
      end
  end.
(** [for i := range resultInfos]: an unlimited result ends the whole loop. *)
Fixpoint fillResults (i : nat) (operationInfoMap : gmap string (gmap string string))
    (resourceTypeInfoMap : gmap string ResourceType) (resultInfos : list ObligationTypeInfo)
  : outcome (list ObligationTypeInfo) :=
  match resultInfos with
  | [] => Ok []
  | info :: rest =>
      if orsi_Unlimited (ot_ResourceTypeScope info) then Ok (info :: rest)
      else
        let types := orsi_Types (ot_ResourceTypeScope info) in
        types' ← ofold (fillTypeAt i operationInfoMap resourceTypeInfoMap) types (seq 0 (length types));
        rest' ← fillResults (S i) operationInfoMap resourceTypeInfoMap rest;
        Ok (ot_set_Types types' info :: rest')
  end.
Definition obligationType_Get (s : store) (visitor : Visitor) (offset limit : Z)
  : outcome (Z * list ObligationTypeInfo) :=
  _ ← obligationType_checkVisitorType visitor;
  '(count, resultInfos) ← obligationTypeDB_Get s offset limit;
  if (length resultInfos =? 0)%nat then Ok (count, resultInfos)
  else
    '(operationInfoMap, resourceTypeInfoMap) ← getTypesAndOperationNames visitor;
    resultInfos ← fillResults 0 operationInfoMap resourceTypeInfoMap resultInfos;
    Ok (count, resultInfos).

Definition obligationType_Query (s : store) (resourceType : string) (operation : list string)
  : outcome (gmap string (list ObligationTypeInfo)) :=
  resourceTypeInfoMap ← GetByIDsInternal [resourceType];
  _ ← fail_if (negb (size resourceTypeInfoMap =? 1)%nat) (NewError PublicBadRequest "resource type not found");
  let resourceTypeInfo := default ResourceType_zero (resourceTypeInfoMap !! resourceType) in
  let opeMaps := set_of (rto_ID <$> rt_Operation resourceTypeInfo) in
  operation ← (if (length operation =? 0)%nat then Ok (map rto_ID (rt_Operation resourceTypeInfo))
    else _ ← each_ok (λ o, fail_if (negb (mget opeMaps o)) (NewError PublicBadRequest "operation not found")) operation;
         Ok operation);
  allObligationTypes ← obligationTypeDB_GetAll s;
  Ok (getOperationSet resourceType operation allObligationTypes).

Definition obligationType_QueryV2 (s : store) (resourceTypeIDs : list string)
  : outcome (gmap string (gmap string (list ObligationTypeInfo))) :=
  _ ← fail_if (length resourceTypeIDs =? 0)%nat (NewError PublicBadRequest "resource type ids is empty");
  resourceTypeInfoMap ← GetByIDsInternal resourceTypeIDs;
  _ ← fail_if (negb (size resourceTypeInfoMap =? length resourceTypeIDs)%nat)
        (NewError PublicBadRequest "some resource types not found");
  allObligationTypes ← obligationTypeDB_GetAll s;
  Ok (foldl (λ (resultInfos : gmap string (gmap string (list ObligationTypeInfo))) (kv : string * ResourceType),
        <[kv.1 := getOperationSet kv.1 (map rto_ID (rt_Operation kv.2)) allObligationTypes]> resultInfos)
      ∅ (range 90 resourceTypeInfoMap)).

Definition obligationType_GetByIDSInternal (s : store) (obligationTypeIDs : gmap string bool)
  : outcome (list ObligationTypeInfo) :=
  obligationTypeDB_GetByIDs s (range 89 obligationTypeIDs).*1.

Definition obligationType_InitObligationTypes (obligationTypes : list ObligationTypeInfo) : M store unit :=
  for_each (λ obligationType,
    info ← reads (λ s, obligationTypeDB_GetByID s (ot_ID obligationType));
    if negb (bool_decide (ot_ID info = "")) && negb (checkObligationTypeChange info obligationType) then mret tt
    else obligationTypeDB_Set obligationType) obligationTypes.
End obligationType.

(** ** The obligation service *)
Section obligation.
Context `{GoRuntime} `{DrivenUserMgnt} `{LogicsResourceType} `{SqlEnv} `{GoJsonSchema}.

Definition obligation_checkVisitorType (visitor : Visitor) : outcome unit :=
  roleTypes ← match vis_Type visitor with
              | RealName => GetUserRolesByUserID (vis_ID visitor)
              | _ => Ok []
              end;
  checkVisitorType visitor roleTypes [RealName] [SuperAdmin; SystemAdmin; SecurityAdmin].

Definition checkJsonValueValid (schemaTmp value : json) : outcome unit :=
  _ ← fail_if (negb (NewSchema schemaTmp)) (NewError PublicBadRequest "schema is invalid");
  match schema_Validate schemaTmp value with
  | inl e => Err (NewError PublicBadRequest e)
  | inr [] => Ok tt
  | inr msgList => Err (NewError PublicBadRequest (join_messages msgList))
  end.

Definition ob_set_ID (id : string) (info : ObligationInfo) : ObligationInfo :=
  {| ob_ID := id; ob_TypeID := ob_TypeID info; ob_Name := ob_Name info; ob_Description := ob_Description info;
     ob_Value := ob_Value info; ob_CreatedTime := ob_CreatedTime info; ob_ModifyTime := ob_ModifyTime info |}.

Definition obligation_Add (visitor : Visitor) (info : ObligationInfo) : M store string :=
  _ ← lift (obligation_checkVisitorType visitor);
  obligationTypeInfos ← reads (λ s, obligationType_GetByIDSInternal s {[ob_TypeID info := true]});
  match obligationTypeInfos with
  | [] => lift (Err (NewError PublicBadRequest ("obligation_type_id " +:+ ob_TypeID info +:+ " not found")))
  | obligationType :: _ =>
      _ ← lift (checkJsonValueValid (ot_Schema obligationType) (ob_Value info));
      id ← new_uuid;
      _ ← obligationDB_Add (ob_set_ID id info);
      mret id
  end.

Definition obligation_Delete (visitor : Visitor) (obligationID : string) : M store unit :=
  _ ← lift (obligation_checkVisitorType visitor);
  obligationDB_Delete obligationID.

Definition obligation_Update (visitor : Visitor) (obligationID name : string) (nameChanged : bool)
    (description : string) (descriptionChanged : bool) (value : json) (valueChanged : bool) : M store unit :=
  _ ← lift (obligation_checkVisitorType visitor);
  obligationInfo ← reads (λ s, obligationDB_GetByID s obligationID);
  _ ← lift (fail_if (bool_decide (ob_ID obligationInfo = ""))
        (NewError PublicNotFound ("obligation_id " +:+ obligationID +:+ " not found")));
  _ ← reads (λ s,
        if valueChanged then
          obligationTypeInfos ← obligationType_GetByIDSInternal s {[ob_TypeID obligationInfo := true]};
          match obligationTypeInfos with
          | [] => Err (NewError PublicNotFound ("obligation_type_id " +:+ ob_TypeID obligationInfo +:+ " not found"))
          | obligationType :: _ => checkJsonValueValid (ot_Schema obligationType) value
          end
        else Ok tt);
  obligationDB_Update obligationID name nameChanged description descriptionChanged value valueChanged.

Definition obligation_GetByID (s : store) (visitor : Visitor) (obligationID : string) : outcome ObligationInfo :=
  _ ← obligation_checkVisitorType visitor;
  info ← obligationDB_GetByID s obligationID;
  _ ← fail_if (bool_decide (ob_ID info = ""))
        (NewError PublicNotFound ("obligation_id " +:+ obligationID +:+ " not found "));
  Ok info.

Definition obligation_Get (s : store) (visitor : Visitor) (offset limit : Z) : outcome (Z * list ObligationInfo) :=
  _ ← obligation_checkVisitorType visitor;
  obligationDB_Get s offset limit.

(** The types that stay after the filter on [ObligationTypeIDs]; an operation
    without types has no entry after it. *)
Definition filterTypes (obligationTypeIDs : list string)
    (operationAndObligationTypes : gmap string (list ObligationTypeInfo)) : gmap string (list ObligationTypeInfo) :=
  if (length obligationTypeIDs =? 0)%nat then operationAndObligationTypes
  else
    let typeMap := set_of obligationTypeIDs in
    omap (λ typeInfos, match filter (λ t, mget typeMap (ot_ID t) = true) typeInfos with
                       | [] => None
                       | kept => Some kept
                       end) operationAndObligationTypes.

Definition obligation_Query (s : store) (resourceType : string) (operation obligationTypeIDs : list string)
  : outcome (gmap string (list ObligationInfo)) :=
  operationAndObligationTypes ← obligationType_Query s resourceType operation;
  let resultInfos : gmap string (list ObligationInfo) := (λ _, []) <$> operationAndObligationTypes in
  let operationAndObligationTypes := filterTypes obligationTypeIDs operationAndObligationTypes in
  let allObligationTypeMap := set_of (map ot_ID (concat (range 91 operationAndObligationTypes).*2)) in
  if bool_decide (allObligationTypeMap = ∅) then Ok resultInfos
  else
    resultTypeAndObligation ← obligationDB_GetByObligationTypeIDs s allObligationTypeMap;
    Ok (foldl (λ m (kv : string * list ObligationTypeInfo),
          foldl (λ m t, mappend kv.1 (default [] (resultTypeAndObligation !! ot_ID t)) m) m kv.2)
        resultInfos (range 92 operationAndObligationTypes)).

(** Either obligations or an error: nothing here can panic. *)
Definition obligation_GetByIDSInternal (s : store) (obligationIDs : gmap string bool)
  : outcome (list ObligationInfo) :=
  obligationDB_GetByIDs s (range 93 obligationIDs).*1.
End obligation.

(** ** The services the decision and policy services call *)
Definition obligation_service `{GoRuntime} `{SqlEnv} (s : store) : LogicsObligation := {|
  Obligation_GetByIDSInternal m :=
    match obligation_GetByIDSInternal s m with
    | Ok infos => inr infos
    | Err e => inl e
    | Panic w => inl (MkErr "panic" w [])
    end
|}.
Definition obligationType_service `{GoRuntime} `{SqlEnv} (s : store) : LogicsObligationType := {|
  ObligationType_GetByIDSInternal := obligationType_GetByIDSInternal s
|}.
