(* ===== verification/ObligationSpec.v ===== *)
(** * What the obligation services promise

    The text of an obligation type's scope and when it reads back, which
    obligation types apply to an operation, what adding an obligation means,
    and what a query returns. *)
From S2P Require Import Prelude Json Interfaces Common PolicyCalc Store Obligations Policy Role RoleOps RoleAdmin ResourceTypeDB ObligationDB Obligation.

(** ** The scope as text *)

(** A scope as it is read back: names are not stored, and neither are the
    lists of an unlimited scope. *)
Definition stored_operations (scope : ObligationOperationsScopeInfo) : ObligationOperationsScopeInfo :=
  {| oos_Unlimited := oos_Unlimited scope;
     oos_Operations := if oos_Unlimited scope then []
                       else (λ op, {| oop_ID := oop_ID op; oop_Name := "" |}) <$> oos_Operations scope |}.
Definition stored_type_scope (t : ObligationResourceTypeScope) : ObligationResourceTypeScope :=
  {| ors_ResourceTypeID := ors_ResourceTypeID t; ors_ResourceTypeName := "";
     ors_OperationsScope := stored_operations (ors_OperationsScope t) |}.
Definition stored_obligation_scope (info : ObligationResourceTypeScopeInfo) : ObligationResourceTypeScopeInfo :=
  {| orsi_Unlimited := orsi_Unlimited info;
     orsi_Types := if orsi_Unlimited info then [] else stored_type_scope <$> orsi_Types info |}.

(** Every type with limited operations names one. *)
Definition has_operations (t : ObligationResourceTypeScope) : Prop :=
  oos_Unlimited (ors_OperationsScope t) = true ∨ oos_Operations (ors_OperationsScope t) ≠ [].
Definition complete_scope (info : ObligationResourceTypeScopeInfo) : Prop :=
  orsi_Unlimited info = true ∨ Forall has_operations (orsi_Types info).
#[global] Instance has_operations_dec t : Decision (has_operations t).
Proof. unfold has_operations. apply _. Defined.

Lemma operation_read op : readObligationOperation (jobj [("id", JStr (oop_ID op))]) = Ok {| oop_ID := oop_ID op; oop_Name := "" |}.
Proof. done. Qed.

Lemma operations_read ops :
  omap_all readObligationOperation ((λ op, jobj [("id", JStr (oop_ID op))]) <$> ops) =
  Ok ((λ op, {| oop_ID := oop_ID op; oop_Name := "" |}) <$> ops).
Proof. induction ops as [|op ops IH]; [done|]. csimpl. by rewrite IH. Qed.

Lemma type_scope_read t : has_operations t → readResourceTypeScope (resourceTypeScopeJSON t) = Ok (stored_type_scope t).
Proof.
  destruct t as [id name [[] ops]]; [done|]. intros [?|Hne]; [done|]. simpl in Hne.
  transitivity (
    scope ← (operations ← omap_all readObligationOperation ((λ op, jobj [("id", JStr (oop_ID op))]) <$> ops);
             Ok {| oos_Unlimited := false; oos_Operations := operations |});
    Ok {| ors_ResourceTypeID := id; ors_ResourceTypeName := ""; ors_OperationsScope := scope |}).
  - destruct ops as [|op ops]; [done|]. reflexivity.
  - by rewrite operations_read.
Qed.
Lemma type_scope_panics t : ¬ has_operations t → ∃ w, readResourceTypeScope (resourceTypeScopeJSON t) = Panic w.
Proof.
  destruct t as [id name [[] ops]]; intros Hn; [by destruct Hn; left|]. destruct ops; [by eexists|].
  by destruct Hn; right.
Qed.

Lemma type_scopes_read ts :
  (Forall has_operations ts →
     omap_all readResourceTypeScope (resourceTypeScopeJSON <$> ts) = Ok (stored_type_scope <$> ts)) ∧
  (¬ Forall has_operations ts → ∃ w, omap_all readResourceTypeScope (resourceTypeScopeJSON <$> ts) = Panic w).
Proof.
  induction ts as [|t ts [IH1 IH2]]; [split; [done|by intros []]|]. rewrite !fmap_cons. cbn [omap_all].
  rewrite Forall_cons. destruct (decide (has_operations t)) as [Ht|Ht].
  - rewrite (type_scope_read t Ht). simpl. split.
    + intros [_ Hts]. by rewrite IH1.
    + intros Hn. destruct IH2 as [w ->]; [naive_solver|]. by eexists.
  - destruct (type_scope_panics t Ht) as [w ->]. simpl. split; [naive_solver|]. by eexists.
Qed.

Lemma limited_scope_text info :
  orsi_Unlimited info = false →
  stringToResourceTypeScopeInfo (obligationType_scopeToString info) =
  (types ← omap_all readResourceTypeScope (resourceTypeScopeJSON <$> orsi_Types info);
   Ok {| orsi_Unlimited := false; orsi_Types := types |}).
Proof. intros E. unfold obligationType_scopeToString. by rewrite E. Qed.

Lemma complete_scope_reads info :
  complete_scope info →
  stringToResourceTypeScopeInfo (obligationType_scopeToString info) = Ok (stored_obligation_scope info).
Proof.
  unfold complete_scope, stored_obligation_scope. destruct (orsi_Unlimited info) eqn:E.
  - intros _. unfold obligationType_scopeToString. by rewrite E.
  - intros [?|Hall]; [done|]. rewrite (limited_scope_text _ E). by rewrite (proj1 (type_scopes_read _) Hall).
Qed.
Lemma incomplete_scope_panics info :
  ¬ complete_scope info → ∃ w, stringToResourceTypeScopeInfo (obligationType_scopeToString info) = Panic w.
Proof.
  unfold complete_scope. destruct (orsi_Unlimited info) eqn:E; [by intros []; left|]. intros Hn.
  rewrite (limited_scope_text _ E). destruct (proj2 (type_scopes_read (orsi_Types info))) as [w ->]; [naive_solver|].
  by eexists.
Qed.

(** The text written for the scope of an obligation type reads back as
    the scope (without the names) when every type with limited operations
    names at least one; otherwise reading it panics. *)
Lemma obligation_scope_round_trip info :
  (complete_scope info →
     stringToResourceTypeScopeInfo (obligationType_scopeToString info) = Ok (stored_obligation_scope info)) ∧
  (¬ complete_scope info → ∃ w, stringToResourceTypeScopeInfo (obligationType_scopeToString info) = Panic w).
Proof. split; [apply complete_scope_reads|apply incomplete_scope_panics]. Qed.

(** ** Which obligation types apply *)

(** The scope entry for the resource type: the first one. *)
Definition scopeFor (info : ObligationTypeInfo) (resourceTypeID : string) : option ObligationResourceTypeScope :=
  first_some (λ t, if bool_decide (ors_ResourceTypeID t = resourceTypeID) then Some t else None)
    (orsi_Types (ot_ResourceTypeScope info)).
(** The obligation type applies to the operation of the resource type. *)
Definition applies (info : ObligationTypeInfo) (resourceTypeID operation : string) : bool :=
  orsi_Unlimited (ot_ResourceTypeScope info) ||
  match scopeFor info resourceTypeID with
  | None => false
  | Some t => oos_Unlimited (ors_OperationsScope t) ||
              bool_decide (operation ∈ oop_ID <$> oos_Operations (ors_OperationsScope t))
  end.

Definition occurrences (x : string) (l : list string) : nat := length (filter (x =.) l).

(** How often the loops append the type to the list of the operation. *)
Definition appended (resourceTypeID : string) (operationIDs : list string) (operation : string)
    (info : ObligationTypeInfo) : nat :=
  if orsi_Unlimited (ot_ResourceTypeScope info) then occurrences operation operationIDs
  else match scopeFor info resourceTypeID with
       | None => 0
       | Some t => if oos_Unlimited (ors_OperationsScope t) then occurrences operation operationIDs
                   else occurrences operation (oop_ID <$> oos_Operations (ors_OperationsScope t)) *
                        occurrences operation operationIDs
       end.

Lemma occurrences_pos x l : 0 < occurrences x l ↔ x ∈ l.
Proof.
  unfold occurrences. split.
  - destruct (filter (x =.) l) as [|y k] eqn:E; simpl; [lia|]. intros _. by apply filter_cons_elem in E as [<- ?].
  - intros Hx. destruct (filter (x =.) l) as [|y k] eqn:E; simpl; [|lia]. by destruct (filter_nil_not _ _ _ E Hx).
Qed.
Lemma occurrences_NoDup x l : NoDup l → occurrences x l = if bool_decide (x ∈ l) then 1 else 0.
Proof.
  unfold occurrences. induction 1 as [|y l Hy _ IH]; [done|]. rewrite filter_cons.
  destruct (decide (x = y)) as [<-|Hne]; simpl.
  - rewrite IH, bool_decide_eq_false_2, bool_decide_eq_true_2 by set_solver. done.
  - rewrite IH. repeat case_bool_decide; set_solver.
Qed.

Lemma append_fold info ops m op :
  default [] (foldl (appendTo info) m ops !! op) = default [] (m !! op) ++ replicate (occurrences op ops) info ∧
  ((op ∉ ops) → foldl (appendTo info) m ops !! op = m !! op) ∧
  (is_Some (m !! op) → is_Some (foldl (appendTo info) m ops !! op)).
Proof.
  revert m. induction ops as [|o ops IH]; intros m; simpl; [split_and!; [by rewrite app_nil_r|done|done]|].
  destruct (IH (appendTo info m o)) as (IH1 & IH2 & IH3). unfold occurrences in *. rewrite filter_cons.
  unfold appendTo in *. rewrite lookup_mappend in *. split_and!.
  - rewrite IH1. repeat case_decide; simplify_eq/=; try done. by rewrite <-app_assoc.
  - intros [Hne Ho]%not_elem_of_cons. rewrite IH2 by done. by rewrite decide_False by done.
  - intros Hs. apply IH3. by case_decide.
Qed.

Lemma append_matching o info ops m op :
  default [] (foldl (λ m operation, if bool_decide (o = operation) then appendTo info m operation else m) m ops !! op) =
  default [] (m !! op) ++ replicate (if bool_decide (op = o) then occurrences op ops else 0) info ∧
  ((op ∉ ops) → foldl (λ m operation, if bool_decide (o = operation) then appendTo info m operation else m) m ops !! op = m !! op) ∧
  (is_Some (m !! op) →
   is_Some (foldl (λ m operation, if bool_decide (o = operation) then appendTo info m operation else m) m ops !! op)).
Proof.
  assert (∀ m, foldl (λ m operation, if bool_decide (o = operation) then appendTo info m operation else m) m ops =
    foldl (appendTo info) m (filter (o =.) ops)) as Heq.
  { induction ops as [|o' ops IH]; intros m'; simpl; [done|]. rewrite IH, filter_cons. by repeat case_decide. }
  rewrite Heq. destruct (append_fold info (filter (o =.) ops) m op) as (H1 & H2 & H3). split_and!; [|intros; apply H2|done].
  - rewrite H1. do 2 f_equal. unfold occurrences. rewrite list_filter_filter. case_bool_decide as E; [subst|].
    + f_equal. apply list_filter_iff. naive_solver.
    + rewrite filter_none; [done|]. naive_solver.
  - rewrite list_elem_of_filter. naive_solver.
Qed.

Lemma append_operations info ids ops m op :
  default [] (foldl (λ m (o : ObligationOperation),
     foldl (λ m operation, if bool_decide (oop_ID o = operation) then appendTo info m operation else m) m ids) m ops !! op) =
  default [] (m !! op) ++ replicate (occurrences op (oop_ID <$> ops) * occurrences op ids) info ∧
  ((op ∉ ids) → foldl (λ m (o : ObligationOperation),
     foldl (λ m operation, if bool_decide (oop_ID o = operation) then appendTo info m operation else m) m ids) m ops !! op = m !! op) ∧
  (is_Some (m !! op) → is_Some (foldl (λ m (o : ObligationOperation),
     foldl (λ m operation, if bool_decide (oop_ID o = operation) then appendTo info m operation else m) m ids) m ops !! op)).
Proof.
  revert m. induction ops as [|o ops IH]; intros m; csimpl; [split_and!; [by rewrite app_nil_r|done|done]|].
  set (m1 := foldl _ m ids). destruct (append_matching (oop_ID o) info ids m op) as (H1 & H2 & H3). fold m1 in H1, H2, H3.
  destruct (IH m1) as (IH1 & IH2 & IH3). split_and!; [|intros; rewrite IH2, H2; done|by intros Hs; apply IH3, H3].
  rewrite IH1, H1, <-app_assoc, <-replicate_add. do 2 f_equal. unfold occurrences at 4. rewrite filter_cons.
  case_bool_decide as E; [rewrite decide_True by done; simpl; fold (occurrences op (oop_ID <$> ops)); lia|].
  rewrite decide_False by done. done.
Qed.

Lemma add_lookup rt ids m info op :
  default [] (addObligationType rt ids m info !! op) = default [] (m !! op) ++ replicate (appended rt ids op info) info ∧
  ((op ∉ ids) → addObligationType rt ids m info !! op = m !! op) ∧
  (is_Some (m !! op) → is_Some (addObligationType rt ids m info !! op)).
Proof.
  unfold addObligationType, appended, scopeFor. case_match; [apply append_fold|].
  case_match; [|by rewrite app_nil_r]. case_match; [apply append_fold|apply append_operations].
Qed.

Lemma operationSet_fold rt ids all m op :
  default [] (foldl (addObligationType rt ids) m all !! op) =
    default [] (m !! op) ++ (all ≫= λ info, replicate (appended rt ids op info) info) ∧
  ((op ∉ ids) → foldl (addObligationType rt ids) m all !! op = m !! op) ∧
  (is_Some (m !! op) → is_Some (foldl (addObligationType rt ids) m all !! op)).
Proof.
  revert m. induction all as [|info all IH]; intros m; csimpl; [split_and!; [by rewrite app_nil_r|done|done]|].
  destruct (add_lookup rt ids m info op) as (H1 & H2 & H3).
  destruct (IH (addObligationType rt ids m info)) as (IH1 & IH2 & IH3).
  split_and!; [by rewrite IH1, H1, <-app_assoc|intros; rewrite IH2, H2; done|by intros Hs; apply IH3, H3].
Qed.

Lemma appended_applies rt ids op info :
  op ∈ ids → 0 < appended rt ids op info ↔ applies info rt op = true.
Proof.
  intros Hop. apply occurrences_pos in Hop. unfold appended, applies.
  destruct (orsi_Unlimited (ot_ResourceTypeScope info)); [done|]. destruct (scopeFor info rt) as [t|]; [|split; [lia|done]].
  destruct (oos_Unlimited (ors_OperationsScope t)); [done|]. simpl. rewrite bool_decide_eq_true, <-occurrences_pos. lia.
Qed.

(** No type scope names an operation twice. *)
Definition names_once (info : ObligationTypeInfo) : Prop :=
  Forall (λ t, NoDup (oop_ID <$> oos_Operations (ors_OperationsScope t))) (orsi_Types (ot_ResourceTypeScope info)).

Lemma scopeFor_elem info rt t : scopeFor info rt = Some t → t ∈ orsi_Types (ot_ResourceTypeScope info).
Proof.
  unfold scopeFor. induction (orsi_Types _) as [|t' ts IH]; simpl; [done|]. case_bool_decide.
  - intros [= ->]. left.
  - intros Ht. right. by apply IH.
Qed.

Lemma appended_once rt ids op info :
  NoDup ids → op ∈ ids → names_once info → appended rt ids op info = if applies info rt op then 1 else 0.
Proof.
  intros Hnd Hop Hn. assert (occurrences op ids = 1) as Ho.
  { by rewrite occurrences_NoDup, bool_decide_eq_true_2. }
  unfold appended, applies. destruct (orsi_Unlimited (ot_ResourceTypeScope info)); [done|].
  destruct (scopeFor info rt) as [t|] eqn:Et; [|done]. destruct (oos_Unlimited (ors_OperationsScope t)); [done|]. simpl.
  apply scopeFor_elem in Et. unfold names_once in Hn. rewrite Forall_forall in Hn.
  rewrite Ho, (occurrences_NoDup op) by (by apply Hn). by case_bool_decide.
Qed.

Lemma empty_entries ids o :
  foldl (λ (m : gmap string (list ObligationTypeInfo)) operation, <[operation := []]> m) ∅ ids !! o =
  if bool_decide (o ∈ ids) then Some [] else None.
Proof.
  induction ids as [|i ids IH] using rev_ind; [done|]. rewrite foldl_app. simpl. rewrite lookup_insert, IH.
  repeat case_bool_decide; repeat case_decide; set_solver.
Qed.

(** The result of [getOperationSet] has an entry for exactly the requested
    operations, which holds exactly the obligation types that apply; when
    nothing is named twice, in the order of all obligation types. *)
Lemma getOperationSet_spec rt ids all op :
  (getOperationSet rt ids all !! op = None ↔ op ∉ ids) ∧
  ∀ l, getOperationSet rt ids all !! op = Some l →
    (∀ info, info ∈ l ↔ info ∈ all ∧ applies info rt op = true) ∧
    (NoDup ids → Forall names_once all → l = filter (λ info, applies info rt op = true) all).
Proof.
  set (m0 := foldl (λ (m : gmap string (list ObligationTypeInfo)) operation, <[operation := []]> m) ∅ ids).
  assert (m0 !! op = if bool_decide (op ∈ ids) then Some [] else None) as Hm0 by apply empty_entries.
  destruct (operationSet_fold rt ids all m0 op) as (H1 & H2 & H3). unfold getOperationSet. fold m0. rewrite Hm0 in H1, H2, H3.
  destruct (decide (op ∈ ids)) as [Hop|Hop]; [rewrite bool_decide_eq_true_2 in H1, H3 by done
    |rewrite bool_decide_eq_false_2 in H2 by done; rewrite H2 by done; naive_solver].
  destruct H3 as [l' Hl']; [by eexists|]. rewrite Hl' in H1 |- *. simpl in H1. subst l'. split; [naive_solver|].
  intros l [= <-]. split.
  - intros info. rewrite list_elem_of_bind. split.
    * intros (i & Hr & Hi). apply elem_of_replicate in Hr as [-> Hne]. split; [done|]. apply (appended_applies rt ids op i Hop). lia.
    * intros [Hi Ha]. exists info. split; [|done]. apply elem_of_replicate. split; [done|].
      apply (appended_applies rt ids op info Hop) in Ha. lia.
  - intros Hnd Hn. clear -Hnd Hn Hop. induction Hn as [|i all Hi _ IH]; csimpl; [done|].
    rewrite IH, filter_cons, (appended_once rt ids op i Hnd Hop Hi). by destruct (applies i rt op).
Qed.

Section queries.
Context `{GoRuntime} `{LogicsResourceType} `{SqlEnv}.

(** The operations a query is about: all declared ones when it names none. *)
Definition asked (t : ResourceType) (operation : list string) : list string :=
  if bool_decide (operation = []) then rto_ID <$> rt_Operation t else operation.

Lemma Query_unfold s rt operation t all :
  GetByIDsInternal [rt] = Ok {[rt := t]} → obligationTypeDB_GetAll s = Ok all →
  (∀ o, o ∈ operation → o ∈ rto_ID <$> rt_Operation t) →
  obligationType_Query s rt operation = Ok (getOperationSet rt (asked t operation) all).
Proof.
  intros Hm Hall Hops. unfold obligationType_Query, asked. rewrite Hm. simpl. rewrite map_size_singleton. simpl.
  rewrite lookup_singleton_eq. simpl. destruct operation as [|o ops]; simpl; [by rewrite Hall|].
  assert (each_ok (λ o, fail_if (negb (mget (set_of (rto_ID <$> rt_Operation t)) o))
    (NewError PublicBadRequest "operation not found")) (o :: ops) = Ok tt) as Hok.
  { apply each_ok_Ok, Forall_forall. intros o' Ho. apply fail_if_Ok. rewrite negb_false_iff.
    by apply mget_set_of, Hops. }
  simpl in Hok. rewrite Hok. simpl. by rewrite Hall.
Qed.

(** A query for the obligation types of a declared resource type succeeds
    exactly when it names declared operations only; the answer has an entry
    for exactly the operations asked for (all declared ones when none is
    named), which holds exactly the obligation types that apply to the
    operation: those without a limit, those that list the resource type
    without limiting its operations, and those that list the operation. *)
Lemma Query_types_exact s rt operation t all :
  GetByIDsInternal [rt] = Ok {[rt := t]} → obligationTypeDB_GetAll s = Ok all →
  ((∀ o, o ∈ operation → o ∈ rto_ID <$> rt_Operation t) →
     ∃ r, obligationType_Query s rt operation = Ok r ∧
       ∀ op, (is_Some (r !! op) ↔ op ∈ asked t operation) ∧
         ∀ l, r !! op = Some l → ∀ info, info ∈ l ↔ info ∈ all ∧ applies info rt op = true) ∧
  (¬ (∀ o, o ∈ operation → o ∈ rto_ID <$> rt_Operation t) →
     obligationType_Query s rt operation = Err (NewError PublicBadRequest "operation not found")).
Proof.
  intros Hm Hall. split.
  - intros Hops. eexists. split; [by apply Query_unfold|]. intros op.
    destruct (getOperationSet_spec rt (asked t operation) all op) as [Hnone Hsome]. split; [|naive_solver].
    rewrite <-not_eq_None_Some, Hnone. destruct (decide (op ∈ asked t operation)); naive_solver.
  - intros Hn. unfold obligationType_Query. rewrite Hm. simpl. rewrite map_size_singleton. simpl.
    rewrite lookup_singleton_eq. simpl. destruct operation as [|o0 ops0]; [by destruct Hn; intros o ?%elem_of_nil|].
    cbn [length Nat.eqb]. generalize dependent (o0 :: ops0). intros ops Hn. clear o0 ops0.
    assert (each_ok (λ o, fail_if (negb (mget (set_of (rto_ID <$> rt_Operation t)) o))
      (NewError PublicBadRequest "operation not found")) ops = Err (NewError PublicBadRequest "operation not found")) as ->; [|done].
    induction ops as [|o ops IH]; [by destruct Hn; intros o ?%elem_of_nil|]. simpl.
    destruct (mget (set_of (rto_ID <$> rt_Operation t)) o) eqn:E; [|done]. simpl. apply IH. intros Hall'.
    apply Hn. apply mget_set_of in E. intros o' [->|?]%elem_of_cons; auto.
Qed.

(** ** Obligations for the operations of a type *)
Lemma filterTypes_lookup tids m op :
  default [] (filterTypes tids m !! op) = filter (λ t, tids = [] ∨ ot_ID t ∈ tids) (default [] (m !! op)).
Proof.
  unfold filterTypes. destruct tids as [|i tids]; simpl; [by rewrite filter_all by auto|]. rewrite lookup_omap.
  destruct (m !! op) as [ts|]; simpl; [|done].
  rewrite (list_filter_iff _ (λ t, ot_ID t ∈ i :: tids)) by (intros t; apply mget_set_of).
  rewrite (list_filter_iff (λ t, i :: tids = [] ∨ ot_ID t ∈ i :: tids) (λ t, ot_ID t ∈ i :: tids)) by naive_solver.
  by destruct (filter _ ts).
Qed.
Lemma filterTypes_dom tids m op : is_Some (filterTypes tids m !! op) → is_Some (m !! op).
Proof.
  unfold filterTypes. case_match; [done|]. rewrite lookup_omap. destruct (m !! op); [by eexists|by intros []].
Qed.

Lemma append_all_types (f : ObligationTypeInfo → list ObligationInfo) k ts (m : gmap string (list ObligationInfo)) op :
  default [] (foldl (λ m t, mappend k (f t) m) m ts !! op) =
    default [] (m !! op) ++ (if bool_decide (k = op) then ts ≫= f else []) ∧
  (k ≠ op → foldl (λ m t, mappend k (f t) m) m ts !! op = m !! op) ∧
  (is_Some (m !! op) → is_Some (foldl (λ m t, mappend k (f t) m) m ts !! op)).
Proof.
  revert m. induction ts as [|t ts IH]; intros m; csimpl; [by case_bool_decide; rewrite app_nil_r|].
  destruct (IH (mappend k (f t) m)) as (IH1 & IH2 & IH3). rewrite lookup_mappend in *. split_and!.
  - rewrite IH1. case_bool_decide; simplify_eq; case_decide; simplify_eq/=; try done. by rewrite <-app_assoc.
  - intros Hne. rewrite IH2 by done. by rewrite decide_False.
  - intros Hs. apply IH3. by case_decide.
Qed.

Lemma merge_fold (f : ObligationTypeInfo → list ObligationInfo) (l : list (string * list ObligationTypeInfo)) m op :
  (∀ o, o ∈ default [] (foldl (λ m kv, foldl (λ m t, mappend kv.1 (f t) m) m kv.2) m l !! op) ↔
     o ∈ default [] (m !! op) ∨ ∃ ts t, (op, ts) ∈ l ∧ t ∈ ts ∧ o ∈ f t) ∧
  ((∀ ts, (op, ts) ∉ l) → foldl (λ m kv, foldl (λ m t, mappend kv.1 (f t) m) m kv.2) m l !! op = m !! op) ∧
  (is_Some (m !! op) → is_Some (foldl (λ m kv, foldl (λ m t, mappend kv.1 (f t) m) m kv.2) m l !! op)).
Proof.
  revert m. induction l as [|[k ts] l IH]; intros m; csimpl; [split_and!; [set_solver|done|done]|].
  destruct (append_all_types f k ts m op) as (Ha & Hb & Hc).
  destruct (IH (foldl (λ m t, mappend k (f t) m) m ts)) as (IH1 & IH2 & IH3). split_and!.
  - intros o. rewrite IH1, Ha, elem_of_app. case_bool_decide as E.
    + subst k. rewrite list_elem_of_bind. set_solver.
    + set_solver.
  - intros Hn. rewrite IH2 by set_solver. apply Hb. intros ->. by destruct (Hn ts); left.
  - intros Hs. by apply IH3, Hc.
Qed.

Lemma obligations_of_types s (m : gmap string bool) r :
  obligationDB_GetByObligationTypeIDs s m = Ok r →
  ∀ id o, o ∈ default [] (r !! id) ↔
    ob_TypeID o = id ∧ is_Some (m !! id) ∧ ∃ row, row ∈ t_obligation s ∧ scanObligation row = Ok o.
Proof.
  unfold obligationDB_GetByObligationTypeIDs. case_bool_decide as E.
  { intros [= <-] id o. subst m. rewrite !lookup_empty. simpl. rewrite elem_of_nil. split; [done|]. by intros (_ & [? ?] & _). }
  intros Hg id o. apply stmt_Ok in Hg. apply bind_Ok in Hg as (infos & Hs & [= <-]).
  assert (∀ row o, scanObligation row = Ok o → ob_TypeID o = o_type_id row) as Htype.
  { intros row o' Hr. unfold scanObligation in Hr. by apply bind_Ok in Hr as (v & _ & [= <-]). }
  rewrite lookup_group_by, list_elem_of_filter, (omap_all_elem _ _ _ _ Hs).
  setoid_rewrite elem_of_range_order. setoid_rewrite list_elem_of_filter.
  assert (∀ i, i ∈ (range 86 m).*1 ↔ is_Some (m !! i)) as Hids.
  { intros i. rewrite list_elem_of_fmap. split.
    - intros ([k b] & -> & Hk%elem_of_range). by eexists.
    - intros [b Hb]. exists (i, b). by rewrite elem_of_range. }
  setoid_rewrite Hids. split.
  - intros [<- (row & [Hi Hr] & Hsc)]. rewrite (Htype _ _ Hsc). eauto.
  - intros (<- & Hi & row & Hr & Hsc). split; [done|]. exists row. by rewrite <-(Htype _ _ Hsc).
Qed.

Lemma obligations_of_types_total s m :
  sql_fault "obligation.GetByObligationTypeIDs" = None →
  (∀ row, row ∈ t_obligation s → ∃ o, scanObligation row = Ok o) → ∃ r, obligationDB_GetByObligationTypeIDs s m = Ok r.
Proof.
  intros Hf Hread. unfold obligationDB_GetByObligationTypeIDs. case_bool_decide; [by eexists|]. unfold stmt. rewrite Hf.
  match goal with |- ∃ r, (infos ← omap_all _ ?rows; _) = _ => destruct (omap_all_total scanObligation rows) as [infos ->] end;
    [|by eexists].
  intros row. rewrite elem_of_range_order, list_elem_of_filter. intros [_ Hr]. by apply Hread.
Qed.

Lemma set_of_is_Some l k : is_Some (set_of l !! k) ↔ k ∈ l.
Proof.
  unfold set_of. rewrite <-not_eq_None_Some, (foldl_insert_None id (λ _, true) l ∅ k), list_fmap_id, lookup_empty.
  destruct (decide (k ∈ l)); naive_solver.
Qed.

(** The types left for an operation by the filter, and the set of their ids. *)
Lemma operationSet_dom rt ids all op : is_Some (getOperationSet rt ids all !! op) ↔ op ∈ ids.
Proof.
  rewrite <-not_eq_None_Some, (proj1 (getOperationSet_spec _ _ _ _)). destruct (decide (op ∈ ids)); naive_solver.
Qed.
Lemma filtered_types rt ids all tids op info :
  op ∈ ids → info ∈ default [] (filterTypes tids (getOperationSet rt ids all) !! op) ↔
    info ∈ all ∧ applies info rt op = true ∧ (tids = [] ∨ ot_ID info ∈ tids).
Proof.
  intros Hop. rewrite filterTypes_lookup, list_elem_of_filter. apply (operationSet_dom rt ids all) in Hop as [l Hl].
  rewrite Hl. simpl. rewrite (proj1 (proj2 (getOperationSet_spec _ _ _ _) l Hl)). naive_solver.
Qed.
Lemma types_collected site (F : gmap string (list ObligationTypeInfo)) op info :
  info ∈ default [] (F !! op) → is_Some (set_of (map ot_ID (concat (range site F).*2)) !! ot_ID info).
Proof.
  intros Hi. destruct (F !! op) as [ts|] eqn:E; [|by apply elem_of_nil in Hi]. apply set_of_is_Some.
  apply (list_elem_of_fmap_2 ot_ID). apply list_elem_of_In, in_concat. exists ts.
  rewrite <-!list_elem_of_In. split; [|done]. apply list_elem_of_fmap. exists (op, ts). by rewrite elem_of_range.
Qed.

(** A query for the obligations of a declared resource type and declared
    operations answers, for exactly the operations asked for, exactly the
    stored obligations whose type applies to the operation and, when the
    query names obligation types, is one of these. *)
Theorem Query_obligations_exact s rt operation tids t all :
  GetByIDsInternal [rt] = Ok {[rt := t]} → obligationTypeDB_GetAll s = Ok all →
  (∀ o, o ∈ operation → o ∈ rto_ID <$> rt_Operation t) →
  sql_fault "obligation.GetByObligationTypeIDs" = None →
  (∀ row, row ∈ t_obligation s → ∃ o, scanObligation row = Ok o) →
  ∃ r, obligation_Query s rt operation tids = Ok r ∧
    ∀ op, (is_Some (r !! op) ↔ op ∈ asked t operation) ∧
      ∀ l, r !! op = Some l → ∀ o, o ∈ l ↔
        (∃ row, row ∈ t_obligation s ∧ scanObligation row = Ok o) ∧
        ∃ info, info ∈ all ∧ ot_ID info = ob_TypeID o ∧ applies info rt op = true ∧ (tids = [] ∨ ot_ID info ∈ tids).
Proof.
  intros Hm Hall Hops Hf Hread. unfold obligation_Query. rewrite (Query_unfold s rt operation t all Hm Hall Hops).
  cbn [mbind outcome_bind]. set (T := getOperationSet rt (asked t operation) all). set (F := filterTypes tids T).
  set (A := set_of _).
  pose proof (λ op, operationSet_dom rt (asked t operation) all op) as Hdom.
  pose proof (λ op info, filtered_types rt (asked t operation) all tids op info) as HF.
  pose proof (λ op info, types_collected 91 F op info) as HA. fold T F in Hdom, HF. fold A in HA.
  case_bool_decide as E.
  - eexists. split; [done|]. intros op. split; [by rewrite lookup_fmap, fmap_is_Some, Hdom|].
    intros l Hl o. rewrite lookup_fmap in Hl. destruct (T !! op) as [ts|] eqn:Et; [|done]. injection Hl as <-.
    split; [by intros ?%elem_of_nil|]. intros (_ & info & Hi & Hid & Hap & Ht). exfalso.
    assert (op ∈ asked t operation) as Hop by (apply Hdom; by eexists).
    destruct (HA op info) as [b Hb]; [by apply HF|]. by rewrite E, lookup_empty in Hb.
  - destruct (obligations_of_types_total s A Hf Hread) as [r Hr]. rewrite Hr. cbn [mbind outcome_bind].
    pose proof (obligations_of_types s A r Hr) as Hobl. eexists. split; [done|]. intros op.
    destruct (merge_fold (λ t, default [] (r !! ot_ID t)) (range 92 F) ((λ _, []) <$> T) op) as (Ha & Hb & Hc).
    rewrite lookup_fmap in Ha, Hb, Hc. split.
    + destruct (T !! op) as [ts|] eqn:Et.
      * assert (op ∈ asked t operation) by (apply Hdom; by eexists). split; [done|]. intros _. apply Hc. by eexists.
      * rewrite Hb; [|intros ts Hts%elem_of_range; destruct (filterTypes_dom tids T op) as [? Hx]; [by eexists|congruence]].
        rewrite <-Hdom, Et. split; by intros [? ?].
    + intros l Hl o. rewrite Hl in Ha. cbn [default] in Ha. rewrite Ha. clear Ha.
      assert (default [] ((λ _ : list ObligationTypeInfo, [] : list ObligationInfo) <$> T !! op) = []) as -> by (by destruct (T !! op)).
      setoid_rewrite elem_of_range. setoid_rewrite Hobl.
      assert (op ∈ asked t operation) as Hop.
      { apply dec_stable. intros Hn. rewrite <-Hdom, <-eq_None_not_Some in Hn. rewrite Hb in Hl.
        - by rewrite Hn in Hl.
        - intros ts Hts%elem_of_range. destruct (filterTypes_dom tids T op) as [? Hx]; [by eexists|]. congruence. }
      split.
      * intros [?%elem_of_nil|(ts & i & Hts & Hi & Hid & _ & Hrow)]; [done|]. split; [done|]. exists i.
        assert (i ∈ default [] (F !! op)) as Hi' by (by rewrite Hts). apply HF in Hi' as (? & ? & ?); [|done]. done.
      * intros (Hrow & i & Hi & Hid & Hap & Htid). right. assert (i ∈ default [] (F !! op)) as Hi' by (by apply HF).
        pose proof (HA _ _ Hi') as Hsome. destruct (F !! op) as [ts|] eqn:Ets; [|by apply elem_of_nil in Hi'].
        exists ts, i. by rewrite Hid in *.
Qed.
End queries.
