(* ===== verification/ObligationOps.v ===== *)
(** * Effects of the obligation services

    Adding and updating obligations, setting obligation types, and the
    obligation service as the decision service expects it. *)
From S2P Require Import Prelude Json Interfaces Common PolicyCalc Store Obligations Policy Role RoleOps RoleAdmin ResourceTypeDB ObligationDB Obligation ObligationSpec.

(** The tables the obligation services do not touch. *)
Definition unrelated_tables (s : store) :=
  (t_policy s, t_role s, t_role_member s, t_resource_type s, t_resource_type_hierarchy s).

Section obligations.
Context `{GoRuntime} `{DrivenUserMgnt} `{LogicsResourceType} `{SqlEnv} `{GoJsonSchema}.

(** The value is valid for the schema of a stored obligation type. *)
Definition conforms (s : store) (typeID : string) (value : json) : Prop :=
  ∃ row info, row ∈ t_obligation_type s ∧ ot_id row = typeID ∧
    scanObligationType ObligationTypeInfo_zero row = Ok info ∧
    NewSchema (ot_Schema info) = true ∧ schema_Validate (ot_Schema info) value = inr [].

Lemma checkJsonValueValid_Ok schema value :
  checkJsonValueValid schema value = Ok tt ↔ NewSchema schema = true ∧ schema_Validate schema value = inr [].
Proof.
  unfold checkJsonValueValid. destruct (NewSchema schema); simpl; [|naive_solver].
  destruct (schema_Validate schema value) as [e|[|msg msgs]]; naive_solver.
Qed.

Lemma obligation_types_read s ids infos info :
  obligationType_GetByIDSInternal s ids = Ok infos → info ∈ infos →
  ∃ row, row ∈ t_obligation_type s ∧ is_Some (ids !! ot_id row) ∧ scanObligationType ObligationTypeInfo_zero row = Ok info.
Proof.
  unfold obligationType_GetByIDSInternal, obligationTypeDB_GetByIDs. case_bool_decide; [by intros [= <-] ?%elem_of_nil|].
  intros Hg Hi. apply stmt_Ok in Hg. apply (omap_all_elem _ _ _ _ Hg) in Hi as (row & Hr & Hs).
  apply elem_of_range_order, list_elem_of_filter in Hr as [Hid Hr]. exists row. split_and!; [done| |done].
  apply list_elem_of_fmap in Hid as ([k b] & E & Hk%elem_of_range). simpl in E. subst k. exists b. exact Hk.
Qed.

Lemma conforms_of s typeID infos info value :
  obligationType_GetByIDSInternal s {[typeID := true]} = Ok (info :: infos) →
  checkJsonValueValid (ot_Schema info) value = Ok tt → conforms s typeID value.
Proof.
  intros Hg [Hn Hv]%checkJsonValueValid_Ok. destruct (obligation_types_read _ _ _ info Hg) as (row & Hr & [b Hb] & Hs); [left|].
  apply lookup_singleton_Some in Hb as [Hid _]. by exists row, info.
Qed.

(** A successful [Add] was asked by an administrator, for an existing
    obligation type and a value its schema accepts, and adds exactly one
    obligation, with a new id, that reads back as the request. *)
Theorem Add_effect visitor info s id s' :
  obligation_Add visitor info s = (Ok id, s') →
  is_admin visitor ∧ conforms s (ob_TypeID info) (ob_Value info) ∧ id = uuid (seq_uuid s) ∧
  (∃ row, t_obligation s' = t_obligation s ++ [row] ∧
     scanObligation row = Ok {| ob_ID := id; ob_TypeID := ob_TypeID info; ob_Name := ob_Name info;
       ob_Description := ob_Description info; ob_Value := ob_Value info;
       ob_CreatedTime := curTime; ob_ModifyTime := curTime |}) ∧
  t_obligation_type s' = t_obligation_type s ∧ unrelated_tables s' = unrelated_tables s.
Proof.
  intros Ha. unfold obligation_Add in Ha. mstep Ha as [] Hv. mstep Ha as types Ht.
  destruct types as [|t types]; [done|]. mstep Ha as [] Hc. mstep Ha as id' Hu. injection Hu as <- <-.
  mstep Ha as [] Hadd. injection Ha as <- <-. apply exec_fault in Hadd as [[_ ->]|(? & ? & _)]; [|done].
  split; [by apply role_checkVisitorType_Ok|]. split; [by eapply conforms_of|]. split; [done|].
  split; [|done]. eexists. by split.
Qed.

Lemma GetByID_row s id info :
  Forall (λ row, o_id row ≠ "") (t_obligation s) → obligationDB_GetByID s id = Ok info → ob_ID info ≠ "" →
  ∃ row, row ∈ t_obligation s ∧ o_id row = id ∧ scanObligation row = Ok info.
Proof.
  intros Hne Hg Hid. apply stmt_Ok in Hg.
  assert (∀ acc rows, (∀ row, row ∈ rows → row ∈ t_obligation s ∧ o_id row = id) →
    ofold (λ _ row, scanObligation row) acc rows = Ok info →
    info = acc ∨ ∃ row, row ∈ t_obligation s ∧ o_id row = id ∧ scanObligation row = Ok info) as Hscan.
  { intros acc rows. revert acc. induction rows as [|row rows IH]; intros acc Hrows; simpl; [intros [= ->]; by left|].
    intros Hb. apply bind_Ok in Hb as (acc' & Hs & Hb). destruct (IH acc') as [->|Hr]; [by set_solver|done| |by right].
    right. exists row. destruct (Hrows row) as [? ?]; [left|]. done. }
  apply Hscan in Hg as [->|Hr]; [done|done|]. intros row. rewrite elem_of_range_order, list_elem_of_filter. naive_solver.
Qed.

(** A successful [Update] was asked by an administrator for an existing
    obligation; a changed value is accepted by the schema of its type; only
    the requested columns of that obligation change. *)
Theorem Update_obligation_effect visitor id name nc d dc value vc s s' :
  Forall (λ row, o_id row ≠ "") (t_obligation s) →
  obligation_Update visitor id name nc d dc value vc s = (Ok tt, s') →
  is_admin visitor ∧
  (∃ row, row ∈ t_obligation s ∧ o_id row = id ∧ (vc = true → conforms s (o_type_id row) value)) ∧
  t_obligation s' = updateObligationRow id name nc d dc value vc <$> t_obligation s ∧
  t_obligation_type s' = t_obligation_type s ∧ unrelated_tables s' = unrelated_tables s.
Proof.
  intros Hne Hu. unfold obligation_Update in Hu. mstep Hu as [] Hv. mstep Hu as info Hg.
  mstep Hu as [] Hex%fail_if_Ok. rewrite bool_decide_eq_false in Hex. mstep Hu as [] Hc.
  apply exec_fault in Hu as [[_ ->]|(? & ? & _)]; [|done].
  split; [by apply role_checkVisitorType_Ok|]. split; [|done].
  destruct (GetByID_row s id info Hne Hg Hex) as (row & Hr & Hid & Hs). exists row. split_and!; [done|done|].
  intros ->. apply bind_Ok in Hc as (types & Ht & Hc). destruct types as [|t types]; [done|].
  assert (ob_TypeID info = o_type_id row) as <- by (unfold scanObligation in Hs; by apply bind_Ok in Hs as (v & _ & [= <-])).
  by eapply conforms_of.
Qed.

(** ** Setting an obligation type *)

(** Every resource type and operation the scope names is declared. *)
Definition declared_scope (types : list ResourceType) (info : ObligationTypeInfo) : Prop :=
  orsi_Unlimited (ot_ResourceTypeScope info) = true ∨
  ∀ t, t ∈ orsi_Types (ot_ResourceTypeScope info) → ∃ rt, rt ∈ types ∧ rt_ID rt = ors_ResourceTypeID t ∧
    (oos_Unlimited (ors_OperationsScope t) = true ∨
     ∀ op, op ∈ oos_Operations (ors_OperationsScope t) → oop_ID op ∈ rto_ID <$> rt_Operation rt).

(** The schema compiles and accepts the default value, if there is one. *)
Definition legal_schema (info : ObligationTypeInfo) : Prop :=
  NewSchema (ot_Schema info) = true ∧
  (ot_DefaultValue info = JNull ∨ schema_Validate (ot_Schema info) (ot_DefaultValue info) = inr []).

Lemma checkSchema_Ok info : checkSchema info = Ok tt → legal_schema info.
Proof.
  unfold checkSchema, legal_schema. intros Hc. apply bind_Ok in Hc as ([] & Hn & Hc).
  apply fail_if_Ok in Hn. rewrite negb_false_iff in Hn. split; [done|].
  destruct (ot_DefaultValue info); [by left|right..]; by destruct (schema_Validate _ _) as [?|[|]].
Qed.

Lemma last_type_elem (types : list ResourceType) (m : gmap string ResourceType) id rt :
  foldl (λ m t, <[rt_ID t := t]> m) m types !! id = Some rt →
  m !! id = Some rt ∨ rt ∈ types ∧ rt_ID rt = id.
Proof.
  revert m. induction types as [|t types IH]; intros m; simpl; [by left|]. intros [Hm|[Hin Hid]]%IH.
  - apply lookup_insert_Some in Hm as [[<- <-]|[_ Hm]]; [right; split; [left|done]|by left].
  - right. split; [by right|done].
Qed.

Lemma checkResourceTypeAndOperation_Ok info :
  checkResourceTypeAndOperation info = Ok tt →
  ∃ types, (orsi_Unlimited (ot_ResourceTypeScope info) = true ∨ GetAllInternal = Ok types) ∧ declared_scope types info.
Proof.
  unfold checkResourceTypeAndOperation, declared_scope.
  destruct (orsi_Unlimited (ot_ResourceTypeScope info)); [exists []; auto|].
  intros Hc. apply bind_Ok in Hc as (types & Ht & Hc). exists types. split; [by right|right].
  apply each_ok_Ok in Hc. rewrite Forall_forall in Hc. intros t Hin. specialize (Hc t Hin).
  case_match eqn:E; [|done]. apply last_type_elem in E as [?|[Hr Hid]]; [done|]. eexists. split_and!; [done|done|].
  case_match; [by left|right]. apply each_ok_Ok in Hc. rewrite Forall_forall in Hc. intros op Hop.
  specialize (Hc op Hop). apply fail_if_Ok in Hc. rewrite bool_decide_eq_false in Hc.
  by apply set_of_is_Some, not_eq_None_Some.
Qed.

(** What reading a row just written gives. *)
Definition stored_obligation_type (info : ObligationTypeInfo) (created modified : Z) : ObligationTypeInfo :=
  {| ot_ID := ot_ID info; ot_Name := ot_Name info; ot_Description := ot_Description info;
     ot_ResourceTypeScope := stored_obligation_scope (ot_ResourceTypeScope info); ot_Schema := ot_Schema info;
     ot_DefaultValue := ot_DefaultValue info; ot_UiSchema := ot_UiSchema info;
     ot_CreatedTime := created; ot_ModifyTime := modified |}.

Lemma optional_round_trip v : unmarshal_optional JNull (marshal_optional v) = Ok v.
Proof. by destruct v. Qed.

Lemma scan_set_row row info :
  ot_id row = ot_ID info → ot_name row = ot_Name info → ot_description row = ot_Description info →
  ot_schema row = marshal (ot_Schema info) → ot_ui_schema row = marshal_optional (ot_UiSchema info) →
  ot_default_value row = marshal_optional (ot_DefaultValue info) →
  ot_applicable_resource_types row = obligationType_scopeToString (ot_ResourceTypeScope info) →
  (complete_scope (ot_ResourceTypeScope info) → scanObligationType ObligationTypeInfo_zero row =
     Ok (stored_obligation_type info (ot_created row) (ot_modified row))) ∧
  (¬ complete_scope (ot_ResourceTypeScope info) → ∃ w, scanObligationType ObligationTypeInfo_zero row = Panic w).
Proof.
  intros E1 E2 E3 E4 E5 E6 E7. unfold scanObligationType, stored_obligation_type.
  rewrite E1, E2, E3, E4, E5, E6, E7. simpl. rewrite !optional_round_trip. simpl. split; intros Hc.
  - by rewrite complete_scope_reads.
  - destruct (incomplete_scope_panics _ Hc) as [w ->]. by eexists.
Qed.

Lemma obligationTypeDB_Set_rows info s s' :
  NoDup (ot_id <$> t_obligation_type s) → obligationTypeDB_Set info s = (Ok tt, s') →
  NoDup (ot_id <$> t_obligation_type s') ∧ (ot_ID info ∈ ot_id <$> t_obligation_type s') ∧
  (∀ row, ot_id row ≠ ot_ID info → row ∈ t_obligation_type s' ↔ row ∈ t_obligation_type s) ∧
  (∀ row, row ∈ t_obligation_type s' → ot_id row = ot_ID info →
     ot_modified row = curTime ∧
     (complete_scope (ot_ResourceTypeScope info) → scanObligationType ObligationTypeInfo_zero row =
        Ok (stored_obligation_type info (ot_created row) (ot_modified row))) ∧
     (¬ complete_scope (ot_ResourceTypeScope info) → ∃ w, scanObligationType ObligationTypeInfo_zero row = Panic w)) ∧
  t_obligation s' = t_obligation s ∧ unrelated_tables s' = unrelated_tables s.
Proof.
  intros Hnd Hs. unfold obligationTypeDB_Set in Hs. mstep Hs as found Hq. apply stmt_Ok in Hq. injection Hq as <-.
  destruct (upsert_rows ot_id (ot_ID info) (updateObligationTypeRow info) (newObligationTypeRow (seq_primary s) info)
    (t_obligation_type s) (t_obligation_type s')) as (Hnd' & Hid & Hrows); [done|done|done| |].
  { case_bool_decide; apply exec_cases in Hs as [[_ ->]|(? & ? & _)]; done. }
  split_and!; [done|done| | | |].
  - intros row Hne. rewrite Hrows. split; [|by left]. intros [[? _]|[(r0 & _ & Hk & ->)|[_ ->]]]; done.
  - intros row Hr Hk. apply Hrows in Hr as [[_ ?]|[(r0 & _ & Hk0 & ->)|[_ ->]]]; [done|..];
      (split; [done|by apply scan_set_row]).
  - case_bool_decide; apply exec_cases in Hs as [[_ ->]|(? & ? & _)]; done.
  - case_bool_decide; apply exec_cases in Hs as [[_ ->]|(? & ? & _)]; done.
Qed.

(** The rows of [t_obligation_type] have distinct ids and can all be read. *)
Definition obligation_types_ok (s : store) : Prop :=
  NoDup (ot_id <$> t_obligation_type s) ∧
  ∀ row, row ∈ t_obligation_type s → ∃ info, scanObligationType ObligationTypeInfo_zero row = Ok info.

Lemma GetAll_total s :
  sql_fault "obligationType.GetAll" = None → obligation_types_ok s → ∃ all, obligationTypeDB_GetAll s = Ok all.
Proof.
  intros Hf [_ Hr]. unfold obligationTypeDB_GetAll, stmt, scanObligationTypes. rewrite Hf. apply omap_all_total.
  intros row. rewrite order_by_perm, elem_of_range_order. apply Hr.
Qed.
Lemma GetAll_elem s all info :
  obligationTypeDB_GetAll s = Ok all →
  info ∈ all ↔ ∃ row, row ∈ t_obligation_type s ∧ scanObligationType ObligationTypeInfo_zero row = Ok info.
Proof.
  intros Hg. apply stmt_Ok in Hg. rewrite (omap_all_elem _ _ _ _ Hg).
  setoid_rewrite order_by_perm. by setoid_rewrite elem_of_range_order.
Qed.
Lemma GetAll_panics s row :
  sql_fault "obligationType.GetAll" = None → row ∈ t_obligation_type s →
  (∃ w, scanObligationType ObligationTypeInfo_zero row = Panic w) →
  (∀ r, r ∈ t_obligation_type s → ∀ e, scanObligationType ObligationTypeInfo_zero r ≠ Err e) →
  ∃ w, obligationTypeDB_GetAll s = Panic w.
Proof.
  intros Hf Hin Hp Hne. unfold obligationTypeDB_GetAll, stmt, scanObligationTypes. rewrite Hf.
  apply (omap_all_panics _ _ row); [by rewrite order_by_perm, elem_of_range_order|done|].
  intros r. rewrite order_by_perm, elem_of_range_order. apply Hne.
Qed.

Lemma scan_id row info : scanObligationType ObligationTypeInfo_zero row = Ok info → ot_ID info = ot_id row.
Proof.
  unfold scanObligationType. intros Hs. repeat (apply bind_Ok in Hs as (? & _ & Hs)). by injection Hs as <-.
Qed.

Lemma Set_complete s s' info :
  obligation_types_ok s → sql_fault "obligationType.GetAll" = None →
  obligationTypeDB_Set info s = (Ok tt, s') → complete_scope (ot_ResourceTypeScope info) →
  obligation_types_ok s' ∧ ∃ before after, obligationTypeDB_GetAll s = Ok before ∧ obligationTypeDB_GetAll s' = Ok after ∧
    (∀ i, ot_ID i ≠ ot_ID info → i ∈ after ↔ i ∈ before) ∧
    (∃ created, stored_obligation_type info created curTime ∈ after) ∧
    (∀ i, i ∈ after → ot_ID i = ot_ID info → i = stored_obligation_type info (ot_CreatedTime i) curTime).
Proof.
  intros Hok Hf Hs Hc. destruct (obligationTypeDB_Set_rows info s s' (proj1 Hok) Hs) as (Hnd' & Hid & Hother & Hown & _).
  assert (obligation_types_ok s') as Hok'.
  { split; [done|]. intros row Hr. destruct (decide (ot_id row = ot_ID info)) as [E|E].
    - eexists. by apply (Hown row Hr E).
    - by apply (proj2 Hok), Hother. }
  split; [done|]. destruct (GetAll_total s Hf Hok) as [before Hb]. destruct (GetAll_total s' Hf Hok') as [after Ha].
  exists before, after. split_and!; [done|done| | |].
  - intros i Hi. rewrite (GetAll_elem s' after i Ha), (GetAll_elem s before i Hb).
    split; intros (row & Hr & Hsc); exists row; (split; [|done]); apply Hother; try done; by rewrite <-(scan_id _ _ Hsc).
  - apply list_elem_of_fmap in Hid as (row & Hk & Hr). destruct (Hown row Hr (eq_sym Hk)) as (Hm & Hsc & _).
    exists (ot_created row). apply (GetAll_elem s' after _ Ha). exists row. by rewrite <-Hm, Hsc.
  - intros i Hi Hii. apply (GetAll_elem s' after i Ha) in Hi as (row & Hr & Hsc).
    rewrite (scan_id _ _ Hsc) in Hii. destruct (Hown row Hr Hii) as (Hm & Hsc' & _). rewrite Hsc' in Hsc by done.
    injection Hsc as <-. by rewrite Hm.
Qed.

Lemma Set_incomplete s s' info :
  obligation_types_ok s → sql_fault "obligationType.GetAll" = None →
  obligationTypeDB_Set info s = (Ok tt, s') → ¬ complete_scope (ot_ResourceTypeScope info) →
  ∃ w, obligationTypeDB_GetAll s' = Panic w.
Proof.
  intros Hok Hf Hs Hc. destruct (obligationTypeDB_Set_rows info s s' (proj1 Hok) Hs) as (_ & Hid & Hother & Hown & _).
  apply list_elem_of_fmap in Hid as (row & Hk & Hr). apply (GetAll_panics s' row Hf Hr).
  - by apply (Hown row Hr (eq_sym Hk)).
  - intros r Hin e He. destruct (decide (ot_id r = ot_ID info)) as [E|E].
    + destruct (Hown r Hin E) as (_ & _ & Hp). destruct (Hp Hc) as [w Hw]. congruence.
    + apply Hother in Hin; [|done]. destruct (proj2 Hok r Hin) as [i Hi]. congruence.
Qed.

(** A successful [Set] of an obligation type was asked by an
    administrator, has a schema that compiles and accepts the default value,
    and names declared resource types and operations only.  When every
    limited type scope names an operation, the type reads back as it was set
    beside the others as before; otherwise every later query of obligations
    or obligation types panics. *)
Theorem Set_obligation_type_effect visitor info s s' :
  obligation_types_ok s → sql_fault "obligationType.GetAll" = None →
  obligationType_Set visitor info s = (Ok tt, s') →
  is_admin visitor ∧ legal_schema info ∧
  (∃ types, (orsi_Unlimited (ot_ResourceTypeScope info) = true ∨ GetAllInternal = Ok types) ∧ declared_scope types info) ∧
  t_obligation s' = t_obligation s ∧ unrelated_tables s' = unrelated_tables s ∧
  (complete_scope (ot_ResourceTypeScope info) →
     obligation_types_ok s' ∧ ∃ before after, obligationTypeDB_GetAll s = Ok before ∧ obligationTypeDB_GetAll s' = Ok after ∧
       (∀ i, ot_ID i ≠ ot_ID info → i ∈ after ↔ i ∈ before) ∧
       (∃ created, stored_obligation_type info created curTime ∈ after) ∧
       (∀ i, i ∈ after → ot_ID i = ot_ID info → i = stored_obligation_type info (ot_CreatedTime i) curTime)) ∧
  (¬ complete_scope (ot_ResourceTypeScope info) →
     ∀ rt t tids, GetByIDsInternal [rt] = Ok {[rt := t]} →
       (∃ w, obligationType_Query s' rt [] = Panic w) ∧ (∃ w, obligation_Query s' rt [] tids = Panic w)).
Proof.
  intros Hok Hf Hs. unfold obligationType_Set in Hs. mstep Hs as [] Hv. mstep Hs as [] Hc%checkSchema_Ok.
  mstep Hs as [] Hscope%checkResourceTypeAndOperation_Ok.
  destruct (obligationTypeDB_Set_rows info s s' (proj1 Hok) Hs) as (Hnd' & Hid & Hother & Hown & Ht & Hu).
  split; [by apply role_checkVisitorType_Ok|]. split_and!; [done|done|done|done| |].
  - intros Hcomplete. apply Set_complete; try done.
  - intros Hn rt t tids Hrt. destruct (Set_incomplete s s' info Hok Hf) as [w Hw]; [done..|].
    assert (obligationType_Query s' rt [] = Panic w) as Hq.
    { unfold obligationType_Query. rewrite Hrt. simpl. rewrite map_size_singleton. simpl. by rewrite Hw. }
    split; [eauto|]. exists w. unfold obligation_Query. by rewrite Hq.
Qed.
End obligations.
