(* ===== verification/System.v ===== *)
(** * The decision service over the whole store

    The services of [Authorization/logics] wired to one store, as
    [main.go] wires them to one database: decisions read policies, role
    memberships, obligations and resource types from the same tables.  The
    interfaces the decision theorems assume are discharged by the storage
    they run on, and a decision is stated in terms of the tables alone. *)
From S2P Require Import Prelude Json Interfaces Common PolicyCalc PolicyCalcSpec Store PolicyDB PolicyDBSpec Decision Listings Obligations RoleDB Event Role RoleSpec RoleOps RoleQuery ResourceTypeDB ObligationDB Obligation ObligationSpec.

(** ** Obligations *)
Section obligations.
Context `{GoRuntime} `{SqlEnv}.

Definition read_obligation (row : obligation_row) : option ObligationInfo :=
  match scanObligation row with Ok o => Some o | _ => None end.
(** The obligations in the table, by id. *)
Definition stored_obligations (s : store) : gmap string ObligationInfo :=
  list_to_map ((λ o, (ob_ID o, o)) <$> omap read_obligation (t_obligation s)).

Lemma read_obligation_id row o : read_obligation row = Some o → ob_ID o = o_id row.
Proof.
  unfold read_obligation, scanObligation. destruct (unmarshal_value (o_value row)); simpl; [|done..].
  by intros [= <-].
Qed.

Lemma read_ids_sublist rows : ob_ID <$> omap read_obligation rows `sublist_of` o_id <$> rows.
Proof.
  induction rows as [|row rows IH]; csimpl; [done|]. destruct (read_obligation row) as [o|] eqn:E; csimpl.
  - rewrite (read_obligation_id _ _ E). by apply sublist_skip.
  - by apply sublist_cons.
Qed.

Lemma stored_obligations_lookup s id o :
  NoDup (o_id <$> t_obligation s) →
  stored_obligations s !! id = Some o ↔ ∃ row, row ∈ t_obligation s ∧ scanObligation row = Ok o ∧ o_id row = id.
Proof.
  intros Hnd. unfold stored_obligations. rewrite <-elem_of_list_to_map.
  2: { rewrite <-list_fmap_compose. eapply sublist_NoDup; [exact Hnd|apply read_ids_sublist]. }
  rewrite list_elem_of_fmap. setoid_rewrite list_elem_of_omap. split.
  - intros (o' & [= -> ->] & row & Hr & Hs). exists row. rewrite (read_obligation_id _ _ Hs).
    unfold read_obligation in Hs. destruct (scanObligation row); naive_solver.
  - intros (row & Hr & Hs & <-). exists o. assert (read_obligation row = Some o) as Ho by (unfold read_obligation; by rewrite Hs).
    rewrite (read_obligation_id _ _ Ho). eauto.
Qed.

Lemma scan_obligation_panic_free row : panic_free (scanObligation row).
Proof. unfold scanObligation. destruct (o_value row); intros w; done. Qed.

(** The service cannot panic: each answer is a list or an error. *)
Lemma GetByIDSInternal_panic_free s ids : panic_free (obligation_GetByIDSInternal s ids).
Proof.
  unfold obligation_GetByIDSInternal, obligationDB_GetByIDs. case_bool_decide; [auto with isf|].
  unfold stmt. case_match; [auto with isf|]. apply panic_free_omap_all. intros row _. apply scan_obligation_panic_free.
Qed.

Lemma service_Ok s ids l :
  @Obligation_GetByIDSInternal (obligation_service s) ids = inr l → obligation_GetByIDSInternal s ids = Ok l.
Proof. simpl. by destruct (obligation_GetByIDSInternal s ids); intros [= ->]. Qed.

Lemma GetByIDSInternal_elem s ids l :
  obligation_GetByIDSInternal s ids = Ok l →
  ∀ o, o ∈ l ↔ ∃ row, row ∈ t_obligation s ∧ scanObligation row = Ok o ∧ is_Some (ids !! o_id row).
Proof.
  assert (∀ id, id ∈ (range 93 ids).*1 ↔ is_Some (ids !! id)) as Hids.
  { intros id. rewrite list_elem_of_fmap. split.
    - intros ([k b] & -> & Hk%elem_of_range). by eexists.
    - intros [b Hb]. exists (id, b). by rewrite elem_of_range. }
  unfold obligation_GetByIDSInternal, obligationDB_GetByIDs. case_bool_decide as E; intros Hg o.
  - injection Hg as <-. rewrite elem_of_nil. split; [done|]. intros (row & _ & _ & Hi). apply Hids in Hi.
    apply length_zero_iff_nil in E. rewrite E in Hi. by apply elem_of_nil in Hi.
  - apply stmt_Ok in Hg. rewrite (omap_all_elem _ _ _ _ Hg). setoid_rewrite elem_of_range_order.
    setoid_rewrite list_elem_of_filter. setoid_rewrite Hids. naive_solver.
Qed.

(** The obligation service over the table implements the source of
    obligations that decisions are proved against: a successful answer holds
    exactly the stored obligations of the requested ids. *)
Lemma obligation_service_source s :
  NoDup (o_id <$> t_obligation s) → @ObligationSource (obligation_service s) (stored_obligations s).
Proof.
  intros Hnd. split.
  - intros ids l Hl o. apply service_Ok in Hl. rewrite (GetByIDSInternal_elem s ids l Hl).
    rewrite (stored_obligations_lookup s _ _ Hnd). split.
    + intros (row & Hr & Hs & Hi). assert (read_obligation row = Some o) as Ho by (unfold read_obligation; by rewrite Hs).
      rewrite (read_obligation_id _ _ Ho). eauto.
    + intros [Hi (row & Hr & Hs & Hid)]. exists row. by rewrite Hid.
  - intros id o. rewrite (stored_obligations_lookup s _ _ Hnd). intros (row & _ & Hs & <-).
    apply read_obligation_id. unfold read_obligation. by rewrite Hs.
Qed.

Lemma obligation_service_answers s ids :
  sql_fault "obligation.GetByIDs" = None → (∀ row, row ∈ t_obligation s → ∃ o, scanObligation row = Ok o) →
  ∃ l, @Obligation_GetByIDSInternal (obligation_service s) ids = inr l.
Proof.
  intros Hf Hr. simpl. unfold obligation_GetByIDSInternal, obligationDB_GetByIDs. case_bool_decide; [by eexists|].
  unfold stmt. rewrite Hf.
  match goal with |- context [omap_all scanObligation ?rows] => destruct (omap_all_total scanObligation rows) as [l ->] end.
  - intros row. rewrite elem_of_range_order, list_elem_of_filter. intros [_ ?]. by apply Hr.
  - by eexists.
Qed.
End obligations.

(** ** The specification of a decision *)
Section specification.
Context `{GoRuntime} `{JsonLogic} `{SqlEnv}.

(** The identities of a user whose organisation ids are [ids] and who holds
    the system roles [types]. *)
Definition identities (s : store) (ids : list string) (types : list SystemRoleType) : list string :=
  ids ++ [rootDepID] ++
  (m_role_id <$> filter (λ row, m_member_id row ∈ ids ++ [rootDepID]) (t_role_member s)) ++
  omap systemRoleID types.

(** The obligations the applicable rules of the path attach to an operation. *)
Definition attached (ps : list PolicyInfo) (r : ResourceInfo) (a : AccessorInfo) (op : string)
  : list policyObligationCalcItem :=
  decision_path r ≫= λ id,
    if bool_decide (level_says (check_data r a) (at_level ps id) op = Some true)
    then level_items (check_data r a) (at_level ps id) op else [].

(** The answer [c] to a request, given the policies [ps] granted to the
    accessor: every operation must be allowed; the obligations of an allowed
    operation are one per type, of the most specific accessor, with the value
    stored for it. *)
Record answers (stored : gmap string ObligationInfo) (ps : list PolicyInfo) (r : ResourceInfo) (a : AccessorInfo)
    (ops : list string) (include : list PolicCalcyIncludeType) (c : CheckResult) : Prop := {
  ans_result : Result c = true ↔ ∀ op, op ∈ ops → decision ps r a op = Some true;
  ans_none : ∀ op, Result c = false ∨ PolicCalcyIncludeOperationObligations ∉ include ∨ decision ps r a op ≠ Some true →
    default [] (OperatrionOblist c !! op) = [];
  ans_types : ∀ op, NoDup (obl_TypeID <$> default [] (OperatrionOblist c !! op));
  ans_best : ∀ op i, i ∈ default [] (OperatrionOblist c !! op) →
    ∃ ci, best (attached ps r a op) ci ∧ resolved stored (ci_item ci) = Some i;
  ans_complete : ∀ op ci, Result c = true → PolicCalcyIncludeOperationObligations ∈ include →
    decision ps r a op = Some true → ci ∈ attached ps r a op →
    ∃ ci', best (attached ps r a op) ci' ∧ obl_TypeID (ci_item ci') = obl_TypeID (ci_item ci) ∧
      ∀ i, resolved stored (ci_item ci') = Some i → i ∈ default [] (OperatrionOblist c !! op)
}.

#[global] Instance attached_proper : Proper ((≡ₚ) ==> (=) ==> (=) ==> (=) ==> (≡ₚ)) attached.
Proof.
  intros ps qs E r ? <- a ? <- op ? <-. unfold attached. induction (decision_path r) as [|id path IH]; csimpl; [done|].
  rewrite IH. f_equiv. rewrite (level_says_proper _ _ _ (at_level_proper _ _ E id id eq_refl) op op eq_refl).
  case_bool_decide; [|done]. unfold level_items. by rewrite E.
Qed.

(** Only the policies on the levels of the path matter. *)
Lemma attached_filter (Q : PolicyInfo → Prop) `{∀ p, Decision (Q p)} ps r a op :
  (∀ p, p ∈ ps → pol_ResourceID p ∈ decision_path r → Q p) →
  attached (filter Q ps) r a op = attached ps r a op.
Proof.
  intros HQ. unfold attached. apply list_bind_ext_in. intros id Hid.
  assert (at_level (filter Q ps) id = at_level ps id) as ->; [|done]. unfold at_level.
  apply filter_filter_sub. intros p Hp <-. by apply HQ.
Qed.
End specification.

(** ** [Check] implements the specification *)
Section check.
Context `{GoRuntime} `{DrivenUserMgnt} `{JsonLogic} `{!DBPolicyCalc} `{LogicsRole}
  `{!LogicsObligation} (live : list PolicyInfo) `{!PolicySource live}
  (stored : gmap string ObligationInfo) `{!ObligationSource stored}.

Lemma inherited_items site data ps r op :
  at_level ps "" = [] →
  let inh := calcResourceInheritedOperation (createAncestorsResource r)
               (permOfGroups site (λ _, data) (group_by pol_ResourceID ps) ∅) in
  in_obl inh !! op =
    if bool_decide (nearest (λ id, level_says data (at_level ps id) op) (decision_path r) = Some true)
    then Some (decision_path r ≫= λ id, if bool_decide (level_says data (at_level ps id) op = Some true)
                                         then level_items data (at_level ps id) op else [])
    else None.
Proof.
  intros He. unfold calcResourceInheritedOperation. edestruct inherit_from_zero as (_ & _ & Ho). rewrite Ho. clear Ho.
  rewrite levelIDs_create. fold (decision_path r).
  rewrite (nearest_ext _ (λ id, level_says data (at_level ps id) op)).
  2: { intros id _. by rewrite perm_at_groups, perm_says_calcOne. }
  rewrite nearest_replicate by (by rewrite He, level_says_nil). case_bool_decide; [|done]. f_equal.
  rewrite bind_app. assert (∀ n, replicate n "" ≫= (λ id, default [] (rp_allow (perm_at
    (permOfGroups site (λ _, data) (group_by pol_ResourceID ps) ∅) id) !! op)) = []) as ->.
  { intros n. induction n as [|n IH]; csimpl; [done|]. by rewrite IH, perm_at_groups, He, app_nil_r. }
  rewrite app_nil_l. apply list_bind_ext_in. intros id _. by rewrite perm_at_groups, rp_allow_calcOne.
Qed.

Lemma read_attached r a toks ps op :
  GetPoliciesByResourcesAndAccessToken (createAncestorsResource r) toks = Ok ps →
  attached ps r a op ≡ₚ attached (granted live (res_Type r) toks) r a op.
Proof.
  intros Hps. destruct (createAncestorsResource_head r) as (r0 & l & Hc & Ht).
  apply src_resources in Hps; [|by rewrite Hc]. rewrite Hps.
  rewrite <-(attached_filter (for_resources (createAncestorsResource r) toks) (granted _ _ _)).
  - rewrite filter_filter_sub; [done|]. intros p _ (_ & Hty & Hacc). rewrite Hc in Hty. by rewrite <-Ht.
  - intros p Hp Hid. apply list_elem_of_filter in Hp as [[Hty Hacc] _].
    split_and!; [by apply decision_path_ids|by rewrite Hc, Ht|done].
Qed.

(** The obligations in the answer, for any request that succeeds. *)
Lemma Check_obligations r a ops include toks ps c :
  getAccessorIDs a = Ok toks → GetPoliciesByResourcesAndAccessToken (createAncestorsResource r) toks = Ok ps →
  at_level ps "" = [] → policyCalc_Check r a ops include = Ok c →
  ∃ m, (∀ op, m !! op = if bool_decide (decision ps r a op = Some true) then Some (attached ps r a op) else None) ∧
    OperatrionOblist c = if Result c && includesObligations include then calcObligationWithPriority m else ∅.
Proof.
  intros Htoks Hps He. unfold policyCalc_Check. rewrite Htoks. simpl. rewrite Hps. simpl.
  change (if bool_decide (res_ID r = "*") then None else Some (makeDataInfo ∅ r a)) with (check_data r a).
  set (inh := calcResourceInheritedOperation _ _). intros Hc. exists (in_obl inh). split.
  - intros op. apply (inherited_items 6 (check_data r a) ps r op He).
  - destruct (refused inh ops); injection Hc as <-; simpl; [done|]. by destruct (includesObligations include).
Qed.

Lemma Check_answers r a ops include toks ps :
  getAccessorIDs a = Ok toks → GetPoliciesByResourcesAndAccessToken (createAncestorsResource r) toks = Ok ps →
  named live ∨ res_ID r ≠ "" → (∀ ids, ∃ l, Obligation_GetByIDSInternal ids = inr l) →
  ∃ c, policyCalc_Check r a ops include = Ok c ∧ answers stored (granted live (res_Type r) toks) r a ops include c.
Proof.
  intros Htoks Hps Hn Hans. destruct (Check_decision live r a ops include toks ps Htoks Hps Hn) as (c & Hc & Hres).
  exists c. split; [done|]. assert (at_level ps "" = []) as He.
  { by eapply (read_empty_level live). }
  destruct (Check_obligations r a ops include toks ps c Htoks Hps He Hc) as (m & Hm & Hob).
  assert (∀ op, decision ps r a op = decision (granted live (res_Type r) toks) r a op) as Hdec.
  { intros op. by apply read_decision. }
  assert (∀ op, (default [] (OperatrionOblist c !! op) = [] ∧
      (Result c = false ∨ PolicCalcyIncludeOperationObligations ∉ include ∨ decision ps r a op ≠ Some true)) ∨
    (Result c = true ∧ decision ps r a op = Some true ∧ m !! op = Some (attached ps r a op) ∧
     OperatrionOblist c = calcObligationWithPriority m ∧ PolicCalcyIncludeOperationObligations ∈ include)) as Hcases.
  { intros op. destruct (Result c); [|left; split; [by rewrite Hob|by left]]. rewrite Hob, Hm.
    unfold includesObligations. simpl. case_bool_decide as Hi; [|left; split; [done|by right; left]].
    destruct (decide (decision ps r a op = Some true)) as [Hd|Hd].
    - right. by rewrite bool_decide_eq_true_2.
    - left. split; [|by right; right]. rewrite (calcObligationWithPriority_lookup stored) by done.
      by rewrite Hm, bool_decide_eq_false_2. }
  split.
  - done.
  - intros op Hnone. rewrite <-Hdec in Hnone. destruct (Hcases op) as [[? _]|(? & ? & _ & _ & ?)]; [done|].
    destruct Hnone as [?|[?|?]]; congruence.
  - intros op. destruct (Hcases op) as [[-> _]|(_ & _ & Hop & -> & _)]; [constructor|].
    by apply (obligations_by_priority stored m op _ Hans Hop).
  - intros op i Hi. destruct (Hcases op) as [[E _]|(_ & _ & Hop & E & _)]; [rewrite E in Hi; by apply elem_of_nil in Hi|].
    rewrite E in Hi. apply (obligations_by_priority stored m op _ Hans Hop) in Hi as (ci & Hb & Hr). exists ci.
    split; [|done]. by eapply best_perm; [apply (read_attached r a toks ps op Hps)|].
  - intros op ci Ht Hi Hd Hci. rewrite <-Hdec in Hd. destruct (Hcases op) as [[_ [?|[?|?]]]|(_ & _ & Hop & -> & _)]; [congruence..|].
    rewrite <-(read_attached r a toks ps op Hps) in Hci.
    destruct (obligations_by_priority stored m op _ Hans Hop) as (_ & _ & Hcomplete).
    destruct (Hcomplete ci Hci) as (ci' & Hb & Hty & Hin). exists ci'. split_and!; [|done|done].
    by eapply best_perm; [apply (read_attached r a toks ps op Hps)|].
Qed.
End check.

(** ** The services over one store *)
Section wired.
Context `{GoRuntime} `{DrivenUserMgnt} `{JsonLogic} `{SqlEnv}.

Definition wired_Check (s : store) : ResourceInfo → AccessorInfo → list string → list PolicCalcyIncludeType →
    outcome CheckResult :=
  @policyCalc_Check _ _ _ (policyCalcDB s) (role_service s) (obligation_service s).

Definition obligations_ok (s : store) : Prop :=
  NoDup (o_id <$> t_obligation s) ∧ ∀ row, row ∈ t_obligation s → ∃ o, scanObligation row = Ok o.

(** The identities an accessor acts under: a user the organisation knows acts
    under the ids it gives, an application under its own id, and each under
    the roles it is a member of. *)
Inductive acts_under (s : store) (a : AccessorInfo) : list string → Prop :=
| user_acts ids types :
    acc_Type a = RealName → GetAccessorIDsByUserID (acc_ID a) = Ok ids → GetUserRolesByUserID (acc_ID a) = Ok types →
    acts_under s a (identities s ids types)
| app_acts :
    acc_Type a = App →
    acts_under s a (acc_ID a :: (m_role_id <$> filter (λ row, m_member_id row ∈ [acc_ID a]) (t_role_member s))).

Lemma acts_under_types s a toks : acts_under s a toks → acc_Type a ∈ [RealName; App].
Proof. intros [? ? E|E]; rewrite E; set_solver. Qed.

Lemma wired_identities s a toks' :
  acts_under s a toks' → sql_fault "roleMember.GetRoleByMembers" = None →
  ∃ toks, @getAccessorIDs _ (role_service s) a = Ok toks ∧ toks ≠ [] ∧ ∀ t, t ∈ toks ↔ t ∈ toks'.
Proof.
  intros [ids types Ht Hids Htypes|Ht] Hf.
  - destruct (GetRoleByMembers_total s (ids ++ [rootDepID]) Hf) as [roles Hroles]; [by destruct ids|].
    destruct (@user_identities _ (role_service s) a ids roles types Ht Hids Hroles Htypes) as (toks & Hok & _ & Hin).
    exists toks. split_and!; [done| |].
    + intros ->. apply (elem_of_nil rootDepID), Hin. by right; left.
    + intros t. rewrite Hin, (GetRoleByMembers_spec _ _ _ Hroles). unfold identities.
      rewrite !elem_of_app, list_elem_of_singleton, list_elem_of_fmap. setoid_rewrite list_elem_of_filter. naive_solver.
  - destruct (GetRoleByMembers_total s [acc_ID a] Hf) as [roles Hroles]; [done|].
    destruct (@getAccessorIDs_app _ (role_service s) a roles Ht Hroles) as (toks & Hok & _ & Hin).
    exists toks. split_and!; [done| |].
    + intros ->. apply (elem_of_nil (acc_ID a)), Hin. by left.
    + intros t. rewrite Hin, (GetRoleByMembers_spec _ _ _ Hroles), elem_of_cons, list_elem_of_fmap.
      setoid_rewrite list_elem_of_filter. naive_solver.
Qed.

Lemma wired_Check_total s r a ops include toks :
  Forall readable (t_policy s) → named (live_policies s) ∨ res_ID r ≠ "" → obligations_ok s →
  (∀ label, sql_fault label = None) → acts_under s a toks →
  ∃ c, wired_Check s r a ops include = Ok c ∧
    answers (stored_obligations s) (granted (live_policies s) (res_Type r) toks) r a ops include c.
Proof.
  intros Ht Hn [Hnd Hread] Hf Hu. destruct (wired_identities s a toks Hu (Hf _)) as (toks1 & Htoks & Hne & Hin).
  destruct (policyCalcDB_answers s (createAncestorsResource r) toks1 (Hf _) Hne Ht) as [ps Hps].
  rewrite (list_filter_iff (for_type (res_Type r) toks) (for_type (res_Type r) toks1)) by (intros p; by rewrite Hin).
  unfold wired_Check. pose proof (obligation_service_source s Hnd) as Hsrc.
  apply (@Check_answers _ _ _ (policyCalcDB s) (role_service s) (obligation_service s) _ (policyCalcDB_source s) _ Hsrc _ _ _ _ toks1 ps);
    [done|done|done|]. intros m. by apply obligation_service_answers.
Qed.
Lemma wired_Check_spec s r a ops include toks :
  table_ok s → obligations_ok s → (∀ label, sql_fault label = None) → acts_under s a toks →
  ∃ c, wired_Check s r a ops include = Ok c ∧
    answers (stored_obligations s) (granted (live_policies s) (res_Type r) toks) r a ops include c.
Proof.
  intros Ht. apply wired_Check_total; [|left; by apply table_ok_named]. eapply Forall_impl; [exact Ht|]. naive_solver.
Qed.

(** C6. The services over one store implement the specification of a
    decision: for a user the organisation knows and for an application,
    [Check] on readable tables answers, from the policies, memberships and
    obligations stored, exactly what the specification says; and an anonymous
    visitor, who has no identity, gets no answer. *)
Theorem wired_Check_refines s r a ops include :
  table_ok s → obligations_ok s → (∀ label, sql_fault label = None) →
  (∀ toks, acts_under s a toks →
     ∃ c, wired_Check s r a ops include = Ok c ∧
       answers (stored_obligations s) (granted (live_policies s) (res_Type r) toks) r a ops include c) ∧
  (acc_Type a = Anonymous → ∃ e, wired_Check s r a ops include = Err e).
Proof.
  intros Ht Ho Hf. split; [intros toks; by apply wired_Check_spec|]. intros Ha.
  exists sql_syntax_error. unfold wired_Check, policyCalc_Check, getAccessorIDs. rewrite Ha. simpl.
  unfold role_GetRoleByMembers, memberDB_GetRoleByMembers, stmt. by rewrite Hf.
Qed.

Lemma live_policies_without id s s' :
  t_policy s' = filter (λ row, p_accessor_id row ≠ id) (t_policy s) →
  live_policies s' = filter (λ p, pol_AccessorID p ≠ id) (live_policies s).
Proof.
  intros E. unfold live_policies. rewrite E. clear E. induction (t_policy s) as [|row rows IH]; csimpl; [done|].
  rewrite filter_cons. assert (∀ p, live_policy row = Some p → pol_AccessorID p = p_accessor_id row) as Hk.
  { intros p. unfold live_policy. destruct (expired row); [done|]. destruct (scanPolicy row) eqn:E; [|done..].
    intros [= <-]. by apply scanPolicy_keys in E as (_ & _ & _ & -> & _). }
  destruct (live_policy row) as [p|] eqn:E; [|by case_decide; csimpl; rewrite ?E].
  rewrite filter_cons, (Hk p eq_refl). case_decide; csimpl; [rewrite E; by f_equal|done].
Qed.

(** The identities of an accessor after the memberships of a role are gone. *)
Lemma acts_under_without id s s' a toks' :
  t_role_member s' = filter (λ row, m_role_id row ≠ id) (t_role_member s) → acts_under s' a toks' →
  ∃ toks, acts_under s a toks ∧ ∀ t, t ≠ id → t ∈ toks' ↔ t ∈ toks.
Proof.
  intros E [ids types Ht Hids Htypes|Ht]; eexists; (split; [by constructor|]); intros t Hne; unfold identities; rewrite E.
  - rewrite !elem_of_app, !list_elem_of_fmap. do 2 setoid_rewrite list_elem_of_filter. naive_solver.
  - rewrite !elem_of_cons, !list_elem_of_fmap. do 2 setoid_rewrite list_elem_of_filter. naive_solver.
Qed.

Lemma granted_without id s s' ty toks toks' :
  t_policy s' = filter (λ row, p_accessor_id row ≠ id) (t_policy s) → (∀ t, t ≠ id → t ∈ toks' ↔ t ∈ toks) →
  granted (live_policies s') ty toks' = filter (λ p, pol_AccessorID p ≠ id) (granted (live_policies s) ty toks).
Proof.
  intros Hp Ht. rewrite (live_policies_without id s s' Hp), !list_filter_filter.
  apply list_filter_iff. intros p. specialize (Ht (pol_AccessorID p)). tauto.
Qed.
End wired.

(** C12. Deleting a role revokes it: once [DeleteRole] of an existing role
    has succeeded, every decision is, at any later time, the one the
    specification gives without the policies of that role for the identities
    the accessor had; all other roles, memberships and tables are as before.
    (Of a role that is gone already, after a call that failed between its
    statements, it succeeds without revoking: [DeleteRole_retry_leaves_orphans].) *)
Theorem DeleteRole_revokes `{GoRuntime} `{DrivenUserMgnt} `{JsonLogic} (env env' : SqlEnv) visitor id s s' :
  Forall (λ row, r_id row ≠ "") (t_role s) → id ∈ r_id <$> t_role s →
  @role_DeleteRole _ _ env (@wired_event env) visitor id s = (Ok tt, s') →
  table_ok s → obligations_ok s →
  t_role s' = filter (λ row, r_id row ≠ id) (t_role s) ∧
  t_role_member s' = filter (λ row, m_role_id row ≠ id) (t_role_member s) ∧
  (t_obligation s', t_obligation_type s', t_resource_type s', t_resource_type_hierarchy s') =
  (t_obligation s, t_obligation_type s, t_resource_type s, t_resource_type_hierarchy s) ∧
  ((∀ label, @sql_fault env' label = None) →
   ∀ r a ops include toks', acts_under s' a toks' →
   ∃ toks c, acts_under s a toks ∧ @wired_Check _ _ _ env' s' r a ops include = Ok c ∧
     answers (stored_obligations s)
       (filter (λ p, pol_AccessorID p ≠ id) (granted (@live_policies env' s) (res_Type r) toks)) r a ops include c).
Proof.
  intros Hne Hin Hd Ht Ho. destruct (DeleteRole_effect visitor id s s' Hne Hd) as [Heff _].
  destruct (Heff Hin) as (Hr & Hm & Hp & Hrest). split_and!; [done..|]. injection Hrest as Hob _ _ _.
  intros Hf r a ops include toks' Ha. destruct (acts_under_without id s s' a toks' Hm Ha) as (toks & Hs & Htoks).
  exists toks. rewrite <-(@granted_without env' id s s' (res_Type r) toks toks' Hp Htoks).
  assert (stored_obligations s = stored_obligations s') as -> by (unfold stored_obligations; by rewrite Hob).
  destruct (@wired_Check_spec _ _ _ env' s' r a ops include toks') as (c & Hc & Hans).
  - unfold table_ok. rewrite Hp. by apply Forall_filter_sub.
  - unfold obligations_ok. by rewrite Hob.
  - done.
  - done.
  - by exists c.
Qed.
