(* ===== verification/Paging.v ===== *)
(** * Search keywords and pages

    The white space around a search keyword is removed completely; the list
    of roles is the requested page of the roles found; and the two paging
    routines ([applyPagination] of [logics/policy.go] and the one in
    [GetAccessorRoles] of [logics/role.go]) stay inside the slice for every
    64-bit offset, overflow included. *)
From Stdlib Require Import Ascii.
From S2P Require Import Prelude Json Interfaces Common Store Policy RoleDB Role RoleQuery.

(** ** [strings.TrimSpace] *)
Lemma drop_prefix_Some p l rest : drop_prefix p l = Some rest ↔ l = p ++ rest.
Proof.
  revert l. induction p as [|a p IH]; intros [|b l]; simpl; [naive_solver..|].
  case_decide; [subst; rewrite IH; naive_solver|naive_solver].
Qed.

(** No space is left in front. *)
Definition no_leading (spaces : list (list ascii)) (l : list ascii) : Prop := ∀ p, p ∈ spaces → ¬ p `prefix_of` l.

(** As much fuel as there are bytes is enough. *)
Lemma trim_start_spec spaces fuel l :
  [] ∉ spaces → length l ≤ fuel →
  ∃ pre, l = concat pre ++ trim_start fuel spaces l ∧ Forall (.∈ spaces) pre ∧ no_leading spaces (trim_start fuel spaces l).
Proof.
  intros Hne. revert l. induction fuel as [|fuel IH]; intros l Hl; simpl.
  { assert (l = []) as -> by (destruct l; simpl in Hl; [done|lia]). exists []. split_and!; [done|done|].
    intros p Hp [k Hk]. destruct p; [done|discriminate]. }
  destruct (omap (λ p, drop_prefix p l) spaces) as [|rest rests] eqn:E.
  - exists []. split_and!; [done|done|]. intros p Hp [k Hk].
    assert (k ∈ omap (λ p, drop_prefix p l) spaces) as Hin; [|rewrite E in Hin; by apply elem_of_nil in Hin].
    apply list_elem_of_omap. exists p. by rewrite drop_prefix_Some.
  - assert (rest ∈ omap (λ p, drop_prefix p l) spaces) as Hin by (rewrite E; left).
    apply list_elem_of_omap in Hin as (p & Hp & Hr). apply drop_prefix_Some in Hr as ->.
    destruct (IH rest) as (pre & Hpre & Hall & Hno).
    { rewrite length_app in Hl. assert (length p ≠ 0); [|lia]. by destruct p. }
    exists (p :: pre). split_and!; [|by constructor|done]. simpl. by rewrite <-app_assoc, <-Hpre.
Qed.

Lemma reverse_concat {A} (ls : list (list A)) : reverse (concat ls) = concat (reverse (reverse <$> ls)).
Proof.
  induction ls as [|l ls IH]; [done|]. simpl. rewrite reverse_app, IH, reverse_cons, concat_app. simpl. by rewrite app_nil_r.
Qed.

(** [r] is [s] without the white space at its two ends. *)
Definition trimmed (s r : string) : Prop :=
  (∃ pre post, String.list_ascii_of_string s = concat pre ++ String.list_ascii_of_string r ++ concat post ∧
     Forall (.∈ utf8_spaces) pre ∧ Forall (.∈ utf8_spaces) post) ∧
  ∀ p, p ∈ utf8_spaces → ¬ p `prefix_of` String.list_ascii_of_string r ∧ ¬ p `suffix_of` String.list_ascii_of_string r.

Lemma TrimSpace_trimmed s : trimmed s (TrimSpace s).
Proof.
  unfold TrimSpace, trimmed. cbv zeta. rewrite String.list_ascii_of_string_of_list_ascii.
  set (l := String.list_ascii_of_string s).
  assert ([] ∉ utf8_spaces) as Hne by (by apply (bool_decide_unpack _)).
  assert ([] ∉ reverse <$> utf8_spaces) as Hne' by (by apply (bool_decide_unpack _)).
  destruct (trim_start_spec utf8_spaces (length l) l Hne ltac:(done)) as (pre & Hpre & Hall & Hno).
  set (l1 := trim_start (length l) utf8_spaces l) in *.
  destruct (trim_start_spec (reverse <$> utf8_spaces) (length l1) (reverse l1) Hne') as (post & Hpost & Hall' & Hno').
  { by rewrite length_reverse. }
  set (l2 := trim_start (length l1) (reverse <$> utf8_spaces) (reverse l1)) in *.
  assert (l1 = reverse l2 ++ concat (reverse (reverse <$> post))) as El1.
  { rewrite <-reverse_concat, <-reverse_app, <-Hpost. by rewrite reverse_involutive. }
  split.
  - exists pre, (reverse (reverse <$> post)). split_and!; [by rewrite <-El1|done|].
    rewrite Forall_reverse, Forall_fmap. eapply Forall_impl; [exact Hall'|]. intros q Hq. simpl.
    apply list_elem_of_fmap in Hq as (p & -> & Hp). by rewrite reverse_involutive.
  - intros p Hp. split.
    + intros Hpr. apply (Hno p Hp). rewrite El1. by apply prefix_app_r.
    + intros Hs. apply (Hno' (reverse p)); [by apply list_elem_of_fmap_2|].
      rewrite <-(reverse_involutive l2). by apply suffix_prefix_reverse in Hs.
Qed.

(** ** Pages *)
Lemma past_the_end {T} (l : list T) offset limit :
  (Z.of_nat (length l) ≤ offset)%Z → limit ≠ (-1)%Z → clampedPage l offset limit = Ok [].
Proof.
  intros Ho Hl. unfold clampedPage. rewrite (proj2 (Z.eqb_neq _ _)) by done. generalize (int64_wrap (offset + limit)) as stop.
  intros stop. set (n := Z.of_nat (length l)).
  assert ((if (n <? offset)%Z then n else offset) = n) as -> by (destruct (Z.ltb_spec n offset); lia).
  rewrite (proj2 (Z.ltb_ge n 0)) by lia.
  assert ((if (if n <? stop then n else stop) <? n then n else if n <? stop then n else stop)%Z = n) as ->.
  { destruct (Z.ltb_spec n stop); [by rewrite Z.ltb_irrefl|]. destruct (Z.ltb_spec stop n); lia. }
  rewrite go_slice_Ok by lia. by rewrite Z.sub_diag.
Qed.

(** C40. Paging stays inside the slice: for the offsets and limits the
    handlers let through, and for any list the machine can hold,
    [applyPagination] returns the page, also when [offset + limit] overflows;
    a negative offset makes it panic; and the page of [GetAccessorRoles] is
    total on every pair of 64-bit numbers. *)
Theorem paging_bounds {T} (l : list T) (offset limit : Z) :
  (Z.of_nat (length l) + 1000 < 2 ^ 63)%Z → (- 2 ^ 63 ≤ offset < 2 ^ 63)%Z → (- 2 ^ 63 ≤ limit < 2 ^ 63)%Z →
  ((0 ≤ offset)%Z → (1 ≤ limit ≤ 1000)%Z →
     applyPagination l offset limit = Ok (take (Z.to_nat limit) (drop (Z.to_nat offset) l)) ∧
     clampedPage l offset limit = applyPagination l offset limit) ∧
  ((offset < 0)%Z → limit ≠ (-1)%Z → l ≠ [] → ∃ w, applyPagination l offset limit = Panic w) ∧
  (∃ page, clampedPage l offset limit = Ok page).
Proof.
  intros Hn Ho Hl. split_and!; [| |apply clampedPage_total].
  - intros Hpos Hlim. destruct (decide (Z.of_nat (length l) ≤ offset)%Z) as [Hge|Hlt].
    + rewrite drop_ge, take_nil by lia. assert (applyPagination l offset limit = Ok []) as Hp.
      { unfold applyPagination. rewrite (proj2 (Z.eqb_neq _ _)) by lia.
        by rewrite (proj2 (Z.leb_le _ _)), orb_true_r by done. }
      split; [done|]. rewrite Hp. apply past_the_end; lia.
    + rewrite clampedPage_page by lia. rewrite applyPagination_page by lia. done.
  - intros Hneg Hne Hl0. unfold applyPagination. rewrite (proj2 (Z.eqb_neq _ _)) by done.
    assert (length l ≠ 0) as Hlen by (by destruct l).
    rewrite (proj2 (Z.eqb_neq _ _)), (proj2 (Z.leb_gt _ offset)) by lia. simpl.
    unfold go_slice. rewrite (proj2 (Z.leb_gt 0 offset)) by done. simpl. by eexists.
Qed.

Lemma paging_bounds_witness :
  applyPagination [1; 2; 3] 9223372036854775800 1000 = Ok ([] : list nat) ∧
  (∃ w, applyPagination [1; 2; 3] (-1) 10 = Panic w) ∧ ∃ page, clampedPage [1; 2; 3] (-5) 9223372036854775807 = Ok page.
Proof.
  split_and!.
  - apply (paging_bounds [1; 2; 3] 9223372036854775800 1000); simpl; lia.
  - apply (paging_bounds [1; 2; 3] (-1) 10); simpl; try lia. done.
  - apply (paging_bounds [1; 2; 3] (-5) 9223372036854775807); simpl; lia.
Defined.

(** ** Searching roles *)
Section search.
Context `{GoRuntime} `{DrivenUserMgnt} `{LogicsResourceType} `{SqlEnv} `{SqlLike}.

(** The rows a search looks for, once the keyword is trimmed. *)
Definition searched (s : store) (info : RoleSearchInfo) (keyword : string) : list role_row :=
  filter (λ row, r_source row ∈ rs_RoleSources info ∧ matches keyword (r_name row) = true) (t_role s).

(** An administrator's [GetRoles] counts all roles of the requested
    sources whose name matches the keyword without the white space around it,
    and returns the requested page of them: ordered by source, the built-in
    business roles first in their fixed order, then the most recently
    modified first; only the names of the types in the scopes are filled in. *)
Theorem GetRoles_page s visitor info :
  role_checkVisitorType visitor = Ok tt → rs_RoleSources info ≠ [] → (0 ≤ rs_Offset info)%Z → (0 ≤ rs_Limit info)%Z →
  sql_fault "role.GetRoles" = None → sql_fault "role.GetRolesSum" = None →
  (∀ row, row ∈ t_role s → ∃ r, scanRole row = Ok r) → (∀ ids, ∃ types, GetByIDsInternal ids = Ok types) →
  ∃ keyword sorted found types, trimmed (rs_Keyword info) keyword ∧
    sorted ≡ₚ searched s info keyword ∧
    StronglySorted (by_key (role_list_key (bool_decide (RoleSourceBusiness ∈ rs_RoleSources info)))) sorted ∧
    omap_all scanRole (take (Z.to_nat (rs_Limit info)) (drop (Z.to_nat (rs_Offset info)) sorted)) = Ok found ∧
    (scopeTypeIDs found ≠ [] → GetByIDsInternal (scopeTypeIDs found) = Ok types) ∧
    role_GetRoles s visitor info = Ok (Z.of_nat (length sorted), map (fillTypeNames types) found).
Proof.
  intros Hv Hsrc Ho Hl Hf1 Hf2 Hread Htypes. set (keyword := TrimSpace (rs_Keyword info)).
  set (key := role_list_key (bool_decide (RoleSourceBusiness ∈ rs_RoleSources info))).
  set (sorted := order_by key (searched s info keyword)).
  assert (sorted ≡ₚ searched s info keyword) as Hp by apply order_by_perm.
  exists keyword, sorted. set (page := take _ _).
  destruct (omap_all_total scanRole page) as [found Hi].
  { intros row Hr. apply Hread. assert (row ∈ sorted) as Hin.
    { apply (elem_of_submseteq page); [done|]. apply sublist_submseteq. unfold page.
      etransitivity; [apply sublist_take|apply sublist_drop]. }
    rewrite Hp in Hin. by apply list_elem_of_filter in Hin as [_ ?]. }
  exists found. unfold role_GetRoles. rewrite Hv. cbn [mbind outcome_bind].
  unfold roleDB_GetRolesSum, roleDB_GetRoles, stmt. simpl. rewrite Hf1, Hf2, !bool_decide_eq_false_2 by done.
  cbn [mbind outcome_bind]. unfold roles_found. simpl. fold keyword. fold (searched s info keyword).
  rewrite <-(Permutation_length Hp). destruct (Z.ltb_spec 0 (Z.of_nat (length sorted))) as [Hpos|Hz].
  - fold key. fold sorted. unfold sql_limit.
    rewrite (proj2 (Z.ltb_ge (rs_Offset info) 0)), (proj2 (Z.ltb_ge (rs_Limit info) 0)) by lia. simpl. fold page. rewrite Hi.
    cbn [mbind outcome_bind]. destruct (Htypes (scopeTypeIDs found)) as [types Ht].
    exists (if (0 <? length (scopeTypeIDs found))%nat then types else ∅).
    split_and!; [apply TrimSpace_trimmed|done|apply order_by_sorted|done| |].
    + intros Hne. rewrite Ht. rewrite (proj2 (Nat.ltb_lt _ _)); [done|]. destruct (scopeTypeIDs found); simpl; [done|lia].
    + rewrite Ht. by case_match.
  - assert (sorted = []) as Hnil by (destruct sorted; simpl in Hz; [done|lia]).
    assert (found = []) as ->. { unfold page in Hi. rewrite Hnil, drop_nil, take_nil in Hi. by injection Hi as <-. }
    exists ∅. split_and!; [apply TrimSpace_trimmed|done|apply order_by_sorted|done|done|done].
Qed.
End search.
