(* ===== verification/TypeSample.v ===== *)
(** * Types, obligations and the wired services on the sample deployment

    The theorems on resource types, trees, obligations and the composed
    services evaluated on a concrete store: the types ["doc"] and ["menu"],
    ["doc"] with the child ["menu"], the obligation type ["watermark"] limited
    to reading documents with the obligation ["ob1"], and the roles and
    policies of [RoleSample]. *)
From S2P Require Import Prelude Json Interfaces Common PolicyCalc PolicyCalcSpec Store PolicyDB PolicyDBSpec Sample Decision Listings Obligations Policy RoleDB Event Role RoleSpec RoleOps RoleAdmin RoleQuery RoleSample ResourceTypeDB ResourceType ResourceTypeSpec ResourceTypeOps ObligationDB Obligation ObligationSpec ObligationOps System Paging.

Definition menu_type : ResourceType :=
  {| rt_ID := "menu"; rt_Name := "menu"; rt_Description := ""; rt_InstanceURL := ""; rt_DataStruct := "array";
     rt_Operation := [sample_operation "display" [ScopeType]]; rt_Hidden := false; rt_CreateTime := 0; rt_ModifyTime := 0 |}.
Definition doc_tree : ResourceTypeHierarchy := MkHierarchy "doc" [MkHierarchy "menu" []].
Definition watermark_type : ObligationTypeInfo :=
  {| ot_ID := "watermark"; ot_Name := "watermark"; ot_Description := "";
     ot_ResourceTypeScope := {| orsi_Unlimited := false; orsi_Types :=
       [{| ors_ResourceTypeID := "doc"; ors_ResourceTypeName := "";
           ors_OperationsScope := {| oos_Unlimited := false; oos_Operations := [{| oop_ID := "read"; oop_Name := "" |}] |} |}] |};
     ot_Schema := JObj ∅; ot_DefaultValue := JNull; ot_UiSchema := JNull; ot_CreatedTime := 0; ot_ModifyTime := 0 |}.
Definition strong_mark : ObligationInfo :=
  {| ob_ID := "ob1"; ob_TypeID := "watermark"; ob_Name := "mark"; ob_Description := "";
     ob_Value := JStr "strong"; ob_CreatedTime := 1000; ob_ModifyTime := 1000 |}.
(** Every schema compiles and accepts every value but [null]. *)
Definition sample_schema : GoJsonSchema := {|
  NewSchema _ := true;
  schema_Validate _ v := inr (match v with JNull => ["value is null"] | _ => [] end)
|}.
#[export] Existing Instance sample_schema | 100.

(** Reading documents is granted to role ["r1"] with a watermark. *)
Definition marked_policy : PolicyInfo :=
  {| pol_ID := "p1"; pol_ResourceID := "*"; pol_ResourceType := "doc"; pol_ResourceName := "";
     pol_Ancestors := []; pol_HasAncestors := false; pol_AccessorID := "r1"; pol_AccessorType := AccessorRole;
     pol_AccessorName := "editors"; pol_ParentDeps := [];
     pol_Rules := {| rules_Allow := [{| rule_Condition := JObj ∅; rule_Operations :=
       [{| op_ID := "read"; op_Name := "";
           op_Obligations := [{| obl_TypeID := "watermark"; obl_ID := "ob1"; obl_Value := JNull |}] |}] |}];
       rules_Deny := [] |};
     pol_Condition := ""; pol_EndTime := -1; pol_CreateTime := 0; pol_ModifyTime := 0 |}.

Definition type_store : store := {|
  t_policy := [newPolicyRow 0 marked_policy];
  t_role := t_role role_store; t_role_member := t_role_member role_store;
  t_obligation := [{| o_primary := 3; o_id := "ob1"; o_type_id := "watermark"; o_name := "mark"; o_description := "";
                      o_value := TJson (JStr "strong"); o_created := 1000; o_modified := 1000 |}];
  t_obligation_type := [newObligationTypeRow 4 watermark_type];
  t_resource_type := [newResourceTypeRow 5 sample_doc_type; newResourceTypeRow 6 menu_type];
  t_resource_type_hierarchy :=
    [{| h_primary := 7; h_resource_type_id := "doc";
        h_children := convertHierarchyChildrenToJSONString (rth_Children doc_tree); h_created := 0; h_modified := 0 |}];
  seq_primary := 8; seq_uuid := 0
|}.

Lemma type_store_table : type_table type_store.
Proof.
  split.
  - by apply (bool_decide_unpack _).
  - repeat constructor; eexists; vm_compute; reflexivity.
  - by apply (bool_decide_unpack _).
  - repeat constructor. eexists. vm_compute. reflexivity.
Qed.

(** ** Trees *)
Lemma SetPrivate_exact_witness :
  ∃ s', hierarchy_SetPrivate (MkHierarchy "menu" [MkHierarchy "doc" []]) type_store = (Ok tt, s') ∧
    hierarchy_GetAll s' = Ok (<["menu" := MkHierarchy "menu" [MkHierarchy "doc" []]]> {["doc" := doc_tree]}).
Proof.
  destruct (SetPrivate_exact (MkHierarchy "menu" [MkHierarchy "doc" []]) type_store {["doc" := doc_tree]}
    [stored_type sample_doc_type; stored_type menu_type]) as [Hset _].
  - by apply (bool_decide_unpack _).
  - reflexivity.
  - vm_compute. reflexivity.
  - reflexivity.
  - destruct Hset as (s' & Hs & Hget & _); [|exists s'; split; [exact Hs|exact Hget]].
    repeat constructor; try (by apply (bool_decide_unpack _)).
Defined.

Lemma hierarchy_lookup_exact_witness :
  hierarchy_HasHierarchy type_store "menu" = Ok true ∧
  ∃ t, hierarchy_Get type_store "menu" = Ok t ∧ (in_hierarchy {["doc" := doc_tree]} "menu" t ∨
     (∀ n, ¬ in_hierarchy {["doc" := doc_tree]} "menu" n) ∧ t = Hierarchy_zero).
Proof.
  destruct (hierarchy_lookup_exact type_store {["doc" := doc_tree]} "menu") as [_ (t & Ht & _ & Hin)].
  - by intros root h [<- <-]%lookup_singleton_Some.
  - reflexivity.
  - split; [vm_compute; reflexivity|]. exists t. split; [exact Ht|exact Hin].
Defined.

(** ** Resource types *)
Lemma types_stay_readable_witness :
  let s' := (resourceType_Delete sample_admin "menu" type_store).2 in
  type_table s' ∧ ∃ m, resourceType_GetByIDsInternal s' ["doc"] = Ok m.
Proof.
  intros s'. destruct (types_stay_readable sample_sql type_store s' ["doc"]) as (Ht & Hm & _).
  - apply type_store_table.
  - eapply rtc_l; [|apply rtc_refl]. eapply (call_Delete sample_sql). apply surjective_pairing.
  - reflexivity.
  - by split.
Defined.

Lemma Set_read_back_witness :
  let s' := (resourceType_Set sample_admin menu_type type_store).2 in
  resourceType_GetByIDsInternal s' ["menu"] = Ok {["menu" := stored_type menu_type]} ∧ legal_type_id "menu".
Proof.
  intros s'. destruct (Set_read_back sample_admin menu_type type_store s' ["menu"] {["menu" := stored_type menu_type]})
    as (_ & Hl & _ & Hm & _).
  - apply type_store_table.
  - vm_compute. reflexivity.
  - vm_compute. reflexivity.
  - split; [|exact Hl]. etransitivity; [exact Hm|]. vm_compute. reflexivity.
Defined.

Lemma InitResourceTypes_idempotent_witness :
  let s' := (resourceType_InitResourceTypes [menu_type; sample_doc_type] sample_store).2 in
  length (t_resource_type s') = 2 ∧ resourceType_InitResourceTypes [menu_type; sample_doc_type] s' = (Ok tt, s').
Proof.
  intros s'. split; [vm_compute; reflexivity|].
  apply (InitResourceTypes_idempotent sample_sql sample_sql [menu_type; sample_doc_type] sample_store).
  - split; simpl; constructor.
  - by apply (bool_decide_unpack _).
  - by repeat constructor.
  - vm_compute. reflexivity.
  - reflexivity.
Defined.

(** ** Obligations *)

(** The services read the types from the same store. *)
Abbreviation types_of s := (resourceType_service s).

Example obligation_scope_sample :
  stringToResourceTypeScopeInfo (obligationType_scopeToString (ot_ResourceTypeScope watermark_type)) =
    Ok (ot_ResourceTypeScope watermark_type) ∧
  ∃ w, stringToResourceTypeScopeInfo (obligationType_scopeToString {| orsi_Unlimited := false; orsi_Types :=
    [{| ors_ResourceTypeID := "doc"; ors_ResourceTypeName := "";
        ors_OperationsScope := {| oos_Unlimited := false; oos_Operations := [] |} |}] |}) = Panic w.
Proof.
  split.
  - apply (proj1 (obligation_scope_round_trip (ot_ResourceTypeScope watermark_type))). right. apply Forall_singleton. by right.
  - apply (proj2 (obligation_scope_round_trip _)). intros [?|Hf]; [done|]. apply Forall_singleton in Hf as [?|?]; done.
Defined.

Definition stored_watermark : ObligationTypeInfo := stored_obligation_type watermark_type 1000 1000.

Example Query_types_sample :
  ∃ r, @obligationType_Query _ (types_of type_store) _ type_store "doc" ["read"; "write"] = Ok r ∧
    (∀ l, r !! "read" = Some l → stored_watermark ∈ l) ∧ (∀ l, r !! "write" = Some l → stored_watermark ∉ l).
Proof.
  destruct (@Query_types_exact _ (types_of type_store) _ type_store "doc" ["read"; "write"] (stored_type sample_doc_type)
    [stored_watermark]) as [Hq _].
  - vm_compute. reflexivity.
  - vm_compute. reflexivity.
  - destruct Hq as (r & Hr & Hall).
    + intros o Ho. repeat (apply elem_of_cons in Ho as [->|Ho]; [by apply (bool_decide_unpack _)|]). by apply elem_of_nil in Ho.
    + exists r. split; [exact Hr|]. split; intros l Hl.
      * apply (proj2 (Hall "read") l Hl). split; [left|]. vm_compute. reflexivity.
      * intros Hin. apply (proj2 (Hall "write") l Hl) in Hin as [_ Hin]. vm_compute in Hin. discriminate Hin.
Defined.

Lemma Query_obligations_exact_witness :
  ∃ r, @obligation_Query _ (types_of type_store) _ type_store "doc" ["read"] ["watermark"] = Ok r ∧
    ∀ l, r !! "read" = Some l → strong_mark ∈ l.
Proof.
  destruct (@Query_obligations_exact _ (types_of type_store) _ type_store "doc" ["read"] ["watermark"]
    (stored_type sample_doc_type) [stored_watermark]) as (r & Hr & Hall).
  - vm_compute. reflexivity.
  - vm_compute. reflexivity.
  - intros o ->%list_elem_of_singleton. by apply (bool_decide_unpack _).
  - reflexivity.
  - intros row ->%list_elem_of_singleton. by eexists.
  - exists r. split; [exact Hr|]. intros l Hl. apply (proj2 (Hall "read") l Hl). split.
    + eexists. split; [left|]. reflexivity.
    + exists stored_watermark. split_and!; [left|reflexivity|vm_compute; reflexivity|right; left].
Defined.

Lemma Add_effect_witness :
  let s' := (obligation_Add sample_admin strong_mark type_store).2 in
  length (t_obligation s') = 2 ∧ is_admin sample_admin ∧ conforms type_store "watermark" (JStr "strong").
Proof.
  intros s'. split; [vm_compute; reflexivity|].
  destruct (Add_effect sample_admin strong_mark type_store "uuid-0" s') as (Ha & Hc & _).
  - vm_compute. reflexivity.
  - split; [exact Ha|exact Hc].
Defined.

Lemma Update_obligation_effect_witness :
  let s' := (obligation_Update sample_admin "ob1" "" false "" false (JStr "weak") true type_store).2 in
  t_obligation s' = updateObligationRow "ob1" "" false "" false (JStr "weak") true <$> t_obligation type_store ∧
  o_value <$> t_obligation s' = [TJson (JStr "weak")].
Proof.
  intros s'. destruct (Update_obligation_effect sample_admin "ob1" "" false "" false (JStr "weak") true type_store s')
    as (_ & _ & Ht & _).
  - by repeat constructor.
  - vm_compute. reflexivity.
  - split; [exact Ht|]. vm_compute. reflexivity.
Defined.

(** A type whose scope names no operation is accepted, and breaks queries. *)
Definition empty_scope_type : ObligationTypeInfo :=
  {| ot_ID := "audit"; ot_Name := "audit"; ot_Description := "";
     ot_ResourceTypeScope := {| orsi_Unlimited := false; orsi_Types :=
       [{| ors_ResourceTypeID := "menu"; ors_ResourceTypeName := "";
           ors_OperationsScope := {| oos_Unlimited := false; oos_Operations := [] |} |}] |};
     ot_Schema := JObj ∅; ot_DefaultValue := JNull; ot_UiSchema := JNull; ot_CreatedTime := 0; ot_ModifyTime := 0 |}.
Lemma Set_obligation_type_effect_witness :
  let s' := (@obligationType_Set _ (types_of type_store) _ _ sample_admin empty_scope_type type_store).2 in
  length (t_obligation_type s') = 2 ∧
  ∃ w, @obligation_Query _ (types_of type_store) _ s' "doc" [] [] = Panic w.
Proof.
  intros s'. split; [vm_compute; reflexivity|].
  destruct (@Set_obligation_type_effect _ _ (types_of type_store) _ _ sample_admin empty_scope_type type_store s')
    as (_ & _ & _ & _ & _ & _ & Hbreak).
  - split; [by apply (bool_decide_unpack _)|]. intros row ->%list_elem_of_singleton. eexists. vm_compute. reflexivity.
  - reflexivity.
  - vm_compute. reflexivity.
  - apply (Hbreak) with (t := stored_type sample_doc_type).
    + intros [?|Hf]; [done|]. apply Forall_singleton in Hf as [?|?]; done.
    + vm_compute. reflexivity.
Defined.

(** ** The wired services *)
Lemma type_store_ok : table_ok type_store ∧ obligations_ok type_store.
Proof.
  split.
  - repeat constructor; [apply newPolicyRow_readable|done].
  - split; [by apply (bool_decide_unpack _)|]. intros row ->%list_elem_of_singleton. by eexists.
Qed.

Lemma wired_Check_refines_witness :
  let include := [PolicCalcyIncludeOperationObligations] in
  ∃ c, wired_Check type_store (sample_resource "x" "u2" []) (sample_user "u1") ["read"] include = Ok c ∧
    answers (stored_obligations type_store)
      (granted (live_policies type_store) "doc" (identities type_store ["u1"; "d1"] [NormalUser]))
      (sample_resource "x" "u2" []) (sample_user "u1") ["read"] include c.
Proof.
  intros include. apply (wired_Check_refines type_store (sample_resource "x" "u2" []) (sample_user "u1") ["read"] include).
  - apply type_store_ok.
  - apply type_store_ok.
  - reflexivity.
  - by constructor.
Defined.

(** The answer itself: granted, with the stored watermark. *)
Example wired_Check_sample :
  wired_Check type_store (sample_resource "x" "u2" []) (sample_user "u1") ["read"] [PolicCalcyIncludeOperationObligations]
  = Ok {| Result := true; OperatrionOblist :=
       {["read" := [{| obl_TypeID := "watermark"; obl_ID := "ob1"; obl_Value := JStr "strong" |}]]} |}.
Proof. vm_compute. reflexivity. Qed.

Lemma DeleteRole_revokes_witness :
  let s' := (role_DeleteRole wired_event sample_admin "r1" type_store).2 in
  ∃ toks c, acts_under type_store (sample_user "u1") toks ∧
    wired_Check s' (sample_resource "x" "u2" []) (sample_user "u1") ["read"] [] = Ok c ∧
    answers (stored_obligations type_store)
      (filter (λ p, pol_AccessorID p ≠ "r1") (granted (live_policies type_store) "doc" toks))
      (sample_resource "x" "u2" []) (sample_user "u1") ["read"] [] c.
Proof.
  intros s'. destruct (DeleteRole_revokes sample_sql sample_sql sample_admin "r1" type_store s') as (_ & _ & _ & Hrev).
  - apply (rt_nonempty _ _ role_store_table).
  - left.
  - vm_compute. reflexivity.
  - apply type_store_ok.
  - apply type_store_ok.
  - apply (Hrev (λ _, eq_refl) (sample_resource "x" "u2" []) (sample_user "u1") ["read"] []
      (identities s' ["u1"; "d1"] [NormalUser])). by constructor.
Defined.

(** ** Searching *)

(** A server whose [like] accepts the whole value only. *)
Definition sample_like : SqlLike := {| like value pattern := bool_decide (pattern = "%" +:+ value +:+ "%") |}.
#[export] Existing Instance sample_like | 100.

Definition editors_search : RoleSearchInfo :=
  {| rs_Offset := 0; rs_Limit := 10; rs_Keyword := "  editors "; rs_RoleSources := [RoleSourceBusiness; RoleSourceUser] |}.
Lemma GetRoles_page_witness :
  ∃ keyword sorted, trimmed "  editors " keyword ∧ sorted ≡ₚ searched role_store editors_search keyword ∧
    ∃ roles, role_GetRoles role_store sample_admin editors_search = Ok (Z.of_nat (length sorted), roles) ∧
      role_ID <$> roles = ["r1"].
Proof.
  destruct (GetRoles_page role_store sample_admin editors_search)
    as (keyword & sorted & found & types & Hk & Hp & _ & _ & _ & Hr).
  - reflexivity.
  - discriminate.
  - vm_compute. discriminate.
  - vm_compute. discriminate.
  - reflexivity.
  - reflexivity.
  - intros row Hin. repeat (apply elem_of_cons in Hin as [->|Hin]; [eexists; vm_compute; reflexivity|]).
    by apply elem_of_nil in Hin.
  - intros ids. eexists. reflexivity.
  - exists keyword, sorted. split; [exact Hk|]. split; [exact Hp|]. eexists. split; [exact Hr|].
    assert (role_ID <$> from_option snd [] (match role_GetRoles role_store sample_admin editors_search with
      Ok r => Some r | _ => None end) = ["r1"]) as He by (vm_compute; reflexivity).
    rewrite Hr in He. exact He.
Defined.
