(* ===== verification/Rest.v ===== *)
(** * The HTTP layer
      ([Authorization/driveradapters/common.go], [json.go], [hydra.go],
       [go-lib/rest/server.go], [go-lib/error/errors.go])

    A request is what a handler reads of a gin context; a handler answers with
    a reply, ends with an error that [rest.ReplyErrorV2] turns into a reply,
    or panics, which the middleware [gin.Recovery] turns into status 500. *)
From Stdlib Require Import Ascii.
From S2P Require Import Prelude Strconv Json Interfaces Common Store Policy Mq.

(** ** Requests *)
Record request := {
  req_header : string → string;                (* "" for an absent header *)
  req_param : string → string;                 (* path parameters *)
  req_query : gmap string (list string);
  req_body : outcome text                      (* [io.ReadAll] may fail *)
}.
Definition QueryArray (c : request) (key : string) : list string := default [] (req_query c !! key).
Definition DefaultQuery (c : request) (key defaultValue : string) : string :=
  match req_query c !! key with
  | Some (v :: _) => v
  | _ => defaultValue
  end.
Definition Query (c : request) (key : string) : string := DefaultQuery c key "".

(** ** Replies *)
Inductive rbody :=
| NoBody
| JsonBody (j : json)
| ListBody (entries : list json) (total_count : Z)   (* [listResultInfo] *)
| ListIncludeBody (entries : list json) (total_count : Z) (include : json)
| ErrorBody (e : gerror).
Record reply := { rep_status : Z; rep_location : string; rep_body : rbody }.
Definition ReplyOK (status : Z) (body : rbody) : reply := {| rep_status := status; rep_location := ""; rep_body := body |}.

Definition StrCodeToStatusCode (strCode : string) : option Z :=
  (list_to_map [("BadRequest", 400); ("Unauthorized", 401); ("Forbidden", 403); ("NotFound", 404);
    ("RequestTimeout", 408); ("Conflict", 409); ("ContentTooLarge", 413); ("UnsupportedMediaType", 415);
    ("InternalServerError", 500); ("ServiceUnavailable", 503)]%Z : gmap string Z) !! strCode.

(** [gin.Recovery]: status 500 without a body. *)
Definition Recovery : reply := {| rep_status := 500; rep_location := ""; rep_body := NoBody |}.

(** An error of the service has a code [A.B...]; any other error value is
    answered with status 500.  An unsupported code panics. *)
Definition ReplyErrorV2 (e : gerror) : reply :=
  match split_at "."%char (err_code e) with
  | _ :: code :: _ => match StrCodeToStatusCode code with
                      | Some status => {| rep_status := status; rep_location := ""; rep_body := ErrorBody e |}
                      | None => Recovery
                      end
  | _ => {| rep_status := 500; rep_location := ""; rep_body := ErrorBody (NewError "Public.InternalServerError" (err_desc e)) |}
  end.

(** Running a handler: every error return of a handler is preceded by
    [rest.ReplyErrorV2(c, err)]. *)
Definition serve (h : M store reply) (s : store) : reply * store :=
  match h s with
  | (Ok r, s') => (r, s')
  | (Err e, s') => (ReplyErrorV2 e, s')
  | (Panic _, s') => (Recovery, s')
  end.

(** ** Lists *)
Record listQueryInfo := { lq_offset : Z; lq_limit : Z }.
Definition getListQueryParam (c : request) : outcome listQueryInfo :=
  let '(offset, ok) := Atoi (DefaultQuery c "offset" "0") in
  _ ← fail_if (negb ok) (NewError PublicBadRequest "offset is illeagal");
  _ ← fail_if (offset <? 0)%Z (NewError PublicBadRequest "invalid offset(>=0)");
  let '(limit, ok) := Atoi (DefaultQuery c "limit" "20") in
  _ ← fail_if (negb ok) (NewError PublicBadRequest "limit is illeagal");
  _ ← fail_if ((limit <? 1) || (1000 <? limit))%Z (NewError PublicBadRequest "invalid limit([ 1 .. 1000 ])");
  Ok {| lq_offset := offset; lq_limit := limit |}.

(** ** Times

    [time.Parse(time.RFC3339, s)] as nanoseconds since the epoch, and
    [time.Unix(sec, 0).Format(time.RFC3339)], which prints in the time zone of
    the process. *)
Class GoTime := {
  rfc3339_parse : string → option Z;
  rfc3339_format : Z → string
}.
(** A whole second is read back as it was printed, in any zone; the range is
    the one in which [UnixNano] is defined. *)
Class GoTimeLaw `{GoTime} := {
  rfc3339_read_back : ∀ sec, (- 9223372036 ≤ sec ≤ 9223372036)%Z →
    rfc3339_parse (rfc3339_format sec) = Some (sec * 10 ^ 9)%Z
}.
Definition TimeStampToString `{GoTime} (t : Z) : string := rfc3339_format (Z.quot t (10 ^ 9)).
Definition StringToTimeStamp `{GoTime} (t : string) : option Z := rfc3339_parse t.

(** ** Tokens *)

(** The administrative endpoint of the OAuth server: the response to
    [POST /admin/oauth2/introspect], and the text of its body. *)
Class HydraAdmin := {
  introspect_post : string → gerror + (Z * text);
  body_string : text → string
}.

Record TokenIntrospectInfo := {
  tok_Active : bool; tok_VisitorID : string; tok_Scope : string; tok_ClientID : string; tok_VisitorTyp : VisitorType;
  tok_LoginIP : string; tok_Udid : string; tok_AccountTyp : Z; tok_ClientTyp : Z
}.
Definition visitorTypeMap (s : string) : VisitorType :=
  if bool_decide (s = "realname") then RealName
  else if bool_decide (s = "anonymous") then Anonymous
  else if bool_decide (s = "business") then App else VisitorUnknown.
Definition accountTypeMap (s : string) : Z := if bool_decide (s = "id_card") then 1 else 0.
Definition clientTypeMap : gmap string Z := list_to_map
  [("unknown", 0); ("ios", 1); ("android", 2); ("windows_phone", 3); ("windows", 4); ("mac_os", 5); ("web", 6);
   ("mobile_web", 7); ("nas", 8); ("console_web", 9); ("deploy_web", 10); ("linux", 11); ("app", 12)]%Z.

Definition token_info (active : bool) (id scope client : string) (typ : VisitorType) (ip udid : string) (account clientTyp : Z)
  : TokenIntrospectInfo :=
  {| tok_Active := active; tok_VisitorID := id; tok_Scope := scope; tok_ClientID := client; tok_VisitorTyp := typ;
     tok_LoginIP := ip; tok_Udid := udid; tok_AccountTyp := account; tok_ClientTyp := clientTyp |}.

(** [strings.TrimPrefix] *)
Fixpoint TrimPrefix (s prefix : string) : option string :=
  match prefix, s with
  | EmptyString, _ => Some s
  | String c prefix, String d s => if decide (c = d) then TrimPrefix s prefix else None
  | String _ _, EmptyString => None
  end.

Section http.
Context `{HydraAdmin} `{JsonSchema}.

Definition Introspect (token : string) : outcome TokenIntrospectInfo :=
  match introspect_post token with
  | inl e => Err e
  | inr (status, body) =>
      if ((status <? 200) || (300 <=? status))%Z then Err (MkErr "errors" (body_string body) [])
      else
        respParam ← unmarshal_map body;
        active ← assert_bool (jget respParam "active");
        if negb active then Ok (token_info false "" "" "" VisitorUnknown "" "" 0 0)
        else
          sub ← assert_string (jget respParam "sub");
          scope ← assert_string (jget respParam "scope");
          client_id ← assert_string (jget respParam "client_id");
          if bool_decide (sub = client_id) then Ok (token_info true sub scope client_id App "" "" 0 0)
          else
            ext ← assert_map (jget respParam "ext");
            visitor_type ← assert_string (jget ext "visitor_type");
            match visitorTypeMap visitor_type with
            | Anonymous => Ok (token_info true sub scope client_id Anonymous "" "" 0 6)
            | RealName =>
                login_ip ← assert_string (jget ext "login_ip");
                udid ← assert_string (jget ext "udid");
                account_type ← assert_string (jget ext "account_type");
                client_type ← assert_string (jget ext "client_type");
                Ok (token_info true sub scope client_id RealName login_ip udid (accountTypeMap account_type)
                      (default 0%Z (clientTypeMap !! client_type)))
            | typ => Ok (token_info true sub scope client_id typ "" "" 0 0)
            end
  end.

Definition verify (c : request) : outcome Visitor :=
  let tokenID := req_header c "Authorization" in
  let token := default tokenID (TrimPrefix tokenID "Bearer ") in
  info ← Introspect token;
  _ ← fail_if (negb (tok_Active info)) (NewError "Public.Unauthorized" "token expired");
  Ok {| vis_ID := tok_VisitorID info; vis_Type := tok_VisitorTyp info; vis_Language := req_header c "x-language" |}.

(** ** Bodies *)
Definition validateAndBindGin (c : request) (schema : string) : outcome (gmap string json) :=
  body ← req_body c;
  validateAndBind schema body.
(** The same into a [[]any]. *)
Definition validateAndBindSlice (c : request) (schema : string) : outcome (list json) :=
  body ← req_body c;
  match Validate schema body with
  | Some msg => Err (NewError PublicBadRequest msg)
  | None => unmarshal_slice body
  end.
End http.
