(* ===== verification/SchemaLang.v ===== *)
(** * JSON schemas

    The schema documents of the services, and what it means for a body to
    conform to one, for the keywords they use: [type], [required],
    [properties], [items], [enum], [minLength], [minItems], [uniqueItems] and
    [additionalProperties].  The validator itself is a third-party library;
    each service states what it relies on. *)
From S2P Require Import Prelude Json.

(** [minLength] is 0 or 1 in every document, where counting bytes and
    counting characters agree. *)
#[warnings="-register-all"]
Inductive schema : Type :=
| SString (enum : option (list string))
| SText (minLength : nat)
| SBoolean
| SNumber (integer : bool)
| SArray (minItems : nat) (uniqueItems : bool) (items : schema)
| SObject (required : list string) (properties : list (string * schema)) (additionalProperties : bool).

(** A finite float64 without a fraction. *)
Definition integral (bits : Z) : bool :=
  let e := ((bits / 2 ^ 52) mod 2 ^ 11)%Z in
  let m := (bits mod 2 ^ 52)%Z in
  if (e =? 0)%Z then (m =? 0)%Z
  else if (e =? 2047)%Z then false
  else (1075 <=? e)%Z || ((1023 <=? e)%Z && ((2 ^ 52 + m) mod 2 ^ (1075 - e) =? 0)%Z).

Fixpoint accepts (sch : schema) (j : json) : bool :=
  match sch, j with
  | SString None, JStr _ => true
  | SString (Some enum), JStr s => bool_decide (s ∈ enum)
  | SText minLength, JStr s => (minLength <=? String.length s)%nat
  | SBoolean, JBool _ => true
  | SNumber integer, JNum bits => negb integer || integral bits
  | SArray minItems uniqueItems items, JArr l =>
      (minItems <=? length l)%nat && (negb uniqueItems || bool_decide (NoDup l)) && forallb (accepts items) l
  | SObject required properties additionalProperties, JObj m =>
      forallb (λ k, bool_decide (is_Some (m !! k))) required &&
      forallb (λ kv, match m !! kv.1 with Some v => accepts kv.2 v | None => true end) properties &&
      (additionalProperties || forallb (λ k, bool_decide (k ∈ properties.*1)) (map_to_list m).*1)
  | _, _ => false
  end.

(** Documents that use few keywords. *)
Definition str : schema := SString None.
Definition oneof (l : list string) : schema := SString (Some l).
Definition arr (items : schema) : schema := SArray 0 false items.
Definition obj (required : list string) (properties : list (string * schema)) : schema := SObject required properties true.

(** ** Reading an accepted value *)
Lemma accepts_string e j : accepts (SString e) j = true → ∃ s, j = JStr s ∧ ∀ l, e = Some l → s ∈ l.
Proof. destruct e as [l|], j; simpl; try done; [rewrite bool_decide_eq_true|]; naive_solver. Qed.
Lemma accepts_text n j : accepts (SText n) j = true → ∃ s, j = JStr s ∧ n ≤ String.length s.
Proof. destruct j; simpl; try done. intros ?%Nat.leb_le. eauto. Qed.
Lemma accepts_number i j : accepts (SNumber i) j = true → ∃ bits, j = JNum bits.
Proof. destruct j; naive_solver. Qed.
Lemma accepts_bool j : accepts SBoolean j = true → ∃ b, j = JBool b.
Proof. destruct j; naive_solver. Qed.
Lemma accepts_array n u items j :
  accepts (SArray n u items) j = true → ∃ l, j = JArr l ∧ ∀ x, x ∈ l → accepts items x = true.
Proof.
  destruct j as [| | | |l|]; simpl; try done. rewrite !andb_true_iff. intros [_ Hl]. exists l. split; [done|].
  intros x Hx. rewrite forallb_forall in Hl. by apply Hl, list_elem_of_In.
Qed.
Lemma accepts_object req props c j :
  accepts (SObject req props c) j = true →
  ∃ m, j = JObj m ∧ (∀ k, k ∈ req → is_Some (m !! k)) ∧
    ∀ k sch v, (k, sch) ∈ props → m !! k = Some v → accepts sch v = true.
Proof.
  destruct j as [| | | | |m]; simpl; try done. rewrite !andb_true_iff, !forallb_forall. intros [[Hreq Hprops] _].
  exists m. split_and!; [done| |].
  - intros k Hk. apply list_elem_of_In in Hk. apply Hreq in Hk. by rewrite bool_decide_eq_true in Hk.
  - intros k sch v Hin Hv. apply list_elem_of_In, Hprops in Hin. simpl in Hin. by rewrite Hv in Hin.
Qed.

Section fields.
Context (req : list string) (props : list (string * schema)) (c : bool) (m : gmap string json).
Context (Hacc : accepts (SObject req props c) (JObj m) = true).

Lemma field_accepts k sch v : (k, sch) ∈ props → m !! k = Some v → accepts sch v = true.
Proof. destruct (accepts_object _ _ _ _ Hacc) as (m' & [= <-] & _ & Hp). apply Hp. Qed.
Lemma field_required k : k ∈ req → is_Some (m !! k).
Proof. destruct (accepts_object _ _ _ _ Hacc) as (m' & [= <-] & Hr & _). apply Hr. Qed.

Lemma string_field_reads k e : k ∈ req → (k, SString e) ∈ props →
  ∃ s, m !! k = Some (JStr s) ∧ assert_string (jget m k) = Ok s ∧ ∀ l, e = Some l → s ∈ l.
Proof.
  intros Hk Hp. destruct (field_required k Hk) as [v Hv].
  destruct (accepts_string e v (field_accepts _ _ _ Hp Hv)) as (s & -> & He). exists s. unfold jget. by rewrite Hv.
Qed.
Lemma text_field_reads k n : k ∈ req → (k, SText n) ∈ props →
  ∃ s, m !! k = Some (JStr s) ∧ assert_string (jget m k) = Ok s ∧ n ≤ String.length s.
Proof.
  intros Hk Hp. destruct (field_required k Hk) as [v Hv].
  destruct (accepts_text n v (field_accepts _ _ _ Hp Hv)) as (s & -> & He). exists s. unfold jget. by rewrite Hv.
Qed.
Lemma array_field_reads k n u items : k ∈ req → (k, SArray n u items) ∈ props →
  ∃ l, m !! k = Some (JArr l) ∧ assert_slice (jget m k) = Ok l ∧ ∀ x, x ∈ l → accepts items x = true.
Proof.
  intros Hk Hp. destruct (field_required k Hk) as [v Hv].
  destruct (accepts_array _ _ _ v (field_accepts _ _ _ Hp Hv)) as (l & -> & He). exists l. unfold jget. by rewrite Hv.
Qed.
Lemma object_field_reads k req' props' c' : k ∈ req → (k, SObject req' props' c') ∈ props →
  ∃ m', m !! k = Some (JObj m') ∧ assert_map (jget m k) = Ok m' ∧ accepts (SObject req' props' c') (JObj m') = true.
Proof.
  intros Hk Hp. destruct (field_required k Hk) as [v Hv]. pose proof (field_accepts _ _ _ Hp Hv) as Ha.
  destruct (accepts_object _ _ _ v Ha) as (m' & -> & _). exists m'. unfold jget. by rewrite Hv.
Qed.
Lemma bool_field_reads k : k ∈ req → (k, SBoolean) ∈ props →
  ∃ b, m !! k = Some (JBool b) ∧ assert_bool (jget m k) = Ok b.
Proof.
  intros Hk Hp. destruct (field_required k Hk) as [v Hv].
  destruct (accepts_bool v (field_accepts _ _ _ Hp Hv)) as (b & ->). exists b. unfold jget. by rewrite Hv.
Qed.
End fields.

(** Membership in a closed list of fields. *)
Ltac in_fields := solve [repeat first [apply list_elem_of_here | apply list_elem_of_further]].

Lemma strings_read l : (∀ x, x ∈ l → accepts str x = true) → ∃ ss, omap_all assert_string l = Ok ss ∧ l = JStr <$> ss.
Proof.
  induction l as [|x l IH]; intros Hl; [by exists []|].
  destruct (accepts_string _ x (Hl x (list_elem_of_here _ _))) as (s & -> & _).
  destruct IH as (ss & Hs & ->); [intros; apply Hl; by right|]. exists (s :: ss). simpl. by rewrite Hs.
Qed.
