(* ===== verification/Schema.v ===== *)
(** * Request schemas ([Authorization/driveradapters/jsonschema])

    The schema documents embedded in the handlers.  The validator is a
    third-party library ([Mq.JsonSchema]); [SchemaLaw] states what its
    documentation promises. *)
From S2P Require Import Prelude Json Interfaces Mq SchemaLang.

Definition ancestors_schema : schema := arr (obj ["id"; "type"] [("id", str); ("type", str)]).
Definition created_by_schema : schema := obj [] [("id", str)].
Definition accessor_schema : schema := obj ["id"; "type"] [("id", str); ("type", oneof ["user"; "app"])].
Definition include_schema : schema := arr (oneof ["operation_obligations"]).
Definition operation_schema : schema := SArray 0 true str.
Definition get_schema : schema := oneof ["GET"].
Definition resource_schema : schema := obj ["id"; "type"]
  [("id", str); ("name", str); ("type", str); ("ancestors", ancestors_schema); ("created_by", created_by_schema)].
Definition resources_schema : schema := arr (obj []
  [("id", str); ("type", str); ("ancestors", ancestors_schema); ("created_by", created_by_schema)]).

Definition check_schema : schema := obj ["accessor"; "resource"; "operation"; "method"]
  [("accessor", accessor_schema); ("resource", resource_schema); ("operation", operation_schema);
   ("method", get_schema); ("include", include_schema)].
Definition check_public_schema : schema := obj ["resource"; "operation"; "method"]
  [("resource", resource_schema); ("operation", operation_schema); ("method", get_schema)].
Definition resource_list_schema : schema := obj ["accessor"; "resource"; "operation"; "method"]
  [("accessor", accessor_schema); ("resource", obj ["type"] [("type", str)]); ("operation", operation_schema);
   ("method", get_schema); ("include", include_schema)].
Definition resource_filter_schema : schema := obj ["accessor"; "resources"; "operation"; "method"]
  [("accessor", accessor_schema); ("resources", resources_schema); ("operation", operation_schema);
   ("method", get_schema); ("allow_operation", SBoolean); ("include", include_schema)].
Definition resource_operation_schema : schema := obj ["accessor"; "resources"; "method"]
  [("accessor", accessor_schema); ("resources", resources_schema); ("method", get_schema)].
Definition resource_operation_public_schema : schema := obj ["resources"; "method"]
  [("resources", resources_schema); ("method", get_schema)].
Definition resource_type_operation_public_schema : schema := obj ["resource_types"; "method"]
  [("resource_types", arr str); ("method", get_schema)].

Definition role_scope_schema : schema := obj ["unlimited"]
  [("unlimited", SBoolean); ("types", arr (obj ["id"] [("id", str)]))].
Definition create_role_schema : schema := obj ["name"; "resource_type_scope"]
  [("name", str); ("description", str); ("resource_type_scope", role_scope_schema)].
Definition modify_role_schema : schema := obj []
  [("name", str); ("description", str); ("resource_type_scope", role_scope_schema)].
Definition add_delete_members_schema : schema := obj ["method"; "members"]
  [("method", oneof ["POST"; "DELETE"]);
   ("members", arr (obj [] [("id", str); ("type", oneof ["user"; "department"; "group"; "app"])]))].

Definition obligation_schema : schema := obj ["type_id"] [("type_id", str); ("id", str); ("value", obj [] [])].
Definition allow_schema : schema := arr (obj [] [("id", str); ("obligations", arr obligation_schema)]).
Definition deny_schema : schema := arr (obj [] [("id", str)]).
(** The document lists [ancestors] beside [resource], while the handler reads
    them inside it. *)
Definition policy_accessor_schema : schema :=
  obj ["id"; "type"] [("id", str); ("type", oneof ["user"; "department"; "group"; "role"; "app"])].
Definition policy_resource_schema : schema := obj ["id"; "name"; "type"] [("id", str); ("name", str); ("type", str)].
Definition policy_operation_schema : schema := obj ["allow"; "deny"] [("allow", allow_schema); ("deny", deny_schema)].
Definition policy_item_schema : schema := obj ["accessor"; "resource"; "operation"]
  [("accessor", policy_accessor_schema); ("resource", policy_resource_schema); ("operation", policy_operation_schema);
   ("condition", str); ("expires_at", str);
   ("ancestors", arr (obj ["id"; "type"; "name"] [("id", str); ("type", str); ("name", str)]))].
Definition policy_schema : schema := arr policy_item_schema.
Definition modify_policy_schema : schema := arr (obj ["operation"]
  [("operation", obj ["allow"; "deny"] [("allow", allow_schema); ("deny", allow_schema)]);
   ("condition", str); ("expires_at", str)]).
Definition policy_delete_schema : schema := obj ["method"; "resources"]
  [("method", oneof ["DELETE"]); ("resources", arr (obj ["id"; "type"] [("id", str); ("type", str)]))].

Definition schemas : gmap string schema := list_to_map
  [("check", check_schema); ("check_public", check_public_schema); ("resource_list", resource_list_schema);
   ("resource_filter", resource_filter_schema); ("resource_operation", resource_operation_schema);
   ("resource_operation_public", resource_operation_public_schema);
   ("resource_type_operation_public", resource_type_operation_public_schema);
   ("create_role", create_role_schema); ("modify_role", modify_role_schema);
   ("add_delete_members", add_delete_members_schema);
   ("policy", policy_schema); ("modify_policy", modify_policy_schema); ("policy_delete", policy_delete_schema)].

(** What the validator promises: a body is valid exactly when it is JSON that
    conforms to the document.  (A conforming value followed by other bytes,
    which a validator may accept and [json.Unmarshal] refuses, is outside.) *)
Class SchemaLaw `{JsonSchema} := {
  schema_valid : ∀ name sch body, schemas !! name = Some sch →
    Validate name body = None ↔ ∃ j, body = TJson j ∧ accepts sch j = true
}.
