(* ===== verification/RestCalc.v ===== *)
(** * The decision endpoints ([Authorization/driveradapters/policy_calc_rest_handler.go])

    [operation-check], [resource-list], [resource-filter],
    [resource-operation] and [resource-type-operation]: a handler reads the
    body the schema has accepted with unchecked type assertions, calls the
    decision service and writes its results as JSON. *)
From S2P Require Import Prelude Json Interfaces Common PolicyCalc Store Mq Rest.

(** ** Reading a body *)
Definition visitorStrToType (s : string) : VisitorType :=
  if bool_decide (s = "user") then RealName else if bool_decide (s = "app") then App else VisitorUnknown.
Definition includeStrToType (s : string) : option PolicCalcyIncludeType :=
  if bool_decide (s = "operation_obligations") then Some PolicCalcyIncludeOperationObligations else None.

Definition ancestorsStrToInfo (ancestorsJson : json) : outcome (list Ancestor) :=
  ancestors ← assert_slice ancestorsJson;
  omap_all (λ v,
    ancestorMap ← assert_map v;
    id ← assert_string (jget ancestorMap "id");
    type ← assert_string (jget ancestorMap "type");
    Ok {| anc_ID := id; anc_Type := type; anc_Name := "" |}) ancestors.

Definition readAccessor (jsonReq : gmap string json) : outcome AccessorInfo :=
  accessorJson ← assert_map (jget jsonReq "accessor");
  id ← assert_string (jget accessorJson "id");
  type ← assert_string (jget accessorJson "type");
  Ok {| acc_ID := id; acc_Type := visitorStrToType type; acc_Name := "" |}.

(** [if v, ok := m[k]; ok { ... }], with the zero value otherwise. *)
Definition optional {A} (m : gmap string json) (k : string) (zero : A) (read : json → outcome A) : outcome A :=
  match m !! k with Some v => read v | None => Ok zero end.

Definition readCreatedBy (createdByJson : json) : outcome string :=
  createdByID ← assert_map createdByJson;
  assert_string (jget createdByID "id").

(** One resource; [operation-check] also reads a name. *)
Definition readResource (named : bool) (resource : json) : outcome ResourceInfo :=
  resourceJson ← assert_map resource;
  id ← assert_string (jget resourceJson "id");
  type ← assert_string (jget resourceJson "type");
  ancestors ← optional resourceJson "ancestors" [] ancestorsStrToInfo;
  createdBy ← optional resourceJson "created_by" "" readCreatedBy;
  name ← if named then optional resourceJson "name" "" assert_string else Ok "";
  Ok {| res_ID := id; res_Type := type; res_Name := name; res_Ancestors := ancestors; res_CreatedBy := createdBy |}.

Definition readResources (jsonReq : gmap string json) : outcome (list ResourceInfo) :=
  resourcesJson ← assert_slice (jget jsonReq "resources");
  omap_all (readResource false) resourcesJson.

Definition readStrings (jsonReq : gmap string json) (key : string) : outcome (list string) :=
  l ← assert_slice (jget jsonReq key);
  omap_all assert_string l.

Definition readInclude (jsonReq : gmap string json) : outcome (list PolicCalcyIncludeType) :=
  optional jsonReq "include" [] (λ includeJson,
    includeInfo ← assert_slice includeJson;
    omap_all (λ v,
      vStr ← assert_string v;
      match includeStrToType vStr with
      | Some t => Ok t
      | None => Err (NewError PublicBadRequest ("include type not found :" +:+ vStr))
      end) includeInfo).

(** ** Writing a response *)
Section response.
Context `{GoRuntime}.

Definition obligationResp (item : PolicyObligationItem) : json :=
  jobj [("type_id", JStr (obl_TypeID item)); ("value", obl_Value item)].

(** The operations that carry obligations, in the order [range] visits them. *)
Definition oblistResult (site : nat) (operationObligationMap : gmap string (list PolicyObligationItem)) : list json :=
  map (λ kv : string * list PolicyObligationItem,
      jobj [("operation", JStr kv.1); ("obligations", JArr (map obligationResp kv.2))])
    (filter (λ kv : string * list PolicyObligationItem, kv.2 ≠ []) (range site operationObligationMap)).

Definition inlcudeResp (site : nat) (includeParams : list PolicCalcyIncludeType)
    (operationObligationMap : gmap string (list PolicyObligationItem)) : json :=
  jobj (if includesObligations includeParams
        then [("operation_obligations", JArr (oblistResult site operationObligationMap))] else []).

(** The [include] member of a response, present when something was asked for. *)
Definition includeMember (site : nat) (includeParams : list PolicCalcyIncludeType)
    (operationObligationMap : gmap string (list PolicyObligationItem)) : list (string * json) :=
  match includeParams with
  | [] => []
  | _ => [("include", inlcudeResp site includeParams operationObligationMap)]
  end.

Definition strings (l : list string) : json := JArr (map JStr l).

Definition checkResp (includeParams : list PolicCalcyIncludeType) (checkResult : CheckResult) : json :=
  jobj (("result", JBool (Result checkResult)) :: includeMember 100 includeParams (OperatrionOblist checkResult)).

Definition filterResp (includeParams : list PolicCalcyIncludeType) (allowOperation : bool)
    (resourceOperationMap : gmap string (list string))
    (resourceOperationObligationMap : gmap string (gmap string (list PolicyObligationItem)))
    (resource : ResourceInfo) : json :=
  jobj ([("id", JStr (res_ID resource))] ++
        includeMember 101 includeParams (default ∅ (resourceOperationObligationMap !! res_ID resource)) ++
        if allowOperation
        then [("allow_operation", strings (default [] (resourceOperationMap !! res_ID resource)))] else []).

Definition listResp (includeParams : list PolicCalcyIncludeType)
    (resourceOperationObligationMap : gmap string (gmap string (list PolicyObligationItem)))
    (resource : ResourceInfo) : json :=
  jobj (("id", JStr (res_ID resource)) ::
        includeMember 102 includeParams (default ∅ (resourceOperationObligationMap !! res_ID resource))).
End response.

(** ** The handlers *)
Section handlers.
Context `{GoRuntime} `{DrivenUserMgnt} `{JsonLogic} `{DBPolicyCalc} `{LogicsRole} `{LogicsResourceType} `{LogicsObligation}.
Context `{HydraAdmin} `{JsonSchema}.

Definition visitor_accessor (visitor : Visitor) : AccessorInfo :=
  {| acc_ID := vis_ID visitor; acc_Type := vis_Type visitor; acc_Name := "" |}.

Definition checkPublic (c : request) : outcome reply :=
  visitor ← verify c;
  jsonReq ← validateAndBindGin c "check_public";
  resource ← readResource true (jget jsonReq "resource");
  operations ← readStrings jsonReq "operation";
  checkResult ← policyCalc_Check resource (visitor_accessor visitor) operations [];
  Ok (ReplyOK 200 (JsonBody (jobj [("result", JBool (Result checkResult))]))).

Definition check (c : request) : outcome reply :=
  jsonReq ← validateAndBindGin c "check";
  accessor ← readAccessor jsonReq;
  resource ← readResource true (jget jsonReq "resource");
  operations ← readStrings jsonReq "operation";
  includeParams ← readInclude jsonReq;
  checkResult ← policyCalc_Check resource accessor operations includeParams;
  Ok (ReplyOK 200 (JsonBody (checkResp includeParams checkResult))).

Definition resourceFilter (c : request) : outcome reply :=
  jsonReq ← validateAndBindGin c "resource_filter";
  accessor ← readAccessor jsonReq;
  resources ← readResources jsonReq;
  operations ← readStrings jsonReq "operation";
  allowOperation ← optional jsonReq "allow_operation" false assert_bool;
  includeParams ← readInclude jsonReq;
  '(result, resourceOperationMap, resourceOperationObligationMap) ←
    policyCalc_ResourceFilter resources accessor operations includeParams;
  Ok (ReplyOK 200 (JsonBody (JArr
    (map (filterResp includeParams allowOperation resourceOperationMap resourceOperationObligationMap) result)))).

Definition resourceOperation (c : request) : outcome reply :=
  jsonReq ← validateAndBindGin c "resource_operation";
  accessor ← readAccessor jsonReq;
  resources ← readResources jsonReq;
  '(resourceOperationMap, resourceOperationObligationMap) ← policyCalc_GetResourceOperation resources accessor;
  Ok (ReplyOK 200 (JsonBody (JArr (map (λ kv : string * list string,
    jobj [("id", JStr kv.1); ("operation", strings kv.2);
          ("operation_obligations", JArr (oblistResult 104 (default ∅ (resourceOperationObligationMap !! kv.1))))])
    (range 103 resourceOperationMap))))).

Definition resourceOperationPublic (c : request) : outcome reply :=
  visitor ← verify c;
  jsonReq ← validateAndBindGin c "resource_operation_public";
  resources ← readResources jsonReq;
  '(resourceOperationMap, _) ← policyCalc_GetResourceOperation resources (visitor_accessor visitor);
  Ok (ReplyOK 200 (JsonBody (JArr (map (λ kv : string * list string,
    jobj [("id", JStr kv.1); ("operation", strings kv.2)]) (range 105 resourceOperationMap))))).

Definition resourceTypeOperationPublic (c : request) : outcome reply :=
  visitor ← verify c;
  jsonReq ← validateAndBindGin c "resource_type_operation_public";
  resourceTypes ← readStrings jsonReq "resource_types";
  resourceOperationMap ← policyCalc_GetResourceTypeOperation resourceTypes (visitor_accessor visitor);
  Ok (ReplyOK 200 (JsonBody (JArr (map (λ kv : string * list string,
    jobj [("resource_type", JStr kv.1); ("operation", strings kv.2)]) (range 106 resourceOperationMap))))).

Definition resourceList (c : request) : outcome reply :=
  jsonReq ← validateAndBindGin c "resource_list";
  accessor ← readAccessor jsonReq;
  resourceJson ← assert_map (jget jsonReq "resource");
  resourceTypeID ← assert_string (jget resourceJson "type");
  operations ← readStrings jsonReq "operation";
  includeParams ← readInclude jsonReq;
  '(resourceList, resourceOperationObligationMap) ←
    policyCalc_GetResourceList resourceTypeID accessor operations includeParams;
  Ok (ReplyOK 200 (JsonBody (JArr (map (listResp includeParams resourceOperationObligationMap) resourceList)))).
End handlers.
