(* ===== verification/RestCalcSpec.v ===== *)
(** * The decision endpoints over HTTP

    Bodies the schemas accept are read without a panic, except for a
    [created_by] object without an id; a conforming request is answered with
    the decision the specification gives; the public endpoint decides for the
    visitor of the token. *)
From S2P Require Import Prelude Json Interfaces Common PolicyCalc PolicyCalcSpec Store PolicyDB PolicyDBSpec Decision RoleDB Role Mq ObligationDB Obligation System Rest SchemaLang Schema RestCalc.

(** ** Reading accepted bodies *)
Lemma omap_all_reads {A B} (f : A → outcome B) (l : list A) :
  (∀ x, x ∈ l → ∃ y, f x = Ok y) → ∃ ys, omap_all f l = Ok ys.
Proof.
  induction l as [|x l IH]; intros Hl; [by eexists|]. destruct (Hl x) as [y Hy]; [left|].
  destruct IH as [ys Hys]; [intros; apply Hl; by right|]. simpl. rewrite Hy. simpl. rewrite Hys. by eexists.
Qed.

Lemma accepted_accessor req props c m :
  accepts (SObject req props c) (JObj m) = true → "accessor" ∈ req → ("accessor", accessor_schema) ∈ props →
  ∃ a, readAccessor m = Ok a ∧ acc_Type a ∈ [RealName; App] ∧ acc_Name a = "".
Proof.
  intros Ha Hr Hp. destruct (object_field_reads _ _ _ _ Ha _ _ _ _ Hr Hp) as (am & _ & E & Hm).
  destruct (string_field_reads _ _ _ _ Hm "id" None) as (id & _ & Eid & _); [in_fields..|].
  destruct (string_field_reads _ _ _ _ Hm "type" (Some ["user"; "app"])) as (ty & _ & Ety & Hty); [in_fields..|].
  unfold readAccessor. rewrite E. simpl. rewrite Eid. simpl. rewrite Ety. eexists. split_and!; [done| |done].
  specialize (Hty _ eq_refl). apply elem_of_cons in Hty as [->|Hty]; [vm_compute; left|].
  apply list_elem_of_singleton in Hty as ->. vm_compute. right. left.
Qed.

Lemma accepted_strings req props c m k n u :
  accepts (SObject req props c) (JObj m) = true → k ∈ req → (k, SArray n u str) ∈ props → ∃ ss, readStrings m k = Ok ss.
Proof.
  intros Ha Hr Hp. destruct (array_field_reads _ _ _ _ Ha _ _ _ _ Hr Hp) as (l & _ & E & Hl).
  destruct (strings_read l Hl) as (ss & Hs & _). unfold readStrings. rewrite E. simpl. rewrite Hs. by eexists.
Qed.

Lemma accepted_include req props c m :
  accepts (SObject req props c) (JObj m) = true → ("include", include_schema) ∈ props → ∃ inc, readInclude m = Ok inc.
Proof.
  intros Ha Hp. unfold readInclude, optional. destruct (m !! "include") as [v|] eqn:Hv; [|by eexists].
  destruct (accepts_array _ _ _ v (field_accepts _ _ _ _ Ha _ _ _ Hp Hv)) as (l & -> & Hl). simpl.
  apply omap_all_reads. intros x Hx. destruct (accepts_string _ x (Hl x Hx)) as (s & -> & Hs). simpl.
  specialize (Hs _ eq_refl). apply list_elem_of_singleton in Hs as ->. by eexists.
Qed.

Lemma accepted_ancestors j : accepts ancestors_schema j = true → ∃ l, ancestorsStrToInfo j = Ok l.
Proof.
  intros (l & -> & Hl)%accepts_array. simpl. apply omap_all_reads. intros x Hx. specialize (Hl x Hx).
  destruct (accepts_object _ _ _ _ Hl) as (m & -> & _). simpl.
  destruct (string_field_reads _ _ _ _ Hl "id" None) as (id & _ & -> & _); [in_fields..|].
  destruct (string_field_reads _ _ _ _ Hl "type" None) as (ty & _ & -> & _); [in_fields..|]. by eexists.
Qed.

(** A resource whose [created_by] has no id. *)
Definition nameless_creator (resource : json) : Prop :=
  ∃ m cb, resource = JObj m ∧ m !! "created_by" = Some (JObj cb) ∧ cb !! "id" = None.

Lemma accepted_created_by j :
  accepts created_by_schema j = true → ∃ cb, j = JObj cb ∧
    ((is_Some (cb !! "id") ∧ ∃ id, readCreatedBy j = Ok id) ∨ (cb !! "id" = None ∧ ∃ w, readCreatedBy j = Panic w)).
Proof.
  intros Ha. destruct (accepts_object _ _ _ _ Ha) as (cb & -> & _ & Hp). exists cb. split; [done|].
  unfold readCreatedBy, jget. simpl. destruct (cb !! "id") as [v|] eqn:E; simpl; [|right; eauto].
  destruct (accepts_string None v) as (s & -> & _); [|left; eauto]. by eapply (Hp "id" str); [in_fields|].
Qed.

(** The creator of an accepted resource. *)
Lemma accepted_creator m :
  (∀ v, m !! "created_by" = Some v → accepts created_by_schema v = true) →
  (¬ nameless_creator (JObj m) ∧ ∃ id, optional m "created_by" "" readCreatedBy = Ok id) ∨
  (nameless_creator (JObj m) ∧ ∃ w, optional m "created_by" "" readCreatedBy = Panic w).
Proof.
  intros Ha. unfold optional. destruct (m !! "created_by") as [v|] eqn:E.
  - destruct (accepted_created_by v (Ha v eq_refl)) as (cb & -> & [[[x Hx] Hi]|[Hi Hw]]).
    + left. split; [|done]. intros (m' & cb' & [= <-] & E' & Hn). congruence.
    + right. split; [by exists m, cb|done].
  - left. split; [|by eexists]. intros (m' & cb & [= <-] & E' & _). congruence.
Qed.

(** An accepted resource is read, or its creator has no id and reading it
    panics. *)
Lemma accepted_resource j :
  accepts resource_schema j = true →
  (¬ nameless_creator j ∧ ∃ r, readResource true j = Ok r) ∨
  (nameless_creator j ∧ ∃ w, readResource true j = Panic w).
Proof.
  intros Ha. destruct (accepts_object _ _ _ _ Ha) as (m & -> & _ & Hp). unfold readResource. simpl.
  destruct (string_field_reads _ _ _ _ Ha "id" None) as (id & _ & -> & _); [in_fields..|].
  destruct (string_field_reads _ _ _ _ Ha "type" None) as (ty & _ & -> & _); [in_fields..|]. simpl.
  assert (∃ l, optional m "ancestors" [] ancestorsStrToInfo = Ok l) as [l ->].
  { unfold optional. destruct (m !! "ancestors") eqn:E; [|by eexists]. apply accepted_ancestors.
    by eapply (Hp "ancestors"); [in_fields|]. }
  simpl. assert (∃ n, optional m "name" "" assert_string = Ok n) as [n En].
  { unfold optional. destruct (m !! "name") as [v|] eqn:E; [|by eexists].
    destruct (accepts_string None v) as (s & -> & _); [by eapply (Hp "name" str); [in_fields|]|by eexists]. }
  destruct (accepted_creator m) as [[Hn [i ->]]|[Hn [w ->]]].
  - intros v. apply Hp. in_fields.
  - left. simpl. rewrite En. eauto.
  - right. eauto.
Qed.

(** A resource of a bulk request, whose schema requires no member. *)
Definition unreadable (resource : json) : Prop :=
  ∃ m, resource = JObj m ∧ (m !! "id" = None ∨ m !! "type" = None ∨ nameless_creator resource).

Lemma accepted_optional_string m k :
  (∀ v, m !! k = Some v → accepts str v = true) →
  (∃ s, m !! k = Some (JStr s) ∧ assert_string (jget m k) = Ok s) ∨
  (m !! k = None ∧ ∃ w, assert_string (jget m k) = Panic w).
Proof.
  intros Ha. unfold jget. destruct (m !! k) as [v|]; [|right; by eauto].
  destruct (accepts_string None v (Ha v eq_refl)) as (s & -> & _). left. by exists s.
Qed.

Lemma accepted_bulk_resource j :
  accepts (obj [] [("id", str); ("type", str); ("ancestors", ancestors_schema); ("created_by", created_by_schema)]) j = true →
  (¬ unreadable j ∧ ∃ r, readResource false j = Ok r) ∨ (unreadable j ∧ ∃ w, readResource false j = Panic w).
Proof.
  intros Ha. destruct (accepts_object _ _ _ _ Ha) as (m & -> & _ & Hp). unfold readResource. simpl.
  destruct (accepted_optional_string m "id") as [(id & Hid & ->)|[Hid [w ->]]];
    [intros v; apply Hp; in_fields| |right; split; [exists m; eauto|eauto]]. simpl.
  destruct (accepted_optional_string m "type") as [(ty & Hty & ->)|[Hty [w ->]]];
    [intros v; apply Hp; in_fields| |right; split; [exists m; eauto|eauto]]. simpl.
  assert (∃ l, optional m "ancestors" [] ancestorsStrToInfo = Ok l) as [l ->].
  { unfold optional. destruct (m !! "ancestors") eqn:E; [|by eexists]. apply accepted_ancestors.
    by eapply (Hp "ancestors"); [in_fields|]. }
  simpl. destruct (accepted_creator m) as [[Hn [i ->]]|[Hn [w ->]]]; [intros v; apply Hp; in_fields| |].
  - left. split; [|by eexists]. intros (m' & [= <-] & [?|[?|?]]); [congruence..|done].
  - right. split; [exists m; eauto|eauto].
Qed.

(** The resources of an accepted bulk request: all are read, or one is
    unreadable and the loop panics. *)
Lemma accepted_resources req props c m :
  accepts (SObject req props c) (JObj m) = true → "resources" ∈ req → ("resources", resources_schema) ∈ props →
  ∃ l, m !! "resources" = Some (JArr l) ∧
    ((¬ Exists unreadable l ∧ ∃ rs, readResources m = Ok rs ∧ length rs = length l) ∨
     (Exists unreadable l ∧ ∃ w, readResources m = Panic w)).
Proof.
  intros Ha Hr Hp. destruct (array_field_reads _ _ _ _ Ha _ _ _ _ Hr Hp) as (l & E & El & Hl). exists l. split; [done|].
  unfold readResources. rewrite El. simpl. clear E El. induction l as [|x l IH]; simpl.
  - left. split; [intros Hx; by apply Exists_nil in Hx|by exists []].
  - rewrite Exists_cons. destruct (accepted_bulk_resource x (Hl x (list_elem_of_here _ _))) as [[Hx [r ->]]|[Hx [w ->]]];
      [|right; simpl; eauto]. simpl.
    destruct IH as [[Hn (rs & -> & Hlen)]|[Hn [w ->]]]; [intros y Hy; apply Hl; by right| |].
    + left. split; [tauto|]. exists (r :: rs). simpl. auto.
    + right. eauto.
Qed.

(** ** A client's encoding of a request *)
Definition encodeAncestor (a : Ancestor) : json := jobj [("id", JStr (anc_ID a)); ("type", JStr (anc_Type a))].
Definition encodeResource (r : ResourceInfo) : json :=
  jobj [("id", JStr (res_ID r)); ("type", JStr (res_Type r)); ("name", JStr (res_Name r));
        ("ancestors", JArr (map encodeAncestor (res_Ancestors r)));
        ("created_by", jobj [("id", JStr (res_CreatedBy r))])].
Definition visitorTypeName (t : VisitorType) : string := if bool_decide (t = RealName) then "user" else "app".
Definition encodeAccessor (a : AccessorInfo) : json :=
  jobj [("id", JStr (acc_ID a)); ("type", JStr (visitorTypeName (acc_Type a)))].
Definition encodeInclude (t : PolicCalcyIncludeType) : json := JStr "operation_obligations".
Definition encodeCheck (r : ResourceInfo) (a : AccessorInfo) (ops : list string) (include : list PolicCalcyIncludeType) : json :=
  jobj [("accessor", encodeAccessor a); ("resource", encodeResource r); ("operation", strings ops);
        ("method", JStr "GET"); ("include", JArr (map encodeInclude include))].

(** The parts of a request a body can carry. *)
Definition expressible (r : ResourceInfo) (a : AccessorInfo) : Prop :=
  acc_Name a = "" ∧ Forall (λ x, anc_Name x = "") (res_Ancestors r).

Lemma accepts_obj req props m :
  Forall (λ k, is_Some (m !! k)) req →
  Forall (λ kv : string * schema, ∀ v, m !! kv.1 = Some v → accepts kv.2 v = true) props →
  accepts (obj req props) (JObj m) = true.
Proof.
  intros Hr Hp. simpl. rewrite andb_true_iff, andb_true_iff, !forallb_forall. split_and!; [| |done].
  - intros k Hk%list_elem_of_In. apply bool_decide_eq_true. by eapply Forall_forall in Hr.
  - intros [k sch] Hk%list_elem_of_In. rewrite Forall_forall in Hp. specialize (Hp _ Hk). simpl in *.
    destruct (m !! k); [by apply Hp|done].
Qed.

(** An object literal conforms when its members do. *)
Ltac conforms := apply accepts_obj; [repeat (apply Forall_cons_2; [by eexists|]); apply Forall_nil_2|
  repeat (apply Forall_cons_2; [intros ? Hv; vm_compute in Hv; first [discriminate Hv|injection Hv as <-]; cbn [fst snd];
    try first [match goal with H : ?P |- ?P => exact H end|reflexivity]|]);
  try apply Forall_nil_2].

Lemma accepts_arr items l : (∀ x, x ∈ l → accepts items x = true) → accepts (arr items) (JArr l) = true.
Proof. intros Hl. simpl. rewrite forallb_forall. intros x Hx%list_elem_of_In. by apply Hl. Qed.

Lemma resource_conforms id ty name anc cb :
  accepts ancestors_schema anc = true → accepts created_by_schema cb = true →
  accepts resource_schema (jobj [("id", JStr id); ("type", JStr ty); ("name", JStr name); ("ancestors", anc); ("created_by", cb)]) = true.
Proof. intros Ha Hc. conforms. Qed.
Lemma accessor_conforms id ty : ty ∈ ["user"; "app"] → accepts accessor_schema (jobj [("id", JStr id); ("type", JStr ty)]) = true.
Proof. intros Ht. conforms. by apply bool_decide_eq_true. Qed.
Lemma check_conforms a r ops inc :
  accepts accessor_schema a = true → accepts resource_schema r = true → accepts operation_schema ops = true →
  accepts include_schema inc = true →
  accepts check_schema (jobj [("accessor", a); ("resource", r); ("operation", ops); ("method", JStr "GET"); ("include", inc)]) = true.
Proof. intros. conforms. Qed.

#[global] Instance JStr_inj : Inj (=) (=) JStr.
Proof. by intros x y [= ->]. Qed.

Lemma encodeCheck_conforms r a ops include :
  NoDup ops → accepts check_schema (encodeCheck r a ops include) = true.
Proof.
  intros Hnd. apply check_conforms.
  - apply accessor_conforms. unfold visitorTypeName. case_bool_decide; [left|right; left].
  - apply resource_conforms.
    + apply accepts_arr. intros x (an & -> & _)%list_elem_of_fmap. generalize (anc_ID an), (anc_Type an). intros. unfold encodeAncestor. conforms.
    + generalize (res_CreatedBy r). intros. conforms.
  - simpl. rewrite bool_decide_eq_true_2 by (by apply (NoDup_fmap_2 JStr)). simpl. apply forallb_forall.
    intros x (o & -> & _)%list_elem_of_In%list_elem_of_fmap. done.
  - apply accepts_arr. intros x (t & -> & _)%list_elem_of_fmap. done.
Qed.

Lemma read_encoded_ancestors l :
  Forall (λ x, anc_Name x = "") l → ancestorsStrToInfo (JArr (map encodeAncestor l)) = Ok l.
Proof.
  unfold ancestorsStrToInfo. simpl. induction 1 as [|[id ty n] l Hx _ IH]; simpl in *; [done|]. by rewrite IH, Hx.
Qed.
Lemma read_encoded_strings ops : omap_all assert_string (map JStr ops) = Ok ops.
Proof. induction ops as [|o ops IH]; simpl; [done|]. by rewrite IH. Qed.

Lemma read_encoded_resource r :
  Forall (λ x, anc_Name x = "") (res_Ancestors r) → readResource true (encodeResource r) = Ok r.
Proof.
  intros Ha. unfold readResource, encodeResource. destruct r as [id ty name anc cb]. simpl in *.
  apply read_encoded_ancestors in Ha. revert Ha. generalize (JArr (map encodeAncestor anc)). intros j Ha.
  change (optional _ "ancestors" [] ancestorsStrToInfo) with (ancestorsStrToInfo j). by rewrite Ha.
Qed.

Lemma read_encoded_accessor m a :
  acc_Name a = "" → acc_Type a ∈ [RealName; App] → m !! "accessor" = Some (encodeAccessor a) → readAccessor m = Ok a.
Proof.
  intros Hn Ht E. unfold readAccessor.
  assert (jget m "accessor" = encodeAccessor a) as -> by (unfold jget; by rewrite E). destruct a as [id ty n]. simpl in *. subst n.
  apply elem_of_cons in Ht as [->|Ht]; [done|]. by apply list_elem_of_singleton in Ht as ->.
Qed.

Lemma read_encoded_include m inc :
  m !! "include" = Some (JArr (map encodeInclude inc)) → readInclude m = Ok inc.
Proof.
  intros E. unfold readInclude, optional. rewrite E. simpl. clear E. induction inc as [|[] inc IH]; simpl; [done|].
  by rewrite IH.
Qed.

(** ** Binding *)
Section binding.
Context `{!JsonSchema} `{!SchemaLaw}.

Lemma bind_accepted name sch c m :
  schemas !! name = Some sch → req_body c = Ok (TJson (JObj m)) → accepts sch (JObj m) = true →
  validateAndBindGin c name = Ok m.
Proof.
  intros Hs Hb Ha. unfold validateAndBindGin, validateAndBind. rewrite Hb. simpl.
  assert (Validate name (TJson (JObj m)) = None) as -> by (apply (schema_valid _ _ _ Hs); eauto). done.
Qed.

Lemma bind_rejected name sch c body :
  schemas !! name = Some sch → req_body c = Ok body → (∀ j, body = TJson j → accepts sch j = false) →
  ∃ msg, validateAndBindGin c name = Err (NewError PublicBadRequest msg).
Proof.
  intros Hs Hb Hr. unfold validateAndBindGin, validateAndBind. rewrite Hb. simpl.
  destruct (Validate name body) as [msg|] eqn:E; [by exists msg|].
  apply (schema_valid _ _ _ Hs) in E as (j & -> & Ha). by rewrite (Hr j eq_refl) in Ha.
Qed.
End binding.

Section endpoints.
Context `{GoRuntime} `{DrivenUserMgnt} `{JsonLogic} `{SqlEnv} `{HydraAdmin} `{!JsonSchema} `{!SchemaLaw}.

(** The handlers over one store. *)
Definition wired_check (s : store) : request → outcome reply :=
  @check _ _ _ (policyCalcDB s) (role_service s) (obligation_service s) _.
Definition wired_checkPublic (s : store) : request → outcome reply :=
  @checkPublic _ _ _ (policyCalcDB s) (role_service s) (obligation_service s) _ _.

(** [check] on an accepted body is the decision on what the body says. *)
Lemma check_accepted s c m :
  req_body c = Ok (TJson (JObj m)) → accepts check_schema (JObj m) = true →
  (¬ nameless_creator (jget m "resource") ∧ ∃ r a ops inc,
     wired_check s c = (cr ← wired_Check s r a ops inc; Ok (ReplyOK 200 (JsonBody (checkResp inc cr))))) ∨
  (nameless_creator (jget m "resource") ∧ ∃ w, wired_check s c = Panic w).
Proof.
  intros Hb Ha. unfold wired_check, check. rewrite (bind_accepted "check" check_schema c m eq_refl Hb Ha). simpl.
  destruct (accepted_accessor _ _ _ _ Ha) as (a & -> & _); [in_fields..|]. simpl.
  destruct (object_field_reads _ _ _ _ Ha "resource" _ _ _ ltac:(in_fields) ltac:(in_fields)) as (rm & E & _ & Hr).
  assert (jget m "resource" = JObj rm) as -> by (unfold jget; by rewrite E).
  destruct (accepted_resource _ Hr) as [[Hn [r ->]]|[Hn [w ->]]]; [|right; eauto]. left. split; [done|]. simpl.
  destruct (accepted_strings _ _ _ _ "operation" 0 true Ha) as [ops ->]; [in_fields..|]. simpl.
  destruct (accepted_include _ _ _ _ Ha) as [inc ->]; [in_fields|]. simpl. by exists r, a, ops, inc.
Qed.

(** ** No other panic *)
Lemma policies_panic_free s resources toks :
  table_ok s → panic_free (policyCalcDB_GetPoliciesByResourcesAndAccessToken s resources toks).
Proof.
  intros Ht. unfold policyCalcDB_GetPoliciesByResourcesAndAccessToken, stmt, in_list, scanLive.
  destruct resources; [auto with isf|]. destruct (sql_fault _); [auto with isf|].
  do 2 (case_bool_decide; [auto with isf|]). apply panic_free_omap_all. intros row [_ Hr]%list_elem_of_filter. rewrite elem_of_range_order, list_elem_of_filter in Hr.
  destruct Hr as [_ Hr]. unfold table_ok in Ht. rewrite Forall_forall in Ht. destruct (Ht row Hr) as [[p Hp] _].
  unfold scanPolicy. rewrite Hp. simpl. auto with isf.
Qed.

Definition user_service_total : Prop :=
  ∀ id, panic_free (GetAccessorIDsByUserID id) ∧ panic_free (GetUserRolesByUserID id).

Lemma identities_panic_free s a : user_service_total → panic_free (@getAccessorIDs _ (role_service s) a).
Proof.
  intros Hu. destruct (Hu (acc_ID a)) as [Hi Hr]. unfold getAccessorIDs.
  apply panic_free_bind; [|intros toks _; apply panic_free_bind].
  - destruct (acc_Type a); auto with isf. apply panic_free_bind; auto with isf.
  - simpl. unfold role_GetRoleByMembers, memberDB_GetRoleByMembers, stmt, in_list. repeat case_match; auto with isf.
  - intros roles _. apply panic_free_bind; [|auto with isf]. destruct (acc_Type a); auto with isf.
    apply panic_free_bind; auto with isf.
Qed.

Lemma wired_Check_panic_free s r a ops inc :
  table_ok s → user_service_total → panic_free (wired_Check s r a ops inc).
Proof.
  intros Ht Hu. unfold wired_Check, policyCalc_Check. apply panic_free_bind; [by apply identities_panic_free|].
  intros toks _. apply panic_free_bind; [by apply policies_panic_free|]. intros ps _. case_match; auto with isf.
Qed.

(** C37. Every body sent to the private [operation-check] endpoint has one of
    three fates, and none changes the store: a body the schema refuses gets
    status 400; an accepted one whose [created_by] object has no id makes the
    handler panic, status 500, although the schema does not require the id;
    every other accepted body is decided, the reply being that of the decision
    service. *)
Theorem check_fates s c body :
  req_body c = Ok body → table_ok s → user_service_total →
  let served := serve (reads (λ s, wired_check s c)) s in
  served.2 = s ∧
  ((∀ j, body = TJson j → accepts check_schema j = false) → rep_status served.1 = 400%Z) ∧
  (∀ m, body = TJson (JObj m) → accepts check_schema (JObj m) = true →
     ((∃ w, wired_check s c = Panic w) ↔ nameless_creator (jget m "resource")) ∧
     (nameless_creator (jget m "resource") → served.1 = Recovery) ∧
     (¬ nameless_creator (jget m "resource") → ∃ r a ops inc,
        wired_check s c = (cr ← wired_Check s r a ops inc; Ok (ReplyOK 200 (JsonBody (checkResp inc cr)))))).
Proof.
  intros Hb Ht Hu served. split; [unfold served, serve, reads; by destruct (wired_check s c)|]. split.
  - intros Hr. destruct (bind_rejected "check" check_schema c body eq_refl Hb Hr) as [msg E].
    unfold served, serve, reads, wired_check, check. rewrite E. done.
  - intros m -> Ha. unfold served, serve, reads.
    destruct (check_accepted s c m Hb Ha) as [(Hn & r & a & ops & inc & E)|[Hn [w E]]]; rewrite E.
    + split_and!; [|done|eauto 6]. split; [|done]. intros [w Hw]. exfalso. revert w Hw. fold (panic_free (cr ← wired_Check s r a ops inc;
        Ok (ReplyOK 200 (JsonBody (checkResp inc cr))))). apply panic_free_bind; [by apply wired_Check_panic_free|auto with isf].
    + split_and!; [|done|done]. split; eauto.
Qed.

(** A request encoded as the schema describes is read back as it was. *)
Lemma check_reads_back s c r a ops inc :
  acc_Type a ∈ [RealName; App] → expressible r a → NoDup ops → req_body c = Ok (TJson (encodeCheck r a ops inc)) →
  wired_check s c = (cr ← wired_Check s r a ops inc; Ok (ReplyOK 200 (JsonBody (checkResp inc cr)))).
Proof.
  intros Ht [Hn Ha] Hnd Hb. unfold wired_check, check.
  rewrite (bind_accepted "check" check_schema c _ eq_refl Hb (encodeCheck_conforms r a ops inc Hnd)). simpl.
  rewrite (read_encoded_accessor _ a Hn Ht) by done. simpl.
  change (jget _ "resource") with (encodeResource r). rewrite (read_encoded_resource r Ha). simpl.
  change (readStrings _ "operation") with (omap_all assert_string (map JStr ops)). rewrite read_encoded_strings. simpl.
  by rewrite (read_encoded_include _ inc).
Qed.

(** Over HTTP the private endpoint implements the specification of a
    decision: a request with distinct operations, encoded as the schema
    describes, is accepted, read back as it was, and answered with status 200
    and what the specification says for that accessor, resource, operations and
    include list, on any readable store. *)
Theorem check_over_http s c r a ops inc toks :
  table_ok s → obligations_ok s → (∀ label, sql_fault label = None) →
  acts_under s a toks → expressible r a → NoDup ops →
  req_body c = Ok (TJson (encodeCheck r a ops inc)) →
  ∃ cr, wired_check s c = Ok (ReplyOK 200 (JsonBody (checkResp inc cr))) ∧
    answers (stored_obligations s) (granted (live_policies s) (res_Type r) toks) r a ops inc cr.
Proof.
  intros Ht Ho Hf Hu He Hnd Hb. destruct (wired_Check_spec s r a ops inc toks Ht Ho Hf Hu) as (cr & Hc & Hans).
  exists cr. split; [|done]. rewrite (check_reads_back s c r a ops inc); [by rewrite Hc|by eapply acts_under_types|done..].
Qed.

(** The bulk endpoint. *)
Definition wired_resourceFilter (s : store) : request → outcome reply :=
  @resourceFilter _ _ _ (policyCalcDB s) (role_service s) (obligation_service s) _.
Definition wired_ResourceFilter (s : store) := @policyCalc_ResourceFilter _ _ _ (policyCalcDB s) (role_service s) (obligation_service s).

Lemma wired_ResourceFilter_panic_free s rs a ops inc :
  table_ok s → user_service_total → panic_free (wired_ResourceFilter s rs a ops inc).
Proof.
  intros Ht Hu. unfold wired_ResourceFilter, policyCalc_ResourceFilter. case_bool_decide; [auto with isf|].
  apply panic_free_bind; [by apply identities_panic_free|].
  intros toks _. apply panic_free_bind; [by apply policies_panic_free|]. intros ps _.
  destruct (splitTypePolicies ps). auto with isf.
Qed.

(** On a body the schema accepts, [resource-filter] panics exactly when
    one of the resources has no id, no type or a creator without id (the schema
    requires none of them); otherwise it decides on as many resources as the
    body lists, with status 200 unless the decision service fails. *)
Theorem resourceFilter_fates s c m :
  req_body c = Ok (TJson (JObj m)) → accepts resource_filter_schema (JObj m) = true →
  table_ok s → user_service_total →
  ∃ l, m !! "resources" = Some (JArr l) ∧
    ((∃ w, wired_resourceFilter s c = Panic w) ↔ Exists unreadable l) ∧
    (¬ Exists unreadable l → ∃ rs a ops inc allow, length rs = length l ∧
       wired_resourceFilter s c =
         ('(result, opMap, oblMap) ← wired_ResourceFilter s rs a ops inc;
          Ok (ReplyOK 200 (JsonBody (JArr (map (filterResp inc allow opMap oblMap) result)))))).
Proof.
  intros Hb Ha Ht Hu. destruct (accepted_resources _ _ _ _ Ha) as (l & Hl & Hcases); [in_fields..|]. exists l.
  split; [done|]. unfold wired_resourceFilter, resourceFilter.
  rewrite (bind_accepted "resource_filter" resource_filter_schema c m eq_refl Hb Ha). simpl.
  destruct (accepted_accessor _ _ _ _ Ha) as (a & -> & _); [in_fields..|]. simpl.
  destruct Hcases as [[Hn (rs & -> & Hlen)]|[Hn [w ->]]]; [|by split; [split; eauto|]]. simpl.
  destruct (accepted_strings _ _ _ _ "operation" 0 true Ha) as [ops ->]; [in_fields..|]. simpl.
  assert (∃ allow, optional m "allow_operation" false assert_bool = Ok allow) as [allow ->].
  { unfold optional. destruct (m !! "allow_operation") as [v|] eqn:E; [|by eexists].
    destruct (accepts_bool v) as [b ->]; [|by eexists]. eapply (field_accepts _ _ _ _ Ha "allow_operation"); [in_fields|done]. }
  simpl. destruct (accepted_include _ _ _ _ Ha) as [inc ->]; [in_fields|]. simpl. fold (wired_ResourceFilter s).
  split; [|intros _; by exists rs, a, ops, inc, allow]. split; [|done]. intros [w Hw]. exfalso.
  destruct (wired_ResourceFilter s rs a ops inc) as [[[result opMap] oblMap]|e|w'] eqn:E; [done..|].
  by apply wired_ResourceFilter_panic_free in E.
Qed.

(** The token a request carries. *)
Definition bearer (c : request) : string :=
  let tokenID := req_header c "Authorization" in default tokenID (TrimPrefix tokenID "Bearer ").
Definition token_accessor (info : TokenIntrospectInfo) : AccessorInfo :=
  {| acc_ID := tok_VisitorID info; acc_Type := tok_VisitorTyp info; acc_Name := "" |}.

(** C15. The public [operation-check] endpoint decides for the visitor of the
    token and for nobody else: an inactive token gets status 401 whatever the
    body; with an active one an accepted body is answered with status 200 and a
    result that is true exactly when the specification allows that visitor
    every operation the body names on the resource it names. *)
Theorem checkPublic_decides_for_token s c info :
  Introspect (bearer c) = Ok info → table_ok s → obligations_ok s → (∀ label, sql_fault label = None) →
  (tok_Active info = false → rep_status (serve (reads (λ s, wired_checkPublic s c)) s).1 = 401%Z) ∧
  (tok_Active info = true → ∀ m toks, acts_under s (token_accessor info) toks →
     req_body c = Ok (TJson (JObj m)) → accepts check_public_schema (JObj m) = true →
     ¬ nameless_creator (jget m "resource") →
     ∃ r ops b, readResource true (jget m "resource") = Ok r ∧ readStrings m "operation" = Ok ops ∧
       wired_checkPublic s c = Ok (ReplyOK 200 (JsonBody (jobj [("result", JBool b)]))) ∧
       (b = true ↔ ∀ op, op ∈ ops →
          decision (granted (live_policies s) (res_Type r) toks) r (token_accessor info) op = Some true)).
Proof.
  intros Hi Ht Ho Hf. split; intros Hact; [|intros m toks Hu Hb Ha Hn];
    unfold serve, reads, wired_checkPublic, checkPublic, verify; fold (bearer c); rewrite Hi; simpl; rewrite Hact; [done|].
  simpl. rewrite (bind_accepted "check_public" check_public_schema c m eq_refl Hb Ha). simpl.
  destruct (object_field_reads _ _ _ _ Ha "resource" _ _ _ ltac:(in_fields) ltac:(in_fields)) as (rm & E & _ & Hr).
  assert (jget m "resource" = JObj rm) as Er by (unfold jget; by rewrite E). rewrite Er in *.
  destruct (accepted_resource _ Hr) as [[_ [r Hread]]|[? _]]; [|done]. rewrite Hread. simpl.
  destruct (accepted_strings _ _ _ _ "operation" 0 true Ha) as [ops Hops]; [in_fields..|]. rewrite Hops. simpl.
  destruct (wired_Check_spec s r (token_accessor info) ops [] toks Ht Ho Hf Hu) as (cr & Hc & Hans).
  fold (wired_Check s). unfold visitor_accessor. simpl. fold (token_accessor info). rewrite Hc. simpl.
  exists r, ops, (Result cr). split_and!; [done..|]. apply (ans_result _ _ _ _ _ _ _ Hans).
Qed.
End endpoints.
