(* ===== verification/RestRole.v ===== *)
(** * The role endpoints ([Authorization/driveradapters/role_rest_handler.go])

    Administration of roles and of their members, and the listings.  Every
    public handler verifies the token before it reads anything else. *)
From Stdlib Require Import Ascii.
From S2P Require Import Prelude Strconv Json Interfaces Common Store Policy RoleDB Event Role RoleScope Mq Rest RestCalc.

(** ** The tables of the handler *)
Definition memberStringTypes (s : string) : option AccessorType :=
  (list_to_map [("user", AccessorUser); ("department", AccessorDepartment); ("group", AccessorGroup); ("app", AccessorApp)]
     : gmap string Z) !! s.
Definition memberIntTypes (t : AccessorType) : string :=
  if bool_decide (t = AccessorUser) then "user"
  else if bool_decide (t = AccessorDepartment) then "department"
  else if bool_decide (t = AccessorGroup) then "group"
  else if bool_decide (t = AccessorApp) then "app" else "".
Definition roleSourceToStrMap (r : RoleSource) : string :=
  match r with RoleSourceSystem => "system" | RoleSourceBusiness => "business" | RoleSourceUser => "user" | RoleSourceNone => "" end.
Definition strToRoleSourceMap (s : string) : option RoleSource :=
  (list_to_map [("system", RoleSourceSystem); ("business", RoleSourceBusiness); ("user", RoleSourceUser)]
     : gmap string RoleSource) !! s.
Definition accessorRoleStrToIntMap (s : string) : option AccessorType :=
  if bool_decide (s = "user") then Some AccessorUser else None.

(** A value looked up in a table, or the error of the handler. *)
Definition known {A} (o : option A) (msg : string) : outcome A :=
  match o with Some a => Ok a | None => Err (NewError PublicBadRequest msg) end.

(** ** Reading *)
Definition readScopeTypes (types : json) : outcome (list ResourceTypeScope) :=
  l ← assert_slice types;
  omap_all (λ v : json,
    scopeJson ← assert_map v;
    id ← assert_string (jget scopeJson "id");
    Ok {| rts_ResourceTypeID := id; rts_ResourceTypeName := "" |}) l.

Definition readCreateScope (jsonReq : gmap string json) : outcome ResourceTypeScopeInfo :=
  scope ← assert_map (jget jsonReq "resource_type_scope");
  unlimited ← assert_bool (jget scope "unlimited");
  if (unlimited : bool) then Ok {| rtsi_Unlimited := true; rtsi_Types := None |}
  else types ← optional scope "types" [] readScopeTypes;
       Ok {| rtsi_Unlimited := false; rtsi_Types := Some types |}.

(** [modifyRole] asserts the types without asking for their presence. *)
Definition readModifyScope (scopeJson : json) : outcome ResourceTypeScopeInfo :=
  scope ← assert_map scopeJson;
  unlimited ← assert_bool (jget scope "unlimited");
  types ← readScopeTypes (jget scope "types");
  Ok {| rtsi_Unlimited := unlimited; rtsi_Types := Some types |}.

(** A member the path says is to be changed. *)
Definition changed {A} (exists_ : bool) (m : gmap string json) (k : string) (zero : A) (read : json → outcome A) : outcome A :=
  if exists_ then match m !! k with
                  | Some v => read v
                  | None => Err (NewError PublicBadRequest ("param " +:+ k +:+ " is illegal"))
                  end
  else Ok zero.

Definition readMember (v : json) : outcome RoleMemberInfo :=
  temp ← assert_map v;
  id ← assert_string (jget temp "id");
  strType ← assert_string (jget temp "type");
  type ← known (memberStringTypes strType) "param member type is illegal";
  _ ← fail_if (bool_decide (id = "")) (NewError PublicBadRequest "param member id is illegal");
  Ok {| rm_ID := id; rm_MemberType := type; rm_Name := ""; rm_ParentDeps := []; rm_CreateTime := 0; rm_ModifyTime := 0 |}.
Definition readMembers (members : list json) : outcome (gmap string RoleMemberInfo) :=
  ofold (λ (memberInfos : gmap string RoleMemberInfo) v,
    member ← readMember v; Ok (<[rm_ID member := member]> memberInfos)) ∅ members.

Definition readSources (c : request) : outcome (list RoleSource) :=
  roleSourcesTmp ← omap_all (λ v, known (strToRoleSourceMap v) "param source is illegal") (QueryArray c "source");
  Ok (if bool_decide (roleSourcesTmp = []) then [RoleSourceBusiness; RoleSourceUser] else roleSourcesTmp).

(** ** Writing *)
Definition roleEntry (v : RoleInfo) : json :=
  jobj [("id", JStr (role_ID v)); ("name", JStr (role_Name v)); ("description", JStr (role_Description v));
        ("source", JStr (roleSourceToStrMap (role_Source v)));
        ("resource_type_scopes", jobj
          [("unlimited", JBool (rtsi_Unlimited (role_Scope v)));
           ("types", JArr (map (λ t, jobj [("id", JStr (rts_ResourceTypeID t)); ("name", JStr (rts_ResourceTypeName t))])
                             (default [] (rtsi_Types (role_Scope v)))))])].
Definition shortRoleEntry (v : RoleInfo) : json :=
  jobj [("id", JStr (role_ID v)); ("name", JStr (role_Name v)); ("description", JStr (role_Description v))].

Definition operationEntry (o : ResourceTypeOperationResponse) : json :=
  jobj [("id", JStr (rtor_ID o)); ("description", JStr (rtor_Description o)); ("name", JStr (rtor_Name o))].
(** One node of the tree: the body of the loop of [getRoleByID] and of
    [convertChildrenResourceTypeScope]. *)
Fixpoint scopeEntry (t : ResourceTypeScopeWithOperation) : json :=
  match t with
  | MkScopeWithOperation id name description url struct typeOperation instanceOperation children =>
      jobj ([("id", JStr id); ("name", JStr name); ("description", JStr description); ("instance_url", JStr url);
             ("data_struct", JStr struct);
             ("operation", jobj [("type", JArr (map operationEntry typeOperation));
                                 ("instance", JArr (map operationEntry instanceOperation))])] ++
            match children with [] => [] | _ => [("children", JArr (map scopeEntry children))] end)
  end.
Definition convertChildrenResourceTypeScope (children : list ResourceTypeScopeWithOperation) : list json :=
  map scopeEntry children.

Definition roleDetail (roleInfo : RoleInfoWithResourceTypeOperation) : json :=
  jobj [("id", JStr (riw_ID roleInfo)); ("name", JStr (riw_Name roleInfo)); ("description", JStr (riw_Description roleInfo));
        ("resource_type_scopes", jobj
          [("types", JArr (convertChildrenResourceTypeScope (rtsw_Types (riw_Scope roleInfo))));
           ("unlimited", JBool (rtsw_Unlimited (riw_Scope roleInfo)))]);
        ("source", JStr (roleSourceToStrMap (riw_Source roleInfo)))].

(** A list of parents that is nil is written as the empty one. *)
Definition departmentEntry (d : Department) : json :=
  jobj [("id", JStr (dep_ID d)); ("name", JStr (dep_Name d)); ("type", JStr (dep_Type d))].
Definition handleGroupMemberInfo (input : RoleMemberInfo) : json :=
  jobj [("id", JStr (rm_ID input)); ("type", JStr (memberIntTypes (rm_MemberType input))); ("name", JStr (rm_Name input));
        ("parent_deps", JArr (map (λ deps, JArr (map departmentEntry deps)) (rm_ParentDeps input)))].

(** ** The handlers *)
Section handlers.
Context `{GoRuntime} `{DrivenUserMgnt} `{LogicsResourceType} `{LogicsResourceTypeHierarchy} `{SqlEnv} `{SqlLike}.
Context `{HydraAdmin} `{JsonSchema} (e : event) (roleSortOrder : gmap string Z).

Definition createRole (c : request) : M store reply :=
  visitor ← lift (verify c);
  jsonReq ← lift (validateAndBindGin c "create_role");
  name ← lift (assert_string (jget jsonReq "name"));
  description ← lift (optional jsonReq "description" "" assert_string);
  scope ← lift (readCreateScope jsonReq);
  strID ← role_AddRole visitor {| role_ID := ""; role_Name := name; role_Description := description;
            role_Source := RoleSourceNone; role_Scope := scope; role_CreateTime := 0; role_ModifyTime := 0 |};
  mret {| rep_status := 201; rep_location := "/api/authorization/v1/roles/" +:+ strID;
          rep_body := JsonBody (jobj [("id", JStr strID)]) |}.

Definition deleteRole (c : request) : M store reply :=
  visitor ← lift (verify c);
  _ ← role_DeleteRole e visitor (req_param c "id");
  mret (ReplyOK 204 NoBody).

Definition modifyRole (c : request) : M store reply :=
  visitor ← lift (verify c);
  let fields := split_at ","%char (req_param c "fields") in
  let nameExist := bool_decide ("name" ∈ fields) in
  let descriptionExist := bool_decide ("description" ∈ fields) in
  let resourceTypeScopesExist := bool_decide ("resource_type_scope" ∈ fields) in
  jsonReq ← lift (validateAndBindGin c "modify_role");
  name ← lift (changed nameExist jsonReq "name" "" assert_string);
  description ← lift (changed descriptionExist jsonReq "description" "" assert_string);
  scope ← lift (changed resourceTypeScopesExist jsonReq "resource_type_scope"
                  {| rtsi_Unlimited := false; rtsi_Types := None |} readModifyScope);
  _ ← role_ModifyRole e visitor (req_param c "id") name nameExist description descriptionExist scope resourceTypeScopesExist;
  mret (ReplyOK 204 NoBody).

Definition getRole (c : request) : M store reply :=
  visitor ← lift (verify c);
  queryInfo ← lift (getListQueryParam c);
  sources ← lift (readSources c);
  '(num, groupInfos) ← reads (λ s, role_GetRoles s visitor
    {| rs_Offset := lq_offset queryInfo; rs_Limit := lq_limit queryInfo; rs_Keyword := DefaultQuery c "keyword" "";
       rs_RoleSources := sources |});
  mret (ReplyOK 200 (ListBody (map roleEntry groupInfos) num)).

Definition readViewMode (c : request) : outcome string :=
  let mode := Query c "resource_type_view_mode" in
  if bool_decide (mode = "") then Ok ResourceTypeViewModeFlat
  else _ ← fail_if (negb (bool_decide (mode = ResourceTypeViewModeFlat)) && negb (bool_decide (mode = ResourceTypeViewModeHierarchy)))
             (NewError PublicBadRequest "param resource_type_view_mode is illegal");
       Ok mode.
Definition getRoleByID (c : request) : M store reply :=
  visitor ← lift (verify c);
  viewMode ← lift (readViewMode c);
  roleInfo ← reads (λ s, role_GetRoleByID s visitor (req_param c "id") viewMode);
  mret (ReplyOK 200 (JsonBody (roleDetail roleInfo))).

Definition getRoleMembers (c : request) : M store reply :=
  visitor ← lift (verify c);
  queryInfo ← lift (getListQueryParam c);
  memberTypes ← lift (omap_all (λ v, known (memberStringTypes v) "param type is illegal") (QueryArray c "type"));
  '(num, infos) ← reads (λ s, role_GetRoleMembers s visitor (req_param c "id")
    {| rms_Offset := lq_offset queryInfo; rms_Limit := lq_limit queryInfo; rms_MemberTypes := memberTypes;
       rms_Keyword := DefaultQuery c "keyword" "" |});
  mret (ReplyOK 200 (ListBody (map handleGroupMemberInfo infos) num)).

Definition addOrDeleteRoleMembers (c : request) : M store reply :=
  visitor ← lift (verify c);
  jsonReq ← lift (validateAndBindGin c "add_delete_members");
  method ← lift (assert_string (jget jsonReq "method"));
  members ← lift (assert_slice (jget jsonReq "members"));
  memberInfos ← lift (readMembers members);
  _ ← lift (fail_if (negb (bool_decide (method = "POST")) && negb (bool_decide (method = "DELETE")))
              (NewError PublicBadRequest "param method is illegal"));
  _ ← AddOrDeleteRoleMemebers visitor method (req_param c "id") memberInfos;
  mret (ReplyOK 204 NoBody).

Definition getRoleByResourceTypeID (c : request) : M store reply :=
  visitor ← lift (verify c);
  queryInfo ← lift (getListQueryParam c);
  let resourceTypeID := DefaultQuery c "resource_type_id" "" in
  _ ← lift (fail_if (bool_decide (resourceTypeID = "")) (NewError PublicBadRequest "param resource_type_id is required"));
  '(num, roleInfos) ← reads (λ s, role_GetResourceTypeRoles s
    {| rtr_Offset := lq_offset queryInfo; rtr_Limit := lq_limit queryInfo; rtr_Keyword := DefaultQuery c "keyword" "";
       rtr_ResourceTypeID := resourceTypeID |});
  mret (ReplyOK 200 (ListBody (map shortRoleEntry roleInfos) num)).

(** The errors of [Atoi] are dropped: its value is used as it is. *)
Definition getAccessorRoles (c : request) : M store reply :=
  let accessorID := Query c "accessor_id" in
  _ ← lift (fail_if (bool_decide (accessorID = "")) (NewError PublicBadRequest "param accessor_id is required"));
  accessorType ← lift (known (accessorRoleStrToIntMap (Query c "accessor_type")) "param accessor_type is illegal");
  let offset := (Atoi (DefaultQuery c "offset" "0")).1 in
  _ ← lift (fail_if (offset <? 0)%Z (NewError PublicBadRequest "invalid offset(>=0)"));
  let limit := (Atoi (DefaultQuery c "limit" "20")).1 in
  _ ← lift (fail_if (negb (limit =? -1) && ((limit <? 1) || (1000 <? limit)))%Z
              (NewError PublicBadRequest "invalid limit([ 1 .. 1000 ] or -1)"));
  sources ← lift (readSources c);
  '(num, roleInfos) ← reads (λ s, role_GetAccessorRoles roleSortOrder s
    {| ars_AccessorID := accessorID; ars_AccessorType := accessorType; ars_Offset := offset; ars_Limit := limit;
       ars_RoleSources := sources |});
  mret (ReplyOK 200 (ListBody (map shortRoleEntry roleInfos) num)).
End handlers.
