(* ===== verification/RestRoleSpec.v ===== *)
(** * The role endpoints: who may change what, and what a page is

    Over HTTP the store changes only for the bearer of an active token of an
    administrator; the list parameters that are let through give pages inside
    the slice. *)
From S2P Require Import Prelude Strconv Json Interfaces Common Store RoleDB Event Role RoleScope RoleSpec Mq RoleAdmin RoleQuery Paging Rest SchemaLang Schema RestCalc RestCalcSpec RestRole.

(** ** Numbers in a query *)
Lemma parse_uint_bounds s n m : (0 ≤ n < 2 ^ 64)%Z → parse_uint n s = PValue m → (0 ≤ m < 2 ^ 64)%Z.
Proof.
  revert n. induction s as [|c s IH]; intros n Hn; simpl; [by intros [= <-]|].
  unfold digit_value. destruct (_ && _) eqn:E; [|done]. apply andb_true_iff in E as [E1%Z.leb_le E2%Z.leb_le].
  destruct (Z.ltb_spec (2 ^ 64 - 1) (n * 10 + (Z.of_nat (Ascii.nat_of_ascii c) - 48))%Z); [done|]. apply IH. lia.
Qed.

(** The value of [Atoi] is a 64-bit integer, with or without an error. *)
Lemma Atoi_bounds s : (- 2 ^ 63 ≤ (Atoi s).1 < 2 ^ 63)%Z.
Proof.
  unfold Atoi. match goal with |- context [let '(_, _) := ?x in _] => destruct x as [neg digits] end.
  assert (∀ n, parse_digits digits = PValue n → (0 ≤ n < 2 ^ 64)%Z) as Hp.
  { intros n. unfold parse_digits. destruct digits; [done|]. by apply parse_uint_bounds. }
  destruct (parse_digits digits) as [n| |]; [specialize (Hp n eq_refl)| |]; simpl.
  - destruct (Z.leb_spec (2 ^ 63) n), (Z.ltb_spec (2 ^ 63) n), neg; simpl; lia.
  - lia.
  - destruct neg; simpl; lia.
Qed.

Lemma getListQueryParam_Ok c q :
  getListQueryParam c = Ok q →
  Atoi (DefaultQuery c "offset" "0") = (lq_offset q, true) ∧ Atoi (DefaultQuery c "limit" "20") = (lq_limit q, true) ∧
  (0 ≤ lq_offset q < 2 ^ 63)%Z ∧ (1 ≤ lq_limit q ≤ 1000)%Z.
Proof.
  unfold getListQueryParam. pose proof (Atoi_bounds (DefaultQuery c "offset" "0")) as Hb.
  destruct (Atoi (DefaultQuery c "offset" "0")) as [o [|]]; [|done]. simpl in *.
  destruct (Z.ltb_spec o 0); [done|]. simpl. destruct (Atoi (DefaultQuery c "limit" "20")) as [l [|]]; [|done]. simpl.
  destruct (Z.ltb_spec l 1); [done|]. simpl. destruct (Z.ltb_spec 1000 l); [done|]. intros [= <-]. simpl. split_and!; auto; lia.
Qed.

(** ** Administration needs an administrator *)
Section security.
Context `{GoRuntime} `{DrivenUserMgnt} `{LogicsResourceType} `{LogicsResourceTypeHierarchy} `{SqlEnv} `{SqlLike}.
Context `{HydraAdmin} `{JsonSchema} (e : event) (order : gmap string Z).

(** The routes. *)
Inductive role_route : Set :=
| POST_roles | DELETE_role | PUT_role | GET_roles | GET_role | GET_resource_type_roles
| GET_role_members | POST_role_members | GET_accessor_roles.
Definition role_handler (route : role_route) : request → M store reply :=
  match route with
  | POST_roles => createRole
  | DELETE_role => deleteRole e
  | PUT_role => modifyRole e
  | GET_roles => getRole
  | GET_role => getRoleByID
  | GET_resource_type_roles => getRoleByResourceTypeID
  | GET_role_members => getRoleMembers
  | POST_role_members => addOrDeleteRoleMembers
  | GET_accessor_roles => getAccessorRoles order
  end.

(** A computation that leaves the store alone unless [P] holds. *)
Definition changes_only_if {A} (P : Prop) (m : M store A) : Prop := ∀ s, (m s).2 = s ∨ P.

Lemma only_if_ret {A} P (a : A) : changes_only_if P (mret a).
Proof. by left. Qed.
Lemma only_if_lift {A} P (o : outcome A) : changes_only_if P (lift o).
Proof. by left. Qed.
Lemma only_if_reads {A} P (f : store → outcome A) : changes_only_if P (reads f).
Proof. by left. Qed.
Lemma only_if_true {A} P (m : M store A) : P → changes_only_if P m.
Proof. by right. Qed.
Lemma only_if_bind {A B} P (m : M store A) (k : A → M store B) :
  changes_only_if P m → (∀ a, changes_only_if P (k a)) → changes_only_if P (x ← m; k x).
Proof.
  intros Hm Hk s. unfold mbind, M_bind. destruct (Hm s) as [E|]; [|by right]. destruct (m s) as [[a|er|w] s1]; simpl in *; subst.
  - apply Hk.
  - by left.
  - by left.
Qed.
(** A guard that fails the call is as good as knowing that it passed. *)
Lemma only_if_guard {A B} P (o : outcome A) (k : A → M store B) :
  (∀ a, o = Ok a → changes_only_if P (k a)) → changes_only_if P (x ← lift o; k x).
Proof. intros Hk s. unfold mbind, M_bind, lift. destruct o as [a| |]; [by apply Hk|by left|by left]. Qed.

#[local] Hint Resolve only_if_ret only_if_lift only_if_reads : isf.

Lemma verify_Ok c visitor :
  verify c = Ok visitor → ∃ info, Introspect (bearer c) = Ok info ∧ tok_Active info = true ∧
    vis_ID visitor = tok_VisitorID info ∧ vis_Type visitor = tok_VisitorTyp info.
Proof.
  unfold verify. fold (bearer c). destruct (Introspect (bearer c)) as [info| |]; simpl; [|done..].
  destruct (tok_Active info) eqn:E; [|done]. intros [= <-]. by exists info.
Qed.

(** The administrator whose active token the request carries. *)
Definition from_admin (c : request) : Prop :=
  ∃ info visitor, Introspect (bearer c) = Ok info ∧ tok_Active info = true ∧ vis_ID visitor = tok_VisitorID info ∧
    vis_Type visitor = tok_VisitorTyp info ∧ is_admin visitor.

(** The guard every writing operation of the service begins with. *)
Lemma service_guard {A} c visitor (k : unit → M store A) :
  verify c = Ok visitor → changes_only_if (from_admin c) (x ← lift (role_checkVisitorType visitor); k x).
Proof.
  intros (info & Hi & Ha & Hid & Ht)%verify_Ok. apply only_if_guard. intros [] Hg%role_checkVisitorType_Ok.
  apply only_if_true. by exists info, visitor.
Qed.

Lemma role_handlers_guarded route c : changes_only_if (from_admin c) (role_handler route c).
Proof.
  destruct route; simpl.
  9: { repeat (apply only_if_bind; [auto with isf|intros ?]). repeat case_match; auto with isf. }
  all: apply only_if_guard; intros visitor Hv.
  - do 4 (apply only_if_bind; [auto with isf|intros ?]). apply only_if_bind; [by apply service_guard|auto with isf].
  - apply only_if_bind; [by apply service_guard|auto with isf].
  - do 4 (apply only_if_bind; [auto with isf|intros ?]). apply only_if_bind; [by apply service_guard|auto with isf].
  - repeat (apply only_if_bind; [auto with isf|intros ?]). repeat case_match; auto with isf.
  - repeat (apply only_if_bind; [auto with isf|intros ?]). auto with isf.
  - repeat (apply only_if_bind; [auto with isf|intros ?]). repeat case_match; auto with isf.
  - repeat (apply only_if_bind; [auto with isf|intros ?]). repeat case_match; auto with isf.
  - do 5 (apply only_if_bind; [auto with isf|intros ?]). apply only_if_bind; [|auto with isf].
    unfold AddOrDeleteRoleMemebers. repeat case_bool_decide; [by apply service_guard..|auto with isf].
Qed.
End security.

(** ** Listing *)
Section listing.
Context `{GoRuntime} `{DrivenUserMgnt} `{LogicsResourceType} `{SqlEnv} `{SqlLike} `{HydraAdmin}.

(** The roles that may be granted a resource type. *)
Definition covers (ty : string) (role : RoleInfo) : Prop :=
  rtsi_Unlimited (role_Scope role) = true ∨ ty ∈ rts_ResourceTypeID <$> rtsi_types (role_Scope role).
#[global] Instance covers_dec ty role : Decision (covers ty role).
Proof. unfold covers. apply _. Defined.

Lemma later_modified_strict_weak : strict_weak later_modified.
Proof.
  unfold later_modified. split.
  - intros a. apply Z.ltb_irrefl.
  - intros a b c. rewrite !Z.ltb_lt. lia.
  - intros a b c. rewrite !Z.ltb_ge. lia.
Qed.

Lemma int64_wrap_signed z : (- 2 ^ 63 ≤ z < 2 ^ 63)%Z → int64_wrap z = z.
Proof. intros Hz. unfold int64_wrap. rewrite Z.mod_small; lia. Qed.

Lemma GetResourceTypeRoles_page s info types roles :
  GetByIDsInternal [rtr_ResourceTypeID info] = Ok types → is_Some (types !! rtr_ResourceTypeID info) →
  roleDB_GetAllUserRolesInternal s (TrimSpace (rtr_Keyword info)) = Ok roles → (Z.of_nat (length roles) + 1000 < 2 ^ 63)%Z →
  (0 ≤ rtr_Offset info)%Z → (1 ≤ rtr_Limit info ≤ 1000)%Z →
  ∃ all, all ≡ₚ filter (covers (rtr_ResourceTypeID info)) roles ∧
    StronglySorted (λ a b, later_modified b a = false) all ∧
    role_GetResourceTypeRoles s info =
      Ok (Z.of_nat (length all), take (Z.to_nat (rtr_Limit info)) (drop (Z.to_nat (rtr_Offset info)) all)).
Proof.
  intros Ht [t Hty] Hr Hlen Ho Hl. unfold role_GetResourceTypeRoles. rewrite Ht. simpl. rewrite Hty, Hr. simpl.
  fold (covers (rtr_ResourceTypeID info)). set (found := filter _ roles).
  assert (length found ≤ length roles)%nat as Hf by apply length_filter.
  destruct found as [|r0 found0] eqn:E; simpl.
  { exists []. split_and!; [done|constructor|]. by rewrite drop_nil, take_nil. }
  exists (sort_slice later_modified (r0 :: found0)). split_and!;
    [by rewrite sort_slice_perm|by apply sort_slice_sorted, later_modified_strict_weak|].
  assert (length (sort_slice later_modified (r0 :: found0)) = length (r0 :: found0)) as Hs by (by rewrite sort_slice_perm).
  set (all := sort_slice _ _) in *. rewrite <-Hs in Hf. destruct (Z.leb_spec (Z.of_nat (length all)) (rtr_Offset info)) as [Hge|Hlt].
  { by rewrite drop_ge, take_nil by lia. }
  rewrite int64_wrap_signed by lia. destruct (Z.ltb_spec (Z.of_nat (length all)) (rtr_Offset info + rtr_Limit info)) as [Hc|Hc];
    rewrite go_slice_Ok by lia; simpl; do 2 f_equal.
  - rewrite !take_ge by (rewrite length_drop; lia). done.
  - f_equal. lia.
Qed.

(** Listing the roles of a resource type: with a valid token and list
    parameters that pass, the endpoint answers with status 200, the number of
    matching user roles whose scope is unlimited or names the type, and the
    page [offset, limit] of them, the latest modified first; the limit is
    between 1 and 1000, and no offset makes the slice expression panic. *)
Theorem resource_type_roles_page c visitor q s types roles :
  verify c = Ok visitor → getListQueryParam c = Ok q →
  DefaultQuery c "resource_type_id" "" ≠ "" →
  GetByIDsInternal [DefaultQuery c "resource_type_id" ""] = Ok types →
  is_Some (types !! DefaultQuery c "resource_type_id" "") →
  roleDB_GetAllUserRolesInternal s (TrimSpace (DefaultQuery c "keyword" "")) = Ok roles →
  (Z.of_nat (length roles) + 1000 < 2 ^ 63)%Z →
  ∃ all, all ≡ₚ filter (covers (DefaultQuery c "resource_type_id" "")) roles ∧
    StronglySorted (λ a b, later_modified b a = false) all ∧
    getRoleByResourceTypeID c s =
      (Ok (ReplyOK 200 (ListBody (map shortRoleEntry (take (Z.to_nat (lq_limit q)) (drop (Z.to_nat (lq_offset q)) all)))
             (Z.of_nat (length all)))), s) ∧
    (0 ≤ lq_offset q)%Z ∧ (1 ≤ lq_limit q ≤ 1000)%Z.
Proof.
  intros Hv Hq Hne Ht Hty Hr Hlen. destruct (getListQueryParam_Ok c q Hq) as (_ & _ & Ho & Hl).
  destruct (GetResourceTypeRoles_page s {| rtr_Offset := lq_offset q; rtr_Limit := lq_limit q;
    rtr_Keyword := DefaultQuery c "keyword" ""; rtr_ResourceTypeID := DefaultQuery c "resource_type_id" "" |} types roles)
    as (all & Hp & Hs & E); [done..|simpl; lia|done|].
  exists all. split_and!; [done|done| |lia..]. unfold getRoleByResourceTypeID. rewrite Hv. cbn.
  unfold mbind, M_bind, lift, reads. rewrite Hq, (bool_decide_eq_false_2 _ Hne). simpl. by rewrite E.
Qed.
End listing.

(** ** Bodies the schema lets through *)
Section bodies.
Context `{GoRuntime} `{DrivenUserMgnt} `{LogicsResourceType} `{LogicsResourceTypeHierarchy} `{SqlEnv} `{SqlLike}.
Context `{HydraAdmin} `{!JsonSchema} `{!SchemaLaw} (e : event).

(** The schema of [modifyRole] does not require the types of a scope; without
    them the handler panics. *)
Lemma modifyRole_without_types c visitor m scope s :
  verify c = Ok visitor → req_param c "fields" = "resource_type_scope" →
  req_body c = Ok (TJson (JObj m)) → accepts modify_role_schema (JObj m) = true →
  m !! "resource_type_scope" = Some (JObj scope) → scope !! "types" = None →
  serve (modifyRole e c) s = (Recovery, s).
Proof.
  intros Hv Hf Hb Ha Hs Ht. unfold serve, modifyRole. rewrite Hv, Hf.
  unfold mbind, M_bind, lift. rewrite (bind_accepted "modify_role" modify_role_schema c m eq_refl Hb Ha).
  change (bool_decide ("name" ∈ _)) with false. change (bool_decide ("description" ∈ _)) with false.
  change (bool_decide ("resource_type_scope" ∈ _)) with true. unfold changed. rewrite Hs. unfold readModifyScope. simpl.
  assert (accepts role_scope_schema (JObj scope) = true) as Hsc.
  { eapply (field_accepts _ _ _ _ Ha "resource_type_scope"); [in_fields|done]. }
  destruct (bool_field_reads _ _ _ _ Hsc "unlimited") as (b & _ & ->); [in_fields..|]. simpl.
  unfold readScopeTypes, jget. by rewrite Ht.
Qed.
End bodies.
