(* ===== verification/RestPolicy.v ===== *)
(** * The policy endpoints ([Authorization/driveradapters/policy_rest_handler.go])

    Creating, changing, deleting and listing policies over HTTP: the public
    routes on behalf of the visitor of the token, the private ones without a
    visitor. *)
From Stdlib Require Import Ascii.
From S2P Require Import Prelude Strconv Json Interfaces Common PolicyCalc Store PolicyDB Policy Mq Rest RestCalc RestRole.

(** ** The tables of the handler *)
Definition accessorStrToType (s : string) : AccessorType :=
  default 0%Z ((list_to_map [("user", AccessorUser); ("department", AccessorDepartment); ("group", AccessorGroup);
    ("app", AccessorApp); ("role", AccessorRole)] : gmap string Z) !! s).
Definition accessorStrKnown (s : string) : option AccessorType :=
  let t := accessorStrToType s in if (t =? 0)%Z then None else Some t.
Definition accessorTypeToStr (t : AccessorType) : string :=
  if bool_decide (t = AccessorUser) then "user"
  else if bool_decide (t = AccessorDepartment) then "department"
  else if bool_decide (t = AccessorGroup) then "group"
  else if bool_decide (t = AccessorApp) then "app"
  else if bool_decide (t = AccessorRole) then "role" else "".
Definition policyIncludeStrToType (s : string) : option PolicyIncludeType :=
  if bool_decide (s = "obligation_types") then Some PolicyIncludeObligationType
  else if bool_decide (s = "obligations") then Some PolicyIncludeObligation else None.

(** ** Reading *)
Definition policyAncestorsStrToInfo (ancestorsJson : json) : outcome (list Ancestor) :=
  ancestors ← assert_slice ancestorsJson;
  omap_all (λ v : json,
    ancestorMap ← assert_map v;
    id ← assert_string (jget ancestorMap "id");
    type ← assert_string (jget ancestorMap "type");
    name ← assert_string (jget ancestorMap "name");
    Ok {| anc_ID := id; anc_Type := type; anc_Name := name |}) ancestors.

(** One obligation: by id or by value, not both. *)
Definition readObligation (v : json) : outcome PolicyObligationItem :=
  obligationMap ← assert_map v;
  id ← optional obligationMap "id" "" assert_string;
  let value := default JNull (obligationMap !! "value") in
  _ ← fail_if (bool_decide (is_Some (obligationMap !! "id")) && bool_decide (is_Some (obligationMap !! "value")))
        (NewError PublicBadRequest "obligation id and value cannot be both set");
  type_id ← assert_string (jget obligationMap "type_id");
  Ok {| obl_TypeID := type_id; obl_ID := id; obl_Value := value |}.
Definition getObligations (obligationsJson : json) : outcome (list PolicyObligationItem) :=
  obligations ← assert_slice obligationsJson;
  omap_all readObligation obligations.

Definition readAllowItem (v : json) : outcome PolicyOperationItem :=
  item ← assert_map v;
  id ← assert_string (jget item "id");
  obligations ← optional item "obligations" [] getObligations;
  Ok {| op_ID := id; op_Name := ""; op_Obligations := obligations |}.
Definition readDenyItem (v : json) : outcome PolicyOperationItem :=
  item ← assert_map v;
  id ← assert_string (jget item "id");
  Ok {| op_ID := id; op_Name := ""; op_Obligations := [] |}.
Definition readOperation (jsonReq : gmap string json) : outcome (list PolicyOperationItem * list PolicyOperationItem) :=
  operationJson ← assert_map (jget jsonReq "operation");
  allowJson ← assert_slice (jget operationJson "allow");
  denyJson ← assert_slice (jget operationJson "deny");
  allow ← omap_all readAllowItem allowJson;
  deny ← omap_all readDenyItem denyJson;
  Ok (allow, deny).

(** The end time in microseconds; [-1] is permanent.  Go's division truncates. *)
Definition readEndTime `{GoTime} (jsonReq : gmap string json) : outcome Z :=
  optional jsonReq "expires_at" (-1)%Z (λ expiresAtJson,
    s ← assert_string expiresAtJson;
    match StringToTimeStamp s with
    | None => Err (NewError PublicBadRequest "param expires_at is invalid")
    | Some timeStamp => Ok (if (timeStamp =? 0)%Z then (-1)%Z else Z.quot timeStamp 1000)
    end).

(** The rules of [create] and [set], which keep an empty list of operations,
    and of [createPrivate], which does not. *)
Definition bothRules (allow deny : list PolicyOperationItem) : PolicyRules :=
  {| rules_Allow := [rule_of allow]; rules_Deny := [rule_of deny] |}.

(** One element of the body of [create] and [createPrivate]. *)
Definition readPolicy `{GoTime} (rulesOf : list PolicyOperationItem → list PolicyOperationItem → PolicyRules)
    (jsonReqJson : json) : outcome PolicyInfo :=
  jsonReq ← assert_map jsonReqJson;
  accessor ← assert_map (jget jsonReq "accessor");
  accessorID ← assert_string (jget accessor "id");
  accessorType ← assert_string (jget accessor "type");
  resource ← assert_map (jget jsonReq "resource");
  resourceID ← assert_string (jget resource "id");
  resourceType ← assert_string (jget resource "type");
  resourceName ← assert_string (jget resource "name");
  ancestors ← optional resource "ancestors" [] policyAncestorsStrToInfo;
  '(allow, deny) ← readOperation jsonReq;
  condition ← optional jsonReq "condition" "" assert_string;
  endTime ← readEndTime jsonReq;
  Ok {| pol_ID := ""; pol_ResourceID := resourceID; pol_ResourceType := resourceType; pol_ResourceName := resourceName;
        pol_Ancestors := ancestors; pol_HasAncestors := bool_decide (is_Some (resource !! "ancestors"));
        pol_AccessorID := accessorID; pol_AccessorType := accessorStrToType accessorType; pol_AccessorName := "";
        pol_ParentDeps := []; pol_Rules := rulesOf allow deny; pol_Condition := condition; pol_EndTime := endTime;
        pol_CreateTime := 0; pol_ModifyTime := 0 |}.

(** The loop of [set]: the [i]-th element changes the [i]-th id of the path. *)
Fixpoint readChanges `{GoTime} (policyIDs : list string) (i : nat) (jsonReqs : list json) : outcome (list PolicyInfo) :=
  match jsonReqs with
  | [] => Ok []
  | jsonReqJson :: jsonReqs =>
      jsonReq ← assert_map jsonReqJson;
      '(allow, deny) ← readOperation jsonReq;
      condition ← optional jsonReq "condition" "" assert_string;
      endTime ← readEndTime jsonReq;
      id ← match policyIDs !! i with Some id => Ok id | None => Panic "index out of range" end;
      policys ← readChanges policyIDs (S i) jsonReqs;
      Ok ({| pol_ID := id; pol_ResourceID := ""; pol_ResourceType := ""; pol_ResourceName := ""; pol_Ancestors := [];
             pol_HasAncestors := false; pol_AccessorID := ""; pol_AccessorType := 0; pol_AccessorName := "";
             pol_ParentDeps := []; pol_Rules := bothRules allow deny; pol_Condition := condition; pol_EndTime := endTime;
             pol_CreateTime := 0; pol_ModifyTime := 0 |} :: policys)
  end.

Definition readDeleted (v : json) : outcome PolicyDeleteResourceInfo :=
  resource ← assert_map v;
  id ← assert_string (jget resource "id");
  type ← assert_string (jget resource "type");
  Ok {| pdr_ID := id; pdr_Type := type |}.

Definition readPolicyInclude (c : request) : outcome (list PolicyIncludeType) :=
  omap_all (λ v, known (policyIncludeStrToType v) "include is invalid") (QueryArray c "include").

(** ** Writing *)
Definition operationItemJson (o : PolicyOperationItem) : json := jobj [("id", JStr (op_ID o)); ("name", JStr (op_Name o))].
Definition operationArrayToJson (operations : list PolicyOperationItem) : list json := map operationItemJson operations.
Definition obligationItemJson (o : PolicyObligationItem) : json :=
  jobj [("type_id", JStr (obl_TypeID o));
        if bool_decide (obl_ID o = "") then ("value", obl_Value o) else ("id", JStr (obl_ID o))].
Definition operationObligationsJson (o : PolicyOperationItem) : json :=
  jobj ([("id", JStr (op_ID o)); ("name", JStr (op_Name o))] ++
    match op_Obligations o with
    | [] => []
    | l => [("obligations", JArr (map obligationItemJson l))]
    end).
Definition operationArrayToJsonWithObligations (operations : list PolicyOperationItem) : list json :=
  map operationObligationsJson operations.

(** The loop without [break] of [get] and [getResourcePolicy]: the last rule
    without a condition. *)
Definition lastUnconditional (rules : list PolicyRuleItem) : list PolicyOperationItem :=
  foldl (λ ops r, if isConditionEmpty (rule_Condition r) then rule_Operations r else ops) [] rules.

Definition expiresAt `{GoTime} (endTime : Z) : string :=
  TimeStampToString (if (endTime =? -1)%Z then 0%Z else int64_wrap (endTime * 1000)).

Definition resourceJson (p : PolicyInfo) : json :=
  jobj [("id", JStr (pol_ResourceID p)); ("type", JStr (pol_ResourceType p)); ("name", JStr (pol_ResourceName p))].
Definition accessorJson (p : PolicyInfo) : json :=
  jobj [("id", JStr (pol_AccessorID p)); ("type", JStr (accessorTypeToStr (pol_AccessorType p)));
        ("name", JStr (pol_AccessorName p));
        ("parent_deps", JArr (map (λ deps, JArr (map departmentEntry deps)) (pol_ParentDeps p)))].

(** One entry of a listing; [None] is [continue]. *)
Definition policyEntry `{GoTime} (pick : list PolicyRuleItem → list PolicyOperationItem)
    (allowJson : list PolicyOperationItem → list json) (who : PolicyInfo → list (string * json)) (p : PolicyInfo)
  : option json :=
  let allowOperations := pick (rules_Allow (pol_Rules p)) in
  let denyOperations := pick (rules_Deny (pol_Rules p)) in
  if bool_decide (allowOperations = []) && bool_decide (denyOperations = []) then None
  else Some (jobj ([("id", JStr (pol_ID p))] ++ who p ++
         [("operation", jobj [("allow", JArr (allowJson allowOperations)); ("deny", JArr (operationArrayToJson denyOperations))]);
          ("condition", JStr (pol_Condition p)); ("expires_at", JStr (expiresAt (pol_EndTime p)))])).

Definition includeEntry (resp : PolicyIncludeResp) (t : PolicyIncludeType) : string * json :=
  match t with
  | PolicyIncludeObligationType => ("obligation_types", JArr (map (λ o,
      jobj [("id", JStr (ot_ID o)); ("name", JStr (ot_Name o)); ("description", JStr (ot_Description o));
            ("schema", ot_Schema o)]) (pir_ObligationTypes resp)))
  | PolicyIncludeObligation => ("obligations", JArr (map (λ o,
      jobj [("id", JStr (ob_ID o)); ("type_id", JStr (ob_TypeID o)); ("name", JStr (ob_Name o));
            ("description", JStr (ob_Description o)); ("value", ob_Value o)]) (pir_Obligations resp)))
  end.
Definition listing (entries : list json) (count : Z) (include : list PolicyIncludeType) (resp : PolicyIncludeResp) : rbody :=
  match include with
  | [] => ListBody entries count
  | _ => ListIncludeBody entries count (jobj (map (includeEntry resp) include))
  end.

(** [strings.Join] *)
Fixpoint join (sep : string) (l : list string) : string :=
  match l with
  | [] => ""
  | [x] => x
  | x :: l => x +:+ sep +:+ join sep l
  end.

Definition createdReply (policyIDs : list string) : reply :=
  {| rep_status := 201;
     rep_location := if bool_decide (policyIDs = []) then "" else "/api/authorization/v1/policy/" +:+ join "," policyIDs;
     rep_body := JsonBody (jobj [("ids", match policyIDs with [] => JNull | _ => strings policyIDs end)]) |}.

(** ** The handlers *)
Section handlers.
Context `{GoRuntime} `{DrivenUserMgnt} `{LogicsRole} `{LogicsResourceType} `{LogicsResourceTypeHierarchy}
  `{LogicsObligation} `{LogicsObligationType} `{SqlEnv} `{GoTime} `{HydraAdmin} `{JsonSchema}.
Context (calc : store → LogicsPolicyCalc).

Definition create (c : request) : M store reply :=
  visitor ← lift (verify c);
  jsonReqs ← lift (validateAndBindSlice c "policy");
  policys ← lift (omap_all (readPolicy bothRules) jsonReqs);
  policyIDs ← policy_Create calc visitor policys;
  mret (createdReply policyIDs).

Definition createPrivate (c : request) : M store reply :=
  jsonReqs ← lift (validateAndBindSlice c "policy");
  policys ← lift (omap_all (readPolicy unconditionalRules) jsonReqs);
  _ ← policy_CreatePrivate policys;
  mret (ReplyOK 204 (JsonBody (jobj []))).

Definition deletePrivate (c : request) : M store reply :=
  jsonReqs ← lift (validateAndBindGin c "policy_delete");
  resourcesJson ← lift (assert_slice (jget jsonReqs "resources"));
  resources ← lift (omap_all readDeleted resourcesJson);
  _ ← policy_DeleteByResourceIDs resources;
  mret (ReplyOK 204 (JsonBody (jobj []))).

Definition set (c : request) : M store reply :=
  visitor ← lift (verify c);
  jsonReqs ← lift (validateAndBindSlice c "modify_policy");
  policys ← lift (readChanges (split_at ","%char (req_param c "ids")) 0 jsonReqs);
  _ ← policy_Update calc visitor policys;
  mret (ReplyOK 204 (JsonBody (jobj []))).

Definition delete (c : request) : M store reply :=
  visitor ← lift (verify c);
  _ ← policy_Delete calc visitor (split_at ","%char (req_param c "ids"));
  mret (ReplyOK 204 (JsonBody (jobj []))).

Definition get (c : request) : M store reply :=
  visitor ← lift (verify c);
  let resourceID := Query c "resource_id" in
  let resourceType := Query c "resource_type" in
  _ ← lift (fail_if (bool_decide (resourceID = "")) (NewError PublicBadRequest "resource_id is required"));
  _ ← lift (fail_if (bool_decide (resourceType = "")) (NewError PublicBadRequest "resource_type is required"));
  info ← lift (getListQueryParam c);
  '(count, policies) ← reads (λ s, policy_GetPagination calc s visitor
    {| pp_ResourceID := resourceID; pp_ResourceType := resourceType; pp_Offset := lq_offset info; pp_Limit := lq_limit info |});
  mret (ReplyOK 200 (ListBody (omap (policyEntry lastUnconditional operationArrayToJson
    (λ p, [("resource", resourceJson p); ("accessor", accessorJson p)])) policies) count)).

(** The errors of [Atoi] are dropped. *)
Definition getAccessorPolicy (c : request) : M store reply :=
  visitor ← lift (verify c);
  accessorType ← lift (known (accessorStrKnown (Query c "accessor_type")) "accessor_type is invalid");
  let offset := (Atoi (DefaultQuery c "offset" "0")).1 in
  _ ← lift (fail_if (offset <? 0)%Z (NewError PublicBadRequest "invalid offset(>=0)"));
  let limit := (Atoi (DefaultQuery c "limit" "20")).1 in
  _ ← lift (fail_if (negb (limit =? -1) && ((limit <? 1) || (1000 <? limit)))%Z
              (NewError PublicBadRequest "invalid limit([ 1 .. 1000 ] or -1)"));
  include ← lift (readPolicyInclude c);
  '(count, policies, includeResp) ← reads (λ s, policy_GetAccessorPolicy s visitor
    {| app_AccessorID := Query c "accessor_id"; app_AccessorType := accessorType; app_Offset := offset; app_Limit := limit;
       app_ResourceType := Query c "resource_type"; app_ResourceID := Query c "resource_id"; app_Include := include |});
  mret (ReplyOK 200 (listing (omap (policyEntry firstUnconditional operationArrayToJsonWithObligations
    (λ p, [("resource", resourceJson p)])) policies) count include includeResp)).

Definition getResourcePolicy (c : request) : M store reply :=
  visitor ← lift (verify c);
  let resourceID := Query c "resource_id" in
  let resourceType := Query c "resource_type" in
  _ ← lift (fail_if (bool_decide (resourceID = "")) (NewError PublicBadRequest "resource_id is required"));
  _ ← lift (fail_if (bool_decide (resourceType = "")) (NewError PublicBadRequest "resource_type is required"));
  info ← lift (getListQueryParam c);
  include ← lift (readPolicyInclude c);
  '(count, policies, includeResp) ← reads (λ s, policy_GetResourcePolicy calc s visitor
    {| rpp_ResourceID := resourceID; rpp_ResourceType := resourceType; rpp_Offset := lq_offset info;
       rpp_Limit := lq_limit info; rpp_Include := include |});
  mret (ReplyOK 200 (listing (omap (policyEntry lastUnconditional operationArrayToJsonWithObligations
    (λ p, [("accessor", accessorJson p)])) policies) count include includeResp)).
End handlers.
