(* ===== verification/RestPolicySpec.v ===== *)
(** * The policy endpoints: round trips and authority

    What a listing returns can be posted again and is read as the same policy;
    the expiry survives to the second; over HTTP policies are written only with
    the authority of the visitor of an active token. *)
From Stdlib Require Import Ascii.
From S2P Require Import Prelude Json Interfaces Common PolicyCalc Store PolicyDB PolicyDBSpec Policy PolicyOps Mq Rest SchemaLang Schema RestCalc RestCalcSpec RestRole RestRoleSpec RestPolicy.

(** ** Expiry *)
Section expiry.
Context `{!GoTime} `{!GoTimeLaw}.

Definition representable (e : Z) : Prop := e = (-1)%Z ∨ (10 ^ 6 ≤ e ≤ 9223372036854775)%Z.
(** The end of the second before. *)
Definition whole_second (e : Z) : Z := if (e =? -1)%Z then (-1)%Z else (e - e mod 10 ^ 6)%Z.

Lemma expiresAt_parses e :
  representable e → StringToTimeStamp (expiresAt e) = Some (if (e =? -1)%Z then 0%Z else (e / 10 ^ 6 * 10 ^ 9)%Z).
Proof.
  unfold StringToTimeStamp, expiresAt, TimeStampToString. intros [->|He].
  - change (Z.quot _ _) with 0%Z. by rewrite rfc3339_read_back by lia.
  - rewrite (proj2 (Z.eqb_neq e (-1))) by lia. rewrite int64_wrap_small by lia.
    replace (Z.quot (e * 1000) (10 ^ 9)) with (e / 10 ^ 6)%Z.
    + apply rfc3339_read_back. split; [apply (Z.le_trans _ 0); [lia|apply Z.div_pos; lia]|].
      apply Z.lt_succ_r, Z.div_lt_upper_bound; lia.
    + rewrite Z.quot_div_nonneg by lia. change (10 ^ 9)%Z with (10 ^ 6 * 1000)%Z. by rewrite Z.div_mul_cancel_r.
Qed.

Lemma read_end_time (m : gmap string json) e :
  representable e → m !! "expires_at" = Some (JStr (expiresAt e)) → readEndTime m = Ok (whole_second e).
Proof.
  intros He E. unfold readEndTime, optional. rewrite E. simpl. rewrite (expiresAt_parses e He). unfold whole_second.
  destruct (Z.eqb_spec e (-1)) as [->|Hne]; [done|]. destruct He as [->|He]; [done|].
  assert (1 ≤ e / 10 ^ 6)%Z as Hd by (apply Z.div_le_lower_bound; lia).
  rewrite (proj2 (Z.eqb_neq (e / 10 ^ 6 * 10 ^ 9) 0)) by lia.
  pose proof (Z.div_mod e (10 ^ 6)) as Hdm.
  rewrite Z.quot_div_nonneg by lia. replace (e / 10 ^ 6 * 10 ^ 9)%Z with (e / 10 ^ 6 * 10 ^ 6 * 1000)%Z by lia.
  rewrite Z.div_mul by done. f_equal. lia.
Qed.

(** The expiry of a policy survives the round trip through the interface
    to the second: the time a listing prints for a stored end time, sent back in
    [expires_at], is read as that end time without its fraction of a second, a
    permanent policy stays permanent, and no expiry is ever extended. *)
Theorem expiry_round_trip (m : gmap string json) e :
  representable e → m !! "expires_at" = Some (JStr (expiresAt e)) →
  readEndTime m = Ok (whole_second e) ∧ (e ≠ -1 → e - 10 ^ 6 < whole_second e ≤ e)%Z ∧
  ((e mod 10 ^ 6 = 0)%Z → whole_second e = e).
Proof.
  intros He E. split; [by apply read_end_time|]. unfold whole_second.
  pose proof (Z.mod_pos_bound e (10 ^ 6)) as Hm. destruct (Z.eqb_spec e (-1)); lia.
Qed.
End expiry.

(** ** Posting what a listing returned *)
Section round_trip.
Context `{!GoTime} `{!GoTimeLaw}.

Definition encodePolicyAncestor (a : Ancestor) : json :=
  jobj [("id", JStr (anc_ID a)); ("type", JStr (anc_Type a)); ("name", JStr (anc_Name a))].
(** A policy as a body has it.  The handler reads its ancestors inside
    [resource], where [policy.json] does not mention them; the place the schema
    documents is beside [resource], and what a client puts there is [beside]. *)
Definition ancestorsBeside (beside : option (list Ancestor)) : list (string * json) :=
  match beside with Some l => [("ancestors", JArr (map encodePolicyAncestor l))] | None => [] end.
Definition encodePolicy (beside : option (list Ancestor)) (p : PolicyInfo) : json :=
  jobj ([("accessor", accessorJson p);
        ("resource", jobj ([("id", JStr (pol_ResourceID p)); ("type", JStr (pol_ResourceType p)); ("name", JStr (pol_ResourceName p))] ++
           if pol_HasAncestors p then [("ancestors", JArr (map encodePolicyAncestor (pol_Ancestors p)))] else []));
        ("operation", jobj
          [("allow", JArr (operationArrayToJsonWithObligations (firstUnconditional (rules_Allow (pol_Rules p)))));
           ("deny", JArr (operationArrayToJson (firstUnconditional (rules_Deny (pol_Rules p)))))]);
        ("condition", JStr (pol_Condition p)); ("expires_at", JStr (expiresAt (pol_EndTime p)))] ++ ancestorsBeside beside).

(** What is read back: an obligation given by id has no value, denied
    operations have no obligations, names are looked up again. *)
Definition obligation_as_read (o : PolicyObligationItem) : PolicyObligationItem :=
  {| obl_TypeID := obl_TypeID o; obl_ID := obl_ID o; obl_Value := if bool_decide (obl_ID o = "") then obl_Value o else JNull |}.
Definition allowed_as_read (o : PolicyOperationItem) : PolicyOperationItem :=
  {| op_ID := op_ID o; op_Name := ""; op_Obligations := map obligation_as_read (op_Obligations o) |}.
Definition denied_as_read (o : PolicyOperationItem) : PolicyOperationItem :=
  {| op_ID := op_ID o; op_Name := ""; op_Obligations := [] |}.
Definition as_read (p : PolicyInfo) : PolicyInfo :=
  {| pol_ID := ""; pol_ResourceID := pol_ResourceID p; pol_ResourceType := pol_ResourceType p;
     pol_ResourceName := pol_ResourceName p; pol_Ancestors := if pol_HasAncestors p then pol_Ancestors p else [];
     pol_HasAncestors := pol_HasAncestors p; pol_AccessorID := pol_AccessorID p; pol_AccessorType := pol_AccessorType p;
     pol_AccessorName := ""; pol_ParentDeps := [];
     pol_Rules := bothRules (map allowed_as_read (firstUnconditional (rules_Allow (pol_Rules p))))
                            (map denied_as_read (firstUnconditional (rules_Deny (pol_Rules p))));
     pol_Condition := pol_Condition p; pol_EndTime := whole_second (pol_EndTime p); pol_CreateTime := 0; pol_ModifyTime := 0 |}.

(** A policy the interface can express. *)
Record postable (p : PolicyInfo) : Prop := {
  post_type : pol_AccessorType p ∈ [AccessorUser; AccessorDepartment; AccessorGroup; AccessorApp; AccessorRole];
  post_end : representable (pol_EndTime p);
  post_values : ∀ o ob, o ∈ firstUnconditional (rules_Allow (pol_Rules p)) → ob ∈ op_Obligations o →
    obl_ID ob = "" → ∃ v, obl_Value ob = JObj v
}.

Lemma accessorType_round_trip t :
  t ∈ [AccessorUser; AccessorDepartment; AccessorGroup; AccessorApp; AccessorRole] →
  accessorStrToType (accessorTypeToStr t) = t ∧
  accessorTypeToStr t ∈ ["user"; "department"; "group"; "role"; "app"].
Proof.
  intros Ht. repeat (apply elem_of_cons in Ht as [->|Ht]; [split; [reflexivity|vm_compute; in_fields]|]). by apply elem_of_nil in Ht.
Qed.

Lemma omap_all_map {A B C} (f : B → outcome C) (g : A → B) (h : A → C) l :
  (∀ x, f (g x) = Ok (h x)) → omap_all f (map g l) = Ok (map h l).
Proof. intros Hf. induction l as [|x l IH]; [done|]. cbn [map omap_all]. by rewrite Hf, IH. Qed.

Lemma read_obligations l : omap_all readObligation (map obligationItemJson l) = Ok (map obligation_as_read l).
Proof.
  apply omap_all_map. intros [ty id v]. unfold obligationItemJson, obligation_as_read. simpl.
  case_bool_decide as E; [subst|]; reflexivity.
Qed.

Lemma read_allowed l : omap_all readAllowItem (operationArrayToJsonWithObligations l) = Ok (map allowed_as_read l).
Proof.
  apply omap_all_map. intros [id n obs]. unfold operationObligationsJson, allowed_as_read. cbn [op_ID op_Name op_Obligations].
  pose proof (read_obligations obs) as Hr. destruct obs as [|ob obs]; [done|].
  revert Hr. generalize (map obligationItemJson (ob :: obs)) as l'. intros l' Hr.
  change (readAllowItem (jobj ([("id", JStr id); ("name", JStr n)] ++ [("obligations", JArr l')])))
    with (obligations ← omap_all readObligation l'; Ok {| op_ID := id; op_Name := ""; op_Obligations := obligations |}).
  by rewrite Hr.
Qed.

Lemma read_denied l : omap_all readDenyItem (operationArrayToJson l) = Ok (map denied_as_read l).
Proof. by apply omap_all_map. Qed.

Lemma read_policy_ancestors l : policyAncestorsStrToInfo (JArr (map encodePolicyAncestor l)) = Ok l.
Proof.
  unfold policyAncestorsStrToInfo. cbn [assert_slice mbind outcome_bind].
  rewrite (omap_all_map _ _ (λ a, a)); [by rewrite map_id|]. by intros [].
Qed.

Lemma readPolicy_fields rulesOf (am rm : gmap string json) jallow jdeny cond exp beside :
  readPolicy rulesOf (jobj ([("accessor", JObj am); ("resource", JObj rm);
    ("operation", jobj [("allow", JArr jallow); ("deny", JArr jdeny)]); ("condition", JStr cond); ("expires_at", JStr exp)] ++ ancestorsBeside beside)) =
  (accessorID ← assert_string (jget am "id");
   accessorType ← assert_string (jget am "type");
   resourceID ← assert_string (jget rm "id");
   resourceType ← assert_string (jget rm "type");
   resourceName ← assert_string (jget rm "name");
   ancestors ← optional rm "ancestors" [] policyAncestorsStrToInfo;
   '(allow, deny) ← (allow ← omap_all readAllowItem jallow; deny ← omap_all readDenyItem jdeny; Ok (allow, deny));
   endTime ← readEndTime {["expires_at" := JStr exp]};
   Ok {| pol_ID := ""; pol_ResourceID := resourceID; pol_ResourceType := resourceType; pol_ResourceName := resourceName;
         pol_Ancestors := ancestors; pol_HasAncestors := bool_decide (is_Some (rm !! "ancestors"));
         pol_AccessorID := accessorID; pol_AccessorType := accessorStrToType accessorType; pol_AccessorName := "";
         pol_ParentDeps := []; pol_Rules := rulesOf allow deny; pol_Condition := cond; pol_EndTime := endTime;
         pol_CreateTime := 0; pol_ModifyTime := 0 |}).
Proof. by destruct beside. Qed.

Lemma read_encoded_policy beside p : postable p → readPolicy bothRules (encodePolicy beside p) = Ok (as_read p).
Proof.
  intros [Hty He _]. unfold encodePolicy, accessorJson, as_read. unfold jobj at 2 3. rewrite readPolicy_fields.
  destruct (accessorType_round_trip _ Hty) as [Hacc _].
  pose proof (read_policy_ancestors (pol_Ancestors p)) as Han.
  assert (readEndTime {["expires_at" := JStr (expiresAt (pol_EndTime p))]} = Ok (whole_second (pol_EndTime p))) as Hend.
  { by apply read_end_time. }
  rewrite read_allowed, read_denied, Hend. revert Han.
  generalize (JArr (map encodePolicyAncestor (pol_Ancestors p))). generalize (JArr (map (λ deps, JArr (map departmentEntry deps)) (pol_ParentDeps p))).
  intros jd ja Han. revert Hacc. generalize (accessorTypeToStr (pol_AccessorType p)). intros ts Hacc. rewrite <-Hacc.
  destruct (pol_HasAncestors p); [|reflexivity].
  change (optional _ "ancestors" [] policyAncestorsStrToInfo) with (policyAncestorsStrToInfo ja). rewrite Han. reflexivity.
Qed.

(** ** The encoding conforms *)
Lemma obligation_conforms o : (obl_ID o = "" → ∃ v, obl_Value o = JObj v) → accepts obligation_schema (obligationItemJson o) = true.
Proof.
  destruct o as [ty id v]. unfold obligationItemJson. cbn [obl_ID obl_TypeID obl_Value]. intros Hv.
  destruct (decide (id = "")) as [E|E].
  - rewrite (bool_decide_eq_true_2 _ E). destruct (Hv E) as [m ->]. clear. conforms.
  - rewrite (bool_decide_eq_false_2 _ E). clear. conforms.
Qed.

Lemma operation_conforms o :
  (∀ ob, ob ∈ op_Obligations o → obl_ID ob = "" → ∃ v, obl_Value ob = JObj v) →
  accepts (obj [] [("id", str); ("obligations", arr obligation_schema)]) (operationObligationsJson o) = true.
Proof.
  destruct o as [id n obs]. unfold operationObligationsJson. cbn [op_ID op_Name op_Obligations]. intros Ho.
  assert (accepts (arr obligation_schema) (JArr (map obligationItemJson obs)) = true) as Hc.
  { apply accepts_arr. intros x (ob & -> & Hob)%list_elem_of_fmap. apply obligation_conforms. by apply Ho. }
  destruct obs as [|ob obs]; [clear; conforms|]. revert Hc. generalize (JArr (map obligationItemJson (ob :: obs))). clear.
  intros j Hj. conforms.
Qed.

Lemma operations_conform p :
  postable p → accepts policy_operation_schema (jobj
    [("allow", JArr (operationArrayToJsonWithObligations (firstUnconditional (rules_Allow (pol_Rules p)))));
     ("deny", JArr (operationArrayToJson (firstUnconditional (rules_Deny (pol_Rules p)))))]) = true.
Proof.
  intros [_ _ Hv]. assert (accepts allow_schema
    (JArr (operationArrayToJsonWithObligations (firstUnconditional (rules_Allow (pol_Rules p))))) = true) as Hal.
  { apply accepts_arr. intros x (o & -> & Ho)%list_elem_of_fmap. apply operation_conforms. intros ob Hob. by apply (Hv o). }
  assert (accepts deny_schema (JArr (operationArrayToJson (firstUnconditional (rules_Deny (pol_Rules p))))) = true) as Hde.
  { apply accepts_arr. intros x (o & -> & Ho)%list_elem_of_fmap. destruct o as [id n obs]. unfold operationItemJson.
    cbn [op_ID op_Name]. clear. conforms. }
  revert Hal Hde. generalize (JArr (operationArrayToJsonWithObligations (firstUnconditional (rules_Allow (pol_Rules p))))).
  generalize (JArr (operationArrayToJson (firstUnconditional (rules_Deny (pol_Rules p))))). clear. intros jd ja Ha Hd. conforms.
Qed.

Lemma accessorJson_conforms p :
  postable p → accepts policy_accessor_schema (accessorJson p) = true.
Proof.
  intros [Hty _ _]. destruct (accessorType_round_trip _ Hty) as [_ Hacc]. unfold accessorJson. revert Hacc.
  generalize (accessorTypeToStr (pol_AccessorType p)), (pol_AccessorID p), (pol_AccessorName p),
    (JArr (map (λ deps, JArr (map departmentEntry deps)) (pol_ParentDeps p))). clear. intros ts id n jd Hts. conforms.
  by apply bool_decide_eq_true.
Qed.

Lemma policy_item_conforms ja jr jo cond exp beside :
  accepts policy_accessor_schema ja = true → accepts policy_resource_schema jr = true →
  accepts policy_operation_schema jo = true →
  accepts policy_item_schema (jobj ([("accessor", ja); ("resource", jr); ("operation", jo); ("condition", JStr cond);
    ("expires_at", JStr exp)] ++ ancestorsBeside beside)) = true.
Proof.
  intros. destruct beside as [l|]; [|conforms].
  assert (accepts (arr (obj ["id"; "type"; "name"] [("id", str); ("type", str); ("name", str)])) (JArr (map encodePolicyAncestor l)) = true) as Hl.
  { apply accepts_arr. intros x ([id ty n] & -> & _)%list_elem_of_fmap. unfold encodePolicyAncestor. cbn [anc_ID anc_Type anc_Name]. clear. conforms. }
  unfold ancestorsBeside. revert Hl. generalize (JArr (map encodePolicyAncestor l)). intros jl Hl. conforms.
Qed.

Lemma encodePolicy_conforms beside p : postable p → accepts policy_item_schema (encodePolicy beside p) = true.
Proof.
  intros Hp. apply policy_item_conforms; [by apply accessorJson_conforms| |by apply operations_conform].
  generalize (pol_ResourceID p), (pol_ResourceType p), (pol_ResourceName p), (JArr (map encodePolicyAncestor (pol_Ancestors p))).
  intros. destruct (pol_HasAncestors p); conforms.
Qed.
End round_trip.

(** ** The endpoints *)
Section endpoints.
Context `{GoRuntime} `{DrivenUserMgnt} `{LogicsRole} `{LogicsResourceType} `{LogicsResourceTypeHierarchy}
  `{SqlEnv} `{!GoTime} `{HydraAdmin} `{!JsonSchema} (calc : store → LogicsPolicyCalc).

Lemma bind_slice_accepted `{!SchemaLaw} name sch c l :
  schemas !! name = Some sch → req_body c = Ok (TJson (JArr l)) → accepts sch (JArr l) = true →
  validateAndBindSlice c name = Ok l.
Proof.
  intros Hs Hb Ha. unfold validateAndBindSlice. rewrite Hb. simpl.
  assert (Validate name (TJson (JArr l)) = None) as -> by (apply (schema_valid _ _ _ Hs); eauto). done.
Qed.

(** C30. What a listing returned can be posted again: for every batch of
    policies the interface can express, the body is accepted by the schema, and
    [POST /policy] runs [Create] on exactly these policies (accessor, resource,
    ancestors inside the resource, operations with their obligations,
    condition, expiry to the second), answering 201 with the ids.  Ancestors in
    the place the schema documents, beside the resource, are accepted and have
    no effect. *)
Theorem post_reads_back `{!GoTimeLaw} `{!SchemaLaw} c visitor (ps : list (option (list Ancestor) * PolicyInfo)) s :
  verify c = Ok visitor → Forall postable ps.*2 → req_body c = Ok (TJson (JArr (map (λ x, encodePolicy x.1 x.2) ps))) →
  create calc c s = (ids ← policy_Create calc visitor (map as_read ps.*2); mret (createdReply ids)) s.
Proof.
  intros Hv Hps Hb. assert (validateAndBindSlice c "policy" = Ok (map (λ x, encodePolicy x.1 x.2) ps)) as Hbind.
  { apply (bind_slice_accepted "policy" policy_schema); [done|done|]. apply accepts_arr.
    intros x (p & -> & Hp)%list_elem_of_fmap. apply encodePolicy_conforms. eapply Forall_forall in Hps; [done|]. by apply list_elem_of_fmap_2. }
  assert (omap_all (readPolicy bothRules) (map (λ x, encodePolicy x.1 x.2) ps) = Ok (map as_read ps.*2)) as Hread.
  { clear Hb Hbind. induction ps as [|[beside p] ps IH]; [done|]. inversion_clear Hps as [|? ? Hp Hps']. cbn [map omap_all fst snd].
    by rewrite (read_encoded_policy beside p Hp), IH. }
  unfold create, mbind, M_bind, lift. by rewrite Hv, Hbind, Hread.
Qed.

(** The ids [set] changes: as many as there are elements in the body. *)
Lemma readChanges_ids ids jsonReqs i ps :
  readChanges ids i jsonReqs = Ok ps → pol_ID <$> ps = take (length jsonReqs) (drop i ids) ∧ length ps = length jsonReqs ∧
    i + length ps ≤ length ids `max` i.
Proof.
  revert i ps. induction jsonReqs as [|j l IH]; intros i ps; simpl; [intros [= <-]; simpl; split_and!; [done|done|lia]|].
  intros Hr. apply bind_Ok in Hr as (m & _ & Hr). apply bind_Ok in Hr as ([allow deny] & _ & Hr).
  apply bind_Ok in Hr as (cond & _ & Hr). apply bind_Ok in Hr as (e & _ & Hr). apply bind_Ok in Hr as (id & Hid & Hr).
  apply bind_Ok in Hr as (ps' & Hps & Hr). injection Hr as <-. destruct (ids !! i) as [x|] eqn:E; [|done]. injection Hid as ->.
  apply IH in Hps as (Hps & Hl & Hlen). apply lookup_lt_Some in E as Hlt. rewrite (drop_S _ _ _ E). csimpl. rewrite Hps. split_and!; [done|lia..].
Qed.

Lemma bound_slice `{!SchemaLaw} name n u items c l :
  schemas !! name = Some (SArray n u items) → validateAndBindSlice c name = Ok l → req_body c = Ok (TJson (JArr l)).
Proof.
  intros Hs. unfold validateAndBindSlice. destruct (req_body c) as [body| |]; simpl; [|done..].
  destruct (Validate name body) eqn:E; [done|]. apply (schema_valid _ _ _ Hs) in E as (j & -> & Ha).
  apply accepts_array in Ha as (l' & -> & _). by intros [= ->].
Qed.

(** The visitor of the active token of a request. *)
Definition sent_by (c : request) (visitor : Visitor) : Prop :=
  ∃ info, Introspect (bearer c) = Ok info ∧ tok_Active info = true ∧ vis_ID visitor = tok_VisitorID info ∧
    vis_Type visitor = tok_VisitorTyp info.

(** C18. Over HTTP policies are written only with authority: when a public
    endpoint answers with success, the request carries an active token, and its
    visitor is an administrator or may authorize every resource concerned: those
    in the body of [POST], and those of the stored policies whose ids [PUT]
    changes or [DELETE] names. *)
Theorem policy_writes_over_http `{!SchemaLaw} c s rep s' :
  NoDup (p_id <$> t_policy s) →
  (create calc c s = (Ok rep, s') → ∃ visitor l ps, sent_by c visitor ∧ req_body c = Ok (TJson (JArr l)) ∧
     omap_all (readPolicy bothRules) l = Ok ps ∧
     ∀ p, p ∈ ps → may_authorize calc s visitor (pol_ResourceType p) (pol_ResourceID p)) ∧
  (set calc c s = (Ok rep, s') → ∃ visitor l, sent_by c visitor ∧ req_body c = Ok (TJson (JArr l)) ∧
     ∀ row, row ∈ t_policy s → p_id row ∈ take (length l) (split_at ","%char (req_param c "ids")) →
       may_authorize calc s visitor (p_resource_type row) (p_resource_id row)) ∧
  (delete calc c s = (Ok rep, s') → ∃ visitor, sent_by c visitor ∧
     ∀ row, row ∈ t_policy s → p_id row ∈ split_at ","%char (req_param c "ids") →
       may_authorize calc s visitor (p_resource_type row) (p_resource_id row)).
Proof.
  intros Hnd. split_and!; intros Hc.
  - mstep Hc as visitor Hv. mstep Hc as l Hl. mstep Hc as ps Hps. mstep Hc as pids Hcreate.
    exists visitor, l, ps. split_and!; [by apply verify_Ok|by apply (bound_slice "policy" 0 false policy_item_schema)|done|]. intros p Hp. by eapply Create_authorized.
  - mstep Hc as visitor Hv. mstep Hc as l Hl. mstep Hc as ps Hps. mstep Hc as [] Hupdate.
    exists visitor, l. split_and!; [by apply verify_Ok|by eapply (bound_slice "modify_policy" 0 false); [reflexivity|]|]. apply readChanges_ids in Hps as [Hids _].
    intros row Hrow Hid. eapply Update_authorized; [done..|]. by rewrite Hids, drop_0.
  - mstep Hc as visitor Hv. mstep Hc as [] Hdelete. exists visitor. split; [by apply verify_Ok|].
    intros row Hrow Hid. by eapply Delete_authorized.
Qed.

(** A [PUT] with more elements than ids panics. *)
Lemma set_with_too_few_ids `{!SchemaLaw} c l s :
  req_body c = Ok (TJson (JArr l)) → length (split_at ","%char (req_param c "ids")) < length l →
  ∀ rep s', set calc c s ≠ (Ok rep, s').
Proof.
  intros Hb Hlt rep s' Hc. mstep Hc as visitor Hv. mstep Hc as l' Hl. mstep Hc as ps Hps.
  eapply (bound_slice "modify_policy" 0 false) in Hl; [|reflexivity]. rewrite Hb in Hl. injection Hl as <-.
  apply readChanges_ids in Hps as (_ & Hl & Hlen). lia.
Qed.
End endpoints.
