(* ===== verification/RestTypes.v ===== *)
(** * The endpoints of resource types, obligations and obligation types
      ([Authorization/driveradapters/resource_type_rest_handler.go],
       [resource_type_hierarchy_rest_handler.go], [obligation_rest_handler.go],
       [obligation_type_rest_handler.go]) *)
From Stdlib Require Import Ascii.
From S2P Require Import Prelude Json Interfaces Common Store Policy Mq ResourceTypeDB ResourceType ObligationDB Obligation Rest RestCalc RestRole.

(** ** Reading *)
Definition readOperationName (name : json) : outcome OperationName :=
  nameDr ← assert_map name;
  language ← assert_string (jget nameDr "language");
  value ← assert_string (jget nameDr "value");
  Ok {| opn_Language := language; opn_Value := value |}.
Definition readTypeOperation (operationJson : json) : outcome ResourceTypeOperation :=
  operationDr ← assert_map operationJson;
  id ← assert_string (jget operationDr "id");
  description ← optional operationDr "description" "" assert_string;
  operationNameJson ← assert_slice (jget operationDr "name");
  names ← omap_all readOperationName operationNameJson;
  operationScopeJson ← assert_slice (jget operationDr "scope");
  scope ← omap_all assert_string operationScopeJson;
  Ok {| rto_ID := id; rto_Name := names; rto_Description := description; rto_Scope := scope |}.

(** The body of [set] and, with [hidden], of [setPrivate]. *)
Definition readResourceType (private : bool) (resourceTypeID : string) (resourceDr : gmap string json) : outcome ResourceType :=
  description ← optional resourceDr "description" "" assert_string;
  instanceURL ← optional resourceDr "instance_url" "" assert_string;
  hidden ← (if private then optional resourceDr "hidden" false assert_bool else Ok false);
  name ← assert_string (jget resourceDr "name");
  dataStruct ← assert_string (jget resourceDr "data_struct");
  operationsJson ← assert_slice (jget resourceDr "operation");
  operations ← omap_all readTypeOperation operationsJson;
  Ok {| rt_ID := resourceTypeID; rt_Name := name; rt_Description := description; rt_InstanceURL := instanceURL;
        rt_DataStruct := dataStruct; rt_Operation := operations; rt_Hidden := hidden; rt_CreateTime := 0; rt_ModifyTime := 0 |}.

(** [parseHierarchy] of a value, and the loop over a value that should be an
    array: the recursion runs through the object as the reader of the database
    layer does. *)
Definition not_an_object : gerror := NewError PublicBadRequest "invalid hierarchy format: expected object".
Definition no_type_id : gerror := NewError PublicBadRequest "invalid resource_type_id: expected string".
Definition not_an_array : gerror := NewError PublicBadRequest "invalid children: expected array".
Fixpoint parseValue (jsonReq : json) : outcome ResourceTypeHierarchy * outcome (list ResourceTypeHierarchy) :=
  match jsonReq with
  | JObj jsonReqMap =>
      (match jsonReqMap !! "resource_type_id" with
       | Some (JStr resourceTypeID) =>
           children ← from_option snd (Err not_an_array) ((parseValue <$> jsonReqMap) !! "children");
           Ok (MkHierarchy resourceTypeID children)
       | _ => Err no_type_id
       end, Err not_an_array)
  | JArr l =>
      (Err not_an_object, omap_all (λ x, (parseValue x).1) l)
  | _ => (Err not_an_object, Err not_an_array)
  end.
Definition parseHierarchy (jsonReq : json) : outcome ResourceTypeHierarchy := (parseValue jsonReq).1.

Lemma parseHierarchy_equation jsonReq :
  parseHierarchy jsonReq =
  match jsonReq with
  | JObj jsonReqMap =>
      match jsonReqMap !! "resource_type_id" with
      | Some (JStr resourceTypeID) =>
          match jsonReqMap !! "children" with
          | Some (JArr childrenJson) =>
              children ← omap_all parseHierarchy childrenJson; Ok (MkHierarchy resourceTypeID children)
          | _ => Err not_an_array
          end
      | _ => Err no_type_id
      end
  | _ => Err not_an_object
  end.
Proof.
  destruct jsonReq as [| | | | |m]; try done. unfold parseHierarchy at 1. simpl. rewrite lookup_fmap.
  destruct (m !! "resource_type_id") as [[]|]; try done. by destruct (m !! "children") as [[]|].
Qed.

Definition readObligationOperation (operationJson : json) : outcome ObligationOperation :=
  operationJsonMap ← assert_map operationJson;
  id ← assert_string (jget operationJsonMap "id");
  Ok {| oop_ID := id; oop_Name := "" |}.
Definition required_list {A} (m : gmap string json) (k : string) (read : json → outcome A) : outcome (list A) :=
  match m !! k with
  | None => Err (NewError PublicBadRequest (k +:+ " is required"))
  | Some v => l ← assert_slice v; omap_all read l
  end.
Definition readScopeOf (resourceTypeJson : json) : outcome ObligationResourceTypeScope :=
  resourceTypeJsonMap ← assert_map resourceTypeJson;
  id ← assert_string (jget resourceTypeJsonMap "id");
  operationsScopeJson ← assert_map (jget resourceTypeJsonMap "applicable_operations");
  unlimited ← assert_bool (jget operationsScopeJson "unlimited");
  operations ← (if (unlimited : bool) then Ok [] else required_list operationsScopeJson "operations" readObligationOperation);
  Ok {| ors_ResourceTypeID := id; ors_ResourceTypeName := "";
        ors_OperationsScope := {| oos_Unlimited := unlimited; oos_Operations := operations |} |}.
Definition readObligationType (id : string) (obligationTypeDr : gmap string json) : outcome ObligationTypeInfo :=
  name ← assert_string (jget obligationTypeDr "name");
  description ← optional obligationTypeDr "description" "" assert_string;
  resourceTypeScopesJson ← assert_map (jget obligationTypeDr "applicable_resource_types");
  unlimited ← assert_bool (jget resourceTypeScopesJson "unlimited");
  types ← (if (unlimited : bool) then Ok [] else required_list resourceTypeScopesJson "resource_types" readScopeOf);
  Ok {| ot_ID := id; ot_Name := name; ot_Description := description;
        ot_ResourceTypeScope := {| orsi_Unlimited := unlimited; orsi_Types := types |};
        ot_Schema := jget obligationTypeDr "schema"; ot_DefaultValue := jget obligationTypeDr "default_value";
        ot_UiSchema := jget obligationTypeDr "ui_schema"; ot_CreatedTime := 0; ot_ModifyTime := 0 |}.

(** ** Writing *)
Definition operationsJsonOf (operations : list ResourceTypeOperation) : json :=
  match marshalOperations operations with TJson j => j | TRaw _ => JNull end.
Definition resourceTypeEntry (t : ResourceType) : json :=
  jobj [("id", JStr (rt_ID t)); ("name", JStr (rt_Name t)); ("description", JStr (rt_Description t));
        ("instance_url", JStr (rt_InstanceURL t)); ("data_struct", JStr (rt_DataStruct t));
        ("operation", operationsJsonOf (rt_Operation t))].
Definition convertOperations (operations : list ResourceTypeOperationResponse) : list json := map operationEntry operations.
Fixpoint childEntry (child : ChildrenResourceTypeOperation) : json :=
  match child with
  | MkChildrenOperation id name operations children =>
      jobj ([("id", JStr id); ("name", JStr name); ("operations", JArr (convertOperations operations))] ++
            match children with [] => [] | _ => [("children", JArr (map childEntry children))] end)
  end.
Definition convertChildrenOperations (childrenOperations : list ChildrenResourceTypeOperation) : list json :=
  map childEntry childrenOperations.

Definition obligationEntry (o : ObligationInfo) : json :=
  jobj [("id", JStr (ob_ID o)); ("type_id", JStr (ob_TypeID o)); ("name", JStr (ob_Name o));
        ("description", JStr (ob_Description o)); ("value", ob_Value o)].

(** [nil] is written as an empty object. *)
Definition or_empty (j : json) : json := match j with JNull => JObj ∅ | _ => j end.
(** A limited scope without operations is written with the nil slice. *)
Definition scopeOperationsJson (scope : ObligationOperationsScopeInfo) : json :=
  if oos_Unlimited scope then jobj [("unlimited", JBool true); ("operations", JArr [])]
  else jobj [("unlimited", JBool false);
             ("operations", match oos_Operations scope with
                            | [] => JNull
                            | l => JArr (map (λ o, jobj [("id", JStr (oop_ID o)); ("name", JStr (oop_Name o))]) l)
                            end)].
Definition resourceTypeScopeInfoToString (info : ObligationResourceTypeScopeInfo) : json :=
  if orsi_Unlimited info then jobj [("unlimited", JBool true); ("resource_types", JArr [])]
  else jobj [("unlimited", JBool false);
             ("resource_types", JArr (map (λ rt, jobj [("id", JStr (ors_ResourceTypeID rt)); ("name", JStr (ors_ResourceTypeName rt));
                ("applicable_operations", scopeOperationsJson (ors_OperationsScope rt))]) (orsi_Types info)))].
Definition obligationTypeFields (info : ObligationTypeInfo) : list (string * json) :=
  [("id", JStr (ot_ID info)); ("name", JStr (ot_Name info)); ("description", JStr (ot_Description info));
   ("schema", ot_Schema info); ("default_value", or_empty (ot_DefaultValue info)); ("ui_schema", or_empty (ot_UiSchema info))].
Definition obligationTypeEntry (info : ObligationTypeInfo) : json :=
  jobj (obligationTypeFields info ++ [("applicable_resource_types", resourceTypeScopeInfoToString (ot_ResourceTypeScope info))]).

(** ** The handlers of resource types *)
Module ResourceTypeRest.
Section handlers.
Context `{GoRuntime} `{DrivenUserMgnt} `{SqlEnv} `{HydraAdmin} `{JsonSchema}.

Definition set (c : request) : M store reply :=
  visitor ← lift (verify c);
  resourceDr ← lift (validateAndBindGin c "resource_set");
  resourceType ← lift (readResourceType false (req_param c "id") resourceDr);
  _ ← resourceType_Set visitor resourceType;
  mret (ReplyOK 204 NoBody).
Definition setPrivate (c : request) : M store reply :=
  resourceDr ← lift (validateAndBindGin c "resource_set_private");
  resourceType ← lift (readResourceType true (req_param c "id") resourceDr);
  _ ← resourceType_SetPrivate resourceType;
  mret (ReplyOK 204 NoBody).
Definition delete (c : request) : M store reply :=
  visitor ← lift (verify c);
  _ ← resourceType_Delete visitor (req_param c "id");
  mret (ReplyOK 204 NoBody).
Definition getByID (c : request) : M store reply :=
  visitor ← lift (verify c);
  resourceType ← reads (λ s, resourceType_GetByID s (req_param c "id"));
  mret (ReplyOK 200 (JsonBody (resourceTypeEntry resourceType))).

(** The type and the scope of both versions of [resource_all_operation]: any
    scope but ["type"] means the instances. *)
Definition readAllOperation (c : request) : outcome (string * string) :=
  _ ← fail_if (bool_decide (Query c "resource_type" = "")) (NewError PublicBadRequest "resource_type is required");
  _ ← fail_if (bool_decide (Query c "scope" = "")) (NewError PublicBadRequest "scope is required");
  Ok (Query c "resource_type", if bool_decide (Query c "scope" = "type") then ScopeType else ScopeInstance).
Definition getAllOperation (c : request) : M store reply :=
  visitor ← lift (verify c);
  '(resourceTypeID, scope) ← lift (readAllOperation c);
  '(operationsInfo, _) ← reads (λ s, resourceType_GetAllOperation s visitor resourceTypeID scope);
  mret (ReplyOK 200 (JsonBody (JArr (convertOperations operationsInfo)))).
Definition getAllOperationV2 (c : request) : M store reply :=
  visitor ← lift (verify c);
  '(resourceTypeID, scope) ← lift (readAllOperation c);
  '(operationsInfo, childrenOperationsInfo) ← reads (λ s, resourceType_GetAllOperation s visitor resourceTypeID scope);
  mret (ReplyOK 200 (JsonBody (jobj (("operations", JArr (convertOperations operationsInfo)) ::
    match childrenOperationsInfo with
    | [] => []
    | _ => [("children", JArr (convertChildrenOperations childrenOperationsInfo))]
    end)))).
Definition get (c : request) : M store reply :=
  visitor ← lift (verify c);
  queryInfo ← lift (getListQueryParam c);
  '(count, resourceTypes) ← reads (λ s, resourceType_GetPagination s visitor (lq_offset queryInfo) (lq_limit queryInfo));
  mret (ReplyOK 200 (ListBody (map resourceTypeEntry resourceTypes) count)).
End handlers.
End ResourceTypeRest.

(** ** The handler of the hierarchy *)
Module HierarchyRest.
Section handlers.
Context `{GoRuntime} `{SqlEnv} `{JsonSchema}.

Definition setPrivate (c : request) : M store reply :=
  jsonReqs ← lift (validateAndBindSlice c "hierarchy_set");
  hierarchies ← lift (omap_all parseHierarchy jsonReqs);
  _ ← hierarchy_SetPrivate (MkHierarchy (req_param c "resource_type_id") hierarchies);
  mret (ReplyOK 204 (JsonBody (jobj []))).
End handlers.
End HierarchyRest.

(** [if id == "" { ... "id is required" }] *)
Definition requireID (id : string) : outcome unit :=
  fail_if (bool_decide (id = "")) (NewError PublicBadRequest "id is required").

(** ** The handlers of obligations *)
Module ObligationRest.
Section handlers.
Context `{GoRuntime} `{DrivenUserMgnt} `{LogicsResourceType} `{SqlEnv} `{GoJsonSchema} `{HydraAdmin} `{JsonSchema}.

Definition add (c : request) : M store reply :=
  visitor ← lift (verify c);
  obligationDr ← lift (validateAndBindGin c "obligation_add");
  type_id ← lift (assert_string (jget obligationDr "type_id"));
  name ← lift (assert_string (jget obligationDr "name"));
  description ← lift (optional obligationDr "description" "" assert_string);
  id ← obligation_Add visitor {| ob_ID := ""; ob_TypeID := type_id; ob_Name := name; ob_Description := description;
         ob_Value := jget obligationDr "value"; ob_CreatedTime := 0; ob_ModifyTime := 0 |};
  mret {| rep_status := 201; rep_location := "/api/authorization/v1/obligations/" +:+ id;
          rep_body := JsonBody (jobj [("id", JStr id)]) |}.

Definition update (c : request) : M store reply :=
  visitor ← lift (verify c);
  _ ← lift (requireID (req_param c "id"));
  let fields := split_at ","%char (req_param c "fields") in
  let nameExist := bool_decide ("name" ∈ fields) in
  let descriptionExist := bool_decide ("description" ∈ fields) in
  let valueExist := bool_decide ("value" ∈ fields) in
  obligationDr ← lift (validateAndBindGin c "obligation_update");
  name ← lift (changed nameExist obligationDr "name" "" assert_string);
  description ← lift (changed descriptionExist obligationDr "description" "" assert_string);
  value ← lift (changed valueExist obligationDr "value" JNull Ok);
  _ ← obligation_Update visitor (req_param c "id") name nameExist description descriptionExist value valueExist;
  mret (ReplyOK 204 NoBody).

Definition delete (c : request) : M store reply :=
  visitor ← lift (verify c);
  _ ← lift (requireID (req_param c "id"));
  _ ← obligation_Delete visitor (req_param c "id");
  mret (ReplyOK 204 NoBody).
Definition getByID (c : request) : M store reply :=
  visitor ← lift (verify c);
  _ ← lift (requireID (req_param c "id"));
  obligation ← reads (λ s, obligation_GetByID s visitor (req_param c "id"));
  mret (ReplyOK 200 (JsonBody (obligationEntry obligation))).
Definition get (c : request) : M store reply :=
  visitor ← lift (verify c);
  queryInfo ← lift (getListQueryParam c);
  '(count, obligations) ← reads (λ s, obligation_Get s visitor (lq_offset queryInfo) (lq_limit queryInfo));
  mret (ReplyOK 200 (ListBody (map obligationEntry obligations) count)).
Definition queryObligation (c : request) : M store reply :=
  visitor ← lift (verify c);
  let resourceTypeID := DefaultQuery c "resource_type_id" "" in
  _ ← lift (fail_if (bool_decide (resourceTypeID = "")) (NewError PublicBadRequest "param resource_type_id is required"));
  mapInfos ← reads (λ s, obligation_Query s resourceTypeID (QueryArray c "operation_ids") (QueryArray c "obligation_type_ids"));
  mret (ReplyOK 200 (JsonBody (JArr (map (λ kv : string * list ObligationInfo,
    jobj [("operation_id", JStr kv.1); ("obligations", JArr (map obligationEntry kv.2))]) (range 107 mapInfos))))).
End handlers.
End ObligationRest.

(** ** The handlers of obligation types *)
Module ObligationTypeRest.
Section handlers.
Context `{GoRuntime} `{DrivenUserMgnt} `{LogicsResourceType} `{SqlEnv} `{GoJsonSchema} `{HydraAdmin} `{JsonSchema}.

Definition set (c : request) : M store reply :=
  visitor ← lift (verify c);
  _ ← lift (requireID (req_param c "id"));
  obligationTypeDr ← lift (validateAndBindGin c "obligation_type_set");
  obligationType ← lift (readObligationType (req_param c "id") obligationTypeDr);
  _ ← obligationType_Set visitor obligationType;
  mret (ReplyOK 204 NoBody).
Definition setPrivate (c : request) : M store reply :=
  _ ← lift (requireID (req_param c "id"));
  obligationTypeDr ← lift (validateAndBindGin c "obligation_type_set");
  obligationType ← lift (readObligationType (req_param c "id") obligationTypeDr);
  _ ← obligationType_SetPrivate obligationType;
  mret (ReplyOK 204 NoBody).
Definition delete (c : request) : M store reply :=
  visitor ← lift (verify c);
  _ ← lift (requireID (req_param c "id"));
  _ ← obligationType_Delete visitor (req_param c "id");
  mret (ReplyOK 204 NoBody).
Definition get (c : request) : M store reply :=
  visitor ← lift (verify c);
  queryInfo ← lift (getListQueryParam c);
  '(count, infos) ← reads (λ s, obligationType_Get s visitor (lq_offset queryInfo) (lq_limit queryInfo));
  mret (ReplyOK 200 (ListBody (map obligationTypeEntry infos) count)).
Definition getByID (c : request) : M store reply :=
  visitor ← lift (verify c);
  _ ← lift (requireID (req_param c "id"));
  info ← reads (λ s, obligationType_GetByID s visitor (req_param c "id"));
  mret (ReplyOK 200 (JsonBody (obligationTypeEntry info))).

Definition operationTypesEntry (kv : string * list ObligationTypeInfo) : json :=
  jobj [("operation_id", JStr kv.1); ("obligation_types", JArr (map (λ info, jobj (obligationTypeFields info)) kv.2))].
Definition queryObligationTypes (c : request) : M store reply :=
  visitor ← lift (verify c);
  let resourceTypeID := DefaultQuery c "resource_type_id" "" in
  _ ← lift (fail_if (bool_decide (resourceTypeID = "")) (NewError PublicBadRequest "param resource_type_id is required"));
  mapInfos ← reads (λ s, obligationType_Query s resourceTypeID (QueryArray c "operation_ids"));
  mret (ReplyOK 200 (JsonBody (JArr (map operationTypesEntry (range 108 mapInfos))))).
Definition queryObligationTypesV2 (c : request) : M store reply :=
  visitor ← lift (verify c);
  let resourceTypeIDs := QueryArray c "resource_type_ids" in
  _ ← lift (fail_if (bool_decide (resourceTypeIDs = [])) (NewError PublicBadRequest "param resource_type_ids is required"));
  mapInfos ← reads (λ s, obligationType_QueryV2 s resourceTypeIDs);
  mret (ReplyOK 200 (JsonBody (JArr (map (λ kv : string * gmap string (list ObligationTypeInfo),
    jobj [("resource_type_id", JStr kv.1); ("operations", JArr (map operationTypesEntry (range 110 kv.2)))])
    (range 109 mapInfos))))).
End handlers.
End ObligationTypeRest.
