(* ===== verification/InitData.v ===== *)
(** * Start-up data and the clean-up job
      ([Authorization/driveradapters/init_data.go], [timer.go], [main.go])

    At start-up the service reads the JSON files embedded in the binary and
    hands them to the services; an error is logged and the start goes on, a
    failed type assertion stops the process.  A timer removes expired policies
    once a day. *)
From S2P Require Import Prelude Json Interfaces Common PolicyCalc Store PolicyDB Policy RoleDB Event Role ResourceTypeDB ResourceType ObligationDB Obligation Rest RestCalc RestRole RestPolicy RestTypes.

(** [if err != nil { log; return }] *)
Definition logged (m : M store unit) : M store unit := λ s,
  match m s with
  | (Err _, s') => (Ok tt, s')
  | r => r
  end.

(** ** Reading the files *)
Definition readInitResourceType (resourceTypeJson : json) : outcome ResourceType :=
  resourceTypeDr ← assert_map resourceTypeJson;
  id ← assert_string (jget resourceTypeDr "id");
  name ← assert_string (jget resourceTypeDr "name");
  description ← assert_string (jget resourceTypeDr "description");
  instanceURL ← assert_string (jget resourceTypeDr "instance_url");
  dataStruct ← assert_string (jget resourceTypeDr "data_struct");
  hidden ← optional resourceTypeDr "hidden" false assert_bool;
  operationsJson ← assert_slice (jget resourceTypeDr "operation");
  operations ← omap_all readTypeOperation operationsJson;
  Ok {| rt_ID := id; rt_Name := name; rt_Description := description; rt_InstanceURL := instanceURL;
        rt_DataStruct := dataStruct; rt_Operation := operations; rt_Hidden := hidden; rt_CreateTime := 0; rt_ModifyTime := 0 |}.

Definition readInitScope (v : json) : outcome ResourceTypeScope :=
  scopeDr ← assert_map v;
  id ← assert_string (jget scopeDr "id");
  name ← assert_string (jget scopeDr "name");
  Ok {| rts_ResourceTypeID := id; rts_ResourceTypeName := name |}.
Definition readInitRole (roleJson : json) : outcome RoleInfo :=
  roleDr ← assert_map roleJson;
  id ← optional roleDr "id" "" assert_string;
  name ← assert_string (jget roleDr "name");
  description ← assert_string (jget roleDr "description");
  source ← assert_string (jget roleDr "source");
  scopeJson ← assert_map (jget roleDr "resource_type_scope");
  unlimited ← assert_bool (jget scopeJson "unlimited");
  types ← optional scopeJson "types" None (λ typesJson,
            l ← assert_slice typesJson; scopes ← omap_all readInitScope l; Ok (Some scopes));
  Ok {| role_ID := id; role_Name := name; role_Description := description;
        role_Source := default RoleSourceNone (strToRoleSourceMap source);
        role_Scope := {| rtsi_Unlimited := unlimited; rtsi_Types := types |}; role_CreateTime := 0; role_ModifyTime := 0 |}.

Definition readInitMember (memberJson : json) : outcome RoleMemberInfo :=
  memberDn ← assert_map memberJson;
  id ← assert_string (jget memberDn "id");
  type ← assert_string (jget memberDn "type");
  name ← assert_string (jget memberDn "name");
  Ok {| rm_ID := id; rm_MemberType := default 0%Z (memberStringTypes type); rm_Name := name; rm_ParentDeps := [];
        rm_CreateTime := 0; rm_ModifyTime := 0 |}.
Definition readInitMembers (rolesJson : list json) : outcome (gmap string (list RoleMemberInfo)) :=
  ofold (λ (roleMap : gmap string (list RoleMemberInfo)) roleJson,
    roleDr ← assert_map roleJson;
    roleID ← assert_string (jget roleDr "role_id");
    membersJson ← assert_slice (jget roleDr "members");
    ofold (λ (roleMap : gmap string (list RoleMemberInfo)) memberJson,
      tmp ← readInitMember memberJson; Ok (mappend roleID [tmp] roleMap)) roleMap membersJson) ∅ rolesJson.

Definition readInitRule (v : json) : outcome PolicyRuleItem :=
  item ← assert_map v;
  operationsJson ← assert_slice (jget item "operations");
  operations ← omap_all readDenyItem operationsJson;
  condition ← assert_map (jget item "condition");
  Ok {| rule_Condition := JObj condition; rule_Operations := operations |}.

(** One policy; [None] is the [continue] after an expiry that cannot be
    parsed. *)
Definition readInitPolicy `{GoTime} (policyJson : json) : outcome (option PolicyInfo) :=
  policyDr ← assert_map policyJson;
  endTime ← optional policyDr "expires_at" (Some (-1)%Z) (λ expiresAtJson,
    s ← assert_string expiresAtJson;
    Ok (match StringToTimeStamp s with
        | None => None
        | Some timeStamp => Some (if (timeStamp =? 0)%Z then (-1)%Z else Z.quot timeStamp 1000)
        end));
  match endTime with
  | None => Ok None
  | Some endTime =>
      resourceJson ← assert_map (jget policyDr "resource");
      accessorJson ← assert_map (jget policyDr "accessor");
      resourceID ← assert_string (jget resourceJson "id");
      resourceType ← assert_string (jget resourceJson "type");
      resourceName ← assert_string (jget resourceJson "name");
      accessorID ← assert_string (jget accessorJson "id");
      accessorType ← assert_string (jget accessorJson "type");
      accessorName ← assert_string (jget accessorJson "name");
      rulesJson ← assert_map (jget policyDr "rules");
      allowJson ← assert_slice (jget rulesJson "allow");
      denyJson ← assert_slice (jget rulesJson "deny");
      allow ← omap_all readInitRule allowJson;
      deny ← omap_all readInitRule denyJson;
      Ok (Some {| pol_ID := ""; pol_ResourceID := resourceID; pol_ResourceType := resourceType; pol_ResourceName := resourceName;
                  pol_Ancestors := []; pol_HasAncestors := false; pol_AccessorID := accessorID;
                  pol_AccessorType := accessorStrToType accessorType; pol_AccessorName := accessorName; pol_ParentDeps := [];
                  pol_Rules := {| rules_Allow := allow; rules_Deny := deny |}; pol_Condition := ""; pol_EndTime := endTime;
                  pol_CreateTime := 0; pol_ModifyTime := 0 |})
  end.

(** The scope of one resource type; [None] is the [continue] of the inner
    loop when the operations are missing. *)
Definition readInitScopeOf (resourceTypeJson : json) : outcome (option ObligationResourceTypeScope) :=
  resourceTypeJsonMap ← assert_map resourceTypeJson;
  id ← assert_string (jget resourceTypeJsonMap "id");
  operationsScopeJson ← assert_map (jget resourceTypeJsonMap "applicable_operations");
  unlimited ← assert_bool (jget operationsScopeJson "unlimited");
  let scope operations := Some {| ors_ResourceTypeID := id; ors_ResourceTypeName := "";
    ors_OperationsScope := {| oos_Unlimited := unlimited; oos_Operations := operations |} |} in
  if (unlimited : bool) then Ok (scope [])
  else match operationsScopeJson !! "operations" with
       | None => Ok None
       | Some v => l ← assert_slice v; operations ← omap_all readObligationOperation l; Ok (scope operations)
       end.
Definition readInitObligationType (obligationTypeJson : json) : outcome (option ObligationTypeInfo) :=
  obligationTypeDr ← assert_map obligationTypeJson;
  id ← assert_string (jget obligationTypeDr "id");
  name ← assert_string (jget obligationTypeDr "name");
  description ← optional obligationTypeDr "description" "" assert_string;
  scopesJson ← assert_map (jget obligationTypeDr "applicable_resource_types");
  unlimited ← assert_bool (jget scopesJson "unlimited");
  let info types := Some {| ot_ID := id; ot_Name := name; ot_Description := description;
    ot_ResourceTypeScope := {| orsi_Unlimited := unlimited; orsi_Types := types |};
    ot_Schema := jget obligationTypeDr "schema"; ot_DefaultValue := jget obligationTypeDr "default_value";
    ot_UiSchema := jget obligationTypeDr "ui_schema"; ot_CreatedTime := 0; ot_ModifyTime := 0 |} in
  if (unlimited : bool) then Ok (info [])
  else match scopesJson !! "resource_types" with
       | None => Ok None
       | Some v => l ← assert_slice v; types ← omap_all readInitScopeOf l; Ok (info (omap (λ x, x) types))
       end.

(** [fs.WalkDir] over the embedded directory: the arrays of all files, in the
    order of their names. *)
Definition readFiles (files : list text) : outcome (list json) :=
  arrays ← omap_all unmarshal_slice files;
  Ok (concat arrays).

(** ** The jobs *)
Section jobs.
Context `{GoRuntime} `{DrivenUserMgnt} `{LogicsResourceType} `{SqlEnv} `{GoJsonSchema} `{GoTime}.

Definition InitResourceType (resourceTypeDataStr : text) : M store unit := logged (
  resourceTypesJson ← lift (unmarshal_slice resourceTypeDataStr);
  resourceTypeData ← lift (omap_all readInitResourceType resourceTypesJson);
  resourceType_InitResourceTypes resourceTypeData).
Definition InitRole (roleDataStr : text) : M store unit := logged (
  rolesJson ← lift (unmarshal_slice roleDataStr);
  roleData ← lift (omap_all readInitRole rolesJson);
  role_InitRoles roleData).
Definition InitRoleMembers (roleMembersStr : text) : M store unit := logged (
  rolesJson ← lift (unmarshal_slice roleMembersStr);
  roleMap ← lift (readInitMembers rolesJson);
  role_InitRoleMemebers roleMap).
Definition InitPolicy (policyFiles : list text) : M store unit := logged (
  policiesJson ← lift (readFiles policyFiles);
  policyData ← lift (omap_all readInitPolicy policiesJson);
  policy_InitPolicy (omap (λ x, x) policyData)).
Definition InitObligationType (obligationTypeFiles : list text) : M store unit := logged (
  obligationTypesJson ← lift (readFiles obligationTypeFiles);
  obligationTypeData ← lift (omap_all readInitObligationType obligationTypesJson);
  obligationType_InitObligationTypes (omap (λ x, x) obligationTypeData)).

(** The constructor of the hierarchy service fills it. *)
Definition NewResourceTypeHierarchy (initDataStr : text) : M store unit := logged (hierarchy_Init initDataStr).

(** The files embedded in a build. *)
Record embedded := {
  resourceTypeHierarchyDataStr : text; resourceTypeDataStr : text; roleDataStr : text; roleMembersStr : text;
  policyDataDirectory : list text; obligationTypeDataDirectory : list text
}.
(** The order of [main.go]: the services are constructed, then the data of the
    build is loaded. *)
Definition startUp (files : embedded) : M store unit :=
  _ ← NewResourceTypeHierarchy (resourceTypeHierarchyDataStr files);
  _ ← InitResourceType (resourceTypeDataStr files);
  _ ← InitRole (roleDataStr files);
  _ ← InitRoleMembers (roleMembersStr files);
  _ ← InitPolicy (policyDataDirectory files);
  InitObligationType (obligationTypeDataDirectory files).

(** One round of the clean-up thread. *)
Definition cleanRound (cur : Z) : M store unit := logged (policy_DeleteByEndTime cur).
End jobs.
