(* ===== verification/RestAdmin.v ===== *)
(** * Administration over HTTP

    The public endpoints of roles, resource types, obligations and obligation
    types together: who may change the store, and what a tree of types looks
    like on the way in. *)
From S2P Require Import Prelude Json Interfaces Common Store RoleDB Event Role RoleScope Mq RoleAdmin ResourceTypeDB ResourceType ResourceTypeSpec ObligationDB Obligation Rest RestCalc RestCalcSpec RestRole RestRoleSpec RestTypes.

Section security.
Context `{GoRuntime} `{DrivenUserMgnt} `{LogicsResourceType} `{LogicsResourceTypeHierarchy} `{SqlEnv} `{SqlLike}.
Context `{GoJsonSchema} `{HydraAdmin} `{JsonSchema} (e : event) (order : gmap string Z).

(** The public routes of the four handlers. *)
Inductive admin_route : Set :=
| RoleRoute (r : role_route)
| GET_resource_types | PUT_resource_type | GET_resource_type | GET_all_operation | GET_all_operation_v2 | DELETE_resource_type
| POST_obligations | GET_obligations | DELETE_obligation | GET_obligation | PUT_obligation | GET_query_obligations
| PUT_obligation_type | GET_obligation_type | DELETE_obligation_type | GET_obligation_types
| GET_query_obligation_types | GET_query_obligation_types_v2.
Definition admin_handler (route : admin_route) : request → M store reply :=
  match route with
  | RoleRoute r => role_handler e order r
  | GET_resource_types => ResourceTypeRest.get
  | PUT_resource_type => ResourceTypeRest.set
  | GET_resource_type => ResourceTypeRest.getByID
  | GET_all_operation => ResourceTypeRest.getAllOperation
  | GET_all_operation_v2 => ResourceTypeRest.getAllOperationV2
  | DELETE_resource_type => ResourceTypeRest.delete
  | POST_obligations => ObligationRest.add
  | GET_obligations => ObligationRest.get
  | DELETE_obligation => ObligationRest.delete
  | GET_obligation => ObligationRest.getByID
  | PUT_obligation => ObligationRest.update
  | GET_query_obligations => ObligationRest.queryObligation
  | PUT_obligation_type => ObligationTypeRest.set
  | GET_obligation_type => ObligationTypeRest.getByID
  | DELETE_obligation_type => ObligationTypeRest.delete
  | GET_obligation_types => ObligationTypeRest.get
  | GET_query_obligation_types => ObligationTypeRest.queryObligationTypes
  | GET_query_obligation_types_v2 => ObligationTypeRest.queryObligationTypesV2
  end.

(** The services share the check of the role service. *)
Lemma same_checks visitor :
  resourceType_checkVisitorType visitor = role_checkVisitorType visitor ∧
  obligation_checkVisitorType visitor = role_checkVisitorType visitor ∧
  obligationType_checkVisitorType visitor = role_checkVisitorType visitor.
Proof. done. Qed.

(** A reading handler changes nothing; a writing one passes the service's
    guard first. *)
Ltac guarded Hv :=
  repeat first
    [ apply only_if_ret | apply only_if_lift | apply only_if_reads
    | eapply service_guard, Hv
    | apply only_if_bind; [|intros ?]
    | progress cbv zeta
    | case_match ].

Lemma admin_handlers_guarded route c : changes_only_if (from_admin c) (admin_handler route c).
Proof.
  destruct route as [r| | | | | | | | | | | | | | | | | |]; [apply role_handlers_guarded|..]; simpl;
    apply only_if_guard; intros visitor Hv; guarded Hv.
Qed.

Definition token_expired : gerror := NewError "Public.Unauthorized" "token expired".

(** C16. Whatever the request, the public endpoints of roles, resource types,
    obligations and obligation types change the store only for the bearer of an
    active token of a super, system or security administrator; an inactive
    token gets status 401 on every one of them. *)
Theorem administration_needs_admin route c s :
  ((serve (admin_handler route c) s).2 ≠ s → from_admin c) ∧
  (∀ info, Introspect (bearer c) = Ok info → tok_Active info = false → route ≠ RoleRoute GET_accessor_roles →
     serve (admin_handler route c) s = (ReplyErrorV2 token_expired, s) ∧ rep_status (ReplyErrorV2 token_expired) = 401%Z).
Proof.
  split.
  - intros Hs. destruct (admin_handlers_guarded route c s) as [E|]; [|done]. destruct Hs. unfold serve.
    destruct (admin_handler route c s) as [[a|er|w] s1]; simpl in *; congruence.
  - intros info Hi Ha Hr. split; [|done]. assert (verify c = Err token_expired) as Hv.
    { unfold verify. fold (bearer c). rewrite Hi. simpl. by rewrite Ha. }
    assert (∀ (k : Visitor → M store reply), serve (visitor ← lift (verify c); k visitor) s = (ReplyErrorV2 token_expired, s)) as Hk.
    { intros k. rewrite Hv. done. }
    destruct route as [r| | | | | | | | | | | | | | | | | |]; [destruct r|..]; first [done|apply Hk].
Qed.
End security.

(** ** Trees of types *)

(** A tree in the form the database layer writes is read as it was, whatever
    the depth. *)
Lemma parse_encoded_hierarchy h : parseHierarchy (convertHierarchyToJSONItem h) = Ok h.
Proof.
  induction h as [id children IH] using hierarchy_tree_ind. rewrite parseHierarchy_equation.
  change ((children' ← omap_all parseHierarchy (convertHierarchyToJSONItem <$> children); Ok (MkHierarchy id children'))
          = Ok (MkHierarchy id children)).
  assert (omap_all parseHierarchy (convertHierarchyToJSONItem <$> children) = Ok children) as ->; [|done].
  induction IH as [|h hs Hh _ IHs]; [done|]. cbn [fmap list_fmap omap_all]. by rewrite Hh, IHs.
Qed.

(** The endpoint of the hierarchy stores exactly the tree it is sent. *)
Lemma put_hierarchy `{GoRuntime} `{SqlEnv} `{JsonSchema} c children s :
  validateAndBindSlice c "hierarchy_set" = Ok (convertHierarchyToJSONItems children) →
  HierarchyRest.setPrivate c s =
    (_ ← hierarchy_SetPrivate (MkHierarchy (req_param c "resource_type_id") children); mret (ReplyOK 204 (JsonBody (jobj [])))) s.
Proof.
  intros Hb. assert (omap_all parseHierarchy (convertHierarchyToJSONItems children) = Ok children) as Hp.
  { clear Hb. unfold convertHierarchyToJSONItems. induction children as [|h hs IH]; [done|]. cbn [fmap list_fmap omap_all].
    by rewrite parse_encoded_hierarchy, IH. }
  unfold HierarchyRest.setPrivate, mbind, M_bind, lift. by rewrite Hb, Hp.
Qed.
