(* ===== verification/Soundness.v ===== *)
(** * The tables in every run of the service

    What every request, message, start and clean-up leaves true of the tables,
    whatever the database, the clock and the other services do: policies have
    distinct ids and one row per resource and accessor, and every column that
    holds JSON can be read. *)
From S2P Require Import Prelude Json Interfaces Common PolicyCalc Store PolicyDB PolicyDBSpec Sample Listings Policy PolicyMerge PolicyOps PolicyCreate RoleDB Event Role RoleSpec ResourceTypeDB ResourceType ResourceTypeSpec ResourceTypeOps ObligationDB Obligation System.

(** ** Rules with at most one unconditional rule of each kind *)
Lemma single_stored rules : single_unconditional rules → single_unconditional (stored_rule <$> filter (λ r, rule_Operations r ≠ []) rules).
Proof.
  unfold single_unconditional. intros Hs. etrans; [|exact Hs]. clear Hs.
  induction rules as [|r rules IH]; csimpl; [done|]. rewrite !filter_cons.
  assert (isConditionEmpty (rule_Condition (stored_rule r)) = isConditionEmpty (rule_Condition r)) as Hc.
  { unfold stored_rule. simpl. by case_bool_decide as E; rewrite ?E. }
  destruct (decide (rule_Operations r ≠ [])); csimpl; [rewrite filter_cons, Hc|]; case_decide; simpl; lia.
Qed.

Lemma stored_form_read_back p q :
  stored_form p → pol_Rules q = stored_rules (pol_Rules p) → stored_form q.
Proof. intros [Ha Hd] Hq. unfold stored_form. rewrite Hq. split; by apply single_stored. Qed.

Lemma single_no_unconditional rules : single_unconditional (filter conditional rules).
Proof.
  unfold single_unconditional. rewrite filter_none; [simpl; lia|]. intros r [E _]%list_elem_of_filter. by rewrite E.
Qed.
Lemma single_at_front ops rules :
  single_unconditional ((if bool_decide (ops = []) then [] else [rule_of ops]) ++ filter conditional rules).
Proof.
  unfold single_unconditional. rewrite filter_app, (filter_none _ (filter _ _)), app_nil_r.
  - case_bool_decide; simpl; lia.
  - intros r [E _]%list_elem_of_filter. by rewrite E.
Qed.
Lemma merged_form `{GoRuntime} old p : stored_form (mergeNewPolicy old p).
Proof.
  unfold stored_form, mergeNewPolicy. destruct (getPolicyNoConditionOperations old), (getPolicyNoConditionOperations p).
  simpl. split; apply single_at_front.
Qed.

Lemma overwriteFirst_count rules ops :
  match overwriteFirst rules ops with
  | Some rules' => length (filter (λ r, isConditionEmpty (rule_Condition r) = true) rules')
                   = length (filter (λ r, isConditionEmpty (rule_Condition r) = true) rules)
  | None => filter (λ r, isConditionEmpty (rule_Condition r) = true) rules = []
  end.
Proof.
  induction rules as [|r rules IH]; simpl; [done|]. destruct (isConditionEmpty (rule_Condition r)) eqn:E.
  - by rewrite !filter_cons, !decide_True by done.
  - destruct (overwriteFirst rules ops) as [rules'|]; rewrite ?filter_cons, ?decide_False by congruence; done.
Qed.
Lemma overwrite_single rules ops : single_unconditional rules → single_unconditional (overwriteUnconditional rules ops).
Proof.
  unfold single_unconditional, overwriteUnconditional. intros Hs. pose proof (overwriteFirst_count rules ops) as Hc.
  destruct (overwriteFirst rules ops) as [rules'|]; cbn [from_option id]; [by rewrite Hc|].
  rewrite filter_cons, Hc. case_decide; simpl; lia.
Qed.

(** Start-up rules: an unconditional rule finds the unconditional one. *)
Lemma takeOld_split cond items :
  match takeOld cond items with
  | Some (found, rest) => sameCondition (rule_Condition found) cond = true ∧ items ≡ₚ found :: rest
  | None => Forall (λ r, sameCondition (rule_Condition r) cond = false) items
  end.
Proof.
  induction items as [|r items IH]; simpl; [done|]. destruct (sameCondition (rule_Condition r) cond) eqn:E; [done|].
  destruct (takeOld cond items) as [[found rest]|]; [|by constructor]. destruct IH as [? ->]. by rewrite Permutation_swap.
Qed.

Definition unconditional_rules (rules : list PolicyRuleItem) : nat :=
  length (filter (λ r, isConditionEmpty (rule_Condition r) = true) rules).
Lemma unconditional_cons r rules :
  unconditional_rules (r :: rules) = (if isConditionEmpty (rule_Condition r) then 1 else 0) + unconditional_rules rules.
Proof. unfold unconditional_rules. rewrite filter_cons. case_decide as E; [by rewrite E|]. by destruct (isConditionEmpty _). Qed.
Lemma unconditional_perm rules rules' : rules ≡ₚ rules' → unconditional_rules rules = unconditional_rules rules'.
Proof. intros E. unfold unconditional_rules. by rewrite E. Qed.
Lemma sameCondition_empty c c' : sameCondition c c' = true → isConditionEmpty c = isConditionEmpty c'.
Proof.
  unfold sameCondition. intros [[-> ->]%andb_true_iff| <-%bool_decide_eq_true]%orb_true_iff; done.
Qed.
Lemma merge_rules_sum `{GoRuntime} old new :
  unconditional_rules (mergeRuleItems old new) ≤ unconditional_rules old + unconditional_rules new.
Proof.
  revert old. induction new as [|item new IH]; intros old; cbn [mergeRuleItems]; [lia|].
  pose proof (takeOld_split (rule_Condition item) old) as Ht.
  destruct (takeOld (rule_Condition item) old) as [[found rest]|].
  - destruct Ht as [_ ->%unconditional_perm]. rewrite !unconditional_cons. cbn [rule_Condition]. specialize (IH rest). lia.
  - rewrite !unconditional_cons. specialize (IH old). lia.
Qed.
Lemma merge_rules_single `{GoRuntime} old new :
  single_unconditional old → single_unconditional new → single_unconditional (mergeRuleItems old new).
Proof.
  change (unconditional_rules old ≤ 1 → unconditional_rules new ≤ 1 → unconditional_rules (mergeRuleItems old new) ≤ 1).
  revert old. induction new as [|item new IH]; intros old Ho Hn; cbn [mergeRuleItems]; [done|].
  rewrite unconditional_cons in Hn. pose proof (takeOld_split (rule_Condition item) old) as Ht.
  destruct (takeOld (rule_Condition item) old) as [[found rest]|].
  - destruct Ht as [Hs Hp%unconditional_perm]. rewrite Hp, unconditional_cons in Ho. rewrite unconditional_cons. cbn [rule_Condition].
    apply sameCondition_empty in Hs. rewrite Hs in *. destruct (isConditionEmpty (rule_Condition item)).
    + pose proof (merge_rules_sum rest new). lia.
    + apply IH; lia.
  - rewrite unconditional_cons. destruct (isConditionEmpty (rule_Condition item)) eqn:E; [|apply IH; lia].
    assert (unconditional_rules old = 0) as Hz.
    { unfold unconditional_rules. rewrite filter_none; [done|]. intros r Hr Hc. rewrite Forall_forall in Ht.
      specialize (Ht r Hr). unfold sameCondition in Ht. by rewrite Hc, E in Ht. }
    pose proof (merge_rules_sum old new). lia.
Qed.
Lemma merged_start_form `{GoRuntime} old p : stored_form old → stored_form p → stored_form (mergeNewPolicyWithCondition old p).
Proof. intros [Ha Hd] [Ha' Hd']. split; by apply merge_rules_single. Qed.

(** ** Sound tables *)
Section tables.
Context (gen : nat → string).

(** The policies when [n] ids have been drawn. *)
Definition in_form (row : policy_row) : Prop := ∃ q, scanWithAncestors row = Ok q ∧ stored_form q.
Record policies_ok (n : nat) (rows : list policy_row) : Prop := {
  po_ids : NoDup (p_id <$> rows);
  po_keys : NoDup (key_row <$> rows);
  po_fresh : ∀ m, n ≤ m → gen m ∉ p_id <$> rows;
  po_form : Forall in_form rows
}.
(** The obligations when [n] ids have been drawn. *)
Record obligation_rows_ok (n : nat) (rows : list obligation_row) : Prop := {
  oo_ids : NoDup (o_id <$> rows);
  oo_fresh : ∀ m, n ≤ m → gen m ∉ o_id <$> rows;
  oo_readable : Forall (λ row, ∃ o, scanObligation row = Ok o) rows
}.
Record sound (s : store) : Prop := {
  sd_policies : policies_ok (seq_uuid s) (t_policy s);
  sd_roles : Forall (λ row, ∃ info, scanRole row = Ok info) (t_role s);
  sd_obligations : obligation_rows_ok (seq_uuid s) (t_obligation s);
  sd_types : type_table s
}.

Lemma policies_later n m rows : n ≤ m → policies_ok n rows → policies_ok m rows.
Proof. intros Hle [? ? Hf ?]. split; try done. intros k Hk. apply Hf. lia. Qed.
Lemma obligation_rows_later n m rows : n ≤ m → obligation_rows_ok n rows → obligation_rows_ok m rows.
Proof. intros Hle [? Hf ?]. split; try done. intros k Hk. apply Hf. lia. Qed.

(** Rows are dropped, or changed in columns that are not keys. *)
Lemma policies_filter n (P : policy_row → Prop) `{∀ r, Decision (P r)} rows : policies_ok n rows → policies_ok n (filter P rows).
Proof.
  intros [Hi Hk Hf Hr]. split; [by apply NoDup_fmap_filter..| |by apply Forall_filter_sub].
  intros m Hm (row & E & [_ Hrow]%list_elem_of_filter)%list_elem_of_fmap. apply (Hf m Hm). rewrite E.
  by apply list_elem_of_fmap_2.
Qed.
Lemma policies_fmap n (f : policy_row → policy_row) rows :
  (∀ r, p_id (f r) = p_id r) → (∀ r, key_row (f r) = key_row r) → (∀ r, r ∈ rows → in_form r → in_form (f r)) →
  policies_ok n rows → policies_ok n (f <$> rows).
Proof.
  intros Hid Hkey Hform [Hi Hk Hf Hr]. assert (p_id <$> (f <$> rows) = p_id <$> rows) as Ei.
  { rewrite <-list_fmap_compose. apply list_fmap_ext; intros; apply Hid. }
  assert (key_row <$> (f <$> rows) = key_row <$> rows) as Ek.
  { rewrite <-list_fmap_compose. apply list_fmap_ext; intros; apply Hkey. }
  split; rewrite ?Ei, ?Ek; [done..|]. rewrite Forall_forall in *. intros r (r0 & -> & Hr0)%list_elem_of_fmap. auto.
Qed.
Lemma obligation_rows_filter n (P : obligation_row → Prop) `{∀ r, Decision (P r)} rows :
  obligation_rows_ok n rows → obligation_rows_ok n (filter P rows).
Proof.
  intros [Hi Hf Hr]. split; [by apply NoDup_fmap_filter| |by apply Forall_filter_sub].
  intros m Hm (row & E & [_ Hrow]%list_elem_of_filter)%list_elem_of_fmap. apply (Hf m Hm). rewrite E.
  by apply list_elem_of_fmap_2.
Qed.

(** What a call may do: from sound tables to sound tables, and no id is
    handed out twice. *)
Definition evolves : relation store := λ s s', sound s → sound s' ∧ seq_uuid s ≤ seq_uuid s'.
#[global] Instance evolves_preorder : PreOrder evolves.
Proof.
  split; [done|]. intros s1 s2 s3 H12 H23 Hs. destruct (H12 Hs) as [Hs2 ?]. destruct (H23 Hs2). split; [done|lia].
Qed.

Lemma type_table_ext s s' :
  t_resource_type s' = t_resource_type s → t_resource_type_hierarchy s' = t_resource_type_hierarchy s →
  type_table s → type_table s'.
Proof. intros Et Eh [Hi Hr Ht Htr]. split; by rewrite ?Et, ?Eh. Qed.

(** A statement that writes one table. *)
Lemma evolves_policy f s : (∀ n, policies_ok n (t_policy s) → policies_ok n (f (t_policy s))) → evolves s (set_policy f s).
Proof. intros Hf [Hp Hr Ho Ht]. split; [|done]. split; simpl; auto. by apply (type_table_ext s). Qed.
Lemma evolves_role f s :
  (Forall (λ row, ∃ info, scanRole row = Ok info) (t_role s) → Forall (λ row, ∃ info, scanRole row = Ok info) (f (t_role s))) →
  evolves s (set_role f s).
Proof. intros Hf [Hp Hr Ho Ht]. split; [|done]. split; simpl; auto. by apply (type_table_ext s). Qed.
Lemma evolves_obligation f s :
  (∀ n, obligation_rows_ok n (t_obligation s) → obligation_rows_ok n (f (t_obligation s))) → evolves s (set_obligation f s).
Proof. intros Hf [Hp Hr Ho Ht]. split; [|done]. split; simpl; auto. by apply (type_table_ext s). Qed.
Lemma evolves_member f s : evolves s (set_member f s).
Proof. intros [Hp Hr Ho Ht]. split; [|done]. split; try done. by apply (type_table_ext s). Qed.
Lemma evolves_obligation_type f s : evolves s (set_obligation_type f s).
Proof. intros [Hp Hr Ho Ht]. split; [|done]. split; try done. by apply (type_table_ext s). Qed.
Lemma evolves_primary n s : evolves s (bump_primary n s).
Proof. intros [Hp Hr Ho Ht]. split; [|done]. split; try done. by apply (type_table_ext s). Qed.
Lemma evolves_uuid s : evolves s (bump_uuid s).
Proof.
  intros [Hp Hr Ho Ht]. split; [|simpl; lia]. split; simpl; try done.
  - eapply policies_later; [|done]. lia.
  - eapply obligation_rows_later; [|done]. lia.
  - by apply (type_table_ext s).
Qed.
Lemma evolves_restore s s' : evolves s s' → evolves s (restore s s').
Proof.
  intros He Hs. destruct (He Hs) as [_ Hle]. destruct Hs as [Hp Hr Ho Ht]. split; [|done]. split; simpl; try done.
  - by eapply policies_later.
  - by eapply obligation_rows_later.
  - by apply (type_table_ext s).
Qed.
(** The tables as they were, with more ids drawn. *)
Lemma evolves_quiet s s' : tables s' = tables s → seq_uuid s ≤ seq_uuid s' → evolves s s'.
Proof.
  intros [= Ep Er Em Eo Eot Ert Eh] Hle [Hp Hr Ho Ht]. split; [|done]. split; rewrite ?Ep, ?Er, ?Eo; try done.
  - by eapply policies_later.
  - by eapply obligation_rows_later.
  - by apply (type_table_ext s).
Qed.
End tables.

(** The columns that decide whether a row is in form. *)
Lemma in_form_columns row :
  in_form row ↔
  (∃ rules, rulesStrToInfo (p_operation row) = Ok rules ∧
     single_unconditional (rules_Allow rules) ∧ single_unconditional (rules_Deny rules)) ∧
  ∃ ancestors, ancestorsStrToInfo (p_ancestors row) = Ok ancestors.
Proof.
  unfold in_form, scanWithAncestors, stored_form. split.
  - intros (q & Hs & Hf). obind. by split; eexists.
  - intros [(rules & -> & Hf) (ancestors & ->)]. by eexists.
Qed.
Lemma written_rules rules :
  single_unconditional (rules_Allow rules) → single_unconditional (rules_Deny rules) →
  ∃ rules', rulesStrToInfo (rulesInfoToString rules) = Ok rules' ∧
    single_unconditional (rules_Allow rules') ∧ single_unconditional (rules_Deny rules').
Proof. intros Ha Hd. exists (stored_rules rules). split; [apply rules_read_back|]. by split; apply single_stored. Qed.
Lemma updateRow_form `{SqlEnv} p row : stored_form p → in_form row → in_form (updateRow p row).
Proof.
  intros [Ha Hd]. rewrite !in_form_columns. intros [Hr Hanc]. unfold updateRow. case_bool_decide; [|done].
  split; [by apply written_rules|done].
Qed.
Lemma updateAll_form `{SqlEnv} ps row : Forall stored_form ps → in_form row → in_form (updateAll ps row).
Proof.
  unfold updateAll. intros Hps. revert row. induction Hps as [|p ps Hp _ IH]; intros row Hr; simpl; [done|].
  by apply IH, updateRow_form.
Qed.
Lemma newRow_form `{SqlEnv} n p : stored_form p → in_form (newPolicyRow n p).
Proof.
  intros [Ha Hd]. apply in_form_columns. split; [by apply written_rules|]. eexists. apply ancestors_read_back.
Qed.

Create HintDb sound.
(** Follows the code of a call, statement by statement. *)
Ltac evolve := follow ltac:(eauto with sound nocore).

Section statements.
Context (gen : nat → string) `{SqlEnv}.
Abbreviation keeps_sound := (within (evolves gen)).

Lemma sound_policy label f :
  (∀ s n, policies_ok gen n (t_policy s) → policies_ok gen n (f (t_policy s))) → keeps_sound (exec label (set_policy f)).
Proof. intros Hf. apply within_exec; [apply _|]. intros s. apply evolves_policy. auto. Qed.
Lemma sound_policyDB_Update ps : Forall stored_form ps → keeps_sound (policyDB_Update ps).
Proof.
  intros Hps. apply within_each; [apply _|]. intros p Hp. apply sound_policy. intros s n. apply policies_fmap.
  - apply updateRow_id.
  - apply updateRow_key.
  - intros r _. apply updateRow_form. rewrite Forall_forall in Hps. by apply Hps.
Qed.
Lemma sound_policyDB_Delete ids : keeps_sound (policyDB_Delete ids).
Proof. unfold policyDB_Delete. evolve. apply sound_policy. intros. by apply policies_filter. Qed.
Lemma sound_policyDB_UpdateResourceAncestors id ty ancestors : keeps_sound (policyDB_UpdateResourceAncestors id ty ancestors).
Proof.
  apply sound_policy. intros s n. apply policies_fmap; [intros r; by case_bool_decide..|]. intros r _.
  rewrite !in_form_columns. intros [Hr Ha]. case_bool_decide; [|done]. split; [done|]. eexists. apply ancestors_read_back.
Qed.
Lemma sound_policyDB_UpdateResourceName id ty name : keeps_sound (policyDB_UpdateResourceName id ty name).
Proof.
  apply sound_policy. intros s n. apply policies_fmap; [intros r; by case_bool_decide..|]. intros r _.
  rewrite !in_form_columns. by case_bool_decide.
Qed.
Lemma sound_policyDB_UpdateAccessorName id name : keeps_sound (policyDB_UpdateAccessorName id name).
Proof.
  apply sound_policy. intros s n. apply policies_fmap; [intros r; by case_bool_decide..|]. intros r _.
  rewrite !in_form_columns. by case_bool_decide.
Qed.
Lemma sound_policyDB_DeleteByResourceIDs resources : keeps_sound (policyDB_DeleteByResourceIDs resources).
Proof. unfold policyDB_DeleteByResourceIDs. evolve. apply sound_policy. intros. by apply policies_filter. Qed.
Lemma sound_policyDB_DeleteByAccessorIDs ids : keeps_sound (policyDB_DeleteByAccessorIDs ids).
Proof. unfold policyDB_DeleteByAccessorIDs. evolve. apply sound_policy. intros. by apply policies_filter. Qed.
Lemma sound_policyDB_DeleteByEndTime cur : keeps_sound (policyDB_DeleteByEndTime cur).
Proof. apply sound_policy. intros. by apply policies_filter. Qed.

(** Members and obligation types are outside the invariant. *)
Lemma sound_member label f : keeps_sound (exec label (set_member f)).
Proof. apply within_exec; [apply _|]. intros s. apply evolves_member. Qed.
Lemma sound_obligation_type label f : keeps_sound (exec label (set_obligation_type f)).
Proof. apply within_exec; [apply _|]. intros s. apply evolves_obligation_type. Qed.
Lemma sound_new_member label n f : keeps_sound (exec label (λ s, bump_primary (n s) (set_member (f s) s))).
Proof.
  apply within_exec; [apply _|]. intros s. etrans; [apply evolves_member|apply evolves_primary].
Qed.
Lemma sound_new_obligation_type label n f : keeps_sound (exec label (λ s, bump_primary (n s) (set_obligation_type (f s) s))).
Proof.
  apply within_exec; [apply _|]. intros s. etrans; [apply evolves_obligation_type|apply evolves_primary].
Qed.
End statements.
#[export] Hint Resolve sound_policyDB_Delete sound_policyDB_UpdateResourceAncestors sound_policyDB_UpdateResourceName
  sound_policyDB_UpdateAccessorName sound_policyDB_DeleteByResourceIDs sound_policyDB_DeleteByAccessorIDs
  sound_policyDB_DeleteByEndTime sound_policyDB_Update sound_member sound_obligation_type sound_new_member
  sound_new_obligation_type : sound.

(** ** The services *)
Section services.
Context (gen : nat → string) `{!Inj (=) (=) gen} `{GoRuntime} `{DrivenUserMgnt} `{SqlEnv} (Hgen : uuid = gen).
Abbreviation keeps_sound := (within (evolves gen)).

Lemma sound_new_uuid : keeps_sound new_uuid.
Proof. intros s r s' [= <- <-]. apply evolves_uuid. Qed.
Lemma sound_transaction body : keeps_sound body → keeps_sound (transaction body).
Proof. apply within_transaction; [apply _|]. intros s s'. apply evolves_restore. Qed.
#[local] Hint Resolve sound_new_uuid : sound.

(** *** Roles *)
Lemma scope_readable info row : r_resource_scope row = resourceTypeScopeInfoToString info → ∃ role, scanRole row = Ok role.
Proof. intros E. unfold scanRole. rewrite E, scope_round_trip. by eexists. Qed.
Lemma sound_role label f :
  (∀ s, Forall (λ row, ∃ info, scanRole row = Ok info) (t_role s) → Forall (λ row, ∃ info, scanRole row = Ok info) (f (t_role s))) →
  keeps_sound (exec label (set_role f)).
Proof. intros Hf. apply within_exec; [apply _|]. intros s. apply evolves_role. auto. Qed.
Lemma sound_modifyRow label id name nc d dc sc scc :
  keeps_sound (exec label (set_role (fmap (modifyRow id name nc d dc sc scc)))).
Proof.
  apply sound_role. intros s. rewrite !Forall_forall. intros Hr row' (row & -> & Hrow)%list_elem_of_fmap.
  destruct (Hr row Hrow) as [info Hs]. unfold modifyRow. case_bool_decide; [|by eexists].
  destruct scc; [by eapply scope_readable|]. unfold scanRole in *. obind. simpl. rewrite E. by eexists.
Qed.
Lemma sound_roleDB_AddRoles roles : keeps_sound (roleDB_AddRoles roles).
Proof.
  unfold roleDB_AddRoles. case_bool_decide; [apply within_ret, _|]. apply within_exec; [apply _|]. intros s.
  etrans; [|apply evolves_primary]. apply evolves_role. intros Hr. apply Forall_app. split; [done|].
  apply Forall_lookup. intros i row. rewrite list_lookup_imap. intros (role & _ & ->)%fmap_Some. by eapply scope_readable.
Qed.
Lemma sound_roleDB_DeleteRole id : keeps_sound (roleDB_DeleteRole id).
Proof. apply sound_role. intros s. apply Forall_filter_sub. Qed.
#[local] Hint Resolve sound_modifyRow sound_roleDB_AddRoles sound_roleDB_DeleteRole : sound.

(** *** Resource types *)
Definition only_types : relation store := λ s s',
  t_policy s' = t_policy s ∧ t_role s' = t_role s ∧ t_obligation s' = t_obligation s ∧ seq_uuid s' = seq_uuid s.
#[local] Instance only_types_preorder : PreOrder only_types.
Proof. split; [done|]. intros s1 s2 s3 (? & ? & ? & ?) (? & ? & ? & ?). split_and!; congruence. Qed.
Lemma sound_types {A} (m : M store A) : within (λ s s', type_table s → type_table s') m → within only_types m → keeps_sound m.
Proof.
  intros Ht Ho s r s' E [Hp Hr Hob Hty]. destruct (Ho _ _ _ E) as (Ep & Er & Eo & Eu). split; [|by rewrite Eu].
  split; rewrite ?Ep, ?Er, ?Eo, ?Eu; try done. by eapply Ht.
Qed.
Lemma sound_resourceTypeDB_Set t : keeps_sound (resourceTypeDB_Set t).
Proof. apply sound_types; [apply keeps_Set|]. unfold resourceTypeDB_Set. follow ltac:(apply within_exec; [apply _|done]). Qed.
Lemma sound_resourceTypeDB_Delete id : keeps_sound (resourceTypeDB_Delete id).
Proof. apply sound_types; [apply keeps_Delete|]. apply within_exec; [apply _|done]. Qed.
Lemma sound_hierarchyDB_Set h : keeps_sound (hierarchyDB_Set h).
Proof. apply sound_types; [apply keeps_hierarchy_Set|]. unfold hierarchyDB_Set. follow ltac:(apply within_exec; [apply _|done]). Qed.
#[local] Hint Resolve sound_resourceTypeDB_Set sound_resourceTypeDB_Delete sound_hierarchyDB_Set : sound.

(** *** Obligations *)
Lemma sound_obligationDB_Update id name nc d dc v vc : keeps_sound (obligationDB_Update id name nc d dc v vc).
Proof.
  apply within_exec; [apply _|]. intros s. apply evolves_obligation. intros n [Hi Hf Hr].
  set (f := updateObligationRow id name nc d dc v vc). assert (o_id <$> (f <$> t_obligation s) = o_id <$> t_obligation s) as Ei.
  { rewrite <-list_fmap_compose. apply list_fmap_ext. intros i row _. unfold f, updateObligationRow. simpl. by case_bool_decide. }
  split; rewrite ?Ei; try done. rewrite Forall_forall in *. intros row' (row & -> & Hrow)%list_elem_of_fmap.
  destruct (Hr row Hrow) as [o Ho]. unfold f, updateObligationRow. case_bool_decide; [|by eexists].
  unfold scanObligation in *. simpl. destruct vc; [by eexists|]. obind. rewrite E. by eexists.
Qed.
Lemma sound_obligationDB_Delete id : keeps_sound (obligationDB_Delete id).
Proof. apply within_exec; [apply _|]. intros s. apply evolves_obligation. intros n. by apply obligation_rows_filter. Qed.
(** A new obligation has an id never drawn before. *)
Lemma sound_Add_obligation {A} info (k : string → M store A) :
  (∀ id, keeps_sound (k id)) → keeps_sound (id ← new_uuid; _ ← obligationDB_Add (ob_set_ID id info); k id).
Proof.
  intros Hk s r s' Hb Hs. apply M_bind_cases in Hb as [(id & s1 & [= <- <-] & Hb)|[(? & [=] & _)|(? & [=] & _)]].
  apply M_bind_cases in Hb as [([] & s2 & Ha & Hb)|[(e & Ha & _)|(w & Ha & _)]].
  2,3: apply exec_cases in Ha as [[? _]|(? & _ & ->)]; [done|by apply evolves_uuid].
  apply exec_cases in Ha as [[_ ->]|(? & ? & _)]; [|done]. revert Hs. change (evolves gen s s'). etrans; [|by eapply Hk]. clear Hb.
  intros [Hp Hr Ho Ht]. split; [|simpl; lia]. split; simpl; try done.
  - eapply policies_later; [|done]. lia.
  - destruct Ho as [Hi Hf Hrd]. split.
    + rewrite fmap_app. apply NoDup_app. split_and!; [done| |apply NoDup_singleton].
      simpl. intros x Hx ->%list_elem_of_singleton. revert Hx. rewrite Hgen. by apply Hf.
    + intros m Hm. rewrite fmap_app, elem_of_app. intros [Hx|Hx]; [revert Hx; apply Hf; lia|].
      apply list_elem_of_singleton in Hx. simpl in Hx. rewrite Hgen in Hx. apply (inj gen) in Hx. lia.
    + apply Forall_app. split; [done|]. constructor; [|done]. by eexists.
  - by apply (type_table_ext s).
Qed.
#[local] Hint Resolve sound_obligationDB_Update sound_obligationDB_Delete : sound.

(** *** Policies *)
Lemma sound_policy_table s : sound gen s → policy_table s.
Proof.
  intros [[Hi Hk Hf Hr] _ _ _]. split; [done|done|by rewrite Hgen|]. intros row Hrow. rewrite Forall_forall in Hr. by apply Hr.
Qed.

Definition only_policies : relation store := λ s s',
  t_role s' = t_role s ∧ t_obligation s' = t_obligation s ∧ t_resource_type s' = t_resource_type s ∧
  t_resource_type_hierarchy s' = t_resource_type_hierarchy s ∧ seq_uuid s' = seq_uuid s.
#[local] Instance only_policies_preorder : PreOrder only_policies.
Proof. split; [done|]. intros s1 s2 s3 (? & ? & ? & ? & ?) (? & ? & ? & ? & ?). split_and!; congruence. Qed.
Lemma writePolicies_only new upd : within only_policies (writePolicies new upd).
Proof.
  unfold writePolicies. case_match; [apply within_ret, _|]. apply within_transaction; [apply _|by intros s s' (? & ? & ? & ? & ?)|].
  unfold policyDB_Create, policyDB_Update. follow ltac:(apply within_exec; [apply _|done]).
Qed.

Lemma split_ids cmp merge old names ps s new upd ids s' :
  splitNewAndUpdated cmp merge old names ps s = (Ok (new, upd, ids), s') →
  pol_ID <$> new = uuid <$> seq (seq_uuid s) (length new) ∧ seq_uuid s' = seq_uuid s + length new.
Proof.
  revert s new upd ids. induction ps as [|p ps IH]; intros s new upd ids; simpl.
  { intros [= <- <- <- <-]. split; [done|simpl; lia]. }
  destruct (findOldPolicy old p) as [o|]; intros Hs.
  - apply M_bind_Ok in Hs as ([[new1 upd1] ids1] & s1 & Hs1 & [= <- <- <- <-]). by eapply IH.
  - apply M_bind_Ok in Hs as (id & s1 & [= <- <-] & Hs).
    apply M_bind_Ok in Hs as ([[new1 upd1] ids1] & s2 & Hs1 & [= <- <- <- <-]).
    destruct (IH _ _ _ _ Hs1) as [Hi Hu]. split; [csimpl; by rewrite Hi|simpl in *; lia].
Qed.
Lemma split_uuids cmp merge old names ps :
  within (λ s s', seq_uuid s ≤ seq_uuid s') (splitNewAndUpdated cmp merge old names ps).
Proof.
  assert (PreOrder (λ s s', seq_uuid s ≤ seq_uuid s')) by (split; [by intros ?|intros ? ? ?; lia]).
  induction ps as [|p ps IH]; simpl; follow ltac:(by apply IH || (intros ? ? ? [= <- <-]; simpl; lia)).
Qed.

(** The table after new rows and merged ones are written. *)
Lemma created_rows s ps old names ns new upd n :
  sound gen s → NoDup (key_pol <$> ps) → oldPolicies s (resourceTypeMapOf ps) = Ok old →
  new = zip_with (with_id names) ns (filter (λ p, findOldPolicy old p = None) ps) →
  length ns = length (filter (λ p, findOldPolicy old p = None) ps) →
  pol_ID <$> new = uuid <$> seq (seq_uuid s) (length new) → Forall stored_form new → Forall stored_form upd →
  policies_ok gen (seq_uuid s + length new)
    (updateAll upd <$> (t_policy s ++ imap (λ i p, newPolicyRow (n + Z.of_nat i) p) new)).
Proof.
  intros Hs Hnd Hold Hnew Hlen Hids Hfn Hfu. assert (policies_ok gen (seq_uuid s + length new)
    (t_policy s ++ imap (λ i p, newPolicyRow (n + Z.of_nat i) p) new)) as Hok.
  { destruct (sd_policies gen s Hs) as [Hi Hk Hf Hr]. assert (p_id <$> imap (λ i p, newPolicyRow (n + Z.of_nat i) p) new
      = gen <$> seq (seq_uuid s) (length new)) as Hidn.
    { rewrite <-Hgen, <-Hids, fmap_imap. by apply imap_const. }
    split.
    - rewrite fmap_app, Hidn. apply NoDup_app. split_and!; [done| |apply NoDup_fmap_2, NoDup_seq; apply _].
      intros x Hx (m & -> & Hm%elem_of_seq)%list_elem_of_fmap. revert Hx. apply Hf. lia.
    - pose proof (request_keys s ps old names ns n [] (sound_policy_table s Hs) Hnd Hold Hlen) as Hkeys.
      rewrite <-Hnew in Hkeys. simpl in Hkeys. by rewrite list_fmap_id in Hkeys.
    - intros m Hm. rewrite fmap_app, Hidn, elem_of_app. intros [Hx|Hx]; [revert Hx; apply Hf; lia|].
      apply list_elem_of_fmap in Hx as (m' & E & Hm'%elem_of_seq). apply (inj gen) in E. lia.
    - apply Forall_app. split; [done|]. apply Forall_lookup. intros i row. rewrite list_lookup_imap.
      intros (p & Hp & ->)%fmap_Some. apply newRow_form. exact (Forall_lookup_1 _ _ _ _ Hfn Hp). }
  revert Hok. apply policies_fmap.
  - apply updateAll_id.
  - apply updateAll_key.
  - intros r _. by apply updateAll_form.
Qed.

Lemma sound_created {A} cmp merge ps names (k : list string → M store A) :
  NoDup (key_pol <$> ps) → Forall stored_form ps →
  (∀ old p, stored_form old → stored_form p → stored_form (merge old p)) → (∀ ids, keeps_sound (k ids)) →
  keeps_sound ('(new, upd, ids) ← (old ← reads (λ s, oldPolicies s (resourceTypeMapOf ps)); splitNewAndUpdated cmp merge old names ps);
    _ ← writePolicies new upd; k ids).
Proof.
  intros Hnd Hform Hmerge Hk s r s' Hb Hs.
  apply M_bind_cases in Hb as [([[new upd] ids] & s1 & E & Hb)|Hb].
  2:{ assert (keeps_sound (old ← reads (λ s, oldPolicies s (resourceTypeMapOf ps)); splitNewAndUpdated cmp merge old names ps)) as Hq.
      { apply within_bind; [apply _|apply within_reads, _|]. intros old s2 r2 s3 Hsp. apply evolves_quiet.
        - by eapply quiet_split.
        - by eapply split_uuids. }
      destruct Hb as [(e & E & _)|(w & E & _)]; by eapply Hq. }
  apply M_bind_Ok in E as (old & s0 & Hold & Hsp). rewrite reads_eq in Hold. injection Hold as Hold <-.
  destruct (split_ids _ _ _ _ _ _ _ _ _ _ Hsp) as [Hids Hu].
  apply splitNewAndUpdated_spec in Hsp as (Htab & _ & Hupd & ns & _ & Hnew & Hlen).
  assert (evolves gen s1 s') as He.
  2:{ revert Hs. change (evolves gen s s'). etrans; [|exact He]. apply evolves_quiet; [done|lia]. }
  (* the write *)
  apply M_bind_cases in Hb as [([] & s2 & Hw & Hb)|Hb].
  2:{ assert (∃ r2, writePolicies new upd s1 = (r2, s') ∧ ∀ u, r2 ≠ Ok u) as (r2 & Hw & Hr).
      { destruct Hb as [(e & E & _)|(w & E & _)]; eauto. }
      apply evolves_quiet; [by eapply atomic_writePolicies|]. destruct (writePolicies_only _ _ _ _ _ Hw) as (_ & _ & _ & _ & ->). done. }
  etrans; [|by eapply Hk]. clear Hb. destruct (writePolicies_only _ _ _ _ _ Hw) as (Er & Eo & Et & Eh & Eu).
  apply writePolicies_rows in Hw as (n & Hrows). injection Htab as Ep _ _ _ _ _ _. rewrite Ep in Hrows.
  intros [_ Hr Ho Ht]. split; [|by rewrite Eu]. split; rewrite ?Er, ?Eo, ?Eu; [|done|done|by apply (type_table_ext s1)].
  rewrite Hrows, Hu. eapply created_rows; try done.
  - rewrite Hnew. apply Forall_forall. intros q (m & p & _ & [_ Hp]%list_elem_of_filter & ->)%zip_with_id_ids.
    rewrite Forall_forall in Hform. exact (Hform p Hp).
  - rewrite Hupd. apply Forall_forall. intros q (p & Hp & Hm)%list_elem_of_omap. unfold merged_of in Hm.
    pose proof (findOldPolicy_spec s ps old p Hold Hp) as Hf. destruct (findOldPolicy old p) as [o|]; [|done].
    destruct Hf as (row & Hrow & _ & Hscan). destruct (cmp o p); [done|]. injection Hm as <-.
    apply Hmerge; [|rewrite Forall_forall in Hform; auto]. pose proof (po_form _ _ _ (sd_policies _ _ Hs)) as Hrf.
    rewrite Forall_forall in Hrf. destruct (Hrf row Hrow) as (q & Hq & Hqf). congruence.
Qed.

Lemma sound_policy_Create `{LogicsRole} `{LogicsResourceType} `{LogicsResourceTypeHierarchy} calc visitor ps :
  Forall stored_form ps → keeps_sound (policy_Create calc visitor ps).
Proof.
  intros Hps. unfold policy_Create. case_bool_decide; [apply within_ret, _|]. apply within_bind; [apply _|apply within_reads, _|intros ?].
  apply within_bind; [apply _|apply within_lift, _|intros ops]. apply within_guard; [apply _|].
  intros [types roles] [Hnd _]%validateNew_Ok. apply within_bind; [apply _|apply within_lift, _|intros names].
  apply sound_created; [done|done|intros; apply merged_form|]. intros ids. apply within_ret, _.
Qed.
Lemma sound_created_only cmp merge ps names :
  NoDup (key_pol <$> ps) → Forall stored_form ps →
  (∀ old p, stored_form old → stored_form p → stored_form (merge old p)) →
  keeps_sound ('(new, upd, _) ← (old ← reads (λ s, oldPolicies s (resourceTypeMapOf ps)); splitNewAndUpdated cmp merge old names ps);
    writePolicies new upd).
Proof.
  intros Hnd Hps Hmerge s r s' Hb. apply (sound_created cmp merge ps names (λ _, mret tt) Hnd Hps Hmerge (λ _, within_ret _ _) s r s').
  unfold mbind, M_bind in Hb |- *. destruct (reads _ s) as [[old|e|w] s1]; [|done..].
  destruct (splitNewAndUpdated _ _ _ _ _ s1) as [[[[new upd] ids]|e|w] s2]; [|done..].
  rewrite <-Hb. by destruct (writePolicies new upd s2) as [[[]|e|w] s3].
Qed.
Lemma sound_policy_CreatePrivate `{LogicsRole} `{LogicsResourceType} `{LogicsResourceTypeHierarchy} ps :
  Forall stored_form ps → keeps_sound (policy_CreatePrivate ps).
Proof.
  intros Hps. unfold policy_CreatePrivate. case_bool_decide; [apply within_ret, _|].
  apply within_bind; [apply _|apply within_lift, _|intros ops]. apply within_guard; [apply _|].
  intros [types roles] [Hnd _]%validateNew_Ok. apply within_bind; [apply _|apply within_lift, _|intros names].
  apply sound_created_only; [done|done|intros; apply merged_form].
Qed.
Lemma sound_policy_InitPolicy ps :
  NoDup (key_pol <$> ps) → Forall stored_form ps → keeps_sound (policy_InitPolicy ps).
Proof.
  intros Hnd Hps. unfold policy_InitPolicy. case_bool_decide; [apply within_ret, _|].
  apply sound_created_only; [done|done|apply merged_start_form].
Qed.

Lemma updated_form ops m ps ps' :
  (∀ id old, m !! id = Some old → stored_form old) → Forall stored_form ps →
  omap_all (updateRules ops m) ps = Ok ps' → Forall stored_form ps'.
Proof.
  intros Hm Hps Hu%omap_all_Ok. induction Hu as [|p p' ps ps' Hp _ IH]; [done|]. inversion Hps; subst.
  constructor; [|by apply IH]. unfold updateRules in Hp. destruct (m !! pol_ID p) as [old|] eqn:E; [|by injection Hp as <-].
  obind. destruct (getPolicyNoConditionOperations p). injection Hp as <-. destruct (Hm _ _ E) as [Ha Hd].
  split; simpl; by apply overwrite_single.
Qed.
Lemma sound_policy_Update `{LogicsResourceType} calc visitor ps :
  Forall stored_form ps → keeps_sound (policy_Update calc visitor ps).
Proof.
  intros Hps. unfold policy_Update. case_bool_decide; [apply within_ret, _|].
  apply within_bind; [apply _|apply within_lift, _|intros ?]. apply within_known; [apply _|]. intros s m r s' Hm Hb Hs.
  assert (∀ id old, m !! id = Some old → stored_form old) as Hform.
  { intros id old Hid. destruct (sd_policies _ _ Hs) as [Hi _ _ Hf]. rewrite Forall_forall in Hf.
    apply (GetByPolicyIDs_spec s _ _ Hi Hm) in Hid as (row & Hrow & _ & _ & Hscan).
    destruct (Hf row Hrow) as (q & Hq & Hqf). congruence. }
  enough (keeps_sound (if (size m =? 0)%nat then mret tt else _)) as Hk by exact (Hk s r s' Hb Hs). clear Hb.
  case_match; [apply within_ret, _|]. do 2 (apply within_bind; [apply _|apply within_reads, _ || apply within_lift, _|intros ?]).
  apply within_guard; [apply _|]. intros ps' Hps'. apply sound_transaction, sound_policyDB_Update. by eapply updated_form.
Qed.

Lemma sound_policy_Delete calc visitor ids : keeps_sound (policy_Delete calc visitor ids).
Proof.
  unfold policy_Delete. case_bool_decide; [apply within_ret, _|]. do 2 (apply within_bind; [apply _|apply within_reads, _|intros ?]).
  cbv zeta. apply sound_transaction. assert (∀ l, Forall stored_form (keepConditional <$> l)) as Hform.
  { intros l. apply Forall_forall. intros q (p & -> & _)%list_elem_of_fmap. split; apply single_no_unconditional. }
  evolve.
Qed.
Lemma sound_policy_DeleteByResourceIDs resources : keeps_sound (policy_DeleteByResourceIDs resources).
Proof. unfold policy_DeleteByResourceIDs. evolve. Qed.

(** *** The events and the administration *)
Lemma sound_wired_events :
  (∀ id, keeps_sound (UserDeleted wired_event id)) ∧ (∀ id, keeps_sound (DepartmentDeleted wired_event id)) ∧
  (∀ id, keeps_sound (UserGroupDeleted wired_event id)) ∧ (∀ id, keeps_sound (AppDeleted wired_event id)) ∧
  (∀ info, keeps_sound (AppNameModified wired_event info)) ∧
  (∀ id name orgType, keeps_sound (OrgNameModified wired_event id name orgType)) ∧
  (∀ id, keeps_sound (RoleDeleted wired_event id)) ∧ (∀ id name, keeps_sound (RoleNameModified wired_event id name)).
Proof.
  split_and!; intros; unfold UserDeleted, DepartmentDeleted, UserGroupDeleted, AppDeleted, AppNameModified, OrgNameModified,
    RoleDeleted, RoleNameModified; simpl; unfold deleteMemberByMemberID, updateMemberName, role_updateAppName, deletePolicyByAccessorID,
    updatePolicyAccessorName, updateAppName, memberDB_DeleteByMemberIDs, memberDB_UpdateMemberName; evolve.
Qed.

(** *** Role administration *)
#[local] Hint Extern 1 (within _ (exec _ (set_role (fmap (modifyRow _ _ _ _ _ _ _))))) => apply sound_modifyRow : sound.
Lemma sound_memberDB_Add id infos : keeps_sound (memberDB_AddRoleMembers id infos).
Proof. unfold memberDB_AddRoleMembers. case_bool_decide; [apply within_ret, _|apply sound_new_member]. Qed.
#[local] Hint Resolve sound_memberDB_Add : sound.
Lemma sound_initRolesLoop roles : keeps_sound (initRolesLoop roles).
Proof. induction roles as [|role roles IH]; simpl; unfold roleDB_SetRoleByID; evolve. Qed.
#[local] Hint Resolve sound_initRolesLoop : sound.
Lemma sound_role_services `{LogicsResourceType} :
  (∀ visitor role, keeps_sound (role_AddRole visitor role)) ∧
  (∀ visitor id, keeps_sound (role_DeleteRole wired_event visitor id)) ∧
  (∀ visitor id name nc d dc sc scc, keeps_sound (role_ModifyRole wired_event visitor id name nc d dc sc scc)) ∧
  (∀ visitor method id infos, keeps_sound (AddOrDeleteRoleMemebers visitor method id infos)).
Proof.
  destruct sound_wired_events as (_ & _ & _ & _ & _ & _ & Hd & Hn). split_and!.
  - intros. unfold role_AddRole. evolve.
  - intros. unfold role_DeleteRole, memberDB_DeleteByRoleID. evolve.
  - intros. unfold role_ModifyRole, roleDB_ModifyRole. evolve.
  - intros. unfold AddOrDeleteRoleMemebers, role_AddRoleMembers, role_DeleteRoleMembers, memberDB_DeleteRoleMembers. evolve.
Qed.

Lemma sound_role_start :
  (∀ roles, keeps_sound (role_InitRoles roles)) ∧ (∀ infos, keeps_sound (role_InitRoleMemebers infos)).
Proof. split; intros; unfold role_InitRoles, role_InitRoleMemebers; evolve. Qed.

(** *** Types, obligations and obligation types *)
Lemma sound_type_services :
  (∀ visitor t, keeps_sound (resourceType_Set visitor t)) ∧ (∀ t, keeps_sound (resourceType_SetPrivate t)) ∧
  (∀ visitor id, keeps_sound (resourceType_Delete visitor id)) ∧ (∀ h, keeps_sound (hierarchy_SetPrivate h)) ∧
  (∀ ts, keeps_sound (resourceType_InitResourceTypes ts)) ∧ (∀ str, keeps_sound (hierarchy_Init str)).
Proof.
  split_and!; intros; unfold resourceType_Set, resourceType_SetPrivate, resourceType_Delete, hierarchy_Init, hierarchy_SetPrivate,
    resourceType_InitResourceTypes, setWhenChanged; evolve.
Qed.
Lemma sound_obligationTypeDB_Set info : keeps_sound (obligationTypeDB_Set info).
Proof. unfold obligationTypeDB_Set. evolve. Qed.
#[local] Hint Resolve sound_obligationTypeDB_Set : sound.
Lemma sound_obligation_start infos : keeps_sound (obligationType_InitObligationTypes infos).
Proof. unfold obligationType_InitObligationTypes. evolve. Qed.
Lemma sound_obligation_services `{LogicsResourceType} `{GoJsonSchema} :
  (∀ visitor info, keeps_sound (obligationType_Set visitor info)) ∧ (∀ info, keeps_sound (obligationType_SetPrivate info)) ∧
  (∀ visitor id, keeps_sound (obligationType_Delete visitor id)) ∧
  (∀ visitor info, keeps_sound (obligation_Add visitor info)) ∧ (∀ visitor id, keeps_sound (obligation_Delete visitor id)) ∧
  (∀ visitor id name nc d dc v vc, keeps_sound (obligation_Update visitor id name nc d dc v vc)).
Proof.
  split_and!; intros.
  1-3: unfold obligationType_Set, obligationType_SetPrivate, obligationType_Delete, obligationTypeDB_Delete; evolve.
  - unfold obligation_Add. do 2 (apply within_bind; [apply _|apply within_lift, _ || apply within_reads, _|intros ?]).
    case_match; [apply within_lift, _|]. apply within_bind; [apply _|apply within_lift, _|intros _].
    apply sound_Add_obligation. intros id. apply within_ret, _.
  - unfold obligation_Delete. evolve.
  - unfold obligation_Update. evolve.
Qed.
End services.
