(* ===== verification/Run.v ===== *)
(** * Runs of the service ([Authorization/main.go])

    The service as a transition system over its tables: a step is one request
    to the public or the private server, one message of a topic, one start, or
    one round of the clean-up thread, each with whatever the database, the
    clock, the random choices of the runtime and the other services answer
    during it.  A request or message is one step: statements of different
    requests are not interleaved. *)
From Stdlib Require Import Ascii.
From S2P Require Import Prelude Json Interfaces Common PolicyCalc PolicyCalcSpec Store PolicyDB PolicyDBSpec Decision Listings Policy PolicyMerge PolicyOps PolicyCreate RoleDB Event Role RoleSpec Mq ResourceTypeDB ResourceType ResourceTypeSpec ResourceTypeOps ObligationDB Obligation ObligationSpec System Rest SchemaLang Schema RestCalc RestCalcSpec RestRole RestRoleSpec RestPolicy RestPolicySpec RestTypes InitData RestAdmin Soundness.

(** ** The routes ([RegisterPublic], [RegisterPrivate], [Subscribe]) *)
Inductive calc_route : Set :=
| POST_operation_check | POST_resource_list | POST_resource_filter | POST_resource_operation
| POST_public_operation_check | POST_public_resource_operation | POST_public_resource_type_operation.
Inductive policy_route : Set :=
| POST_private_policy | POST_policy_delete
| GET_policy | POST_policy | PUT_policy | DELETE_policy | GET_resource_policy | GET_accessor_policy.
Inductive private_route : Set := PUT_private_resource_type | PUT_resource_type_hierarchy | PUT_private_obligation_type.
Inductive topic : Set :=
| core_user_delete | core_dept_delete | core_group_delete | core_app_deleted | core_org_name_modify | core_app_name_modified
| resource_name_modify | resource_ancestors_modify.

Inductive action : Type :=
| Decide (route : calc_route) (c : request)
| Policies (route : policy_route) (c : request)
| Administrate (route : admin_route) (c : request)
| Private (route : private_route) (c : request)
| Message (t : topic) (message : text)
| Start (files : embedded)
| CleanUp.

(** ** One step *)
Section run.
Context `{GoRuntime} `{DrivenUserMgnt} `{JsonLogic} `{SqlEnv} `{SqlLike} `{GoJsonSchema} `{HydraAdmin} `{JsonSchema} `{GoTime}.
Context (order : gmap string Z) (decode : text → outcome string).

(** The handlers, with the services over the store the request finds: no
    handler asks a service after it has written. *)
Definition calc_handler (s : store) (route : calc_route) : request → outcome reply :=
  let db := policyCalcDB s in
  let role := role_service s in
  let types := resourceType_service s in
  let obligations := obligation_service s in
  match route with
  | POST_operation_check => check
  | POST_resource_list => resourceList
  | POST_resource_filter => resourceFilter
  | POST_resource_operation => resourceOperation
  | POST_public_operation_check => checkPublic
  | POST_public_resource_operation => resourceOperationPublic
  | POST_public_resource_type_operation => resourceTypeOperationPublic
  end.
Definition policy_handler (s : store) (route : policy_route) : request → M store reply :=
  let role := role_service s in
  let types := resourceType_service s in
  let hierarchy := hierarchy_service s in
  let obligations := obligation_service s in
  let obligationTypes := obligationType_service s in
  match route with
  | POST_private_policy => createPrivate
  | POST_policy_delete => deletePrivate
  | GET_policy => RestPolicy.get policyCalc_service
  | POST_policy => create policyCalc_service
  | PUT_policy => RestPolicy.set policyCalc_service
  | DELETE_policy => RestPolicy.delete policyCalc_service
  | GET_resource_policy => getResourcePolicy policyCalc_service
  | GET_accessor_policy => getAccessorPolicy
  end.
Definition wired_admin (s : store) (route : admin_route) : request → M store reply :=
  let types := resourceType_service s in
  let hierarchy := hierarchy_service s in
  admin_handler wired_event order route.
Definition private_handler (s : store) (route : private_route) : request → M store reply :=
  let types := resourceType_service s in
  match route with
  | PUT_private_resource_type => ResourceTypeRest.setPrivate
  | PUT_resource_type_hierarchy => HierarchyRest.setPrivate
  | PUT_private_obligation_type => ObligationTypeRest.setPrivate
  end.
Definition topicFuncMap (t : topic) : text → M store unit :=
  match t with
  | core_user_delete => mq_userDeleted wired_event
  | core_dept_delete => mq_deptDelete wired_event decode
  | core_group_delete => mq_userGroupDeleted wired_event
  | core_app_deleted => mq_appDeleted wired_event
  | core_org_name_modify => mq_updateOrgName wired_event
  | core_app_name_modified => mq_appNameModified wired_event
  | resource_name_modify => mq_updateResourceName
  | resource_ancestors_modify => mq_updateResourceAncestors
  end.

(** The store after an action. *)
Definition perform (a : action) (s : store) : store :=
  match a with
  | Decide route c => (serve (reads (λ s, calc_handler s route c)) s).2
  | Policies route c => (serve (policy_handler s route c) s).2
  | Administrate route c => (serve (wired_admin s route c) s).2
  | Private route c => (serve (private_handler s route c) s).2
  | Message t message => (topicFuncMap t message s).2
  | Start files => (startUp files s).2
  | CleanUp => (cleanRound curTime s).2
  end.

(** What is asked of the files of a build: the policies they hold are of
    different resources and accessors, with at most one unconditional rule
    of each kind. *)
Definition build_ok (files : embedded) : Prop :=
  ∀ policiesJson policyData, readFiles (policyDataDirectory files) = Ok policiesJson →
    omap_all readInitPolicy policiesJson = Ok policyData →
    NoDup (key_pol <$> omap (λ x, x) policyData) ∧ Forall stored_form (omap (λ x, x) policyData).
End run.

(** ** Every step keeps the tables sound *)
Section wrappers.
Context (R : relation store) `{!PreOrder R}.
Lemma within_logged m : within R m → within R (logged m).
Proof. intros Hm s r s'. unfold logged. destruct (m s) as [[|e|w] s0] eqn:Em; intros [= <- <-]; by eapply Hm. Qed.
Lemma within_acknowledge m : within R m → within R (acknowledge m).
Proof.
  intros Hm s r s'. unfold acknowledge. destruct (m s) as [[|e|w] s0] eqn:Em; [|case_match|]; intros [= <- <-]; by eapply Hm.
Qed.
Lemma within_on_message {A} (o : outcome A) k : (∀ a, within R (k a)) → within R (on_message o k).
Proof.
  intros Hk. destruct o; simpl; [by apply within_acknowledge|by apply within_ret|by apply within_lift].
Qed.
Lemma within_serve h s : within R h → R s (serve h s).2.
Proof. intros Hh. unfold serve. destruct (h s) as [[r|e|w] s'] eqn:E; by eapply Hh. Qed.
End wrappers.

(** Policies read from a request. *)
Lemma rules_form p allow deny : pol_Rules p = bothRules allow deny ∨ pol_Rules p = unconditionalRules allow deny → stored_form p.
Proof.
  assert (∀ ops, single_unconditional [rule_of ops]) as Hone.
  { intros ops. unfold single_unconditional. rewrite filter_cons. case_decide; simpl; lia. }
  intros [E|E]; unfold stored_form; rewrite E; split; try apply Hone.
  - destruct allow; [|apply Hone]. unfold single_unconditional. simpl. lia.
  - destruct deny; [|apply Hone]. unfold single_unconditional. simpl. lia.
Qed.
Lemma readPolicy_form `{GoTime} rulesOf j p :
  rulesOf = bothRules ∨ rulesOf = unconditionalRules → readPolicy rulesOf j = Ok p → stored_form p.
Proof.
  intros Hr Hp. unfold readPolicy in Hp. obind.
  match goal with H : (let '(_, _) := ?x in _) = Ok _ |- _ => destruct x as [allow deny] end. obind. simplify_eq.
  apply (rules_form _ allow deny). destruct Hr as [->| ->]; [by left|by right].
Qed.
Lemma readPolicies_form `{GoTime} rulesOf js ps :
  rulesOf = bothRules ∨ rulesOf = unconditionalRules → omap_all (readPolicy rulesOf) js = Ok ps → Forall stored_form ps.
Proof.
  intros Hr Hps%omap_all_Ok. induction Hps as [|j p js ps Hp _ IH]; constructor; [|done]. by eapply readPolicy_form.
Qed.
Lemma readChanges_form `{GoTime} ids js i ps : readChanges ids i js = Ok ps → Forall stored_form ps.
Proof.
  revert i ps. induction js as [|j js IH]; intros i ps Hps; simpl in Hps; [injection Hps as <-; constructor|].
  obind. match goal with H : (let '(_, _) := ?x in _) = Ok _ |- _ => destruct x as [allow deny] end. obind.
  simplify_eq. constructor; [|by eapply IH].
  by eapply rules_form; left.
Qed.

(** The body of the handler a goal is about. *)
Ltac head_of h := match h with ?f _ => head_of f | _ => h end.
Ltac unfold_handler := match goal with |- within _ ?h => let f := head_of h in unfold f end; cbv zeta.

Section sound.
Context (gen : nat → string) `{!Inj (=) (=) gen}.
Context `{GoRuntime} `{DrivenUserMgnt} `{JsonLogic} `{SqlEnv} `{SqlLike} `{GoJsonSchema} `{HydraAdmin} `{JsonSchema} `{GoTime}.
Context (Hgen : uuid = gen) (order : gmap string Z) (decode : text → outcome string).
Abbreviation keeps_sound := (within (evolves gen)).

Lemma sound_admin s route c : keeps_sound (wired_admin order s route c).
Proof.
  pose (types := resourceType_service s). destruct (sound_role_services gen Hgen) as (Ha & Hd & Hm & Hb).
  destruct (sound_type_services gen) as (Hs & _ & Hdt & _).
  destruct (sound_obligation_services gen Hgen) as (Hot & _ & Hotd & Hoa & Hod & Hou).
  destruct route as [[]| | | | | | | | | | | | | | | | | |]; unfold wired_admin; cbv zeta; cbn [admin_handler role_handler];
    unfold_handler; evolve.
Qed.
Lemma sound_private s route c : keeps_sound (private_handler s route c).
Proof.
  pose (types := resourceType_service s). destruct (sound_type_services gen) as (_ & Hs & _ & Hh & _).
  destruct (sound_obligation_services gen Hgen) as (_ & Hot & _).
  destruct route; unfold private_handler; cbv zeta; unfold_handler; evolve.
Qed.
Lemma sound_policies s route c : keeps_sound (policy_handler s route c).
Proof.
  destruct route; unfold policy_handler; cbv zeta; unfold_handler.
  - apply within_bind; [apply _|apply within_lift, _|intros js]. apply within_guard; [apply _|]. intros ps Hps.
    apply within_bind; [apply _| |intros; apply within_ret, _]. eapply sound_policy_CreatePrivate; [apply _|done|].
    eapply readPolicies_form; [|done]. by right.
  - pose proof (sound_policy_DeleteByResourceIDs gen). evolve.
  - evolve.
  - do 2 (apply within_bind; [apply _|apply within_lift, _|intros ?]). apply within_guard; [apply _|]. intros ps Hps.
    apply within_bind; [apply _| |intros; apply within_ret, _]. eapply sound_policy_Create; [apply _|done|].
    eapply readPolicies_form; [|done]. by left.
  - do 2 (apply within_bind; [apply _|apply within_lift, _|intros ?]). apply within_guard; [apply _|]. intros ps Hps.
    apply within_bind; [apply _| |intros; apply within_ret, _]. eapply sound_policy_Update; [apply _|done|by eapply readChanges_form].
  - pose proof (λ calc, sound_policy_Delete gen calc). evolve.
  - evolve.
  - evolve.
Qed.
Lemma sound_messages t message : keeps_sound (topicFuncMap decode t message).
Proof.
  destruct (sound_wired_events gen) as (Hu & Hd & Hg & Ha & Han & Ho & _).
  destruct t; cbn [topicFuncMap]; unfold_handler; try (apply within_on_message; [apply _|]; eauto; intros [[id name] orgType]; eauto).
  - unfold policy_UpdateResourceName. case_match; [|apply within_ret, _|apply within_lift, _].
    do 3 (apply within_bind; [apply _|apply within_lift, _|intros ?]). apply within_acknowledge. auto with sound.
  - unfold policy_UpdateResourceAncestors. case_match; [|apply within_ret, _|apply within_lift, _].
    do 4 (apply within_bind; [apply _|apply within_lift, _|intros ?]). apply within_acknowledge. auto with sound.
Qed.
Lemma sound_start files : build_ok files → keeps_sound (startUp files).
Proof.
  intros Hb. destruct (sound_role_start gen Hgen) as (Hr & Hrm). pose proof (sound_obligation_start gen) as Hot.
  destruct (sound_type_services gen) as (_ & _ & _ & _ & Ht & Hh).
  unfold startUp.
  repeat (apply within_bind; [apply _| |intros ?]); apply within_logged; try solve [evolve].
  apply within_guard; [apply _|]. intros js Hjs. apply within_guard; [apply _|]. intros ps Hps.
  destruct (Hb js ps Hjs Hps) as [Hnd Hform]. eapply sound_policy_InitPolicy; [apply _|done..].
Qed.
End sound.

(** ** Runs *)
Section runs.
Context (gen : nat → string).

(** One action, with what the environment answers during it; ids come from
    one generator. *)
Inductive step : relation store :=
| step_action (runtime : GoRuntime) (users : DrivenUserMgnt) (logic : JsonLogic) (sql : SqlEnv) (lk : SqlLike)
    (schemas : GoJsonSchema) (hydra : HydraAdmin) (validator : JsonSchema) (time : GoTime)
    (order : gmap string Z) (decode : text → outcome string) a s :
    uuid = gen → match a with Start files => build_ok files | _ => True end →
    step s (perform order decode a s).

Lemma step_evolves `{!Inj (=) (=) gen} s s' : step s s' → evolves gen s s'.
Proof.
  intros [runtime users logic sql lk schemas hydra validator time order decode a s0 Hgen Ha]. destruct a; simpl.
  - apply within_serve, within_reads, _.
  - by eapply within_serve, sound_policies.
  - by eapply within_serve, sound_admin.
  - by eapply within_serve, sound_private.
  - destruct (topicFuncMap decode t message s0) as [r s1] eqn:E. by eapply sound_messages.
  - destruct (startUp files s0) as [r s1] eqn:E. by eapply sound_start.
  - destruct (cleanRound curTime s0) as [r s1] eqn:E. eapply within_logged; [|done].
    unfold policy_DeleteByEndTime. auto with sound.
Qed.
Lemma run_evolves `{!Inj (=) (=) gen} s s' : rtc step s s' → evolves gen s s'.
Proof. induction 1 as [|s1 s2 s3 Hs _ IH]; [done|]. etrans; [by apply step_evolves|done]. Qed.

(** The database before the first start. *)
Definition new_database (n : Z) : store := {|
  t_policy := []; t_role := []; t_role_member := []; t_obligation := []; t_obligation_type := []; t_resource_type := [];
  t_resource_type_hierarchy := []; seq_uuid := 0; seq_primary := n
|}.
End runs.

Lemma new_database_sound gen n : sound gen (new_database n).
Proof.
  split; simpl; [split; simpl; [constructor|constructor|intros; apply not_elem_of_nil|constructor]|constructor| |].
  - split; simpl; [constructor|intros; apply not_elem_of_nil|constructor].
  - split; simpl; constructor.
Qed.

(** Sound tables are what the decisions ask for. *)
Lemma sound_readable gen s : sound gen s → Forall PolicyDBSpec.readable (t_policy s).
Proof.
  intros Hs. eapply Forall_impl; [exact (po_form _ _ _ (sd_policies _ _ Hs))|]. intros row (q & Hq & _).
  unfold scanWithAncestors in Hq. obind. by eexists.
Qed.
Lemma sound_obligations gen s : sound gen s → obligations_ok s.
Proof.
  intros Hs. destruct (sd_obligations _ _ Hs) as [Hi _ Hr]. split; [done|]. by rewrite Forall_forall in Hr.
Qed.

(** C13. Whatever requests, messages, starts and clean-ups the service
    handles, in whatever order and with whatever failures of the database and
    answers of the other services, tables that are sound stay sound: policies
    and obligations have distinct ids and none that is still to be handed out,
    no resource and accessor has two policies, resource types and trees have
    one row per id, and every column that holds JSON can be read back. *)
Theorem runs_keep_tables_sound gen s s' :
  Inj (=) (=) gen → sound gen s → rtc (step gen) s s' → sound gen s' ∧ seq_uuid s ≤ seq_uuid s'.
Proof. intros Hi Hs Hr. by apply (run_evolves gen s s' Hr). Qed.

(** C14. In every store a run of the service can reach from an empty
    database, every conforming request to the private [operation-check]
    endpoint about a resource with an id is answered, when the statements it
    needs succeed, with status 200 and exactly what the specification of a
    decision gives; the store is left as it is. *)
Theorem reachable_stores_decide gen n s `{GoRuntime} `{DrivenUserMgnt} `{JsonLogic} `{SqlEnv} `{HydraAdmin} `{!JsonSchema}
    `{!SchemaLaw} c r a ops inc toks :
  Inj (=) (=) gen → rtc (step gen) (new_database n) s → (∀ label, sql_fault label = None) →
  acts_under s a toks → expressible r a → NoDup ops → res_ID r ≠ "" →
  req_body c = Ok (TJson (encodeCheck r a ops inc)) →
  ∃ cr, serve (reads (λ s, calc_handler s POST_operation_check c)) s = (ReplyOK 200 (JsonBody (checkResp inc cr)), s) ∧
    answers (stored_obligations s) (granted (live_policies s) (res_Type r) toks) r a ops inc cr.
Proof.
  intros Hi Hr Hf Hu He Hnd Hne Hb. destruct (run_evolves gen _ s Hr (new_database_sound gen n)) as [Hs _].
  destruct (wired_Check_total s r a ops inc toks) as (cr & Hc & Hans);
    [by eapply sound_readable|by right|by eapply sound_obligations|done..|].
  exists cr. split; [|done]. unfold serve, reads. change (calc_handler s POST_operation_check c) with (wired_check s c).
  rewrite (check_reads_back s c r a ops inc); [by rewrite Hc|by eapply acts_under_types|done..].
Qed.
