(* ===== verification/RestSample.v ===== *)
(** * Requests on the sample deployment

    A validator that decides conformance, a token service that knows the
    tokens ["t1"] of user ["u1"] and ["ta"] of an administrator, and requests to
    the endpoints over the store of [TypeSample]. *)
From Stdlib Require Import Ascii.
From S2P Require Import Prelude Json Interfaces Common PolicyCalc PolicyCalcSpec Store PolicyDB PolicyDBSpec Sample Decision Policy PolicyOps RoleDB Event Role RoleSpec Mq RoleAdmin RoleSample ObligationDB Obligation System TypeSample Rest SchemaLang Schema RestCalc RestCalcSpec RestRole RestRoleSpec RestPolicy RestPolicySpec RestTypes RestAdmin.

Definition sample_validator : JsonSchema := {|
  Validate name body :=
    match schemas !! name, body with
    | Some sch, TJson j => if accepts sch j then None else Some "does not conform"
    | Some _, TRaw _ => Some "not JSON"
    | None, _ => Some "no such schema"
    end
|}.
Lemma sample_validator_law : @SchemaLaw sample_validator.
Proof.
  split. intros name sch body E. simpl. rewrite E. destruct body as [j|r]; [|split; [done|by intros (j & ? & _)]].
  destruct (accepts sch j) eqn:Ha; split; try done; [by exists j|]. intros (j' & [= <-] & Ha'). congruence.
Qed.

Definition sample_token (id : string) : text := marshal (jobj
  [("active", JBool true); ("sub", JStr id); ("scope", JStr "all"); ("client_id", JStr "web");
   ("ext", jobj [("visitor_type", JStr "realname"); ("login_ip", JStr ""); ("udid", JStr ""); ("account_type", JStr "other");
                 ("client_type", JStr "web")])]).
Definition sample_hydra : HydraAdmin := {|
  introspect_post token :=
    inr (200%Z, if bool_decide (token = "t1") then sample_token "u1"
                else if bool_decide (token = "ta") then sample_token "admin" else marshal (jobj [("active", JBool false)]));
  body_string _ := ""
|}.
#[export] Existing Instances sample_validator sample_hydra | 100.
#[export] Existing Instance sample_validator_law | 100.

Definition sample_request (token : string) (params : list (string * string)) (query : list (string * list string)) (body : json)
  : request := {|
  req_header h := if bool_decide (h = "Authorization") then "Bearer " +:+ token else "";
  req_param k := default "" ((list_to_map params : gmap string string) !! k);
  req_query := list_to_map query;
  req_body := Ok (TJson body)
|}.

Lemma sample_user_service : user_service_total.
Proof. intros id. split; intros w; discriminate. Qed.

(** ** Decisions *)
Definition nameless_request : json := jobj
  [("accessor", jobj [("id", JStr "u1"); ("type", JStr "user")]);
   ("resource", jobj [("id", JStr "x"); ("type", JStr "doc"); ("created_by", jobj [])]);
   ("operation", strings ["read"]); ("method", JStr "GET")].

(** An accepted body without the creator's id is answered with status 500. *)
Lemma check_fates_witness :
  let c := sample_request "" [] [] nameless_request in
  accepts check_schema nameless_request = true ∧ serve (reads (λ s, wired_check s c)) type_store = (Recovery, type_store).
Proof.
  intros c. split; [vm_compute; reflexivity|].
  destruct (check_fates type_store c (TJson nameless_request)) as (Hs & _ & Hp).
  - reflexivity.
  - apply type_store_ok.
  - apply sample_user_service.
  - specialize (Hp _ eq_refl ltac:(vm_compute; reflexivity)) as (_ & Hrec & _).
    apply injective_projections; [|exact Hs]. apply Hrec.
    exists (list_to_map [("id", JStr "x"); ("type", JStr "doc"); ("created_by", jobj [])]), ∅.
    split_and!; reflexivity.
Defined.

Lemma check_over_http_witness :
  let inc := [PolicCalcyIncludeOperationObligations] in
  let r := sample_resource "x" "u2" ["f"] in
  let c := sample_request "" [] [] (encodeCheck r (sample_user "u1") ["read"] inc) in
  ∃ cr, wired_check type_store c = Ok (ReplyOK 200 (JsonBody (checkResp inc cr))) ∧
    answers (stored_obligations type_store)
      (granted (live_policies type_store) "doc" (identities type_store ["u1"; "d1"] [NormalUser])) r (sample_user "u1") ["read"] inc cr.
Proof.
  intros inc r c.
  apply (check_over_http type_store c r (sample_user "u1") ["read"] inc (identities type_store ["u1"; "d1"] [NormalUser])).
  - apply type_store_ok.
  - apply type_store_ok.
  - reflexivity.
  - by constructor.
  - split; [done|]. by repeat constructor.
  - by apply (bool_decide_unpack _).
  - reflexivity.
Defined.

(** The reply itself. *)
Example check_reply :
  wired_check type_store (sample_request "" [] [] (encodeCheck (sample_resource "x" "u2" ["f"]) (sample_user "u1") ["read"]
    [PolicCalcyIncludeOperationObligations]))
  = Ok (ReplyOK 200 (JsonBody (jobj [("result", JBool true); ("include", jobj [("operation_obligations",
      JArr [jobj [("operation", JStr "read");
                  ("obligations", JArr [jobj [("type_id", JStr "watermark"); ("value", JStr "strong")]])]])])]))).
Proof. vm_compute. reflexivity. Qed.

Definition public_request : json := jobj
  [("resource", jobj [("id", JStr "x"); ("type", JStr "doc")]); ("operation", strings ["read"; "write"]); ("method", JStr "GET")].

Lemma checkPublic_decides_for_token_witness :
  rep_status (serve (reads (λ s, wired_checkPublic s (sample_request "stale" [] [] public_request))) type_store).1 = 401%Z ∧
  ∃ r ops b, readResource true (jobj [("id", JStr "x"); ("type", JStr "doc")]) = Ok r ∧ ops = ["read"; "write"] ∧
    wired_checkPublic type_store (sample_request "t1" [] [] public_request)
      = Ok (ReplyOK 200 (JsonBody (jobj [("result", JBool b)]))) ∧
    (b = true ↔ ∀ op, op ∈ ops →
       decision (granted (live_policies type_store) (res_Type r) (identities type_store ["u1"; "d1"] [NormalUser]))
         r (sample_user "u1") op = Some true).
Proof.
  split.
  - eapply (checkPublic_decides_for_token type_store (sample_request "stale" [] [] public_request)).
    + vm_compute. reflexivity.
    + apply type_store_ok.
    + apply type_store_ok.
    + reflexivity.
    + reflexivity.
  - destruct (checkPublic_decides_for_token type_store (sample_request "t1" [] [] public_request)
      (token_info true "u1" "all" "web" RealName "" "" 0 6)) as [_ Hd].
    + vm_compute. reflexivity.
    + apply type_store_ok.
    + apply type_store_ok.
    + reflexivity.
    + edestruct (Hd eq_refl) as (r & ops & b & Hr & Hops & Hc & Hb).
      * eapply (user_acts _ _ ["u1"; "d1"] [NormalUser]); reflexivity.
      * reflexivity.
      * vm_compute. reflexivity.
      * intros (m & cb & [= <-] & E & _). vm_compute in E. discriminate E.
      * exists r, ops, b. split_and!; [exact Hr| |exact Hc|exact Hb]. vm_compute in Hops. by injection Hops as <-.
Defined.

(** The schema of the filter does not require the type of a resource. *)
Definition filter_request : json := jobj
  [("accessor", jobj [("id", JStr "u1"); ("type", JStr "user")]);
   ("resources", JArr [jobj [("id", JStr "x"); ("type", JStr "doc")]; jobj [("id", JStr "y")]]);
   ("operation", strings ["read"]); ("method", JStr "GET")].
Lemma resourceFilter_fates_witness :
  ∃ w, wired_resourceFilter type_store (sample_request "" [] [] filter_request) = Panic w.
Proof.
  edestruct (resourceFilter_fates type_store (sample_request "" [] [] filter_request)) as (l & Hl & Hp & _).
  - reflexivity.
  - vm_compute. reflexivity.
  - apply type_store_ok.
  - apply sample_user_service.
  - apply Hp. vm_compute in Hl. injection Hl as <-. right. left. eexists. split; [reflexivity|]. right. left. reflexivity.
Defined.

(** ** Administration *)
Lemma administration_needs_admin_witness :
  let s := role_store in let c := sample_request "ta" [("id", "r1")] [] JNull in
  (serve (admin_handler wired_event ∅ (RoleRoute DELETE_role) c) s).2 ≠ s ∧ from_admin c.
Proof.
  intros s c. assert ((serve (admin_handler wired_event ∅ (RoleRoute DELETE_role) c) s).2 ≠ s) as Hne.
  { intros E. apply (f_equal (length ∘ t_role)) in E. vm_compute in E. discriminate E. }
  split; [exact Hne|]. by apply (administration_needs_admin wired_event ∅ (RoleRoute DELETE_role) c s).
Defined.

Definition type_roles_request : request :=
  sample_request "ta" [] [("resource_type_id", ["doc"]); ("limit", ["1"]); ("offset", ["0"])] JNull.

Lemma resource_type_roles_page_witness :
  ∃ page n, getRoleByResourceTypeID type_roles_request role_store = (Ok (ReplyOK 200 (ListBody page n)), role_store) ∧
    length page = 1.
Proof.
  edestruct (resource_type_roles_page type_roles_request
    {| vis_ID := "admin"; vis_Type := RealName; vis_Language := "" |} {| lq_offset := 0; lq_limit := 1 |} role_store)
    as (all & Hp & _ & E & _).
  - vm_compute. reflexivity.
  - vm_compute. reflexivity.
  - done.
  - vm_compute. reflexivity.
  - by eexists.
  - vm_compute. reflexivity.
  - simpl. lia.
  - eexists _, _. split; [exact E|]. rewrite length_map, length_take, length_drop. apply Permutation_length in Hp. rewrite Hp.
    vm_compute. reflexivity.
Defined.

(** ** Policies *)

(** A clock that prints seconds in binary. *)
Fixpoint bits (p : positive) : string :=
  match p with xH => "" | xO p => String "0" (bits p) | xI p => String "1" (bits p) end.
Fixpoint of_bits (s : string) : option positive :=
  match s with
  | EmptyString => Some xH
  | String "0" s => xO <$> of_bits s
  | String "1" s => xI <$> of_bits s
  | _ => None
  end.
Lemma of_bits_bits p : of_bits (bits p) = Some p.
Proof. induction p as [p IH|p IH|]; simpl; [by rewrite IH..|done]. Qed.
Definition sample_time : GoTime := {|
  rfc3339_parse s := match s with
                     | String "0" _ => Some 0%Z
                     | String "+" s => (λ p, Zpos p * 10 ^ 9)%Z <$> of_bits s
                     | String "-" s => (λ p, Zneg p * 10 ^ 9)%Z <$> of_bits s
                     | _ => None
                     end;
  rfc3339_format sec := match sec with
                        | Z0 => "0"
                        | Zpos p => String "+" (bits p)
                        | Zneg p => String "-" (bits p)
                        end
|}.
Lemma sample_time_law : @GoTimeLaw sample_time.
Proof. split. intros [|p|p] _; simpl; [done|by rewrite of_bits_bits..]. Qed.
#[export] Existing Instance sample_time | 100.
#[export] Existing Instance sample_time_law | 100.

(** Half a second is lost. *)
Lemma expiry_round_trip_witness :
  readEndTime {["expires_at" := JStr (expiresAt 1700000000500000)]} = Ok 1700000000000000%Z.
Proof.
  destruct (expiry_round_trip {["expires_at" := JStr (expiresAt 1700000000500000)]} 1700000000500000) as [E _].
  - right. lia.
  - reflexivity.
  - exact E.
Defined.

Definition posted_policy : PolicyInfo :=
  {| pol_ID := "p1"; pol_ResourceID := "x"; pol_ResourceType := "doc"; pol_ResourceName := "report";
     pol_Ancestors := [{| anc_ID := "f"; anc_Type := "doc"; anc_Name := "folder" |}]; pol_HasAncestors := true; pol_AccessorID := "u1"; pol_AccessorType := AccessorUser;
     pol_AccessorName := "name"; pol_ParentDeps := [];
     pol_Rules := {| rules_Allow := [rule_of [{| op_ID := "read"; op_Name := "Read"; op_Obligations :=
       [{| obl_TypeID := "watermark"; obl_ID := "ob1"; obl_Value := JStr "strong" |}] |}]]; rules_Deny := [] |};
     pol_Condition := ""; pol_EndTime := -1; pol_CreateTime := 5; pol_ModifyTime := 5 |}.

Lemma post_reads_back_witness :
  let c := sample_request "ta" [] [] (JArr (map (λ x, encodePolicy x.1 x.2) [(Some [], posted_policy)])) in
  create policyCalc_service c type_store =
    (ids ← policy_Create policyCalc_service {| vis_ID := "admin"; vis_Type := RealName; vis_Language := "" |} [as_read posted_policy];
     mret (createdReply ids)) type_store ∧
  rep_status (serve (create policyCalc_service c) type_store).1 = 201%Z.
Proof.
  intros c. split.
  - apply (post_reads_back policyCalc_service c {| vis_ID := "admin"; vis_Type := RealName; vis_Language := "" |} [(Some [], posted_policy)]).
    + vm_compute. reflexivity.
    + constructor; [|constructor]. split; [left|by left|].
      intros o ob ->%list_elem_of_singleton ->%list_elem_of_singleton. done.
    + reflexivity.
  - vm_compute. reflexivity.
Defined.

Lemma policy_writes_over_http_witness :
  let c := sample_request "ta" [("ids", "p1")] [] JNull in
  ∃ visitor, sent_by c visitor ∧ may_authorize policyCalc_service role_store visitor "doc" "*".
Proof.
  intros c. destruct (policy_writes_over_http policyCalc_service c role_store (ReplyOK 204 (JsonBody (jobj [])))
    (serve (delete policyCalc_service c) role_store).2) as (_ & _ & Hd).
  - by apply (bool_decide_unpack _).
  - destruct Hd as (visitor & Hs & Hrows).
    + vm_compute. reflexivity.
    + exists visitor. split; [exact Hs|]. eapply (Hrows _ (list_elem_of_here _ _)). vm_compute. left.
Defined.
