(* ===== verification/RunSample.v ===== *)
(** * A run of the sample deployment

    An empty database, one start with a small build, a clean-up round and a
    decision. *)
From S2P Require Import Prelude Json Interfaces Common PolicyCalc PolicyCalcSpec Store PolicyDB PolicyDBSpec Sample Decision Policy PolicyMerge PolicyCreate RoleDB Event Role Mq RoleSample ObligationDB Obligation System TypeSample Rest SchemaLang Schema RestCalc RestCalcSpec RestPolicy RestTypes InitData RestAdmin Soundness Run RestSample.

Definition sample_type_json : json := jobj
  [("id", JStr "doc"); ("name", JStr "document"); ("description", JStr ""); ("instance_url", JStr ""); ("data_struct", JStr "tree");
   ("operation", JArr [jobj [("id", JStr "read"); ("name", JArr []); ("scope", strings [ScopeInstance])]])].
Definition sample_policy_json : json := jobj
  [("resource", jobj [("id", JStr "*"); ("type", JStr "doc"); ("name", JStr "document")]);
   ("accessor", jobj [("id", JStr "u1"); ("type", JStr "user"); ("name", JStr "user")]);
   ("rules", jobj [("allow", JArr [jobj [("operations", JArr [jobj [("id", JStr "read")]]); ("condition", jobj [])]]);
                   ("deny", JArr [])])].
Definition sample_hierarchy_json : json := jobj
  [("resource_type_id", JStr "doc"); ("children", JArr [jobj [("resource_type_id", JStr "doc"); ("children", JArr [])]])].
Definition sample_build : embedded := {|
  resourceTypeHierarchyDataStr := marshal (JArr [sample_hierarchy_json]); resourceTypeDataStr := marshal (JArr [sample_type_json]); roleDataStr := marshal (JArr []); roleMembersStr := marshal (JArr []);
  policyDataDirectory := [marshal (JArr [sample_policy_json])]; obligationTypeDataDirectory := []
|}.
Lemma sample_build_ok : build_ok sample_build.
Proof.
  intros js ps Hj Hp. vm_compute in Hj. injection Hj as <-. vm_compute in Hp. injection Hp as <-. split.
  - by apply (bool_decide_unpack _).
  - constructor; [|constructor]. split; apply (bool_decide_unpack _); reflexivity.
Qed.
#[export] Instance sample_uuid_inj : Inj (=) (=) (uuid (SqlEnv := sample_sql)).
Proof. intros m n E. simpl in E. by simplify_eq. Qed.

Definition no_decode (message : text) : outcome string := Err json_syntax_error.
Definition started : store := perform ∅ no_decode (Start sample_build) (new_database 1).
Lemma sample_run : rtc (step uuid) (new_database 1) (perform ∅ no_decode CleanUp started).
Proof.
  eapply rtc_l; [|eapply rtc_l; [|apply rtc_refl]].
  - apply (step_action uuid _ _ _ _ _ _ _ _ _ ∅ no_decode (Start sample_build)); [reflexivity|]. apply sample_build_ok.
  - by apply (step_action uuid _ _ _ _ _ _ _ _ _ ∅ no_decode CleanUp).
Qed.

Lemma runs_keep_tables_sound_witness :
  let s := perform ∅ no_decode CleanUp started in sound uuid s ∧ length (t_policy s) = 1 ∧ seq_uuid s = 1.
Proof.
  intros s. split; [|by vm_compute].
  exact (proj1 (runs_keep_tables_sound uuid (new_database 1) s sample_uuid_inj (new_database_sound uuid 1) sample_run)).
Defined.

Lemma reachable_stores_decide_witness :
  let s := perform ∅ no_decode CleanUp started in
  let r := sample_resource "x" "u2" ["f"] in
  let c := sample_request "" [] [] (encodeCheck r (sample_user "u1") ["read"] []) in
  ∃ cr, serve (reads (λ s, calc_handler s POST_operation_check c)) s = (ReplyOK 200 (JsonBody (checkResp [] cr)), s) ∧
    answers (stored_obligations s) (granted (live_policies s) "doc" (identities s ["u1"; "d1"] [NormalUser])) r
      (sample_user "u1") ["read"] [] cr.
Proof.
  intros s r c.
  apply (reachable_stores_decide uuid 1 s c r (sample_user "u1") ["read"] [] (identities s ["u1"; "d1"] [NormalUser])).
  - apply sample_uuid_inj.
  - apply sample_run.
  - reflexivity.
  - by constructor.
  - split; [done|]. by repeat constructor.
  - by apply (bool_decide_unpack _).
  - done.
  - reflexivity.
Defined.

(** The decision itself: the policy of the build grants the operation. *)
Example started_decides :
  (serve (reads (λ s, calc_handler s POST_operation_check
    (sample_request "" [] [] (encodeCheck (sample_resource "x" "u2" ["f"]) (sample_user "u1") ["read"] [])))) started).1
  = ReplyOK 200 (JsonBody (jobj [("result", JBool true)])).
Proof. vm_compute. reflexivity. Qed.
