(* ===== verification/AuthBase.v ===== *)
(** * Shared definitions of the authentication service
      ([Authentication/interfaces], [logics/common.go], [go-lib/rest/errors.go], [common/])

    [Authentication] is a service of its own: logins with their lock-out,
    single sign-on tickets, anonymous logins by SMS code, assertions,
    sessions, configuration, the outbox.  The users, their passwords and
    their error counters belong to other services, reached through clients:
    [W] is the state of those services, and a call to one of them is a
    computation on [W]. *)
From stdpp Require Export pretty.
From S2P Require Import Prelude Json.

(** ** Errors ([go-lib/rest/errors.go])

    A [rest.HTTPError] is an error whose code is ["http "] and the decimal
    notation of its [Code]; the code of any other error starts otherwise. *)
Definition BadRequest : Z := 400000000.
Definition Unauthorized : Z := 401000000.
Definition Forbidden : Z := 403000000.
Definition URINotExist : Z := 404000000.
Definition InternalServerError : Z := 500000000.

Definition http_error (cause : string) (code : Z) (detail : list string) : gerror := MkErr ("http " +:+ pretty code) cause detail.
(** [checkCodeValid] *)
Definition code_valid (code : Z) : bool :=
  (BadRequest <=? code)%Z && (code <? 600000000)%Z &&
  bool_decide (Z.quot code 1000000 ∈ [400; 401; 403; 404; 409; 500; 503]%Z).
(** [return rest.NewHTTPError(cause, code, detail)]: an invalid code panics. *)
Definition NewHTTPError {A} (cause : string) (code : Z) (detail : list string) : outcome A :=
  if code_valid code then Err (http_error cause code detail) else Panic "the parameter 'code' length should be 9".

(** [err] is a [rest.HTTPError], and one with the code [code]. *)
Definition is_http (e : gerror) : bool := String.prefix "http " (err_code e).
Definition has_code (code : Z) (e : gerror) : bool := bool_decide (err_code e = "http " +:+ pretty code).

Lemma is_http_error cause code detail : is_http (http_error cause code detail) = true.
Proof. unfold is_http, http_error. simpl. by destruct (pretty code). Qed.
Lemma has_code_error cause code code' detail : has_code code' (http_error cause code detail) = bool_decide (code = code').
Proof. unfold has_code, http_error. simpl. apply bool_decide_ext. split; [by intros ?%(inj _)%(inj pretty)|by intros ->]. Qed.

(** ** The codes of the login ([common/err_code.go]) *)
Definition InvalidAccountORPassword : Z := 401020108.
Definition UserDisabled : Z := 401020109.
Definition PasswordExpire : Z := 401020127.
Definition PasswordNotSafe : Z := 401020128.
Definition PasswordISInitial : Z := 401020129.
Definition AccountLocked : Z := 401020130.
Definition PWDThirdFailed : Z := 401020135.
Definition ControledPasswordExpire : Z := 401020137.
Definition ImageVCodeISWrong : Z := 401020151.
Definition OTPWrong : Z := 401020162.

(** ** Visitors and their roles *)
Inductive RoleType : Set := SuperAdmin | SystemAdmin | AuditAdmin | SecurityAdmin | OrganizationAdmin | OrganizationAudit | NormalUser.
#[global] Instance RoleType_eq_dec : EqDecision RoleType.
Proof. solve_decision. Defined.
Inductive VisitorType : Set := RealName | Anonymous | Business | NoVisitorType.
#[global] Instance VisitorType_eq_dec : EqDecision VisitorType.
Proof. solve_decision. Defined.
Inductive Language : Set := NoLanguage | SimplifiedChinese | TraditionalChinese | AmericanEnglish.

Record Visitor := {
  vis_ID : string; vis_IP : string; vis_Mac : string; vis_UserAgent : string; vis_Type : VisitorType; vis_Language : Language
}.

(** [CheckVisitorType] *)
Definition CheckVisitorType (visitor : Visitor) (roleTypes : list RoleType) (acceptVisitorTypes : list VisitorType)
    (acceptRoleTypes : list RoleType) : outcome unit :=
  if bool_decide (vis_Type visitor ∈ acceptVisitorTypes) then
    if bool_decide (vis_Type visitor = RealName) then
      if existsb (λ r, bool_decide (r ∈ acceptRoleTypes)) roleTypes then Ok tt
      else NewHTTPError "Unsupported user role type" Unauthorized []
    else Ok tt
  else NewHTTPError "Unsupported user type" Unauthorized [].

(** ** Users *)
Inductive AuthType : Set := NoAuthType | Local | Domain | Third.
#[global] Instance AuthType_eq_dec : EqDecision AuthType.
Proof. solve_decision. Defined.
Inductive LDAPServerType : Set := NoLDAP | WindowAD | OtherLDAP.

Record UserBaseInfo := {
  u_ID : string; u_Account : string; u_AuthType : AuthType; u_PwdErrCnt : Z; u_PwdErrLastTime : Z; u_DisableStatus : bool;
  u_LDAPType : LDAPServerType; u_DomainPath : string
}.
Definition UserBaseInfo_zero : UserBaseInfo :=
  {| u_ID := ""; u_Account := ""; u_AuthType := NoAuthType; u_PwdErrCnt := 0; u_PwdErrLastTime := 0; u_DisableStatus := false;
     u_LDAPType := NoLDAP; u_DomainPath := "" |}.

Definition SecurityAdminID : string := "4bb41612-a040-11e6-887d-005056920bea".
Definition AuditAdminID : string := "94752844-BDD0-4B9E-8927-1CA8D427E699".
Definition SystemAdminID : string := "234562BE-88FF-4440-9BFF-447F139871A2".

(** ** What the process and the database leave open *)
Class AuthEnv := {
  time_Now : Z;                        (* [time.Now()] during one operation, nanoseconds *)
  businessTimeOffset : Z;              (* [SvcConfig.BusinessTimeOffset], seconds *)
  db_fault : string → option gerror;   (* a statement (by label) the server refuses *)
  db_begin_fault : option gerror;
  db_commit_fault : option gerror;
  ulid : nat → string                  (* the n-th [ulid.Make()] *)
}.
Definition second : Z := 1000000000.
(** [t.Unix()] *)
Definition Unix (t : Z) : Z := t `div` second.
Definition unix_now `{AuthEnv} : Z := Unix time_Now.
(** [common.Now().Unix()] *)
Definition business_now `{AuthEnv} : Z := Unix (time_Now + businessTimeOffset * second).

(** ** The clients of other services ([interfaces/drivenadapters.go]) *)
Record AppInfo := { app_ID : string; app_Name : string }.
Record TokenInfo := {
  tok_Code : string; tok_AccessToken : string; tok_IDToken : string; tok_TokenType : string; tok_Scope : string;
  tok_ExpirsesIn : Z; tok_ResponseType : string
}.
Record RefreshTokenIntrospectInfo := { rti_ClientID : string; rti_Sub : string }.
Record AuthorizeInfo := { au_ClientID : string; au_RedirectURI : string; au_ResponseType : string; au_Scope : string }.
Record DeviceInfo := { dev_Name : string; dev_ClientType : string; dev_Description : string }.
Record LoginInfo := { li_Subject : string; li_Context : json }.
Record ThirdPartyAuthInfo := {
  tp_Udids : list string; tp_IP : string; tp_CredentialID : string; tp_Params : json; tp_Device : DeviceInfo
}.
Record RegisterInfo := {
  ri_ClientName : string; ri_GrantTypes : list string; ri_ResponseTypes : list string; ri_Scope : string;
  ri_RedirectURIs : list string; ri_PostLogoutRedirectURIs : list string; ri_Metadata : json
}.
Record ClientInfo := { ci_ClientID : string; ci_ClientSecret : string }.

(** An error of the thrift client: an [NcTException] with its id, or another
    error with its text. *)
Inductive thrift_error : Set := NcTException (errID : Z) | OtherError (msg : string).

Class DnUserManagement (W : Type) := {
  AnonymousAuthentication : string → string → string → M W bool;
  GetUserRolesByUserID : string → M W (list RoleType);
  GetAppInfo : string → M W AppInfo;
  AccountMatch : string → bool → bool → M W (bool * UserBaseInfo);
  UserAuth : string → string → M W (bool * string);
  UpdatePWDErrInfo : string → Z → M W unit;
  GetAnonymityInfoByID : string → M W bool;
  GetUserInfo : string → M W UserBaseInfo
}.
Class DnShareMgnt (W : Type) := {
  UsrmSMSValidate : string → string → M W (option thrift_error);
  UsrmOTPValidate : string → string → M W (option thrift_error);
  UsrmIMAGECodeValidate : string → string → M W (option thrift_error);
  UsrmDomainAuth : string → string → string → Z → M W (thrift_error + bool);
  UsrmThirdAuth : string → string → M W (thrift_error + bool);
  UsrmSendAnonymousSMSVCode : string → string → M W unit
}.
(** The session cookie between the calls of one flow is an opaque value. *)
Class DnHydra (W : Type) := {
  AuthorizeRequest : AuthorizeInfo → M W (string * string);
  VerifierLogin : string → string → M W (string * string);
  VerifierConsent : string → string → string → M W TokenInfo;
  GetTokenEndpoint : M W string;
  AssertionForToken : string → string → string → M W TokenInfo;
  GetLoginRequestInformation : string → M W DeviceInfo;
  AcceptLoginRequest : string → string → M W string;
  AcceptConsentRequest : string → string → json → M W string;
  Hydra_PublicRegister : RegisterInfo → M W ClientInfo;
  CreateTrustedPair : string → string → M W unit;
  GetKidTrustedPairByIssuer : string → M W (gmap string bool);
  SetAppAsUserAgent : string → M W unit;
  DeleteSession : string → string → M W unit;
  IntrospectRefreshToken : string → M W RefreshTokenIntrospectInfo;
  GetClientInfo : string → M W ClientInfo
}.
Class DnEacp (W : Type) := { ThirdPartyAuthentication : ThirdPartyAuthInfo → M W LoginInfo }.
Class DnEacpLog (W : Type) := {
  Publish : string → json → M W unit;
  OpSetAppAccessTokenPerm : Visitor → string → M W unit;
  OpDeleteAppAccessTokenPerm : Visitor → string → M W unit
}.
Class DrivenMessageBroker (W : Type) := { AnonymousSmsExpUpdated : Z → M W unit }.

(** ** Encrypted parameters ([logics/crypto.go]): base64 and RSA, errors as
    their text. *)
Class Rsa := { base64_decode : string → string + string; rsa_decrypt : string → string + string }.
Definition DecodeAndDecrypt `{Rsa} (cipherText : string) : outcome string :=
  match base64_decode cipherText with
  | inl msg => NewHTTPError msg BadRequest []
  | inr decodedData =>
      match rsa_decrypt decodedData with
      | inl msg => NewHTTPError msg BadRequest []
      | inr plainText => Ok plainText
      end
  end.

(** The state of an operation: the tables of this service and the other
    services. *)
Section state.
Context {D W : Type}.
Definition on_db {A} (m : M D A) : M (D * W) A := λ s, let '(r, d) := m s.1 in (r, (d, s.2)).
Definition on_world {A} (m : M W A) : M (D * W) A := λ s, let '(r, w) := m s.2 in (r, (s.1, w)).

(** Calls that leave the tables alone: checks and calls of other services. *)
Definition keeps_db {A} (m : M (D * W) A) : Prop := ∀ s, (m s).2.1 = s.1.
Lemma keeps_db_lift {A} (o : outcome A) : keeps_db (lift o).
Proof. done. Qed.
Lemma keeps_db_world {A} (m : M W A) : keeps_db (on_world m).
Proof. intros [d w]. unfold on_world. simpl. by destruct (m w). Qed.
Lemma keeps_db_ret {A} (a : A) : keeps_db (mret a).
Proof. done. Qed.
Lemma keeps_db_bind {A B} (m : M (D * W) A) (k : A → M (D * W) B) :
  keeps_db m → (∀ a, keeps_db (k a)) → keeps_db (x ← m; k x).
Proof.
  intros Hm Hk s. unfold mbind, M_bind. pose proof (Hm s) as E. destruct (m s) as [[a|e|x] s1]; [|done..].
  rewrite Hk. exact E.
Qed.
(** The first call of a sequence leaves the tables alone: the sequence goes on
    from the same tables, or has failed with them. *)
Lemma bind_keeps_db {A B} (m : M (D * W) A) (k : A → M (D * W) B) d w r d' w' :
  keeps_db m → (x ← m; k x) (d, w) = (r, (d', w')) →
  (∃ a w1, m (d, w) = (Ok a, (d, w1)) ∧ k a (d, w1) = (r, (d', w'))) ∨ (d' = d ∧ ∀ b, r ≠ Ok b).
Proof.
  intros Hm Hb. pose proof (Hm (d, w)) as E. unfold mbind, M_bind in Hb.
  destruct (m (d, w)) as [[a|e|x] [d1 w1]]; simpl in E; subst d1; simplify_eq; eauto.
Qed.
End state.
#[export] Hint Resolve keeps_db_lift keeps_db_world keeps_db_ret keeps_db_bind : isf.

Lemma code_valid_range code : code_valid code = true → (BadRequest ≤ code < 600000000)%Z.
Proof. unfold code_valid. rewrite !andb_true_iff. intros [[?%Z.leb_le ?%Z.ltb_lt] _]. done. Qed.
