(* ===== verification/AuthStore.v ===== *)
(** * The tables of the authentication service ([Authentication/migrations/init.sql], [dbaccess])

    One table per component.  A statement is all or nothing and may be refused
    by the server; an [insert] of a key that is taken is refused.  [n_ulid]
    counts the ULIDs drawn, [n_id] is the next AUTO_INCREMENT value. *)
From S2P Require Import Prelude Json AuthBase.

Record ticket_row := { tk_id : string; tk_user_id : string; tk_client_id : string; tk_create_time : Z }.
Record sms_row := { sm_id : string; sm_phone_number : string; sm_anonymity_id : string; sm_content : string; sm_create_time : Z }.
Record perm_row := { pe_app_id : string; pe_create_time : Z }.
Record outbox_row := { ob_id : Z; ob_business_type : Z; ob_message : text; ob_create_time : Z }.
Record unordered_row := { un_id : Z; un_message : text; un_status : Z; un_created_at : Z; un_updated_at : Z }.
Record session_row := { se_session_id : string; se_subject : string; se_client_id : string; se_exp : Z; se_context : text }.
Record client_row := {
  cl_id : string; cl_name : string; cl_secret : string; cl_redirect_uris : string; cl_grant_types : string;
  cl_response_types : string; cl_scope : string; cl_post_logout : string; cl_metadata : text
}.
#[global] Instance ticket_row_eq_dec : EqDecision ticket_row.
Proof. solve_decision. Defined.
#[global] Instance sms_row_eq_dec : EqDecision sms_row.
Proof. solve_decision. Defined.
#[global] Instance outbox_row_eq_dec : EqDecision outbox_row.
Proof. solve_decision. Defined.

Record auth_db := {
  t_ticket : list ticket_row;
  t_sms : list sms_row;
  t_perm : list perm_row;
  t_outbox : list outbox_row;
  t_unordered : list unordered_row;
  t_session : list session_row;
  t_conf : list (string * string);
  t_client : list client_row;
  n_ulid : nat;
  n_id : Z
}.
Definition set_ticket (f : list ticket_row → list ticket_row) (d : auth_db) : auth_db :=
  {| t_ticket := f (t_ticket d); t_sms := t_sms d; t_perm := t_perm d; t_outbox := t_outbox d; t_unordered := t_unordered d; t_session := t_session d; t_conf := t_conf d; t_client := t_client d; n_ulid := n_ulid d; n_id := n_id d |}.
Definition set_sms (f : list sms_row → list sms_row) (d : auth_db) : auth_db :=
  {| t_ticket := t_ticket d; t_sms := f (t_sms d); t_perm := t_perm d; t_outbox := t_outbox d; t_unordered := t_unordered d; t_session := t_session d; t_conf := t_conf d; t_client := t_client d; n_ulid := n_ulid d; n_id := n_id d |}.
Definition set_perm (f : list perm_row → list perm_row) (d : auth_db) : auth_db :=
  {| t_ticket := t_ticket d; t_sms := t_sms d; t_perm := f (t_perm d); t_outbox := t_outbox d; t_unordered := t_unordered d; t_session := t_session d; t_conf := t_conf d; t_client := t_client d; n_ulid := n_ulid d; n_id := n_id d |}.
Definition set_outbox (f : list outbox_row → list outbox_row) (d : auth_db) : auth_db :=
  {| t_ticket := t_ticket d; t_sms := t_sms d; t_perm := t_perm d; t_outbox := f (t_outbox d); t_unordered := t_unordered d; t_session := t_session d; t_conf := t_conf d; t_client := t_client d; n_ulid := n_ulid d; n_id := n_id d |}.
Definition set_unordered (f : list unordered_row → list unordered_row) (d : auth_db) : auth_db :=
  {| t_ticket := t_ticket d; t_sms := t_sms d; t_perm := t_perm d; t_outbox := t_outbox d; t_unordered := f (t_unordered d); t_session := t_session d; t_conf := t_conf d; t_client := t_client d; n_ulid := n_ulid d; n_id := n_id d |}.
Definition set_session (f : list session_row → list session_row) (d : auth_db) : auth_db :=
  {| t_ticket := t_ticket d; t_sms := t_sms d; t_perm := t_perm d; t_outbox := t_outbox d; t_unordered := t_unordered d; t_session := f (t_session d); t_conf := t_conf d; t_client := t_client d; n_ulid := n_ulid d; n_id := n_id d |}.
Definition set_conf (f : list (string * string) → list (string * string)) (d : auth_db) : auth_db :=
  {| t_ticket := t_ticket d; t_sms := t_sms d; t_perm := t_perm d; t_outbox := t_outbox d; t_unordered := t_unordered d; t_session := t_session d; t_conf := f (t_conf d); t_client := t_client d; n_ulid := n_ulid d; n_id := n_id d |}.
Definition set_client (f : list client_row → list client_row) (d : auth_db) : auth_db :=
  {| t_ticket := t_ticket d; t_sms := t_sms d; t_perm := t_perm d; t_outbox := t_outbox d; t_unordered := t_unordered d; t_session := t_session d; t_conf := t_conf d; t_client := f (t_client d); n_ulid := n_ulid d; n_id := n_id d |}.
Definition set_n_ulid (f : nat → nat) (d : auth_db) : auth_db :=
  {| t_ticket := t_ticket d; t_sms := t_sms d; t_perm := t_perm d; t_outbox := t_outbox d; t_unordered := t_unordered d; t_session := t_session d; t_conf := t_conf d; t_client := t_client d; n_ulid := f (n_ulid d); n_id := n_id d |}.
Definition set_n_id (f : Z → Z) (d : auth_db) : auth_db :=
  {| t_ticket := t_ticket d; t_sms := t_sms d; t_perm := t_perm d; t_outbox := t_outbox d; t_unordered := t_unordered d; t_session := t_session d; t_conf := t_conf d; t_client := t_client d; n_ulid := n_ulid d; n_id := f (n_id d) |}.

Definition duplicate_key : gerror := MkErr "sql" "duplicate key" [].
Definition ErrNoRows : gerror := MkErr "sql.ErrNoRows" "" [].

Section sql.
Context `{AuthEnv}.

Definition query {A} (label : string) (f : auth_db → outcome A) : M auth_db A :=
  reads (λ d, match db_fault label with Some e => Err e | None => f d end).
Definition execute (label : string) (f : auth_db → auth_db) : M auth_db unit := λ d,
  match db_fault label with Some e => (Err e, d) | None => (Ok tt, f d) end.
(** [insert] into a table with a key: refused when the key is taken. *)
Definition insert_key {A} (label : string) (taken : auth_db → bool) (f : auth_db → auth_db) (a : A) : M auth_db A := λ d,
  match db_fault label with
  | Some e => (Err e, d)
  | None => if taken d then (Err duplicate_key, d) else (Ok a, f d)
  end.
(** [ulid.Make().String()] *)
Definition new_ulid : M auth_db string := λ d, (Ok (ulid (n_ulid d)), set_n_ulid S d).

(** A transaction: the counters stay advanced when the tables are restored.
    The deferred function looks at [err] only: after a panic it is [nil] and the
    transaction is committed. *)
Definition rolled_back (d0 d1 : auth_db) : auth_db := set_n_id (λ _, n_id d1) (set_n_ulid (λ _, n_ulid d1) d0).
(** The deferred commit or rollback of a transaction that began in [d0]. *)
Definition finish_transaction {A} (d0 : auth_db) (result : outcome A * auth_db) : outcome A * auth_db :=
  match result with
  | (Ok a, d') => match db_commit_fault with None => (Ok a, d') | Some e => (Err e, rolled_back d0 d') end
  | (Err e, d') => (Err e, rolled_back d0 d')
  | (Panic w, d') => (Panic w, match db_commit_fault with None => d' | Some _ => rolled_back d0 d' end)
  end.
(** The same where the deferred function assigns the error of the commit to a
    variable that is not the result: the caller does not see it. *)
Definition finish_silently {A} (d0 : auth_db) (result : outcome A * auth_db) : outcome A * auth_db :=
  match result with
  | (Ok a, d') => (Ok a, match db_commit_fault with None => d' | Some _ => rolled_back d0 d' end)
  | (Err e, d') => (Err e, rolled_back d0 d')
  | (Panic w, d') => (Panic w, match db_commit_fault with None => d' | Some _ => rolled_back d0 d' end)
  end.
Definition in_silent_transaction {A} (body : M auth_db A) : M auth_db A := λ d,
  match db_begin_fault with Some e => (Err e, d) | None => finish_silently d (body d) end.
Definition in_transaction {A} (body : M auth_db A) : M auth_db A := λ d,
  match db_begin_fault with Some e => (Err e, d) | None => finish_transaction d (body d) end.
End sql.

(** ** Nightly cleaning ([cronDelete] of the tickets and of the SMS codes)

    The inner loop repeats one pass, stopped after [fuel] passes: [None] when
    it has not ended by then.  A pass answers [true] for [break]; an error ends
    the loop too. *)
Fixpoint clean_loop {D : Type} (pass : M D bool) (fuel : nat) (d : D) : option D :=
  match fuel with
  | 0 => None
  | S fuel =>
      match pass d with
      | (Ok false, d') => clean_loop pass fuel d'
      | (_, d') => Some d'
      end
  end.

(** A loop whose passes keep [I] and either shrink the table or stop in [Q]. *)
Lemma clean_loop_ends {D} (pass : M D bool) (size : D → nat) (I Q : D → Prop) fuel d :
  (∀ d r d', I d → pass d = (r, d') → (r = Ok false ∧ size d' < size d ∧ I d') ∨ (r ≠ Ok false ∧ Q d')) →
  I d → size d < fuel → ∃ d', clean_loop pass fuel d = Some d' ∧ Q d'.
Proof.
  intros Hp. revert d. induction fuel as [|fuel IH]; intros d HI Hlen; [lia|]. simpl.
  destruct (pass d) as [r d1] eqn:E. destruct (Hp d r d1 HI E) as [(-> & ? & ?)|[Hr HQ]]; [apply IH; [done|lia]|].
  exists d1. by destruct r as [[]| |].
Qed.
(** What every pass keeps, the loop keeps. *)
Lemma clean_loop_keeps {D} (pass : M D bool) (I : D → Prop) fuel d d' :
  (∀ d r d', I d → pass d = (r, d') → I d') → I d → clean_loop pass fuel d = Some d' → I d'.
Proof.
  intros Hp. revert d. induction fuel as [|fuel IH]; intros d HI Hc; [done|]. simpl in Hc.
  destruct (pass d) as [r d1] eqn:E. pose proof (Hp d r d1 HI E). destruct r as [[]| |]; simplify_eq; eauto.
Qed.

(** * Nightly cleaning in batches

    The tickets and the SMS codes are cleaned by the same loop: read the ids
    of a batch of old rows, delete them, until a batch is empty.  The facts
    are proved once, for a pass over any table. *)
(** ** Batches of a table *)
Section batch_of.
Context `{GoRuntime} {row : Type} (key : row → string) (old : row → Prop) `{∀ r, Decision (old r)} (site batch : nat).

(** [select key ... where old limit batch]: keys in any order. *)
Definition batch_of (t : list row) : list string := take batch (map key (range_order site (filter old t))).
Definition without (ids : list string) (t : list row) : list row := filter (λ r, key r ∉ ids) t.

Lemma batch_of_old t id : id ∈ batch_of t → ∃ r, r ∈ t ∧ old r ∧ key r = id.
Proof.
  unfold batch_of. intros (i & Hi & _)%elem_of_take. apply list_elem_of_lookup_2 in Hi. apply list_elem_of_fmap in Hi as (r & -> & Hr).
  rewrite (range_order_perm site) in Hr. apply list_elem_of_filter in Hr as [? ?]. eauto.
Qed.
Lemma batch_of_nil t : batch ≠ 0 → batch_of t = [] → filter old t = [].
Proof.
  unfold batch_of. intros Hb Hn. assert (range_order site (filter old t) ≡ₚ filter old t) as Hp by apply range_order_perm.
  destruct (range_order site _) as [|r rows]; [by apply Permutation_nil_l in Hp|]. by destruct batch.
Qed.
(** With unique keys, dropping a batch drops old rows only. *)
Lemma without_batch t ids :
  NoDup (key <$> t) → (∀ id, id ∈ ids → ∃ r, r ∈ t ∧ old r ∧ key r = id) → filter (λ r, ¬ old r) (without ids t) = filter (λ r, ¬ old r) t.
Proof.
  intros Hnd Hids. apply filter_filter_sub. intros r Hr Hne Hin. destruct (Hids _ Hin) as (r' & Hr' & He & Hid).
  destruct Hne. by rewrite <-(NoDup_fmap_inj_in key t r' r Hnd Hr' Hr Hid).
Qed.
Lemma without_shorter t ids id : id ∈ ids → (∃ r, r ∈ t ∧ old r ∧ key r = id) → length (without ids t) < length t.
Proof. intros Hin (r & Hr & _ & <-). apply (filter_key_shorter _ _ _ (key r)); [done|]. by apply list_elem_of_fmap_2. Qed.
End batch_of.

Section batches.
Context `{GoRuntime} `{AuthEnv} {row : Type} (table : auth_db → list row) (set_table : (list row → list row) → auth_db → auth_db).
Context (key : row → string) (old : row → Prop) `{∀ r, Decision (old r)} (site : nat) (batch : nat) (read_label delete_label : string).
Hypothesis table_set : ∀ f d, table (set_table f d) = f (table d).
Hypothesis batch_pos : batch ≠ 0.

Definition batch_read : M auth_db (list string) :=
  query read_label (λ d, Ok (take batch (map key (range_order site (filter old (table d)))))).
Definition batch_delete (ids : list string) : M auth_db unit :=
  if (length ids =? 0)%nat then mret tt else execute delete_label (set_table (filter (λ r, key r ∉ ids))).
Definition batch_pass : M auth_db bool :=
  ids ← batch_read; if (0 <? length ids)%nat then _ ← batch_delete ids; mret false else mret true.

(** A batch holds ids of old rows, and is empty only when there is none. *)
Lemma batch_ids d ids d' :
  batch_read d = (Ok ids, d') →
  d' = d ∧ (∀ id, id ∈ ids → ∃ r, r ∈ table d ∧ old r ∧ key r = id) ∧ (ids = [] → filter old (table d) = []).
Proof.
  unfold batch_read, query, reads. destruct (db_fault _); [done|]. intros [= <- <-]. split; [done|].
  split; [apply batch_of_old|by apply batch_of_nil].
Qed.

Lemma batch_pass_cases d r d' :
  batch_pass d = (r, d') →
  (r = Ok false ∧ length (table d') < length (table d) ∧
    (NoDup (key <$> table d) → NoDup (key <$> table d') ∧ filter (λ r, ¬ old r) (table d') = filter (λ r, ¬ old r) (table d))) ∨
  (d' = d ∧ r ≠ Ok false ∧ ((∀ label, db_fault label = None) → filter old (table d) = [])).
Proof.
  unfold batch_pass. intros Hc. apply M_bind_cases in Hc as [(ids & d1 & Hq & Hc)|Hc].
  2:{ right. assert (d' = d ∧ r ≠ Ok false ∧ ∃ e, db_fault read_label = Some e) as (-> & ? & e & He).
      { destruct Hc as [(e & Hq & ->)|(w & Hq & ->)]; unfold batch_read, query, reads in Hq; destruct (db_fault _) eqn:E; simplify_eq; eauto. }
      split_and!; [done..|]. intros Hf. by rewrite Hf in He. }
  destruct (batch_ids d ids d1 Hq) as (-> & Hids & Hnone). destruct ids as [|id ids].
  - right. injection Hc as <- <-. split_and!; [done..|]. auto.
  - simpl in Hc. unfold batch_delete, execute, mbind, M_bind in Hc. simpl in Hc.
    destruct (db_fault delete_label) as [e|] eqn:E; injection Hc as <- <-.
    + right. split_and!; [done..|]. intros Hf. by rewrite Hf in E.
    + left. rewrite table_set. split_and!; [done| |].
      * apply (without_shorter key old _ _ id); [left|]. apply Hids. left.
      * intros Hnd. split; [by apply NoDup_fmap_filter|by apply (without_batch key old)].
Qed.

(** Rows only leave the table, in their order. *)
Lemma batch_pass_sub d r d' : batch_pass d = (r, d') → table d' `sublist_of` table d.
Proof.
  unfold batch_pass, batch_read, batch_delete, query, reads, execute, mbind, M_bind. simpl.
  destruct (db_fault read_label); [by intros [= <- <-]|]. destruct (take _ _) as [|id ids]; [by intros [= <- <-]|].
  simpl. destruct (db_fault delete_label); intros [= <- <-]; [done|]. rewrite table_set. apply sublist_filter.
Qed.

(** The loop ends within one pass more than there are rows; it removes old
    rows only, and all of them when no statement is refused. *)
Lemma batch_loop_ends d fuel :
  length (table d) < fuel → NoDup (key <$> table d) →
  ∃ d', clean_loop batch_pass fuel d = Some d' ∧ filter (λ r, ¬ old r) (table d') = filter (λ r, ¬ old r) (table d) ∧
    ((∀ label, db_fault label = None) → table d' = filter (λ r, ¬ old r) (table d)).
Proof.
  intros Hlen Hnd.
  eapply (clean_loop_ends _ (λ d, length (table d)) (λ d', NoDup (key <$> table d') ∧
    filter (λ r, ¬ old r) (table d') = filter (λ r, ¬ old r) (table d))); [|done..].
  intros d1 r d2 [Hnd1 Hk1] Hp. destruct (batch_pass_cases d1 r d2 Hp) as [(-> & Hl & Hk)|(-> & Hr & Hn)].
  - left. destruct (Hk Hnd1) as [Hnd2 Hk2]. by rewrite Hk2.
  - right. split_and!; [done..|]. intros Hf. rewrite <-Hk1. symmetry. apply filter_all.
    intros x Hx He. by apply (filter_nil_not old _ x (Hn Hf)).
Qed.
End batches.
