(* ===== verification/Ticket.v ===== *)
(** * Single sign-on tickets
      ([Authentication/logics/ticket/ticket.go], [dbaccess/ticket.go])

    A client with a refresh token draws a ticket for another client, which
    redeems it once, within five minutes. *)
From S2P Require Import Prelude Json AuthBase AuthStore.

Record TicketReq := { tr_ClientID : string; tr_RefreshToken : string }.
Record TicketInfo := { ti_ID : string; ti_UserID : string; ti_ClientID : string; ti_CreateTime : Z }.

(** ** Statements *)
Section statements.
Context `{GoRuntime} `{AuthEnv}.

Definition ticketDB_Create (info : TicketInfo) : M auth_db unit :=
  insert_key "ticket.Create" (λ d, bool_decide (ti_ID info ∈ tk_id <$> t_ticket d))
    (set_ticket (λ t, t ++ [{| tk_id := ti_ID info; tk_user_id := ti_UserID info; tk_client_id := ti_ClientID info;
                               tk_create_time := ti_CreateTime info |}])) tt.

(** [QueryRow(...).Scan]: the first row. *)
Definition ticketDB_GetTicketByID (id : string) : M auth_db TicketInfo :=
  query "ticket.GetTicketByID" (λ d,
    match range_order 200 (filter (λ row, tk_id row = id) (t_ticket d)) with
    | row :: _ => Ok {| ti_ID := id; ti_UserID := tk_user_id row; ti_ClientID := tk_client_id row;
                        ti_CreateTime := tk_create_time row |}
    | [] => NewHTTPError "invalid ticket" Unauthorized []
    end).

Definition ticketDB_DeleteByIDs (ids : list string) : M auth_db unit :=
  if (length ids =? 0)%nat then mret tt
  else execute "ticket.DeleteByIDs" (set_ticket (filter (λ row, tk_id row ∉ ids))).

Definition ticketDB_batchNumber : nat := 100.
(** [select f_id ... where f_create_time < ? limit ?]: rows in any order. *)
Definition ticketDB_GetExpiredRecords (expiration : Z) : M auth_db (list string) :=
  query "ticket.GetExpiredRecords" (λ d,
    Ok (take ticketDB_batchNumber (map tk_id (range_order 201
      (filter (λ row, tk_create_time row < Unix (time_Now - expiration))%Z (t_ticket d)))))).
End statements.

Definition ticketExpiration : Z := 300 * second.

(** ** The service *)
Section ticket.
Context {W : Type} `{GoRuntime} `{AuthEnv} `{Rsa} `{!DnHydra W} `{!DnUserManagement W}.

Definition CreateTicket (reqInfo : TicketReq) : M (auth_db * W) string :=
  refreshToken ← lift (DecodeAndDecrypt (tr_RefreshToken reqInfo));
  refreshTokeninfo ← on_world (IntrospectRefreshToken refreshToken);
  _ ← lift (if bool_decide (rti_ClientID refreshTokeninfo = tr_ClientID reqInfo)
            then NewHTTPError "The client cannot apply for single sign-on credentials for itself" BadRequest [] else Ok tt);
  _ ← on_world (GetUserInfo (rti_Sub refreshTokeninfo));
  _ ← on_world (GetClientInfo (tr_ClientID reqInfo));
  id ← on_db new_ulid;
  _ ← on_db (ticketDB_Create {| ti_ID := id; ti_UserID := rti_Sub refreshTokeninfo; ti_ClientID := tr_ClientID reqInfo;
                                ti_CreateTime := unix_now |});
  mret id.

Definition ticket_check (info : TicketInfo) (clientID : string) : outcome unit :=
  if negb (bool_decide (ti_ClientID info = clientID)) then NewHTTPError "Invalid clientID" BadRequest []
  else if (ticketExpiration <? time_Now - ti_CreateTime info * second)%Z then NewHTTPError "Ticket expired" BadRequest []
  else Ok tt.
Definition ticket_Validate (ticketID clientID : string) : M auth_db string :=
  info ← ticketDB_GetTicketByID ticketID;
  _ ← lift (ticket_check info clientID);
  _ ← ticketDB_DeleteByIDs [ticketID];
  mret (ti_UserID info).

(** One pass of the inner loop of [cronDelete]; [true] is [break]. *)
Definition ticket_cleanPass : M auth_db bool :=
  ids ← ticketDB_GetExpiredRecords ticketExpiration;
  if (0 <? length ids)%nat then _ ← ticketDB_DeleteByIDs ids; mret false else mret true.
Definition ticket_clean : nat → auth_db → option auth_db := clean_loop ticket_cleanPass.
End ticket.

(** * What a ticket is worth

    In every run a ticket is redeemed at most once, by the client it was drawn
    for and within its five minutes; the nightly cleaning ends and removes
    exactly the tickets that can no longer be redeemed. *)
(** ** Cleaning *)
Section cleaning.
Context `{GoRuntime} `{AuthEnv}.

Definition expired (row : ticket_row) : Prop := (tk_create_time row < Unix (time_Now - ticketExpiration))%Z.
#[global] Instance expired_dec row : Decision (expired row).
Proof. unfold expired. apply _. Defined.

(** A pass is a pass over a batch of a hundred tickets. *)
Definition ticket_pass : M auth_db bool :=
  batch_pass t_ticket set_ticket tk_id expired 201 ticketDB_batchNumber "ticket.GetExpiredRecords" "ticket.DeleteByIDs".
Lemma cleanPass_batch : ticket_cleanPass = ticket_pass.
Proof. reflexivity. Qed.
Lemma cleanPass_sub d r d' : ticket_cleanPass d = (r, d') → t_ticket d' `sublist_of` t_ticket d ∧ n_ulid d' = n_ulid d.
Proof.
  intros Hp. split; [by eapply (batch_pass_sub t_ticket set_ticket)|]. revert Hp.
  unfold ticket_cleanPass, ticketDB_GetExpiredRecords, ticketDB_DeleteByIDs, query, reads, execute, mbind, M_bind. simpl.
  destruct (db_fault "ticket.GetExpiredRecords"); [by intros [= <- <-]|]. destruct (take _ _) as [|id ids]; [by intros [= <- <-]|].
  simpl. by destruct (db_fault "ticket.DeleteByIDs"); intros [= <- <-].
Qed.

(** C25. The cleaning of tickets ends: after one pass more than there are
    tickets it has stopped, whatever fails; when nothing fails it has removed
    exactly the tickets drawn more than five minutes before, in batches of a
    hundred. *)
Theorem ticket_cleaning_ends d fuel :
  length (t_ticket d) < fuel → NoDup (tk_id <$> t_ticket d) →
  ∃ d', ticket_clean fuel d = Some d' ∧
    filter (λ row, ¬ expired row) (t_ticket d') = filter (λ row, ¬ expired row) (t_ticket d) ∧
    ((∀ label, db_fault label = None) → t_ticket d' = filter (λ row, ¬ expired row) (t_ticket d)).
Proof.
  intros Hlen Hnd. unfold ticket_clean. rewrite cleanPass_batch. by eapply (batch_loop_ends t_ticket set_ticket tk_id expired).
Qed.
End cleaning.

(** An expired ticket in the sense of the cleaning is one [Validate] refuses. *)
Lemma expired_refused `{AuthEnv} row : expired row → (ticketExpiration < time_Now - tk_create_time row * second)%Z.
Proof. unfold expired, Unix, ticketExpiration, second. intros He. pose proof (Z.mul_div_le (time_Now - 300 * 1000000000) 1000000000). lia. Qed.

(** ** Runs *)
Inductive ticket_event : Type :=
| Drawn (id : string) (bearer : option RefreshTokenIntrospectInfo) (client : string) (at_time : Z)
| Redeemed (id user client : string) (at_time : Z).
Definition redeemed_id (e : ticket_event) : option string := match e with Redeemed id _ _ _ => Some id | Drawn _ _ _ _ => None end.
Definition event_id (e : ticket_event) : string := match e with Redeemed id _ _ _ | Drawn id _ _ _ => id end.
(** Whom hydra says the refresh token of a request belongs to. *)
Definition bearer_of {W} `{Rsa} `{!DnHydra W} (req : TicketReq) (w : W) : option RefreshTokenIntrospectInfo :=
  match DecodeAndDecrypt (tr_RefreshToken req) with
  | Ok refreshToken => match IntrospectRefreshToken refreshToken w with (Ok info, _) => Some info | _ => None end
  | _ => None
  end.

Section runs.
Context {W : Type} (gen : nat → string).

(** One call on the tickets, with any answers of the database, the clock and
    the other services; the other components draw ULIDs and leave the tickets
    alone.  A drawing is recorded by what the request asked for: the bearer of
    its refresh token, the client it names, and the time of the call. *)
Inductive ticket_step : auth_db → list ticket_event → auth_db → Prop :=
| step_draw (rt : GoRuntime) (env : AuthEnv) (rsa : Rsa) (hydra : DnHydra W) (users : DnUserManagement W) req d w id d' w' :
    ulid = gen → CreateTicket req (d, w) = (Ok id, (d', w')) → ticket_step d [Drawn id (bearer_of req w) (tr_ClientID req) time_Now] d'
| step_draw_failed (rt : GoRuntime) (env : AuthEnv) (rsa : Rsa) (hydra : DnHydra W) (users : DnUserManagement W) req d w r d' w' :
    ulid = gen → CreateTicket req (d, w) = (r, (d', w')) → (∀ id, r ≠ Ok id) → ticket_step d [] d'
| step_redeem (rt : GoRuntime) (env : AuthEnv) id client user d d' :
    ticket_Validate id client d = (Ok user, d') → ticket_step d [Redeemed id user client time_Now] d'
| step_redeem_failed (rt : GoRuntime) (env : AuthEnv) id client d r d' :
    ticket_Validate id client d = (r, d') → (∀ user, r ≠ Ok user) → ticket_step d [] d'
| step_clean (rt : GoRuntime) (env : AuthEnv) fuel d d' : ticket_clean fuel d = Some d' → ticket_step d [] d'
| step_other d d' : t_ticket d' = t_ticket d → n_ulid d ≤ n_ulid d' → ticket_step d [] d'.

(** What happened, oldest first. *)
Inductive ticket_run : list ticket_event → auth_db → Prop :=
| run_start d : t_ticket d = [] → ticket_run [] d
| run_step h d e d' : ticket_run h d → ticket_step d e d' → ticket_run (h ++ e) d'.
End runs.

(** ** The calls *)
Section calls.
Context `{GoRuntime} `{AuthEnv}.

Lemma validate_cases id client d r d' :
  ticket_Validate id client d = (r, d') →
  (∃ row, r = Ok (tk_user_id row) ∧ row ∈ t_ticket d ∧ tk_id row = id ∧ tk_client_id row = client ∧
     (time_Now - tk_create_time row * second ≤ ticketExpiration)%Z ∧
     d' = set_ticket (filter (λ row, tk_id row ∉ [id])) d) ∨
  (d' = d ∧ ∀ user, r ≠ Ok user).
Proof.
  unfold ticket_Validate. intros Hv. mcase Hv; [|right; unfold ticketDB_GetTicketByID, query, reads in E; by simplify_eq..].
  unfold ticketDB_GetTicketByID, query, reads in E. destruct (db_fault _); [done|].
  destruct (range_order 200 _) as [|row rows] eqn:Er; [done|]. injection E as <- <-.
  assert (row ∈ filter (λ row, tk_id row = id) (t_ticket d)) as Hrow by (rewrite <-(range_order_perm 200), Er; left).
  apply list_elem_of_filter in Hrow as [Hid Hrow]. mcase Hv; [|by right..].
  unfold ticket_check in E. simpl in E. destruct (bool_decide (tk_client_id row = client)) eqn:Ec; [|by vm_compute in E].
  apply bool_decide_eq_true in Ec. simpl in E. destruct (ticketExpiration <? _)%Z eqn:Et; [by vm_compute in E|].
  unfold ticketDB_DeleteByIDs, execute, mbind, M_bind in Hv. simpl in Hv. destruct (db_fault _); injection Hv as <- <-; [by right|].
  left. exists row. split_and!; try done. by apply Z.ltb_ge in Et.
Qed.
End calls.

Section create.
Context {W : Type} `{GoRuntime} `{AuthEnv} `{Rsa} `{!DnHydra W} `{!DnUserManagement W}.

Lemma create_cases req d (w : W) r d' w' :
  CreateTicket req (d, w) = (r, (d', w')) →
  (t_ticket d' = t_ticket d ∧ n_ulid d ≤ n_ulid d' ∧ ∀ id, r ≠ Ok id) ∨
  (∃ row info, r = Ok (tk_id row) ∧ tk_id row = ulid (n_ulid d) ∧ bearer_of req w = Some info ∧ tk_user_id row = rti_Sub info ∧
     tk_client_id row = tr_ClientID req ∧ rti_ClientID info ≠ tr_ClientID req ∧ tk_create_time row = unix_now ∧
     t_ticket d' = t_ticket d ++ [row] ∧ n_ulid d' = S (n_ulid d)).
Proof.
  intros Hc. unfold CreateTicket in Hc. unfold mbind at 1, M_bind at 1, lift at 1 in Hc. unfold bearer_of.
  destruct (DecodeAndDecrypt _) as [token|e|why]; [|injection Hc as <- <- <-; by left..].
  unfold mbind at 1, M_bind at 1, on_world at 1 in Hc. cbn [fst snd] in Hc.
  destruct (IntrospectRefreshToken token w) as [[info|e|why] w1]; [|injection Hc as <- <- <-; by left..].
  unfold mbind at 1, M_bind at 1, lift at 1 in Hc. case_bool_decide as Hself; [injection Hc as <- <- <-; by left|].
  do 2 (apply bind_keeps_db in Hc; [|auto with isf]; destruct Hc as [(? & ? & _ & Hc)|[-> ?]]; [|by left]).
  unfold on_db, new_ulid, ticketDB_Create, insert_key, mbind, M_bind in Hc. simpl in Hc.
  destruct (db_fault _); [injection Hc as <- <- <-; left; simpl; split_and!; [done|lia|done]|].
  case_bool_decide; injection Hc as <- <- <-; simpl; [left; split_and!; [done|lia|done]|].
  right. match goal with |- context [t_ticket d ++ [?row]] => exists row, info end. by split_and!.
Qed.
End create.

(** ** Single use *)
Section single_use.
Context {W : Type} (gen : nat → string) `{!Inj (=) (=) gen}.

(** What a row says is what was asked for when it was drawn. *)
Definition drawn_for (h : list ticket_event) (row : ticket_row) : Prop :=
  ∃ info t0, Drawn (tk_id row) (Some info) (tk_client_id row) t0 ∈ h ∧ rti_Sub info = tk_user_id row ∧ rti_ClientID info ≠ tk_client_id row ∧
    (tk_create_time row * second ≤ t0)%Z.
Lemma drawn_for_app h h' row : drawn_for h row → drawn_for (h ++ h') row.
Proof. intros (info & t0 & ? & ?). exists info, t0. rewrite elem_of_app. auto. Qed.
(** The tickets in the table were drawn, as they are, and not redeemed. *)
Record ticket_inv (h : list ticket_event) (d : auth_db) : Prop := {
  tv_ids : NoDup (tk_id <$> t_ticket d);
  tv_drawn : ∀ row, row ∈ t_ticket d → drawn_for h row;
  tv_open : ∀ row, row ∈ t_ticket d → tk_id row ∉ omap redeemed_id h;
  tv_old : ∀ e, e ∈ h → ∃ n, n < n_ulid d ∧ event_id e = gen n;
  tv_once : NoDup (omap redeemed_id h);
  tv_redeemed : ∀ id user client t, Redeemed id user client t ∈ h →
    ∃ info t0, Drawn id (Some info) client t0 ∈ h ∧ rti_Sub info = user ∧ rti_ClientID info ≠ client ∧ (t - t0 ≤ ticketExpiration)%Z
}.

(** Tickets leave the table. *)
Lemma inv_fewer h d d' :
  t_ticket d' `sublist_of` t_ticket d → n_ulid d ≤ n_ulid d' → ticket_inv h d → ticket_inv h d'.
Proof.
  intros Hs Hn [Hi Hd Ho Ho' H1 Hr]. assert (∀ row, row ∈ t_ticket d' → row ∈ t_ticket d) as Hsub.
  { intros row Hr0. by eapply elem_of_sublist. }
  split; [|by auto..| |done|done].
  - eapply sublist_NoDup; [exact Hi|by apply fmap_sublist].
  - intros e He. destruct (Ho' e He) as (n & ? & ?). exists n. split; [lia|done].
Qed.
Lemma inv_draw h d d' row info t :
  tk_id row = gen (n_ulid d) → t_ticket d' = t_ticket d ++ [row] → n_ulid d' = S (n_ulid d) →
  tk_user_id row = rti_Sub info → rti_ClientID info ≠ tk_client_id row → (tk_create_time row * second ≤ t)%Z →
  ticket_inv h d → ticket_inv (h ++ [Drawn (tk_id row) (Some info) (tk_client_id row) t]) d'.
Proof.
  intros Hid Ht Hn Hu Hc Htime [Hi Hd Ho Ho' H1 Hr].
  assert (∀ e, e ∈ h → event_id e ≠ tk_id row) as Hfresh.
  { intros e He. destruct (Ho' e He) as (n & Hlt & ->). rewrite Hid. intros ->%(inj gen). lia. }
  split; rewrite ?Ht, ?Hn, ?omap_app; simpl; rewrite ?app_nil_r; try done.
  - rewrite fmap_app. apply NoDup_app. split_and!; [done| |apply NoDup_singleton].
    intros x (row' & -> & Hrow')%list_elem_of_fmap Heq%list_elem_of_singleton.
    destruct (Hd row' Hrow') as (? & ? & Hin & _). by apply (Hfresh _ Hin).
  - intros row' [Hrow'| ->%list_elem_of_singleton]%elem_of_app; [by apply drawn_for_app, Hd|]. exists info, t. split_and!; try done. apply elem_of_app. right. left.
  - intros row' [Hrow'| ->%list_elem_of_singleton]%elem_of_app; [auto|]. intros (e & He & Hre)%list_elem_of_omap.
    apply (Hfresh e He). by destruct e; simplify_eq/=.
  - intros e [He| ->%list_elem_of_singleton]%elem_of_app; [|by exists (n_ulid d); split; [lia|]].
    destruct (Ho' e He) as (n & ? & ?). exists n. split; [lia|done].
  - intros id user client t1 [He|He%list_elem_of_singleton]%elem_of_app; [|done].
    destruct (Hr _ _ _ _ He) as (i0 & t0 & Ht0 & ?). exists i0, t0. split; [|done]. apply elem_of_app. by left.
Qed.
Lemma inv_redeem h d d' row t :
  row ∈ t_ticket d → (t - tk_create_time row * second ≤ ticketExpiration)%Z →
  t_ticket d' = filter (λ r, tk_id r ∉ [tk_id row]) (t_ticket d) → n_ulid d' = n_ulid d →
  ticket_inv h d → ticket_inv (h ++ [Redeemed (tk_id row) (tk_user_id row) (tk_client_id row) t]) d'.
Proof.
  intros Hrow Ht Htab Hn Hinv. destruct Hinv as [Hi Hd Ho Ho' H1 Hr].
  split; rewrite ?Htab, ?Hn, ?omap_app; simpl.
  - by apply NoDup_fmap_filter.
  - intros r [_ Hr']%list_elem_of_filter. by apply drawn_for_app, Hd.
  - intros r [Hne Hr']%list_elem_of_filter. rewrite elem_of_app. intros [?|?]; [by apply (Ho r)|done].
  - intros e [He| ->%list_elem_of_singleton]%elem_of_app; [auto|]. destruct (Hd row Hrow) as (? & ? & Hin & _). by apply (Ho' _ Hin).
  - apply NoDup_app. split_and!; [done| |apply NoDup_singleton]. intros x Hx ->%list_elem_of_singleton. by apply (Ho row).
  - intros id user client t' [He|He%list_elem_of_singleton]%elem_of_app.
    + destruct (Hr _ _ _ _ He) as (i0 & t0 & ? & ?). exists i0, t0. split; [|done]. apply elem_of_app. by left.
    + injection He as -> -> -> ->. destruct (Hd row Hrow) as (i0 & t0 & Hin & <- & ? & ?). exists i0, t0.
      split_and!; [apply elem_of_app; by left|done|done|lia].
Qed.

Lemma step_inv h d e d' : ticket_inv h d → ticket_step (W := W) gen d e d' → ticket_inv (h ++ e) d'.
Proof.
  intros Hinv Hs. destruct Hs as [rt env rsa hydra users req d w id d' w' Hg Hc
    |rt env rsa hydra users req d w r d' w' Hg Hc Hr|rt env id client user d d' Hv|rt env id client d r d' Hv Hr
    |rt env fuel d d' Hc|d d' Ht Hn]; rewrite ?app_nil_r.
  - apply create_cases in Hc as [(_ & _ & Hn)|(row & info & [= ->] & Hu & -> & Hsub & <- & Hne & Htime & Ht & Hn)]; [by destruct (Hn id)|].
    rewrite Hg in Hu. eapply inv_draw; try done. rewrite Htime. unfold unix_now, Unix, second. pose proof (Z.mul_div_le time_Now 1000000000). lia.
  - apply create_cases in Hc as [(Ht & Hn & _)|(row0 & info & -> & _)]; [|by destruct (Hr (tk_id row0))].
    eapply inv_fewer; [by rewrite Ht|done..].
  - apply validate_cases in Hv as [(row & [= ->] & Hrow & <- & <- & Ht & ->)|[_ Hn]]; [|by destruct (Hn user)].
    by eapply inv_redeem.
  - apply validate_cases in Hv as [(row & -> & _)|[-> _]]; [by destruct (Hr (tk_user_id row))|done].
  - revert Hinv Hc. apply clean_loop_keeps. intros d1 r d2 Hinv Hp. apply cleanPass_sub in Hp as [Hs Hn].
    eapply inv_fewer; [done|lia|done].
  - eapply inv_fewer; [by rewrite Ht|done..].
Qed.
Lemma run_inv h d : ticket_run (W := W) gen h d → ticket_inv h d.
Proof.
  induction 1 as [d Hd|h d e d' _ IH Hs]; [|by eapply step_inv].
  split; rewrite ?Hd; simpl; intros; (constructor || set_solver).
Qed.

(** C7. In every run of calls that do not overlap, whatever the database, the
    clock and the other services answer, a ticket is redeemed at most once.
    Who redeems it is the client the request that drew it named, which is not
    the client that drew it; it gets the user hydra said the refresh token of
    that request belongs to, at most five minutes after that request. *)
Theorem ticket_single_use h d :
  ticket_run (W := W) gen h d →
  NoDup (omap redeemed_id h) ∧
  ∀ id user client t, Redeemed id user client t ∈ h →
    ∃ info t0, Drawn id (Some info) client t0 ∈ h ∧ rti_Sub info = user ∧ rti_ClientID info ≠ client ∧ (t - t0 ≤ ticketExpiration)%Z.
Proof. intros Hr. destruct (run_inv h d Hr) as [_ _ _ _ Ho Hd]. by split. Qed.
End single_use.

(** ** Two requests at once

    [Validate] reads the ticket in one statement and deletes it in another. *)
Section race.
Context `{GoRuntime} `{AuthEnv}.

(** Two calls whose statements alternate. *)
Definition two_validates (id client : string) : M auth_db (string * string) :=
  info1 ← ticketDB_GetTicketByID id;
  info2 ← ticketDB_GetTicketByID id;
  _ ← lift (ticket_check info1 client);
  _ ← lift (ticket_check info2 client);
  _ ← ticketDB_DeleteByIDs [id];
  _ ← ticketDB_DeleteByIDs [id];
  mret (ti_UserID info1, ti_UserID info2).

(** Whenever one call would redeem the ticket, two overlapping calls both do:
    the delete does not look at the number of rows it removed. *)
Lemma overlapping_validates_both_redeem id client user d d' :
  ticket_Validate id client d = (Ok user, d') → (two_validates id client d).1 = Ok (user, user).
Proof.
  unfold ticket_Validate, two_validates. intros Hv. mstep Hv as info Hq. mstep Hv as u Hc. mstep Hv as u' Hd. injection Hv as <- ->.
  unfold ticketDB_GetTicketByID, query, reads in *. destruct (db_fault "ticket.GetTicketByID"); [done|].
  injection Hq as Hq <-. unfold mbind, M_bind. rewrite Hq, Hc. simpl.
  unfold ticketDB_DeleteByIDs, execute in *. simpl in *. by destruct (db_fault "ticket.DeleteByIDs").
Qed.
End race.
