(* ===== verification/Des.v ===== *)
(** * DES in CBC mode, padding and hexadecimal text
      ([crypto/des], [crypto/cipher], [encoding/hex] as [Authentication/dbaccess/anonymous_sms.go] uses them)

    The standard algorithm (FIPS 46-3): a Feistel network of sixteen rounds
    between an initial and a final permutation.  A block is 64 bits, the most
    significant bit of the first byte first. *)
From Stdlib Require Import Ascii.
From S2P Require Import Prelude.

Definition bits := list bool.
Definition permute (table : list nat) (b : bits) : bits := (λ i, default false (b !! (i - 1))) <$> table.
Definition xor (a b : bits) : bits := zip_with xorb a b.

(** ** The tables *)
Definition IP : list nat :=
  [58;50;42;34;26;18;10;2; 60;52;44;36;28;20;12;4; 62;54;46;38;30;22;14;6; 64;56;48;40;32;24;16;8;
   57;49;41;33;25;17;9;1; 59;51;43;35;27;19;11;3; 61;53;45;37;29;21;13;5; 63;55;47;39;31;23;15;7].
Definition FP : list nat :=
  [40;8;48;16;56;24;64;32; 39;7;47;15;55;23;63;31; 38;6;46;14;54;22;62;30; 37;5;45;13;53;21;61;29;
   36;4;44;12;52;20;60;28; 35;3;43;11;51;19;59;27; 34;2;42;10;50;18;58;26; 33;1;41;9;49;17;57;25].
Definition expansion : list nat :=
  [32;1;2;3;4;5; 4;5;6;7;8;9; 8;9;10;11;12;13; 12;13;14;15;16;17;
   16;17;18;19;20;21; 20;21;22;23;24;25; 24;25;26;27;28;29; 28;29;30;31;32;1].
Definition round_permutation : list nat :=
  [16;7;20;21;29;12;28;17; 1;15;23;26;5;18;31;10; 2;8;24;14;32;27;3;9; 19;13;30;6;22;11;4;25].
Definition PC1 : list nat :=
  [57;49;41;33;25;17;9; 1;58;50;42;34;26;18; 10;2;59;51;43;35;27; 19;11;3;60;52;44;36;
   63;55;47;39;31;23;15; 7;62;54;46;38;30;22; 14;6;61;53;45;37;29; 21;13;5;28;20;12;4].
Definition PC2 : list nat :=
  [14;17;11;24;1;5; 3;28;15;6;21;10; 23;19;12;4;26;8; 16;7;27;20;13;2;
   41;52;31;37;47;55; 30;40;51;45;33;48; 44;49;39;56;34;53; 46;42;50;36;29;32].
Definition rotations : list nat := [1;1;2;2;2;2;2;2;1;2;2;2;2;2;2;1].
Definition sboxes : list (list nat) := [
  [14;4;13;1;2;15;11;8;3;10;6;12;5;9;0;7; 0;15;7;4;14;2;13;1;10;6;12;11;9;5;3;8;
   4;1;14;8;13;6;2;11;15;12;9;7;3;10;5;0; 15;12;8;2;4;9;1;7;5;11;3;14;10;0;6;13];
  [15;1;8;14;6;11;3;4;9;7;2;13;12;0;5;10; 3;13;4;7;15;2;8;14;12;0;1;10;6;9;11;5;
   0;14;7;11;10;4;13;1;5;8;12;6;9;3;2;15; 13;8;10;1;3;15;4;2;11;6;7;12;0;5;14;9];
  [10;0;9;14;6;3;15;5;1;13;12;7;11;4;2;8; 13;7;0;9;3;4;6;10;2;8;5;14;12;11;15;1;
   13;6;4;9;8;15;3;0;11;1;2;12;5;10;14;7; 1;10;13;0;6;9;8;7;4;15;14;3;11;5;2;12];
  [7;13;14;3;0;6;9;10;1;2;8;5;11;12;4;15; 13;8;11;5;6;15;0;3;4;7;2;12;1;10;14;9;
   10;6;9;0;12;11;7;13;15;1;3;14;5;2;8;4; 3;15;0;6;10;1;13;8;9;4;5;11;12;7;2;14];
  [2;12;4;1;7;10;11;6;8;5;3;15;13;0;14;9; 14;11;2;12;4;7;13;1;5;0;15;10;3;9;8;6;
   4;2;1;11;10;13;7;8;15;9;12;5;6;3;0;14; 11;8;12;7;1;14;2;13;6;15;0;9;10;4;5;3];
  [12;1;10;15;9;2;6;8;0;13;3;4;14;7;5;11; 10;15;4;2;7;12;9;5;6;1;13;14;0;11;3;8;
   9;14;15;5;2;8;12;3;7;0;4;10;1;13;11;6; 4;3;2;12;9;5;15;10;11;14;1;7;6;0;8;13];
  [4;11;2;14;15;0;8;13;3;12;9;7;5;10;6;1; 13;0;11;7;4;9;1;10;14;3;5;12;2;15;8;6;
   1;4;11;13;12;3;7;14;10;15;6;8;0;5;9;2; 6;11;13;8;1;4;10;7;9;5;0;15;14;2;3;12];
  [13;2;8;4;6;15;11;1;10;9;3;14;5;0;12;7; 1;15;13;8;10;3;7;4;12;5;6;11;0;14;9;2;
   7;11;4;1;9;12;14;2;0;6;10;13;15;3;5;8; 2;1;14;7;4;10;8;13;15;12;9;0;3;5;6;11]].

(** ** One block *)
Definition nat_bits (n : nat) : bits := [Nat.testbit n 3; Nat.testbit n 2; Nat.testbit n 1; Nat.testbit n 0].
Definition bit (b : bool) : nat := if b then 1 else 0.
(** Six bits select a row by the outer two and a column by the inner four. *)
Definition substitute (box : list nat) (six : bits) : bits :=
  match six with
  | [b1; b2; b3; b4; b5; b6] =>
      nat_bits (default 0 (box !! (16 * (2 * bit b1 + bit b6) + 8 * bit b2 + 4 * bit b3 + 2 * bit b4 + bit b5)))
  | _ => []
  end.
Fixpoint substitute_all (boxes : list (list nat)) (b : bits) : bits :=
  match boxes with
  | [] => []
  | box :: boxes => substitute box (take 6 b) ++ substitute_all boxes (drop 6 b)
  end.
Definition round_function (r key : bits) : bits := permute round_permutation (substitute_all sboxes (xor (permute expansion r) key)).

Fixpoint schedule (rots : list nat) (c d : bits) : list bits :=
  match rots with
  | [] => []
  | n :: rots =>
      let c := drop n c ++ take n c in
      let d := drop n d ++ take n d in
      permute PC2 (c ++ d) :: schedule rots c d
  end.
Definition subkeys (key : bits) : list bits :=
  let b := permute PC1 key in schedule rotations (take 28 b) (drop 28 b).

Definition feistel_round (x : bits * bits) (key : bits) : bits * bits := (x.2, xor x.1 (round_function x.2 key)).
Definition feistel (keys : list bits) (x : bits * bits) : bits * bits := foldl feistel_round x keys.
Definition swap (x : bits * bits) : bits * bits := (x.2, x.1).

Definition crypt_block (keys : list bits) (block : bits) : bits :=
  let b := permute IP block in
  let x := swap (feistel keys (take 32 b, drop 32 b)) in
  permute FP (x.1 ++ x.2).
Definition encrypt_block (key block : bits) : bits := crypt_block (subkeys key) block.
Definition decrypt_block (key block : bits) : bits := crypt_block (rev (subkeys key)) block.

(** ** Bytes *)
Definition byte_bits (a : ascii) : bits := match a with Ascii b0 b1 b2 b3 b4 b5 b6 b7 => [b7; b6; b5; b4; b3; b2; b1; b0] end.
Definition bits_byte (b : bits) : ascii :=
  match b with [b7; b6; b5; b4; b3; b2; b1; b0] => Ascii b0 b1 b2 b3 b4 b5 b6 b7 | _ => zero end.
Definition to_bits (data : list ascii) : bits := data ≫= byte_bits.
Fixpoint to_bytes (b : bits) : list ascii :=
  match b with
  | b7 :: b6 :: b5 :: b4 :: b3 :: b2 :: b1 :: b0 :: b => Ascii b0 b1 b2 b3 b4 b5 b6 b7 :: to_bytes b
  | _ => []
  end.
Fixpoint blocks (data : list ascii) : list (list ascii) :=
  match data with
  | a :: b :: c :: d :: e :: f :: g :: h :: data => [a; b; c; d; e; f; g; h] :: blocks data
  | _ => []
  end.

(** ** CBC: [NewCBCEncrypter(block, iv).CryptBlocks], in bits per block *)
Fixpoint cbc_encrypt (key prev : bits) (l : list bits) : list bits :=
  match l with
  | [] => []
  | p :: l => let c := encrypt_block key (xor p prev) in c :: cbc_encrypt key c l
  end.
Fixpoint cbc_decrypt (key prev : bits) (l : list bits) : list bits :=
  match l with
  | [] => []
  | c :: l => xor (decrypt_block key c) prev :: cbc_decrypt key c l
  end.

(** The standard's worked example. *)
Definition of_hex (l : list nat) : bits := l ≫= nat_bits.
Example des_worked_example :
  encrypt_block (of_hex [1;3;3;4;5;7;7;9;9;11;11;12;13;15;15;1]) (of_hex [0;1;2;3;4;5;6;7;8;9;10;11;12;13;14;15])
  = of_hex [8;5;14;8;1;3;5;4;0;15;0;10;11;4;0;5].
Proof. vm_compute. reflexivity. Qed.

(** ** Decryption undoes encryption *)
Lemma length_permute table b : length (permute table b) = length table.
Proof. apply length_fmap. Qed.
Lemma length_xor a b : length a = length b → length (xor a b) = length a.
Proof. intros E. unfold xor. rewrite length_zip_with. lia. Qed.
Lemma xor_cancel a b : length a = length b → xor (xor a b) b = a.
Proof.
  revert b. induction a as [|x a IH]; intros [|y b] E; simplify_eq/=; [done|]. unfold xor in *. simpl. f_equal; [by destruct x, y|].
  by apply IH.
Qed.

Definition halves (x : bits * bits) : Prop := length x.1 = 32 ∧ length x.2 = 32.
Lemma length_round r key : length (round_function r key) = 32.
Proof. unfold round_function. by rewrite length_permute. Qed.
Lemma round_halves x key : halves x → halves (feistel_round x key).
Proof. intros [H1 H2]. split; simpl; [done|]. rewrite length_xor; by rewrite ?length_round. Qed.
Lemma feistel_halves keys x : halves x → halves (feistel keys x).
Proof. revert x. induction keys as [|k keys IH]; intros x Hx; [done|]. simpl. by apply IH, round_halves. Qed.
Lemma round_undone x key : halves x → feistel_round (swap (feistel_round x key)) key = swap x.
Proof. intros [H1 H2]. unfold feistel_round, swap. simpl. f_equal. apply xor_cancel. by rewrite length_round. Qed.
(** The rounds with the keys in the opposite order, between two exchanges of
    the halves. *)
Lemma feistel_undone keys x : halves x → feistel (rev keys) (swap (feistel keys x)) = swap x.
Proof.
  revert x. induction keys as [|k keys IH]; intros x Hx; [done|]. unfold feistel in *. simpl. rewrite foldl_app, IH by (by apply round_halves).
  simpl. by apply round_undone.
Qed.

Lemma IP_FP b : length b = 64 → permute IP (permute FP b) = b.
Proof. intros E. do 64 (destruct b as [|? b]; [done|]). destruct b; [|done]. reflexivity. Qed.
Lemma FP_IP b : length b = 64 → permute FP (permute IP b) = b.
Proof. intros E. do 64 (destruct b as [|? b]; [done|]). destruct b; [|done]. reflexivity. Qed.

Lemma crypt_undone keys b : length b = 64 → crypt_block (rev keys) (crypt_block keys b) = b.
Proof.
  intros Hb. unfold crypt_block. set (x := (take 32 (permute IP b), drop 32 (permute IP b))).
  assert (halves x) as Hx by (unfold x; split; cbn [fst snd]; rewrite ?length_take, ?length_drop, length_permute; reflexivity).
  destruct (feistel_halves keys x Hx) as [H1 H2]. pose proof (feistel_undone keys x Hx) as Hu.
  destruct (feistel keys x) as [l r]. unfold swap in *. cbn [fst snd] in *.
  rewrite IP_FP by (rewrite length_app; lia). rewrite take_app_length', drop_app_length' by done.
  change (feistel (rev keys) (r, l) = (x.2, x.1)) in Hu. change (permute FP ((feistel (rev keys) (r, l)).2 ++ (feistel (rev keys) (r, l)).1) = b).
  rewrite Hu. unfold x. cbn [fst snd]. rewrite take_drop. by apply FP_IP.
Qed.
Lemma length_crypt keys b : length (crypt_block keys b) = 64.
Proof. unfold crypt_block. by rewrite length_permute. Qed.
Lemma decrypt_encrypt key b : length b = 64 → decrypt_block key (encrypt_block key b) = b.
Proof. apply crypt_undone. Qed.

Lemma cbc_undone key prev l :
  length prev = 64 → Forall (λ b, length b = 64) l → cbc_decrypt key prev (cbc_encrypt key prev l) = l.
Proof.
  intros Hp Hl. revert prev Hp. induction Hl as [|p l Hpl _ IH]; intros prev Hp; [done|]. cbn [cbc_encrypt cbc_decrypt]. f_equal.
  - rewrite decrypt_encrypt by (rewrite length_xor; lia). apply xor_cancel. lia.
  - apply IH. unfold encrypt_block. apply length_crypt.
Qed.

(** ** Bytes and blocks *)
Lemma bytes_bits data : to_bytes (to_bits data) = data.
Proof. unfold to_bits. induction data as [|[] data IH]; [done|]. simpl. by f_equal. Qed.
Lemma length_to_bits data : length (to_bits data) = 8 * length data.
Proof. unfold to_bits. induction data as [|[] data IH]; [done|]. rewrite bind_cons, length_app, IH. simpl. lia. Qed.
Lemma length_to_bytes b n : length b = 8 * n → length (to_bytes b) = n.
Proof.
  revert b. induction n as [|n IH]; intros b Hb; [by destruct b|]. do 8 (destruct b as [|? b]; [simpl in Hb; lia|]).
  simpl in *. f_equal. apply IH. lia.
Qed.
Lemma bits_bytes b n : length b = 8 * n → to_bits (to_bytes b) = b.
Proof.
  revert b. induction n as [|n IH]; intros b Hb; [by destruct b|]. do 8 (destruct b as [|? b]; [simpl in Hb; lia|]).
  simpl in Hb. cbn [to_bytes]. unfold to_bits in *. rewrite bind_cons, IH by lia. done.
Qed.
Lemma blocks_eq data n : length data = 8 * n → concat (blocks data) = data ∧ length (blocks data) = n ∧ Forall (λ b, length b = 8) (blocks data).
Proof.
  revert data. induction n as [|n IH]; intros data Hd; [by destruct data|].
  do 8 (destruct data as [|? data]; [simpl in Hd; lia|]). simpl in *. destruct (IH data) as (E & Hl & Hf); [lia|].
  rewrite E, Hl. split_and!; [done..|]. by constructor.
Qed.
Lemma blocks_concat l : Forall (λ b, length b = 8) l → blocks (concat l) = l.
Proof.
  induction 1 as [|b l Hb _ IH]; [done|]. do 8 (destruct b as [|? b]; [simpl in Hb; lia|]). destruct b; [|simpl in Hb; lia].
  simpl. by rewrite IH.
Qed.
