(* ===== verification/Sms.v ===== *)
(** * Verification codes of anonymous logins
      ([Authentication/logics/sms/anonymous_sms.go], [dbaccess/anonymous_sms.go])

    A visitor of a shared link asks for a code, which is sent to a phone and
    kept with the phone number encrypted; [Validate] gives the phone number
    back.  [smsExpiration] is the value the process holds under its lock when
    an operation reads it, a [time.Duration]. *)
From Stdlib Require Import Ascii.
From S2P Require Import Prelude Json AuthBase AuthStore Des.

Record AnonymousSMSInfo := {
  as_ID : string; as_PhoneNumber : string; as_AnonymityID : string; as_Content : string; as_CreateTime : Z
}.

(** ** Hexadecimal text ([encoding/hex]) *)
Definition hex_char (n : nat) : ascii := ascii_of_nat (if (n <? 10)%nat then 48 + n else 87 + n).
Definition hex_value (c : ascii) : option nat :=
  let n := nat_of_ascii c in
  if ((48 <=? n) && (n <=? 57))%nat then Some (n - 48)
  else if ((97 <=? n) && (n <=? 102))%nat then Some (n - 87)
  else if ((65 <=? n) && (n <=? 70))%nat then Some (n - 55)
  else None.
Fixpoint EncodeToString (src : list ascii) : string :=
  match src with
  | [] => ""
  | c :: src => let n := nat_of_ascii c in String (hex_char (n / 16)) (String (hex_char (n mod 16)) (EncodeToString src))
  end.
Definition InvalidByteError : gerror := MkErr "hex" "invalid byte" [].
Definition ErrLength : gerror := MkErr "hex" "odd length hex string" [].
Fixpoint DecodeString (s : string) : outcome (list ascii) :=
  match s with
  | EmptyString => Ok []
  | String c EmptyString => match hex_value c with None => Err InvalidByteError | Some _ => Err ErrLength end
  | String c (String d s) =>
      match hex_value c, hex_value d with
      | Some x, Some y => l ← DecodeString s; Ok (ascii_of_nat (16 * x + y) :: l)
      | _, _ => Err InvalidByteError
      end
  end.

(** ** Encryption of the phone number *)
Definition desKey : string := "Ea8ek&ah".
Definition BlockSize : nat := 8.

Definition pad (data : list ascii) (blockSize : nat) : list ascii :=
  let padding := blockSize - length data `mod` blockSize in
  data ++ replicate padding (ascii_of_nat padding).
(** [data[len(data)-1]] and [data[:len(data)-padding]] panic out of range. *)
Definition unpad (data : list ascii) : outcome (list ascii) :=
  match last data with
  | None => Panic "index out of range"
  | Some c =>
      let padding := nat_of_ascii c in
      if (length data <? padding)%nat then Panic "slice bounds out of range" else Ok (take (length data - padding) data)
  end.

Definition KeySizeError : gerror := MkErr "crypto/des" "invalid key size" [].
(** [des.NewCipher(key)], then CBC with the key as initialisation vector. *)
Definition encryptDES (plaintext key : list ascii) : outcome (list ascii) :=
  if negb (length key =? 8)%nat then Err KeySizeError
  else
    let plaintext := pad plaintext BlockSize in
    Ok (to_bytes (concat (cbc_encrypt (to_bits key) (to_bits key) (to_bits <$> blocks plaintext)))).
Definition decryptDES (ciphertext key : list ascii) : outcome (list ascii) :=
  if negb (length key =? 8)%nat then Err KeySizeError
  else if negb (length ciphertext `mod` BlockSize =? 0)%nat then Panic "crypto/cipher: input not full blocks"
  else unpad (to_bytes (concat (cbc_decrypt (to_bits key) (to_bits key) (to_bits <$> blocks ciphertext)))).

Definition bytes (s : string) : list ascii := String.list_ascii_of_string s.
(** The text of the column [f_phone_number]. *)
Definition phone_column (phoneNumber : string) : outcome string :=
  c ← encryptDES (bytes phoneNumber) (bytes desKey); Ok (EncodeToString c).

(** ** Statements *)
Section statements.
Context `{GoRuntime} `{AuthEnv}.

(** [f_create_time] is a [timestamp]: a whole second.  The statements use the
    time as the driver gives it, which is what [convertTime] does except for the KDB
    databases (DB_TYPE), which are left out. *)
Definition smsDB_Create (aSMSInfo : AnonymousSMSInfo) : M auth_db unit :=
  phoneNumber ← lift (phone_column (as_PhoneNumber aSMSInfo));
  insert_key "sms.Create" (λ d, bool_decide (as_ID aSMSInfo ∈ sm_id <$> t_sms d))
    (set_sms (λ t, t ++ [{| sm_id := as_ID aSMSInfo; sm_phone_number := phoneNumber; sm_anonymity_id := as_AnonymityID aSMSInfo;
                            sm_content := as_Content aSMSInfo; sm_create_time := as_CreateTime aSMSInfo |}])) tt.

(** [QueryRow(...).Scan]: the first row; then the phone number is decrypted. *)
Definition smsDB_GetInfoByID (id : string) : M auth_db AnonymousSMSInfo :=
  row ← query "sms.GetInfoByID" (λ d,
    match range_order 210 (filter (λ row, sm_id row = id) (t_sms d)) with row :: _ => Ok row | [] => Err ErrNoRows end);
  cipherText ← lift (DecodeString (sm_phone_number row));
  plainText ← lift (decryptDES cipherText (bytes desKey));
  mret {| as_ID := id; as_PhoneNumber := String.string_of_list_ascii plainText; as_AnonymityID := sm_anonymity_id row;
          as_Content := sm_content row; as_CreateTime := sm_create_time row |}.

Definition smsDB_batchNumber : nat := 10.
Definition smsDB_GetExpiredRecords (aSMSExpiration : Z) : M auth_db (list string) :=
  query "sms.GetExpiredRecords" (λ d,
    Ok (take smsDB_batchNumber (map sm_id (range_order 211
      (filter (λ row, sm_create_time row < Unix (time_Now - aSMSExpiration))%Z (t_sms d)))))).

Definition smsDB_DeleteByIDs (ids : list string) : M auth_db unit :=
  if (length ids =? 0)%nat then mret tt else execute "sms.DeleteByIDs" (set_sms (filter (λ row, sm_id row ∉ ids))).

Definition smsDB_DeleteRecordWithinValidityPeriod (phoneNumber anonymityID : string) (aSMSExpiration : Z) : M auth_db unit :=
  encryptedData ← lift (phone_column phoneNumber);
  execute "sms.DeleteRecordWithinValidityPeriod" (set_sms (filter (λ row,
    ¬ (sm_phone_number row = encryptedData ∧ sm_anonymity_id row = anonymityID ∧
       Unix (time_Now - aSMSExpiration) ≤ sm_create_time row)%Z))).
End statements.

(** ** Messages by language *)
Definition i18n (zh_cn zh_tw en_us : string) (lang : Language) : string :=
  match lang with SimplifiedChinese => zh_cn | TraditionalChinese => zh_tw | AmericanEnglish => en_us | NoLanguage => "" end.
Definition i18nSMSVCodeExpired : Language → string := i18n "验证码已过期" "驗證碼已過期" "The verification code has expired".
Definition i18nSMSVerificationFailed : Language → string :=
  i18n "验证码校验失败" "驗證碼校驗失敗" "The CAPTCHA verification failed. Please try again".
Definition i18nSMSInvalidPhoneNumber : Language → string := i18n "手机号不合法" "手機號不合法" "Invalid tel number".

(** ** Phone numbers and codes *)
Definition is_digit (c : ascii) : bool := let n := nat_of_ascii c in ((48 <=? n) && (n <=? 57))%nat.
(** The pattern [^1[3456789]\d{9}$] *)
Definition re_MatchString (s : string) : bool :=
  match String.list_ascii_of_string s with
  | a :: b :: rest =>
      bool_decide (a = "1"%char) && ((51 <=? nat_of_ascii b) && (nat_of_ascii b <=? 57))%nat && (length rest =? 9)%nat && forallb is_digit rest
  | _ => false
  end.

(** The i-th [rand.Intn(n)] of an operation. *)
Class Random := { Intn : nat → nat → nat; Intn_range : ∀ i n, 0 < n → Intn i n < n }.
Definition numerics : list nat := [0; 1; 2; 3; 4; 5; 6; 7; 8; 9].
(** ["%d"] of a [byte] below ten. *)
Definition digit (n : nat) : ascii := ascii_of_nat (48 + n).
Definition genValidateCode `{Random} (width : nat) : string :=
  let r := length numerics in
  String.string_of_list_ascii ((λ i, digit (default 0 (numerics !! Intn i r))) <$> seq 0 width).
Definition smsWidth : nat := 6.

(** ** The service *)
Section sms.
Context {W : Type} `{GoRuntime} `{AuthEnv} `{Random} `{Rsa} `{!DnShareMgnt W}.

Definition sms_create (smsExpiration : Z) (phoneNumber anonymityID : string) : M auth_db AnonymousSMSInfo :=
  _ ← smsDB_DeleteRecordWithinValidityPeriod phoneNumber anonymityID smsExpiration;
  id ← new_ulid;
  let aSMSInfo := {| as_ID := id; as_PhoneNumber := phoneNumber; as_AnonymityID := anonymityID;
                     as_Content := genValidateCode smsWidth; as_CreateTime := unix_now |} in
  _ ← smsDB_Create aSMSInfo;
  mret aSMSInfo.

(** [anonymityID] is a parameter of the function that its body does not use. *)
Definition sms_Validate (smsExpiration : Z) (visitor : Visitor) (vcodeID vcode anonymityID : string) : M auth_db string := λ d,
  match smsDB_GetInfoByID vcodeID d with
  | (Ok aSMSInfo, d) =>
      if (as_CreateTime aSMSInfo * second + smsExpiration <? time_Now)%Z
      then (NewHTTPError (i18nSMSVCodeExpired (vis_Language visitor)) BadRequest [], d)
      else if negb (EqualFold vcode (as_Content aSMSInfo))
      then (NewHTTPError (i18nSMSVerificationFailed (vis_Language visitor)) BadRequest [], d)
      else (Ok (as_PhoneNumber aSMSInfo), d)
  | (Err e, d) =>
      if bool_decide (e = ErrNoRows) then (NewHTTPError (i18nSMSVerificationFailed (vis_Language visitor)) BadRequest [], d) else (Err e, d)
  | (Panic w, d) => (Panic w, d)
  end.

(** A plain phone number is accepted as it is; anything else is decrypted and
    has to be one then. *)
Definition read_phone (visitor : Visitor) (phoneNumber : string) : outcome string :=
  if re_MatchString phoneNumber then Ok phoneNumber
  else
    phoneNumber ← DecodeAndDecrypt phoneNumber;
    if re_MatchString phoneNumber then Ok phoneNumber
    else NewHTTPError (i18nSMSInvalidPhoneNumber (vis_Language visitor)) BadRequest [].
Definition CreateAndSendVCode (smsExpiration : Z) (visitor : Visitor) (phoneNumber anonymityID : string) : M (auth_db * W) string :=
  phoneNumber ← lift (read_phone visitor phoneNumber);
  aSMSInfo ← on_db (sms_create smsExpiration phoneNumber anonymityID);
  _ ← on_world (UsrmSendAnonymousSMSVCode (as_PhoneNumber aSMSInfo) (as_Content aSMSInfo));
  mret (as_ID aSMSInfo).

Definition sms_cleanPass (smsExpiration : Z) : M auth_db bool :=
  ids ← smsDB_GetExpiredRecords smsExpiration;
  if (0 <? length ids)%nat then _ ← smsDB_DeleteByIDs ids; mret false else mret true.
Definition sms_clean (smsExpiration : Z) : nat → auth_db → option auth_db := clean_loop (sms_cleanPass smsExpiration).

(** The new value of [smsExpiration]: [time.Minute * time.Duration(expiration)]. *)
Definition UpdateSMSExpiration (expiration : Z) : Z := int64_wrap (60 * second * expiration).
End sms.
