(* ===== verification/SmsSpec.v ===== *)
(** * What a verification code is worth

    The stored phone number can be read back; a code that was sent is accepted
    for as long as it is valid and makes every earlier code of its phone and
    link worthless; the nightly cleaning ends and removes exactly the expired
    codes. *)
From Stdlib Require Import Ascii.
From S2P Require Import Prelude Json AuthBase AuthStore Des Sms.

(** ** The encrypted column *)
Definition full_block (b : bits) : Prop := length b = 64.

Lemma cbc_encrypt_full key prev l : Forall full_block (cbc_encrypt key prev l).
Proof.
  revert prev. induction l as [|p l IH]; intros prev; [constructor|]. cbn [cbc_encrypt].
  constructor; [apply length_crypt|apply IH].
Qed.
Lemma length_cbc_encrypt key prev l : length (cbc_encrypt key prev l) = length l.
Proof. revert prev. induction l as [|p l IH]; intros prev; [done|]. cbn [cbc_encrypt length]. by rewrite IH. Qed.

Lemma to_bytes_app b b' n : length b = 8 * n → to_bytes (b ++ b') = to_bytes b ++ to_bytes b'.
Proof.
  revert b. induction n as [|n IH]; intros b Hb; [by destruct b|]. do 8 (destruct b as [|? b]; [simpl in Hb; lia|]).
  simpl in *. rewrite IH; [done|lia].
Qed.
Lemma to_bytes_concat l : Forall full_block l → to_bytes (concat l) = concat (to_bytes <$> l).
Proof. induction 1 as [|b l Hb _ IH]; [done|]. cbn [concat fmap list_fmap]. by rewrite (to_bytes_app b _ 8), IH. Qed.
Lemma bytes_full l : Forall full_block l → Forall (λ b, length b = 8) (to_bytes <$> l).
Proof. intros Hl. apply Forall_fmap. eapply Forall_impl; [exact Hl|]. intros b Hb. by apply (length_to_bytes b 8). Qed.
Lemma bits_bytes_full l : Forall full_block l → to_bits <$> (to_bytes <$> l) = l.
Proof. induction 1 as [|b l Hb _ IH]; [done|]. cbn [fmap list_fmap]. by rewrite (bits_bytes b 8), IH. Qed.
Lemma bits_full (l : list (list ascii)) : Forall (λ b, length b = 8) l → Forall full_block (to_bits <$> l).
Proof. intros Hl. apply Forall_fmap. eapply Forall_impl; [exact Hl|]. intros b Hb. unfold compose, full_block. by rewrite length_to_bits, Hb. Qed.
Lemma bytes_bits_each (l : list (list ascii)) : to_bytes <$> (to_bits <$> l) = l.
Proof. induction l as [|b l IH]; [done|]. cbn [fmap list_fmap]. by rewrite bytes_bits, IH. Qed.

(** Splitting the bytes of full blocks gives the blocks back. *)
Lemma blocks_of_bits l : Forall full_block l → to_bits <$> blocks (to_bytes (concat l)) = l.
Proof. intros Hl. rewrite to_bytes_concat by done. rewrite blocks_concat by (by apply bytes_full). by apply bits_bytes_full. Qed.

Lemma length_full l : Forall full_block l → length (to_bytes (concat l)) = 8 * length l.
Proof.
  intros Hl. rewrite to_bytes_concat by done. induction Hl as [|b l Hb _ IH]; [done|]. cbn [fmap list_fmap concat length].
  rewrite length_app, (length_to_bytes b 8) by done. lia.
Qed.

Lemma length_pad data : ∃ n, length (pad data 8) = 8 * n.
Proof.
  unfold pad. rewrite length_app, length_replicate. pose proof (Nat.div_mod_eq (length data) 8) as E.
  pose proof (Nat.mod_upper_bound (length data) 8). exists (length data / 8 + 1). lia.
Qed.
Lemma unpad_pad data : unpad (pad data 8) = Ok data.
Proof.
  unfold unpad, pad. set (k := 8 - length data `mod` 8). pose proof (Nat.mod_upper_bound (length data) 8).
  destruct k as [|k'] eqn:Ek; [lia|]. rewrite replicate_S_end, app_assoc, last_snoc.
  assert (nat_of_ascii (ascii_of_nat (S k')) = S k') as -> by (apply nat_ascii_embedding; lia).
  rewrite <-app_assoc, <-replicate_S_end, length_app, length_replicate, (proj2 (Nat.ltb_ge _ _)) by lia.
  rewrite Nat.add_sub. by rewrite take_app_length.
Qed.

Lemma decrypt_undoes_encrypt data key c : encryptDES data key = Ok c → decryptDES c key = Ok data.
Proof.
  unfold encryptDES, decryptDES, BlockSize. destruct (length key =? 8)%nat eqn:Ek; [|done]. cbn [negb]. intros [= <-].
  apply Nat.eqb_eq in Ek. destruct (length_pad data) as [n Hn]. destruct (blocks_eq _ n Hn) as (Ec & Hl & Hf).
  set (l := to_bits <$> blocks (pad data 8)). assert (Forall full_block l) as Hfl by (by apply bits_full).
  pose proof (cbc_encrypt_full (to_bits key) (to_bits key) l) as Hc.
  rewrite length_full, Nat.mul_comm, Nat.Div0.mod_mul by done. cbn [negb Nat.eqb]. rewrite blocks_of_bits by done.
  rewrite cbc_undone; [|rewrite length_to_bits; lia|done]. unfold l. rewrite to_bytes_concat by done.
  rewrite bytes_bits_each, Ec. apply unpad_pad.
Qed.

Lemma hex_value_char n : n < 16 → hex_value (hex_char n) = Some n.
Proof. intros Hn. do 16 (destruct n as [|n]; [done|]). lia. Qed.
Lemma decode_encode l : DecodeString (EncodeToString l) = Ok l.
Proof.
  induction l as [|c l IH]; [done|]. cbn [EncodeToString DecodeString]. pose proof (nat_ascii_bounded c) as Hb.
  rewrite !hex_value_char by (apply Nat.mod_upper_bound || apply Nat.Div0.div_lt_upper_bound; lia).
  rewrite IH. cbn [mbind outcome_bind]. by rewrite <-Nat.div_mod_eq, ascii_nat_embedding.
Qed.
Lemma string_bytes s : String.string_of_list_ascii (bytes s) = s.
Proof. apply String.string_of_list_ascii_of_string. Qed.

Lemma phone_column_eq phone :
  ∃ col c, phone_column phone = Ok col ∧ DecodeString col = Ok c ∧ decryptDES c (bytes desKey) = Ok (bytes phone).
Proof.
  unfold phone_column. destruct (encryptDES (bytes phone) (bytes desKey)) as [c|e|w] eqn:E; [|done..].
  exists (EncodeToString c), c. split_and!; [done|apply decode_encode|by eapply decrypt_undoes_encrypt].
Qed.
Lemma phone_column_inj phone phone' col : phone_column phone = Ok col → phone_column phone' = Ok col → phone = phone'.
Proof.
  destruct (phone_column_eq phone) as (? & c & -> & Hd & Hp), (phone_column_eq phone') as (? & c' & -> & Hd' & Hp').
  intros [= ->] [= ->]. simplify_eq. rewrite <-(string_bytes phone), <-(string_bytes phone'). congruence.
Qed.

(** ** One row *)
Section rows.
Context `{GoRuntime} `{AuthEnv}.

Definition row_of (info : AnonymousSMSInfo) (col : string) : sms_row :=
  {| sm_id := as_ID info; sm_phone_number := col; sm_anonymity_id := as_AnonymityID info; sm_content := as_Content info;
     sm_create_time := as_CreateTime info |}.
Lemma smsDB_Create_cases info d r d' :
  smsDB_Create info d = (r, d') →
  (r ≠ Ok tt ∧ d' = d) ∨
  (r = Ok tt ∧ (as_ID info ∉ sm_id <$> t_sms d) ∧
   ∃ col, phone_column (as_PhoneNumber info) = Ok col ∧ d' = set_sms (λ t, t ++ [row_of info col]) d).
Proof.
  unfold smsDB_Create. intros Hc. destruct (phone_column_eq (as_PhoneNumber info)) as (col & c & Hcol & _).
  rewrite Hcol in Hc. unfold mbind, M_bind, lift, insert_key in Hc. destruct (db_fault _); [left; by simplify_eq|].
  case_bool_decide; [left; by simplify_eq|]. right. simplify_eq. split_and!; [done..|]. eauto.
Qed.

(** The row with an id, when ids are unique. *)
Lemma only_row d row id : NoDup (sm_id <$> t_sms d) → row ∈ t_sms d → sm_id row = id → filter (λ row, sm_id row = id) (t_sms d) = [row].
Proof.
  intros Hnd Hin <-. apply Permutation_singleton_r. apply NoDup_Permutation.
  - apply NoDup_filter. by eapply NoDup_fmap_1.
  - apply NoDup_singleton.
  - intros x. rewrite list_elem_of_filter, list_elem_of_singleton. split; [|intros ->; done].
    intros [Hx Hx']. by apply (NoDup_fmap_inj_in sm_id (t_sms d)).
Qed.
Lemma query_row d row id :
  NoDup (sm_id <$> t_sms d) → row ∈ t_sms d → sm_id row = id → db_fault "sms.GetInfoByID" = None →
  smsDB_GetInfoByID id d =
  ((c ← DecodeString (sm_phone_number row); p ← decryptDES c (bytes desKey);
    Ok {| as_ID := id; as_PhoneNumber := String.string_of_list_ascii p; as_AnonymityID := sm_anonymity_id row;
          as_Content := sm_content row; as_CreateTime := sm_create_time row |}), d).
Proof.
  intros Hnd Hin Hid Hf. unfold smsDB_GetInfoByID, query, reads, mbind, M_bind, lift. rewrite Hf, (only_row d row id) by done.
  rewrite (proj1 (Permutation_singleton_r _ _) (range_order_perm 210 _ [row])).
  destruct (DecodeString (sm_phone_number row)) as [c|e|w]; [|reflexivity..]. cbn [outcome_bind]. by destruct (decryptDES c (bytes desKey)).
Qed.

(** C31. What is stored can be read: a code that [Create] has stored comes
    back from [GetInfoByID] with the phone number it was given, through the
    padding, the cipher, the hexadecimal column and back. *)
Theorem stored_code_reads_back info d d' :
  NoDup (sm_id <$> t_sms d) → db_fault "sms.GetInfoByID" = None → smsDB_Create info d = (Ok tt, d') →
  smsDB_GetInfoByID (as_ID info) d' = (Ok info, d').
Proof.
  intros Hnd Hf Hc. apply smsDB_Create_cases in Hc as [[Hc _]|(_ & Hid & col & Hcol & ->)]; [done|].
  destruct (phone_column_eq (as_PhoneNumber info)) as (col' & c & Hcol' & Hd & Hp).
  rewrite Hcol in Hcol'. injection Hcol' as <-. rewrite (query_row _ (row_of info col)); [|simpl; rewrite fmap_app; apply NoDup_app; split_and!; [done|set_solver|apply NoDup_singleton]
    |simpl; apply elem_of_app; right; left|done..].
  cbn [row_of sm_phone_number]. unfold mbind, outcome_bind. rewrite Hd, Hp, string_bytes. by destruct info.
Qed.
End rows.

(** ** Codes *)
Lemma lower_digit c d : is_digit d = true → lower c = lower d → c = d.
Proof.
  unfold is_digit, lower. intros [Hl%Nat.leb_le Hu%Nat.leb_le]%andb_true_iff.
  assert (((65 <=? nat_of_ascii d) && (nat_of_ascii d <=? 90))%nat = false) as ->.
  { apply andb_false_iff. left. apply Nat.leb_gt. lia. }
  destruct ((65 <=? nat_of_ascii c) && _)%nat eqn:E; [|done]. apply andb_true_iff in E as [E1%Nat.leb_le E2%Nat.leb_le].
  intros Ed. rewrite <-Ed in Hu, Hl. rewrite nat_ascii_embedding in Hu by lia. lia.
Qed.
(** Against digits, [EqualFold] is equality. *)
Lemma EqualFold_digits s l : forallb is_digit l = true → EqualFold s (String.string_of_list_ascii l) = bool_decide (s = String.string_of_list_ascii l).
Proof.
  revert s. induction l as [|d l IH]; intros s Hl; [by destruct s|]. simpl in Hl. apply andb_true_iff in Hl as [Hd Hl].
  destruct s as [|c s]; [done|]. simpl. rewrite IH by done.
  destruct (decide (c = d)) as [->|Hne].
  - rewrite (bool_decide_true (lower d = lower d)) by done. apply bool_decide_ext. split; [by intros ->|by intros [= ->]].
  - rewrite bool_decide_false by (intros E; by apply Hne, lower_digit). simpl. symmetry. apply bool_decide_false. by intros [= -> ->].
Qed.
Lemma code_digits `{Random} width :
  ∃ l, genValidateCode width = String.string_of_list_ascii l ∧ length l = width ∧ forallb is_digit l = true.
Proof.
  eexists. split; [reflexivity|]. split; [by rewrite length_fmap, length_seq|]. apply forallb_forall.
  intros c Hc%list_elem_of_In. apply list_elem_of_fmap in Hc as (i & -> & _). pose proof (Intn_range i 10 ltac:(lia)).
  destruct (Intn i _) as [|n]; [done|]. do 9 (destruct n as [|n]; [done|]). simpl in *. lia.
Qed.

(** A cut-off in whole seconds. *)
Lemma before_cutoff c t e : (c < Unix (t - e) → c * second + e < t)%Z.
Proof. unfold Unix, second. intros Hc. pose proof (Z.mul_div_le (t - e) 1000000000). lia. Qed.

(** ** Sending and validating *)
Section validate.
Context `{GoRuntime} `{AuthEnv}.

(** The answer of [Validate] for a row. *)
Definition validate_answer (smsExpiration : Z) (visitor : Visitor) (vcode : string) (info : AnonymousSMSInfo) : outcome string :=
  if (as_CreateTime info * second + smsExpiration <? time_Now)%Z then NewHTTPError (i18nSMSVCodeExpired (vis_Language visitor)) BadRequest []
  else if bool_decide (vcode = as_Content info) then Ok (as_PhoneNumber info)
  else NewHTTPError (i18nSMSVerificationFailed (vis_Language visitor)) BadRequest [].

Lemma GetInfoByID_keeps id d : (smsDB_GetInfoByID id d).2 = d.
Proof.
  unfold smsDB_GetInfoByID, query, reads, mbind, M_bind, lift. destruct (db_fault _); [done|].
  destruct (range_order _ _) as [|row rows]; [done|]. destruct (DecodeString _) as [c|e|w]; [|done..].
  by destruct (decryptDES c _).
Qed.
Lemma validate_keeps smsExpiration visitor id vcode link d : (sms_Validate smsExpiration visitor id vcode link d).2 = d.
Proof.
  unfold sms_Validate. pose proof (GetInfoByID_keeps id d) as E. destruct (smsDB_GetInfoByID id d) as [r d']. simpl in E. subst d'.
  by repeat case_match.
Qed.
Lemma validate_code smsExpiration visitor id vcode link d info l :
  smsDB_GetInfoByID id d = (Ok info, d) → as_Content info = String.string_of_list_ascii l → forallb is_digit l = true →
  sms_Validate smsExpiration visitor id vcode link d = (validate_answer smsExpiration visitor vcode info, d).
Proof.
  intros Hq Hc Hl. unfold sms_Validate, validate_answer. rewrite Hq, Hc, EqualFold_digits by done.
  destruct (_ <? _)%Z; [done|]. by case_bool_decide.
Qed.
(** A row older than the cut-off is refused. *)
Lemma validate_old smsExpiration visitor id vcode link d row phone :
  NoDup (sm_id <$> t_sms d) → row ∈ t_sms d → sm_id row = id → (sm_create_time row * second + smsExpiration < time_Now)%Z →
  (sms_Validate smsExpiration visitor id vcode link d).1 ≠ Ok phone.
Proof.
  intros Hnd Hin Hid Ht. unfold sms_Validate. destruct (smsDB_GetInfoByID id d) as [r d'] eqn:Hq. destruct r as [info|e|w].
  - assert (as_CreateTime info = sm_create_time row) as ->.
    { destruct (db_fault "sms.GetInfoByID") eqn:Hf.
      - unfold smsDB_GetInfoByID, query, reads, mbind, M_bind in Hq. by rewrite Hf in Hq.
      - rewrite (query_row d row id Hnd Hin Hid Hf) in Hq. injection Hq as Hq _. obind. done. }
    apply Z.ltb_lt in Ht as ->. done.
  - by case_bool_decide.
  - done.
Qed.
(** So is a code that has no row, or only an old one. *)
Lemma validate_old_or_gone smsExpiration visitor id vcode link d :
  NoDup (sm_id <$> t_sms d) →
  (∀ row, row ∈ t_sms d → sm_id row = id → (sm_create_time row * second + smsExpiration < time_Now)%Z) →
  ∀ phone, (sms_Validate smsExpiration visitor id vcode link d).1 ≠ Ok phone.
Proof.
  intros Hnd Hold phone. destruct (decide (id ∈ sm_id <$> t_sms d)) as [(row & Hid & Hrow)%list_elem_of_fmap|Hno].
  - apply validate_old with row; [done..|by apply Hold].
  - unfold sms_Validate, smsDB_GetInfoByID, query, reads, mbind, M_bind. destruct (db_fault _); [by case_bool_decide|].
    assert (filter (λ row, sm_id row = id) (t_sms d) = []) as ->.
    { apply elem_of_nil_inv. intros row [Hid Hrow]%list_elem_of_filter. apply Hno, list_elem_of_fmap. by exists row. }
    rewrite (proj1 (Permutation_nil_r _) (range_order_perm 210 _ [])). cbn. by case_bool_decide.
Qed.
End validate.

Section send.
Context {W : Type} `{GoRuntime} `{AuthEnv} `{Random} `{Rsa} `{!DnShareMgnt W}.

Lemma sms_create_effect exp phone link d info d' :
  NoDup (sm_id <$> t_sms d) → sms_create exp phone link d = (Ok info, d') →
  NoDup (sm_id <$> t_sms d') ∧ info = {| as_ID := ulid (n_ulid d); as_PhoneNumber := phone; as_AnonymityID := link;
    as_Content := genValidateCode smsWidth; as_CreateTime := unix_now |} ∧
  ∃ col, phone_column phone = Ok col ∧ row_of info col ∈ t_sms d' ∧
    ∀ row, row ∈ t_sms d' → row = row_of info col ∨
      (row ∈ t_sms d ∧ ¬ (sm_phone_number row = col ∧ sm_anonymity_id row = link ∧ Unix (time_Now - exp) ≤ sm_create_time row)%Z).
Proof.
  unfold sms_create. intros Hnd Hc. mstep Hc as [] Hdel. mstep Hc as id Hid. injection Hid as Hid Hs. mstep Hc as [] Hins.
  injection Hc as Hc <-. apply smsDB_Create_cases in Hins as [[? _]|(_ & Hfresh & col & Hcol & ->)]; [done|].
  unfold smsDB_DeleteRecordWithinValidityPeriod, mbind, M_bind, lift in Hdel. cbn [as_PhoneNumber] in Hcol. rewrite Hcol in Hdel.
  unfold execute in Hdel. destruct (db_fault _); [done|]. injection Hdel as <-. subst s0. simpl in *. subst id info. split_and!; [|done|].
  - rewrite fmap_app. apply NoDup_app. split_and!; [by apply NoDup_fmap_filter|set_solver|apply NoDup_singleton].
  - exists col. split_and!; [done|apply elem_of_app; right; left|].
    intros row [Hr|Hr%list_elem_of_singleton]%elem_of_app; [right|by left]. by apply list_elem_of_filter in Hr as [? ?].
Qed.

Lemma send_cases exp visitor phoneText link d (w : W) id d' w' :
  CreateAndSendVCode exp visitor phoneText link (d, w) = (Ok id, (d', w')) →
  ∃ info, read_phone visitor phoneText = Ok (as_PhoneNumber info) ∧ sms_create exp (as_PhoneNumber info) link d = (Ok info, d') ∧
    as_ID info = id ∧ UsrmSendAnonymousSMSVCode (as_PhoneNumber info) (as_Content info) w = (Ok tt, w').
Proof.
  unfold CreateAndSendVCode. intros Hs. mstep Hs as phone Hphone. mstep Hs as info Hcreate. mstep Hs as [] Hsend. injection Hs as <- ->.
  unfold on_db in Hcreate. cbn [fst] in Hcreate. destruct (sms_create exp phone link d) as [r d1] eqn:E. injection Hcreate as -> <-.
  unfold on_world in Hsend. cbn [fst snd] in Hsend. destruct (UsrmSendAnonymousSMSVCode _ _ _) as [r2 w2] eqn:Eu. injection Hsend as -> <- <-.
  exists info. assert (as_PhoneNumber info = phone) as Ep; [|rewrite Ep in Eu |- *; done]. unfold sms_create in E.
  mstep E as [] E1. mstep E as i E2. mstep E as [] E3. injection E as <- _. done.
Qed.

(** A table later than [d'], which came after [d]: rows have gone, and those
    that were added have ids that [d] did not know. *)
Definition later_table (d d' d2 : auth_db) : Prop :=
  NoDup (sm_id <$> t_sms d2) ∧ ∀ row, row ∈ t_sms d2 → row ∈ t_sms d' ∨ sm_id row ∉ sm_id <$> t_sms d.

(** C33. A code that was sent works, and it alone: [CreateAndSendVCode] hands
    the user service six digits for the phone number that was asked for.
    From then on, as long as the table keeps the row, [Validate] accepts for
    the id that was answered exactly those digits, until the lifetime in force
    has passed, and answers that phone number.  Every code that the phone and
    link had before, whether its row was deleted or had expired, is refused
    in every later table, at every later time and under every lifetime that is
    not longer than the one in force at the sending.  (A longer lifetime,
    which an administrator can set, revives a code whose row is still there.) *)
Theorem sent_code_alone_is_valid exp visitor phoneText link d (w : W) id d' w' :
  NoDup (sm_id <$> t_sms d) → CreateAndSendVCode exp visitor phoneText link (d, w) = (Ok id, (d', w')) →
  ∃ info l col, read_phone visitor phoneText = Ok (as_PhoneNumber info) ∧ as_ID info = id ∧ as_CreateTime info = unix_now ∧
    as_Content info = String.string_of_list_ascii l ∧ length l = 6 ∧ forallb is_digit l = true ∧
    UsrmSendAnonymousSMSVCode (as_PhoneNumber info) (as_Content info) w = (Ok tt, w') ∧
    phone_column (as_PhoneNumber info) = Ok col ∧ row_of info col ∈ t_sms d' ∧ later_table d d' d' ∧
    ∀ (rt : GoRuntime) (env : AuthEnv) visitor' vcode link' exp' d2, later_table d d' d2 →
      (db_fault "sms.GetInfoByID" = None → row_of info col ∈ t_sms d2 →
         sms_Validate exp' visitor' id vcode link' d2 = (validate_answer exp' visitor' vcode info, d2)) ∧
      ((@time_Now H0 ≤ time_Now)%Z → (exp' ≤ exp)%Z →
         ∀ row, row ∈ t_sms d → sm_id row ≠ id → sm_phone_number row = col → sm_anonymity_id row = link →
         ∀ phone, (sms_Validate exp' visitor' (sm_id row) vcode link' d2).1 ≠ Ok phone).
Proof.
  intros Hnd Hs. apply send_cases in Hs as (info & Hphone & Hcreate & <- & Hsend).
  apply sms_create_effect in Hcreate as (Hnd' & Hinfo & col & Hcol & Hin & Hrows); [|done]. destruct (code_digits smsWidth) as (l & Hc & Hl & Hd).
  assert (as_Content info = String.string_of_list_ascii l) as Hcontent by (by rewrite Hinfo).
  exists info, l, col. split_and!; try done; [by rewrite Hinfo|split; [done|by left]|].
  intros rt env visitor' vcode link' exp' d2 [Hnd2 Hlater]. split.
  - intros Hf Hin2. eapply validate_code; [|done..]. rewrite (query_row d2 (row_of info col)) by done. cbn [row_of sm_phone_number].
    destruct (phone_column_eq (as_PhoneNumber info)) as (col' & c & Hcol' & Hde & Hp).
    rewrite Hcol in Hcol'. injection Hcol' as <-. unfold mbind, outcome_bind. rewrite Hde, Hp, string_bytes. by destruct info.
  - intros Ht He row Hr Hid Hc' Hl'. apply validate_old_or_gone; [done|]. intros r Hr2 Hidr.
    destruct (Hlater r Hr2) as [Hr'|Hr']; [|set_solver]. destruct (Hrows r Hr') as [->|[Hrd Hnew]]; [naive_solver|].
    assert (r = row) as -> by by apply (NoDup_fmap_inj_in sm_id (t_sms d)).
    assert (sm_create_time row < Unix (@time_Now H0 - exp))%Z as Hold%before_cutoff by (apply Z.nle_gt; naive_solver). lia.
Qed.
End send.

(** ** Cleaning *)
Section cleaning.
Context `{GoRuntime} `{AuthEnv} (exp : Z).

Definition code_expired (row : sms_row) : Prop := (sm_create_time row < Unix (time_Now - exp))%Z.
#[global] Instance code_expired_dec row : Decision (code_expired row).
Proof. unfold code_expired. apply _. Defined.

(** The cleaning of codes ends, in batches of ten, and removes expired codes
    only, all of them when nothing fails. *)
Lemma sms_cleaning_ends d fuel :
  length (t_sms d) < fuel → NoDup (sm_id <$> t_sms d) →
  ∃ d', sms_clean exp fuel d = Some d' ∧ filter (λ row, ¬ code_expired row) (t_sms d') = filter (λ row, ¬ code_expired row) (t_sms d) ∧
    ((∀ label, db_fault label = None) → t_sms d' = filter (λ row, ¬ code_expired row) (t_sms d)).
Proof.
  intros Hlen Hnd. change (sms_clean exp fuel d) with
    (clean_loop (batch_pass t_sms set_sms sm_id code_expired 211 smsDB_batchNumber "sms.GetExpiredRecords" "sms.DeleteByIDs") fuel d).
  by eapply (batch_loop_ends t_sms set_sms sm_id code_expired).
Qed.
End cleaning.

(** One configured minute is a minute, for the values the configuration accepts. *)
Lemma UpdateSMSExpiration_minutes n : (1 ≤ n ≤ 60)%Z → UpdateSMSExpiration n = (n * 60 * second)%Z.
Proof. intros Hn. unfold UpdateSMSExpiration, second. rewrite int64_wrap_small; lia. Qed.
