(* ===== verification/Outbox.v ===== *)
(** * The outbox ([Authentication/logics/outbox.go], [dbaccess/outbox.go])

    A change that another service has to hear of is written, in the
    transaction of the change, as a message of a business type; one thread per
    business type pushes the messages to their handlers, oldest first, and
    deletes a message once its handler has succeeded. *)
From S2P Require Import Prelude Json AuthBase AuthStore.

(** ** Message types and business types ([logics/common.go]) *)
Definition OutboxDeleteHydraSession : Z := 1.
Definition OutboxSetAppAccessTokenPermLog : Z := 2.
Definition OutboxDeleteAppAccessTokenPermLog : Z := 3.
Definition OutboxSendAuditLog : Z := 4.
Definition OutboxAnonymousSmsExpUpdated : Z := 5.
Definition OutboxBusinessHydraSession : Z := 1.
Definition OutboxBusinessAccessTokenPerm : Z := 2.
Definition OutboxAuditLog : Z := 3.
Definition OutboxConfig : Z := 4.

Record OutboxMsg := { om_Type : Z; om_Content : json }.
(** [jsoniter.MarshalToString(msg)] *)
Definition marshal_msg (msg : OutboxMsg) : text := marshal (jobj [("type", JInt (om_Type msg)); ("content", om_Content msg)]).

(** ** Statements *)
Section statements.
Context `{GoRuntime} `{AuthEnv}.

Definition outbox_rows (businessType curTime first_id : Z) (messages : list text) : list outbox_row :=
  imap (λ i m, {| ob_id := first_id + Z.of_nat i; ob_business_type := businessType; ob_message := m; ob_create_time := curTime |}) messages.
(** One [insert] of all rows; with no row the statement is not SQL. *)
Definition outboxDB_AddOutboxInfos (businessType : Z) (messages : list text) : M auth_db unit :=
  let curTime := (time_Now / 1000)%Z in
  if (length messages =? 0)%nat then lift (Err (MkErr "sql" "syntax error" []))
  else execute "outbox.AddOutboxInfos" (λ d,
         set_n_id (λ n, n + Z.of_nat (length messages))%Z
           (set_outbox (λ t, t ++ outbox_rows businessType curTime (n_id d) messages) d)).

(** The oldest message of a business type, [(0, "")] when there is none. *)
Definition outboxDB_GetPushMessage (businessType : Z) : M auth_db (Z * text) :=
  _ ← query "outbox.lock" (λ _, Ok tt);
  query "outbox.GetPushMessage" (λ d,
    match sort_slice (λ a b, ob_create_time a <? ob_create_time b)%Z
            (range_order 220 (filter (λ row, ob_business_type row = businessType) (t_outbox d))) with
    | row :: _ => Ok (ob_id row, ob_message row)
    | [] => Ok (0%Z, TRaw "")
    end).
Definition outboxDB_DeleteOutboxInfoByID (messageID : Z) : M auth_db unit :=
  execute "outbox.DeleteOutboxInfoByID" (set_outbox (filter (λ row, ob_id row ≠ messageID))).
End statements.

(** ** The component *)
Section outbox.
Context {W : Type} `{GoRuntime} `{AuthEnv}.
(** [outboxHandlers]: what was registered for a message type. *)
Context (outboxHandlers : Z → option (json → M W unit)).

Fixpoint outbox_messages (msgs : list OutboxMsg) : outcome (list text) :=
  match msgs with
  | [] => Ok []
  | msg :: msgs =>
      match outboxHandlers (om_Type msg) with
      | None => NewHTTPError ("AddOutboxInfo: OpType Not Exist: " +:+ pretty (om_Type msg)) InternalServerError []
      | Some _ => rest ← outbox_messages msgs; Ok (marshal_msg msg :: rest)
      end
  end.
Definition AddOutboxInfos (businessType : Z) (msgs : list OutboxMsg) : M auth_db unit :=
  outboxMsgs ← lift (outbox_messages msgs);
  outboxDB_AddOutboxInfos businessType outboxMsgs.
Definition AddOutboxInfo (businessType opType : Z) (content : json) : M auth_db unit :=
  AddOutboxInfos businessType [{| om_Type := opType; om_Content := content |}].

(** [UnmarshalFromString], the type and the content of a message: text that is
    not JSON is an error, JSON of another shape panics. *)
Definition read_message (message : text) : outcome (Z * json) :=
  match message with
  | TRaw _ => Err json_syntax_error
  | TJson j =>
      m ← assert_map j;
      messageType ← assert_int (jget m "type");
      Ok (messageType, jget m "content")
  end.
Definition dispatch (message : text) : M W unit :=
  msg ← lift (read_message message);
  match outboxHandlers msg.1 with
  | None => lift (Err (MkErr "errors" "msg type is wrong" []))
  | Some handler => handler msg.2
  end.

(** The body of the transaction of [push]: [true] when no message is left. *)
Definition push_body (businessType : Z) : M (auth_db * W) bool :=
  msg ← on_db (outboxDB_GetPushMessage businessType);
  if bool_decide (msg.2 = TRaw "") then mret true
  else
    _ ← on_world (dispatch msg.2);
    _ ← on_db (outboxDB_DeleteOutboxInfoByID msg.1);
    mret false.
(** [push]: [needTimer] and [isAllFinished]. *)
Definition push (businessType : Z) : M (auth_db * W) (bool * bool) := λ s,
  match db_begin_fault with
  | Some _ => (Ok (true, false), s)
  | None =>
      let '(r, (d', w')) := push_body businessType s in
      let '(r', d'') := finish_transaction s.1 (r, d') in
      (match r' with Ok finished => Ok (false, finished) | Err _ => Ok (true, false) | Panic w => Panic w end, (d'', w'))
  end.

(** The inner loop of [startPushOutboxThread], stopped after [fuel] pushes:
    [None] when it has not ended by then, else the last [needTimer]. *)
Fixpoint push_loop (fuel : nat) (businessType : Z) (s : auth_db * W) : option (outcome bool * (auth_db * W)) :=
  match fuel with
  | 0 => None
  | S fuel =>
      match push businessType s with
      | (Ok (needTimer, isAllFinished), s') => if needTimer || isAllFinished then Some (Ok needTimer, s') else push_loop fuel businessType s'
      | (Err e, s') => Some (Err e, s')
      | (Panic w, s') => Some (Panic w, s')
      end
  end.
End outbox.

(** ** The thread of a business type

    [pending] is the token in [pushChan]; the ticker wakes the thread only
    when the last push failed. *)
Record push_thread := { pending : bool; needTimer : bool }.
Definition NewOutbox : push_thread := {| pending := true; needTimer := false |}.
Definition NotifyPushOutboxThread (t : push_thread) : push_thread := {| pending := true; needTimer := needTimer t |}.
(** One round of [startPushOutboxThread]: what woke it, and what the loop leaves. *)
Definition received (t : push_thread) : push_thread := {| pending := false; needTimer := needTimer t |}.
Definition looped (needTimer : bool) (t : push_thread) : push_thread := {| pending := pending t; needTimer := needTimer |}.

(** A message of a registered type reaches its handler with its content. *)
Lemma jget_first k v l : jget (list_to_map ((k, v) :: l)) k = v.
Proof. unfold jget. simpl. by rewrite lookup_insert_eq. Qed.
Lemma dispatch_marshal {W} (outboxHandlers : Z → option (json → M W unit)) msg handler w :
  (- 2 ^ 53 < om_Type msg < 2 ^ 53)%Z → outboxHandlers (om_Type msg) = Some handler →
  dispatch outboxHandlers (marshal_msg msg) w = handler (om_Content msg) w.
Proof.
  intros Ht Hh. assert (read_message (marshal_msg msg) = Ok (om_Type msg, om_Content msg)) as E.
  { unfold read_message, marshal_msg, marshal, jobj, mbind, outcome_bind. cbn [assert_map]. rewrite jget_first, assert_JInt by done.
    unfold jget. simpl. rewrite lookup_insert_ne by done. by rewrite lookup_insert_eq. }
  unfold dispatch, mbind, M_bind, lift. rewrite E. simpl. by rewrite Hh.
Qed.
Lemma rolled_back_same d d' : n_ulid d' = n_ulid d → n_id d' = n_id d → rolled_back d d' = d.
Proof. intros Hu Hi. unfold rolled_back. rewrite Hu, Hi. by destruct d. Qed.

(** * What the outbox guarantees

    Messages of a business type are delivered oldest first; a message leaves
    the table only after its handler has succeeded, so it is delivered at least
    once; a push loop always ends; and as long as a message is left the thread
    will wake up again. *)
Definition mine (bt : Z) (d : auth_db) : list outbox_row := filter (λ row, ob_business_type row = bt) (t_outbox d).
Definition oldest (bt : Z) (d : auth_db) (row : outbox_row) : Prop :=
  row ∈ mine bt d ∧ ∀ row', row' ∈ mine bt d → (ob_create_time row ≤ ob_create_time row')%Z.

Lemma created_order : strict_weak (λ a b : outbox_row, ob_create_time a <? ob_create_time b)%Z.
Proof. split; intros *; rewrite ?Z.ltb_lt, ?Z.ltb_ge; lia. Qed.

Section rows.
Context `{GoRuntime} `{AuthEnv}.
Implicit Types (d : auth_db) (row : outbox_row).

(** What the oldest message is, and what is read when there is none. *)
Lemma GetPushMessage_cases bt d r d' :
  outboxDB_GetPushMessage bt d = (r, d') →
  d' = d ∧ ((∃ e, r = Err e) ∨ (r = Ok (0%Z, TRaw "") ∧ mine bt d = []) ∨ ∃ row, r = Ok (ob_id row, ob_message row) ∧ oldest bt d row).
Proof.
  unfold outboxDB_GetPushMessage, query, reads, mbind, M_bind. destruct (db_fault "outbox.lock"); [naive_solver|].
  destruct (db_fault "outbox.GetPushMessage"); [naive_solver|]. intros [= <- <-]. split; [done|]. right.
  fold (mine bt d). set (less := λ a b : outbox_row, _).
  assert (sort_slice less (range_order 220 (mine bt d)) ≡ₚ mine bt d) as Hp by (rewrite sort_slice_perm; apply range_order_perm).
  pose proof (sort_slice_sorted _ less (range_order 220 (mine bt d)) created_order) as Hs.
  destruct (sort_slice less _) as [|row rows]; [left; by apply Permutation_nil_l in Hp|]. right. exists row. split; [done|]. split.
  - rewrite <-Hp. left.
  - intros row' Hr. rewrite <-Hp in Hr. apply elem_of_cons in Hr as [->|Hr]; [done|].
    apply StronglySorted_inv in Hs as [_ Hs]. rewrite Forall_forall in Hs. specialize (Hs row' Hr). by apply Z.ltb_ge in Hs.
Qed.

(** Deleting one message by its id, which is unique. *)
Lemma delete_one d row (sent : list outbox_row) :
  NoDup (ob_id <$> t_outbox d) → row ∈ t_outbox d →
  filter (λ r, r ∉ sent) (filter (λ r, ob_id r ≠ ob_id row) (t_outbox d)) = filter (λ r, r ∉ row :: sent) (t_outbox d).
Proof.
  intros Hnd Hin. rewrite list_filter_filter. apply filter_same_in. intros r Hr. rewrite not_elem_of_cons. split.
  - intros [Hs Hne]. split; [by intros ->|done].
  - intros [Hne Hs]. split; [done|]. intros Hid. by apply Hne, (NoDup_fmap_inj_in ob_id (t_outbox d)).
Qed.
Lemma mine_deleted bt d row : mine bt (set_outbox (filter (λ r, ob_id r ≠ ob_id row)) d) = filter (λ r, ob_id r ≠ ob_id row) (mine bt d).
Proof. unfold mine. simpl. rewrite !list_filter_filter. apply filter_same_in. naive_solver. Qed.
End rows.

Section push.
Context {W : Type} `{GoRuntime} `{AuthEnv} (outboxHandlers : Z → option (json → M W unit)).
Implicit Types (d : auth_db) (w : W) (row : outbox_row).

Inductive push_fate bt d w : outcome (bool * bool) → auth_db → W → Prop :=
| fate_sent row w' :
    oldest bt d row → ob_message row ≠ TRaw "" → dispatch outboxHandlers (ob_message row) w = (Ok tt, w') →
    push_fate bt d w (Ok (false, false)) (set_outbox (filter (λ row', ob_id row' ≠ ob_id row)) d) w'
| fate_finished : (mine bt d = [] ∨ ∃ row, oldest bt d row ∧ ob_message row = TRaw "") → push_fate bt d w (Ok (false, true)) d w
| fate_failed : push_fate bt d w (Ok (true, false)) d w
| fate_attempted row r w' :
    oldest bt d row → dispatch outboxHandlers (ob_message row) w = (r, w') → push_fate bt d w (Ok (true, false)) d w'
| fate_panic row why w' :
    oldest bt d row → dispatch outboxHandlers (ob_message row) w = (Panic why, w') → push_fate bt d w (Panic why) d w'.

Lemma push_cases bt d w r d' w' : push outboxHandlers bt (d, w) = (r, (d', w')) → push_fate bt d w r d' w'.
Proof.
  unfold push. destruct db_begin_fault; [intros [= <- <- <-]; constructor|].
  destruct (push_body outboxHandlers bt (d, w)) as [rb [db wb]] eqn:Hb. cbn [fst].
  unfold push_body, mbind at 1, M_bind at 1, on_db at 1 in Hb. cbn [fst snd] in Hb.
  destruct (outboxDB_GetPushMessage bt d) as [rm dm] eqn:Hm. apply GetPushMessage_cases in Hm as (-> & [[e ->]|[[-> Hn]|(row & -> & Ho)]]).
  - injection Hb as <- <- <-. simpl. rewrite rolled_back_same by done. intros [= <- <- <-]. constructor.
  - simpl in Hb. injection Hb as <- <- <-. simpl. destruct db_commit_fault; intros [= <- <- <-]; [rewrite rolled_back_same by done|]; constructor; auto.
  - cbn [snd fst] in Hb. case_bool_decide as He.
    { injection Hb as <- <- <-. simpl. destruct db_commit_fault; intros [= <- <- <-]; [rewrite rolled_back_same by done|]; constructor; eauto. }
    unfold mbind, M_bind, on_world in Hb. cbn [fst snd] in Hb. destruct (dispatch outboxHandlers (ob_message row) w) as [rd wd] eqn:Hd.
    destruct rd as [[]|e|why].
    + unfold on_db, outboxDB_DeleteOutboxInfoByID, execute in Hb. cbn [fst snd] in Hb. destruct (db_fault _); injection Hb as <- <- <-; simpl.
      * rewrite rolled_back_same by done. intros [= <- <- <-]. by econstructor.
      * destruct db_commit_fault; intros [= <- <- <-]; [rewrite rolled_back_same by done; by eapply fate_attempted|by apply fate_sent].
    + injection Hb as <- <- <-. simpl. rewrite rolled_back_same by done. intros [= <- <- <-]. by eapply fate_attempted.
    + injection Hb as <- <- <-. simpl. destruct db_commit_fault; intros [= <- <- <-]; [rewrite rolled_back_same by done|]; by eapply fate_panic.
Qed.

(** ** The loop *)

(** The handlers of these messages ran in this order and succeeded. *)
Inductive delivered : list outbox_row → W → W → Prop :=
| delivered_nil w : delivered [] w w
| delivered_cons row rows w w1 w2 :
    dispatch outboxHandlers (ob_message row) w = (Ok tt, w1) → delivered rows w1 w2 → delivered (row :: rows) w w2.

Record loop_result bt d w (sent : list outbox_row) (r : outcome bool) d' w' : Prop := {
  lr_ordered : StronglySorted (λ a b, ob_create_time a ≤ ob_create_time b)%Z sent;
  lr_mine : ∀ row, row ∈ sent → row ∈ mine bt d ∧ ∀ row', row' ∈ mine bt d' → (ob_create_time row ≤ ob_create_time row')%Z;
  lr_left : t_outbox d' = filter (λ row, row ∉ sent) (t_outbox d);
  lr_delivered : ∃ w1, delivered sent w w1 ∧
    (w' = w1 ∨ ∃ row r', oldest bt d' row ∧ dispatch outboxHandlers (ob_message row) w1 = (r', w'));
  lr_finished : r = Ok false → mine bt d' = [] ∨ ∃ row, oldest bt d' row ∧ ob_message row = TRaw "";
  lr_no_error : ∀ e, r ≠ Err e
}.

Lemma nothing_sent bt d w r w' :
  (r = Ok false → mine bt d = [] ∨ ∃ row, oldest bt d row ∧ ob_message row = TRaw "") → (∀ e, r ≠ Err e) →
  (w' = w ∨ ∃ row r', oldest bt d row ∧ dispatch outboxHandlers (ob_message row) w = (r', w')) → loop_result bt d w [] r d w'.
Proof.
  intros Hf He Hw. split; [constructor|by intros row ?%elem_of_nil| |exists w; split; [constructor|done]|done|done].
  symmetry. apply filter_all. intros row _. apply not_elem_of_nil.
Qed.
Lemma one_sent bt d w row w1 sent r d' w' :
  NoDup (ob_id <$> t_outbox d) → oldest bt d row → dispatch outboxHandlers (ob_message row) w = (Ok tt, w1) →
  loop_result bt (set_outbox (filter (λ r, ob_id r ≠ ob_id row)) d) w1 sent r d' w' → loop_result bt d w (row :: sent) r d' w'.
Proof.
  intros Hnd [Hrow Hold] Hd [Hs Hm Hl (w2 & Hdel & Hw) Hf He]. assert (row ∈ t_outbox d) as Hin by (by apply list_elem_of_filter in Hrow as [_ ?]).
  assert (t_outbox d' = filter (λ r, r ∉ row :: sent) (t_outbox d)) as Hleft by (by rewrite Hl, <-delete_one).
  assert (∀ r0, r0 ∈ mine bt d' → r0 ∈ mine bt d) as Hsub.
  { intros r0 [Hb Ht]%list_elem_of_filter. rewrite Hleft in Ht. apply list_elem_of_filter in Ht as [_ Ht]. by apply list_elem_of_filter. }
  assert (∀ r0, r0 ∈ sent → r0 ∈ mine bt d) as Hsent.
  { intros r0 Hr0. destruct (Hm r0 Hr0) as [Hmine _]. rewrite mine_deleted in Hmine. by apply list_elem_of_filter in Hmine as [_ ?]. }
  split; [constructor; [done|]|..|done|done].
  - apply Forall_forall. auto.
  - intros r0 [->|Hr0]%elem_of_cons; [|by split; [auto|apply Hm]]. split; [done|]. auto.
  - done.
  - exists w2. split; [by econstructor|done].
Qed.

(** C21. A push loop ends, within one push more than there are messages, and
    whatever fails on the way: the messages it removes from the table are the
    oldest ones, each delivered by its handler in the order of creation; at
    most one further message was tried, and stays; when the thread does not ask
    for a retry nothing is left to push. *)
Theorem outbox_loop_delivers fuel bt d w :
  NoDup (ob_id <$> t_outbox d) → length (mine bt d) < fuel →
  ∃ sent r d' w', push_loop outboxHandlers fuel bt (d, w) = Some (r, (d', w')) ∧ loop_result bt d w sent r d' w'.
Proof.
  revert d w. induction fuel as [|fuel IH]; intros d w Hnd Hlen; [lia|]. cbn [push_loop].
  destruct (push outboxHandlers bt (d, w)) as [r [d1 w1]] eqn:Hp. apply push_cases in Hp.
  destruct Hp as [row w' Ho Hne Hd|Hf| |row r w' Ho Hd|row why w' Ho Hd]; simpl.
  - assert (length (mine bt (set_outbox (filter (λ r, ob_id r ≠ ob_id row)) d)) < fuel) as Hl.
    { rewrite mine_deleted. destruct Ho as [Hrow _]. enough (length (filter (λ r, ob_id r ≠ ob_id row) (mine bt d)) < length (mine bt d)) by lia.
      apply length_filter_lt with row; [done|]. by intros []. }
    destruct (IH (set_outbox (filter (λ r, ob_id r ≠ ob_id row)) d) w') as (sent & r & d' & w2 & Hp & Hr); [by apply NoDup_fmap_filter|done|].
    exists (row :: sent), r, d', w2. split; [done|]. by eapply one_sent.
  - exists [], (Ok false), d, w. split; [done|]. apply nothing_sent; auto.
  - exists [], (Ok true), d, w. split; [done|]. apply nothing_sent; auto; done.
  - exists [], (Ok true), d, w'. split; [done|]. apply nothing_sent; [done..|]. right. eauto.
  - exists [], (Panic why), d, w'. split; [done|]. apply nothing_sent; [done..|]. right. eauto.
Qed.
End push.

(** When nothing fails, everything is delivered. *)
Section healthy.
Context {W : Type} `{GoRuntime} `{AuthEnv} (outboxHandlers : Z → option (json → M W unit)).

Lemma healthy_loop fuel bt d (w : W) :
  NoDup (ob_id <$> t_outbox d) → length (mine bt d) < fuel → db_begin_fault = None → db_commit_fault = None → (∀ label, db_fault label = None) →
  (∀ row, row ∈ mine bt d → ob_message row ≠ TRaw "" ∧ ∀ w, ∃ w', dispatch outboxHandlers (ob_message row) w = (Ok tt, w')) →
  ∃ d' w', push_loop outboxHandlers fuel bt (d, w) = Some (Ok false, (d', w')) ∧ mine bt d' = [].
Proof.
  intros Hnd Hlen Hb Hc Hf. revert d w Hnd Hlen. induction fuel as [|fuel IH]; intros d w Hnd Hlen Hok; [lia|]. cbn [push_loop].
  unfold push. rewrite Hb. unfold push_body, mbind at 1, M_bind at 1, on_db at 1. cbn [fst snd].
  destruct (outboxDB_GetPushMessage bt d) as [rm dm] eqn:Hm. pose proof Hm as Hq.
  apply GetPushMessage_cases in Hm as (-> & [[e ->]|[[-> Hn]|(row & -> & Ho)]]).
  - unfold outboxDB_GetPushMessage, query, reads, mbind, M_bind in Hq. rewrite !Hf in Hq. injection Hq as Hq. by repeat case_match.
  - simpl. rewrite Hc. simpl. eauto.
  - destruct (Hok row) as [Hne Hd]; [apply Ho|]. destruct (Hd w) as [w1 Hw1]. cbn [fst snd]. rewrite bool_decide_false by done.
    unfold mbind, M_bind, on_world, on_db, outboxDB_DeleteOutboxInfoByID, execute. cbn [fst snd]. rewrite Hw1, Hf. simpl. rewrite Hc. simpl.
    apply IH.
    + by apply NoDup_fmap_filter.
    + rewrite mine_deleted. enough (length (filter (λ r, ob_id r ≠ ob_id row) (mine bt d)) < length (mine bt d)) by lia.
      apply length_filter_lt with row; [apply Ho|]. by intros [].
    + intros row' Hr. rewrite mine_deleted in Hr. apply list_elem_of_filter in Hr as [_ Hr]. by apply Hok.
Qed.
End healthy.

(** ** The thread *)
Section thread.
Context {W : Type} (outboxHandlers : Z → option (json → M W unit)) (bt : Z).

Record thread_state := { ts_db : auth_db; ts_world : W; ts_thread : push_thread }.

(** A step of the service or of the thread, with any answers of the database,
    the clock and the handlers.  A committed change with messages notifies the
    thread, in one step: every caller of [AddOutboxInfos] calls
    [NotifyPushOutboxThread] once its transaction is committed, and an instance
    that dies in between notifies itself when it starts.  The process may die
    and start again at any time. *)
Inductive thread_step : thread_state → thread_state → Prop :=
| step_add (env : AuthEnv) msgs d w t d' :
    in_transaction (AddOutboxInfos outboxHandlers bt msgs) d = (Ok tt, d') →
    thread_step {| ts_db := d; ts_world := w; ts_thread := t |} {| ts_db := d'; ts_world := w; ts_thread := NotifyPushOutboxThread t |}
| step_add_failed (env : AuthEnv) msgs d w t r d' :
    in_transaction (AddOutboxInfos outboxHandlers bt msgs) d = (r, d') → r ≠ Ok tt →
    thread_step {| ts_db := d; ts_world := w; ts_thread := t |} {| ts_db := d'; ts_world := w; ts_thread := t |}
| step_wake (rt : GoRuntime) (env : AuthEnv) fuel d w t nt d' w' :
    pending t = true → push_loop outboxHandlers fuel bt (d, w) = Some (Ok nt, (d', w')) →
    thread_step {| ts_db := d; ts_world := w; ts_thread := t |} {| ts_db := d'; ts_world := w'; ts_thread := looped nt (received t) |}
| step_tick (rt : GoRuntime) (env : AuthEnv) fuel d w t nt d' w' :
    needTimer t = true → push_loop outboxHandlers fuel bt (d, w) = Some (Ok nt, (d', w')) →
    thread_step {| ts_db := d; ts_world := w; ts_thread := t |} {| ts_db := d'; ts_world := w'; ts_thread := looped nt t |}
| step_restart d w t : thread_step {| ts_db := d; ts_world := w; ts_thread := t |} {| ts_db := d; ts_world := w; ts_thread := NewOutbox |}
| step_elsewhere d d' w w' t :
    mine bt d' = mine bt d →
    thread_step {| ts_db := d; ts_world := w; ts_thread := t |} {| ts_db := d'; ts_world := w'; ts_thread := t |}.
(** Some messages are waiting when the service starts. *)
Inductive thread_reachable : thread_state → Prop :=
| reach_start d w : (∀ row, row ∈ mine bt d → ob_message row ≠ TRaw "") → thread_reachable {| ts_db := d; ts_world := w; ts_thread := NewOutbox |}
| reach_step s s' : thread_reachable s → thread_step s s' → thread_reachable s'.

Lemma messages_not_empty msgs l m : outbox_messages outboxHandlers msgs = Ok l → m ∈ l → m ≠ TRaw "".
Proof.
  revert l. induction msgs as [|msg msgs IH]; intros l Hl Hm; simpl in Hl; [injection Hl as <-; by apply elem_of_nil in Hm|].
  destruct (outboxHandlers _); [|by vm_compute in Hl]. apply bind_Ok in Hl as (rest & Hr & [= <-]).
  apply elem_of_cons in Hm as [->|Hm]; [done|]. eauto.
Qed.

Lemma mine_rolled_back d d' : mine bt (rolled_back d d') = mine bt d.
Proof. done. Qed.
Lemma add_rows `{AuthEnv} msgs d r d' :
  in_transaction (AddOutboxInfos outboxHandlers bt msgs) d = (r, d') →
  (mine bt d' = mine bt d ∧ r ≠ Ok tt) ∨ (r = Ok tt ∧ ∀ row, row ∈ mine bt d' → row ∈ mine bt d ∨ ob_message row ≠ TRaw "").
Proof.
  unfold in_transaction. destruct db_begin_fault; [intros [= <- <-]; by left|]. unfold AddOutboxInfos, mbind, M_bind, lift.
  destruct (outbox_messages outboxHandlers msgs) as [l|e|why] eqn:Hl; simpl.
  2:{ intros [= <- <-]. by left. }
  2:{ destruct db_commit_fault; intros [= <- <-]; by left. }
  unfold outboxDB_AddOutboxInfos. destruct (length l =? 0)%nat; simpl; [intros [= <- <-]; by left|].
  unfold execute. destruct (db_fault _); simpl; [intros [= <- <-]; by left|].
  destruct db_commit_fault; intros [= <- <-]; [by left|]. right. split; [done|]. intros row [Hb Hr]%list_elem_of_filter. simpl in Hr.
  apply elem_of_app in Hr as [Hr|Hr]; [left; by apply list_elem_of_filter|right].
  unfold outbox_rows in Hr. apply elem_of_lookup_imap in Hr as (i & m & -> & Hi). simpl.
  eapply messages_not_empty; [done|]. by apply list_elem_of_lookup_2 in Hi.
Qed.

(** A loop leaves fewer messages; without a retry it leaves none. *)
Lemma loop_leaves `{GoRuntime} `{AuthEnv} fuel d (w : W) nt d' w' :
  push_loop outboxHandlers fuel bt (d, w) = Some (Ok nt, (d', w')) →
  (∀ row, row ∈ mine bt d' → row ∈ mine bt d) ∧ (nt = false → mine bt d' = [] ∨ ∃ row, oldest bt d' row ∧ ob_message row = TRaw "").
Proof.
  revert d w. induction fuel as [|fuel IH]; intros d w Hl; [done|]. cbn [push_loop] in Hl.
  destruct (push outboxHandlers bt (d, w)) as [r [d1 w1]] eqn:Hp. apply push_cases in Hp.
  destruct Hp as [row w1 Ho Hne Hd|Hf| |row r w1 Ho Hd|row why w1 Ho Hd]; simpl in Hl; try by injection Hl as <- <- <-.
  - destruct (IH _ _ Hl) as [Hsub Hnone]. split; [|done]. intros row' Hr. specialize (Hsub _ Hr). rewrite mine_deleted in Hsub.
    by apply list_elem_of_filter in Hsub as [_ ?].
  - done.
Qed.

(** C22. No message is forgotten: in every reachable state in which messages
    of the business type are waiting, the thread has been notified or will be
    woken by its timer, across failing pushes, failing transactions and
    restarts. *)
Theorem no_message_is_forgotten s :
  thread_reachable s → mine bt (ts_db s) ≠ [] → pending (ts_thread s) = true ∨ needTimer (ts_thread s) = true.
Proof.
  intros Hs. assert ((∀ row, row ∈ mine bt (ts_db s) → ob_message row ≠ TRaw "") ∧
    (mine bt (ts_db s) ≠ [] → pending (ts_thread s) = true ∨ needTimer (ts_thread s) = true)) as [_ ?]; [|done].
  induction Hs as [d w Hd|s s' _ [Hne IH] Hs]; [split; [done|by left]|].
  destruct Hs as [env msgs d w t d' Ha|env msgs d w t r d' Ha Hr|rt env fuel d w t nt d' w' Hp Hl|rt env fuel d w t nt d' w' Hn Hl|d w t|d d' w w' t Hd];
    cbn [ts_db ts_thread] in *.
  - apply add_rows in Ha as [[_ ?]|[_ Ha]]; [done|]. split; [naive_solver|by left].
  - apply add_rows in Ha as [[-> _]|[? _]]; [auto|done].
  - apply loop_leaves in Hl as [Hsub Hnone]. split; [auto|]. intros Hm. right. destruct nt; [done|].
    destruct (Hnone eq_refl) as [?|(row & [Hrow _] & Hmsg)]; [done|]. by destruct (Hne row (Hsub row Hrow)).
  - apply loop_leaves in Hl as [Hsub Hnone]. split; [auto|]. intros Hm. right. destruct nt; [done|].
    destruct (Hnone eq_refl) as [?|(row & [Hrow _] & Hmsg)]; [done|]. by destruct (Hne row (Hsub row Hrow)).
  - auto.
  - by rewrite Hd.
Qed.
End thread.
