(* ===== verification/AuthConf.v ===== *)
(** * Configuration ([Authentication/logics/conf/conf.go], [dbaccess/conf.go])

    The settings live in two tables of key and value text: this service's own
    [t_conf] and, for the login policy, [t_sharemgnt_config] of another
    database. *)
From S2P Require Import Prelude Strconv Json AuthBase AuthStore Outbox.

Inductive ConfigKey : Set :=
| RememberFor | RememberVisible | EnableIDCardLogin | EnablePWDLock | EnableThirdPWDLock | PWDErrCnt | PWDLockTime | VCodeConfig
| SMSExpiration | LimitRedirectURI | TriSystemStatus | UnknownKey.
#[global] Instance ConfigKey_eq_dec : EqDecision ConfigKey.
Proof. solve_decision. Defined.

Record VCodeLoginConfig := { vc_Enable : bool; vc_PWDErrCnt : Z }.
Record Config := {
  cfg_RememberFor : Z; cfg_RememberVisible : bool; cfg_EnableIDCardLogin : bool; cfg_EnablePWDLock : bool; cfg_EnableThirdPWDLock : bool;
  cfg_PWDErrCnt : Z; cfg_PWDLockTime : Z; cfg_VCodeConfig : VCodeLoginConfig; cfg_SMSExpiration : Z;
  cfg_LimitRedirectURI : gmap string bool; cfg_TriSystemStatus : bool
}.
Definition Config_zero : Config :=
  {| cfg_RememberFor := 0; cfg_RememberVisible := false; cfg_EnableIDCardLogin := false; cfg_EnablePWDLock := false;
     cfg_EnableThirdPWDLock := false; cfg_PWDErrCnt := 0; cfg_PWDLockTime := 0; cfg_VCodeConfig := {| vc_Enable := false; vc_PWDErrCnt := 0 |};
     cfg_SMSExpiration := 0; cfg_LimitRedirectURI := ∅; cfg_TriSystemStatus := false |}.

(** An entry of the map that is absent reads [""]. *)
Definition confKeyMap (k : ConfigKey) : string :=
  match k with
  | RememberFor => "remember_for" | RememberVisible => "remember_visible" | EnableIDCardLogin => "id_card_login_status"
  | EnablePWDLock => "enable_pwd_lock" | EnableThirdPWDLock => "enable_third_pwd_lock" | PWDErrCnt => "pwd_err_cnt"
  | PWDLockTime => "pwd_lock_time" | VCodeConfig => "vcode_login_config" | SMSExpiration => "anonymous_sms_expiration"
  | LimitRedirectURI => "oauth2_redirect_uris" | TriSystemStatus => "enable_tri_system_status" | UnknownKey => ""
  end.

(** [jsoniter] on the text of a value, and the rows of the other database. *)
Class JsonText := { json_parse : string → option json }.
Class ShareMgntConfig (W : Type) := { t_sharemgnt_config : W → list (string * string); t_domain_enabled : W → bool }.

Definition unexpected : gerror := MkErr "errors" "this error is unexpected" [].
Definition num_error : gerror := MkErr "strconv.NumError" "invalid syntax" [].
Definition parse_int (s : string) : outcome Z := let '(n, ok) := Atoi s in if (ok : bool) then Ok n else Err num_error.
Definition parse_bool (s : string) : outcome bool := match ParseBool s with Some b => Ok b | None => Err num_error end.

Section db.
Context `{GoRuntime} `{AuthEnv} `{JsonText}.

Definition parse_json (s : string) : outcome json := match json_parse s with Some j => Ok j | None => Err json_syntax_error end.

(** One case of the [switch] of [convertToConfig]. *)
Definition convert_key (kvMap : gmap string string) (cfg : Config) (k : ConfigKey) : outcome Config :=
  let v := default "" (kvMap !! confKeyMap k) in
  match k with
  | RememberFor =>
      n ← parse_int v;
      Ok {| cfg_RememberFor := n; cfg_RememberVisible := cfg_RememberVisible cfg; cfg_EnableIDCardLogin := cfg_EnableIDCardLogin cfg; cfg_EnablePWDLock := cfg_EnablePWDLock cfg; cfg_EnableThirdPWDLock := cfg_EnableThirdPWDLock cfg; cfg_PWDErrCnt := cfg_PWDErrCnt cfg; cfg_PWDLockTime := cfg_PWDLockTime cfg; cfg_VCodeConfig := cfg_VCodeConfig cfg; cfg_SMSExpiration := cfg_SMSExpiration cfg; cfg_LimitRedirectURI := cfg_LimitRedirectURI cfg; cfg_TriSystemStatus := cfg_TriSystemStatus cfg |}
  | RememberVisible =>
      b ← parse_bool v;
      Ok {| cfg_RememberFor := cfg_RememberFor cfg; cfg_RememberVisible := b; cfg_EnableIDCardLogin := cfg_EnableIDCardLogin cfg; cfg_EnablePWDLock := cfg_EnablePWDLock cfg; cfg_EnableThirdPWDLock := cfg_EnableThirdPWDLock cfg; cfg_PWDErrCnt := cfg_PWDErrCnt cfg; cfg_PWDLockTime := cfg_PWDLockTime cfg; cfg_VCodeConfig := cfg_VCodeConfig cfg; cfg_SMSExpiration := cfg_SMSExpiration cfg; cfg_LimitRedirectURI := cfg_LimitRedirectURI cfg; cfg_TriSystemStatus := cfg_TriSystemStatus cfg |}
  | EnableIDCardLogin =>
      b ← parse_bool v;
      Ok {| cfg_RememberFor := cfg_RememberFor cfg; cfg_RememberVisible := cfg_RememberVisible cfg; cfg_EnableIDCardLogin := b; cfg_EnablePWDLock := cfg_EnablePWDLock cfg; cfg_EnableThirdPWDLock := cfg_EnableThirdPWDLock cfg; cfg_PWDErrCnt := cfg_PWDErrCnt cfg; cfg_PWDLockTime := cfg_PWDLockTime cfg; cfg_VCodeConfig := cfg_VCodeConfig cfg; cfg_SMSExpiration := cfg_SMSExpiration cfg; cfg_LimitRedirectURI := cfg_LimitRedirectURI cfg; cfg_TriSystemStatus := cfg_TriSystemStatus cfg |}
  | EnablePWDLock =>
      b ← parse_bool v;
      Ok {| cfg_RememberFor := cfg_RememberFor cfg; cfg_RememberVisible := cfg_RememberVisible cfg; cfg_EnableIDCardLogin := cfg_EnableIDCardLogin cfg; cfg_EnablePWDLock := b; cfg_EnableThirdPWDLock := cfg_EnableThirdPWDLock cfg; cfg_PWDErrCnt := cfg_PWDErrCnt cfg; cfg_PWDLockTime := cfg_PWDLockTime cfg; cfg_VCodeConfig := cfg_VCodeConfig cfg; cfg_SMSExpiration := cfg_SMSExpiration cfg; cfg_LimitRedirectURI := cfg_LimitRedirectURI cfg; cfg_TriSystemStatus := cfg_TriSystemStatus cfg |}
  | EnableThirdPWDLock =>
      b ← parse_bool v;
      Ok {| cfg_RememberFor := cfg_RememberFor cfg; cfg_RememberVisible := cfg_RememberVisible cfg; cfg_EnableIDCardLogin := cfg_EnableIDCardLogin cfg; cfg_EnablePWDLock := cfg_EnablePWDLock cfg; cfg_EnableThirdPWDLock := b; cfg_PWDErrCnt := cfg_PWDErrCnt cfg; cfg_PWDLockTime := cfg_PWDLockTime cfg; cfg_VCodeConfig := cfg_VCodeConfig cfg; cfg_SMSExpiration := cfg_SMSExpiration cfg; cfg_LimitRedirectURI := cfg_LimitRedirectURI cfg; cfg_TriSystemStatus := cfg_TriSystemStatus cfg |}
  | PWDErrCnt =>
      n ← parse_int v;
      Ok {| cfg_RememberFor := cfg_RememberFor cfg; cfg_RememberVisible := cfg_RememberVisible cfg; cfg_EnableIDCardLogin := cfg_EnableIDCardLogin cfg; cfg_EnablePWDLock := cfg_EnablePWDLock cfg; cfg_EnableThirdPWDLock := cfg_EnableThirdPWDLock cfg; cfg_PWDErrCnt := n; cfg_PWDLockTime := cfg_PWDLockTime cfg; cfg_VCodeConfig := cfg_VCodeConfig cfg; cfg_SMSExpiration := cfg_SMSExpiration cfg; cfg_LimitRedirectURI := cfg_LimitRedirectURI cfg; cfg_TriSystemStatus := cfg_TriSystemStatus cfg |}
  | PWDLockTime =>
      n ← parse_int v;
      Ok {| cfg_RememberFor := cfg_RememberFor cfg; cfg_RememberVisible := cfg_RememberVisible cfg; cfg_EnableIDCardLogin := cfg_EnableIDCardLogin cfg; cfg_EnablePWDLock := cfg_EnablePWDLock cfg; cfg_EnableThirdPWDLock := cfg_EnableThirdPWDLock cfg; cfg_PWDErrCnt := cfg_PWDErrCnt cfg; cfg_PWDLockTime := n; cfg_VCodeConfig := cfg_VCodeConfig cfg; cfg_SMSExpiration := cfg_SMSExpiration cfg; cfg_LimitRedirectURI := cfg_LimitRedirectURI cfg; cfg_TriSystemStatus := cfg_TriSystemStatus cfg |}
  | VCodeConfig =>
      j ← parse_json v;
      m ← assert_map j;
      enable ← assert_bool (jget m "isEnable");
      errCnt ← assert_int (jget m "passwdErrCnt");
      Ok {| cfg_RememberFor := cfg_RememberFor cfg; cfg_RememberVisible := cfg_RememberVisible cfg; cfg_EnableIDCardLogin := cfg_EnableIDCardLogin cfg; cfg_EnablePWDLock := cfg_EnablePWDLock cfg; cfg_EnableThirdPWDLock := cfg_EnableThirdPWDLock cfg; cfg_PWDErrCnt := cfg_PWDErrCnt cfg; cfg_PWDLockTime := cfg_PWDLockTime cfg; cfg_VCodeConfig := {| vc_Enable := enable; vc_PWDErrCnt := errCnt |}; cfg_SMSExpiration := cfg_SMSExpiration cfg; cfg_LimitRedirectURI := cfg_LimitRedirectURI cfg; cfg_TriSystemStatus := cfg_TriSystemStatus cfg |}
  | SMSExpiration =>
      n ← parse_int v;
      Ok {| cfg_RememberFor := cfg_RememberFor cfg; cfg_RememberVisible := cfg_RememberVisible cfg; cfg_EnableIDCardLogin := cfg_EnableIDCardLogin cfg; cfg_EnablePWDLock := cfg_EnablePWDLock cfg; cfg_EnableThirdPWDLock := cfg_EnableThirdPWDLock cfg; cfg_PWDErrCnt := cfg_PWDErrCnt cfg; cfg_PWDLockTime := cfg_PWDLockTime cfg; cfg_VCodeConfig := cfg_VCodeConfig cfg; cfg_SMSExpiration := n; cfg_LimitRedirectURI := cfg_LimitRedirectURI cfg; cfg_TriSystemStatus := cfg_TriSystemStatus cfg |}
  | LimitRedirectURI =>
      uris ← (if bool_decide (v = "") then Ok ∅
              else j ← parse_json v; l ← unmarshal_slice (TJson j); l ← omap_all assert_string l; Ok (set_of l));
      Ok {| cfg_RememberFor := cfg_RememberFor cfg; cfg_RememberVisible := cfg_RememberVisible cfg; cfg_EnableIDCardLogin := cfg_EnableIDCardLogin cfg; cfg_EnablePWDLock := cfg_EnablePWDLock cfg; cfg_EnableThirdPWDLock := cfg_EnableThirdPWDLock cfg; cfg_PWDErrCnt := cfg_PWDErrCnt cfg; cfg_PWDLockTime := cfg_PWDLockTime cfg; cfg_VCodeConfig := cfg_VCodeConfig cfg; cfg_SMSExpiration := cfg_SMSExpiration cfg; cfg_LimitRedirectURI := uris; cfg_TriSystemStatus := cfg_TriSystemStatus cfg |}
  | TriSystemStatus =>
      b ← parse_bool v;
      Ok {| cfg_RememberFor := cfg_RememberFor cfg; cfg_RememberVisible := cfg_RememberVisible cfg; cfg_EnableIDCardLogin := cfg_EnableIDCardLogin cfg; cfg_EnablePWDLock := cfg_EnablePWDLock cfg; cfg_EnableThirdPWDLock := cfg_EnableThirdPWDLock cfg; cfg_PWDErrCnt := cfg_PWDErrCnt cfg; cfg_PWDLockTime := cfg_PWDLockTime cfg; cfg_VCodeConfig := cfg_VCodeConfig cfg; cfg_SMSExpiration := cfg_SMSExpiration cfg; cfg_LimitRedirectURI := cfg_LimitRedirectURI cfg; cfg_TriSystemStatus := b |}
  | UnknownKey => Err unexpected
  end.
Definition convertToConfig (configKeys : list ConfigKey) (kvMap : gmap string string) : outcome Config :=
  ofold (convert_key kvMap) Config_zero (range_order 231 configKeys).

(** The rows a [select] by keys found, as the code reads them. *)
Definition getConfig (rows : list (string * string)) (configKeys : list ConfigKey) : outcome Config :=
  if (length configKeys =? 0)%nat then Ok Config_zero
  else
    match db_fault "conf.getConfig" with
    | Some e => Err e
    | None =>
        let found := range_order 230 (filter (λ kv, kv.1 ∈ confKeyMap <$> configKeys) rows) in
        convertToConfig configKeys (foldl (λ m kv, <[kv.1 := kv.2]> m) ∅ found)
    end.
Definition confDB_GetConfig (configKeys : list ConfigKey) : M auth_db Config := reads (λ d, getConfig (t_conf d) configKeys).

(** One round of the loop of [SetConfig]. *)
Definition set_key (cfg : Config) (k : ConfigKey) : M auth_db unit :=
  let update value := execute "conf.SetConfig" (set_conf (map (λ kv, if bool_decide (kv.1 = confKeyMap k) then (kv.1, value) else kv))) in
  match k with
  | RememberFor => update (Itoa (cfg_RememberFor cfg))
  | RememberVisible => update (FormatBool (cfg_RememberVisible cfg))
  | SMSExpiration => update (Itoa (cfg_SMSExpiration cfg))
  | _ => lift (Err unexpected)
  end.
Definition confDB_SetConfig (configKeys : list ConfigKey) (cfg : Config) : M auth_db unit :=
  in_transaction (for_each (set_key cfg) (range_order 232 configKeys)).
End db.

(** ** The service *)
Section conf.
Context {W : Type} `{GoRuntime} `{AuthEnv} `{JsonText} `{!DnUserManagement W} `{!DrivenMessageBroker W} `{!ShareMgntConfig W}.
Context (outboxHandlers : Z → option (json → M W unit)).

Definition conf_checkAdmin (visitor : Visitor) : M (auth_db * W) unit :=
  roleTypes ← on_world (GetUserRolesByUserID (vis_ID visitor));
  lift (CheckVisitorType visitor roleTypes [RealName] [SuperAdmin; SecurityAdmin]).
(** [if visitor != nil && visitor.ID != ""] *)
Definition conf_guard (visitor : option Visitor) : M (auth_db * W) unit :=
  match visitor with
  | Some visitor => if bool_decide (vis_ID visitor = "") then mret tt else conf_checkAdmin visitor
  | None => mret tt
  end.

Definition GetConfig (visitor : option Visitor) (configKeys : list ConfigKey) : M (auth_db * W) Config :=
  _ ← conf_guard visitor;
  on_db (confDB_GetConfig configKeys).
Definition GetConfigFromShareMgnt (visitor : option Visitor) (configKeys : list ConfigKey) : M (auth_db * W) Config :=
  _ ← conf_guard visitor;
  on_world (reads (λ w, getConfig (t_sharemgnt_config w) configKeys)).

Definition check_param (cfg : Config) (k : ConfigKey) : outcome unit :=
  match k with
  | RememberFor => if (cfg_RememberFor cfg <? 0)%Z then NewHTTPError "invalid remember_for" BadRequest [] else Ok tt
  | RememberVisible => Ok tt
  | SMSExpiration =>
      if (cfg_SMSExpiration cfg <? 1)%Z || (60 <? cfg_SMSExpiration cfg)%Z then NewHTTPError "invalid anonymous_sms_expiration" BadRequest []
      else Ok tt
  | _ => Err unexpected
  end.
Definition checkParams (configKeys : list ConfigKey) (cfg : Config) : outcome unit :=
  each_ok (check_param cfg) (range_order 233 configKeys).

(** The values are written and committed by [cdb.SetConfig] in a transaction
    of its own; the transaction begun here holds the outbox message only. *)
Definition SetConfig_write (configKeys : list ConfigKey) (cfg : Config) : M auth_db unit := λ d,
  match db_begin_fault with
  | Some e => (Err e, d)
  | None =>
      match confDB_SetConfig configKeys cfg d with
      | (Ok _, d1) =>
          if bool_decide (SMSExpiration ∈ configKeys) then
            finish_transaction d1 (AddOutboxInfo outboxHandlers OutboxConfig OutboxAnonymousSmsExpUpdated
              (jobj [("anonymous_sms_expiration", JInt (cfg_SMSExpiration cfg))]) d1)
          else finish_transaction d1 (Ok tt, d1)
      | (Err e, d1) => (Err e, d1)
      | (Panic w, d1) => (Panic w, d1)
      end
  end.
Definition SetConfig (visitor : option Visitor) (configKeys : list ConfigKey) (cfg : Config) : M (auth_db * W) unit :=
  _ ← conf_guard visitor;
  _ ← lift (checkParams configKeys cfg);
  on_db (SetConfig_write configKeys cfg).

(** The handler of the message. *)
Definition sendAnonymousSmsExpUpdatedMsg (content : json) : M W unit :=
  message ← lift (assert_map content);
  smsExpiration ← lift (assert_int (jget message "anonymous_sms_expiration"));
  AnonymousSmsExpUpdated smsExpiration.
End conf.

(** * What the configuration guarantees

    Values that were set are read back and are within their bounds, and every
    change of the lifetime of SMS codes is announced. *)
(** The keys [SetConfig] writes, and the text it writes. *)
Definition settable (k : ConfigKey) : Prop := k ∈ [RememberFor; RememberVisible; SMSExpiration].
Definition conf_text (cfg : Config) (k : ConfigKey) : string :=
  match k with
  | RememberFor => Itoa (cfg_RememberFor cfg)
  | RememberVisible => FormatBool (cfg_RememberVisible cfg)
  | SMSExpiration => Itoa (cfg_SMSExpiration cfg)
  | _ => ""
  end.
Lemma confKeyMap_inj k k' : confKeyMap k = confKeyMap k' → k = k'.
Proof. by destruct k, k'. Qed.

Section write.
Context `{GoRuntime} `{AuthEnv}.

Lemma set_key_Ok cfg k d d' :
  set_key cfg k d = (Ok tt, d') →
  settable k ∧ d' = set_conf (map (λ kv, if bool_decide (kv.1 = confKeyMap k) then (kv.1, conf_text cfg k) else kv)) d.
Proof. unfold set_key, execute, settable. destruct k; try done; destruct (db_fault _); try done; intros [= <-]; (split; [set_solver|done]). Qed.

Definition has_texts (cfg : Config) (keys : list ConfigKey) (t : list (string * string)) : Prop :=
  ∀ k kv, k ∈ keys → kv ∈ t → kv.1 = confKeyMap k → kv.2 = conf_text cfg k.

Lemma set_keys_Ok cfg keys done_keys d d' :
  has_texts cfg done_keys (t_conf d) → for_each (set_key cfg) keys d = (Ok tt, d') →
  has_texts cfg (done_keys ++ keys) (t_conf d') ∧ (t_conf d').*1 = (t_conf d).*1 ∧ Forall settable keys ∧ d' = set_conf (λ _, t_conf d') d.
Proof.
  revert done_keys d. induction keys as [|k keys IH]; intros done_keys d Hdone Hs; simpl in Hs.
  - injection Hs as <-. rewrite app_nil_r. split_and!; [done..|constructor|]. by destruct d.
  - mstep Hs as [] Hk. apply set_key_Ok in Hk as [Hk ->]. apply (IH (done_keys ++ [k])) in Hs as (Ht & Hf & Hset & Hd).
    + split_and!; [by rewrite <-app_assoc in Ht| |by constructor|exact Hd].
      rewrite Hf. simpl. rewrite <-list_fmap_compose. apply list_fmap_ext. intros i [k0 v] _. unfold compose. simpl. by case_bool_decide.
    + intros k0 kv Hk0 Hkv Hkey. simpl in Hkv. apply list_elem_of_fmap in Hkv as (kv0 & -> & Hkv0). case_bool_decide as Hb.
      * simpl in *. rewrite Hkey in Hb. by apply confKeyMap_inj in Hb as ->.
      * apply elem_of_app in Hk0 as [Hk0| ->%list_elem_of_singleton]; [by apply (Hdone k0 kv0)|done].
Qed.
End write.

Section read.
Context `{GoRuntime} `{AuthEnv} `{JsonText}.

Lemma parse_int_text n : (- 2 ^ 63 ≤ n < 2 ^ 63)%Z → parse_int (Itoa n) = Ok n.
Proof. intros Hn. unfold parse_int. by rewrite Atoi_Itoa. Qed.
Lemma parse_bool_text b : parse_bool (FormatBool b) = Ok b.
Proof. unfold parse_bool. by rewrite ParseBool_FormatBool. Qed.

(** Two configurations agree on the keys of a list. *)
Definition agree (keys : list ConfigKey) (cfg cfg' : Config) : Prop :=
  (RememberFor ∈ keys → cfg_RememberFor cfg' = cfg_RememberFor cfg) ∧
  (RememberVisible ∈ keys → cfg_RememberVisible cfg' = cfg_RememberVisible cfg) ∧
  (SMSExpiration ∈ keys → cfg_SMSExpiration cfg' = cfg_SMSExpiration cfg).
Definition int_values (cfg : Config) : Prop := (- 2 ^ 63 ≤ cfg_RememberFor cfg < 2 ^ 63)%Z ∧ (- 2 ^ 63 ≤ cfg_SMSExpiration cfg < 2 ^ 63)%Z.

Lemma convert_keys kvMap cfg keys done_keys acc :
  int_values cfg → Forall settable keys → (∀ k, k ∈ keys → kvMap !! confKeyMap k = Some (conf_text cfg k)) → agree done_keys cfg acc →
  ∃ cfg', ofold (convert_key kvMap) acc keys = Ok cfg' ∧ agree (done_keys ++ keys) cfg cfg'.
Proof.
  intros [Hr Hs]. revert done_keys acc. induction keys as [|k keys IH]; intros done_keys acc Hset Hkv Ha.
  - exists acc. by rewrite app_nil_r.
  - apply Forall_cons in Hset as [Hk Hset]. assert (∃ acc', convert_key kvMap acc k = Ok acc' ∧ agree (done_keys ++ [k]) cfg acc') as (acc' & Hc & Ha').
    { unfold convert_key. rewrite (Hkv k) by left. simpl. destruct Ha as (A1 & A2 & A3). unfold settable in Hk. rewrite !elem_of_cons in Hk.
      destruct Hk as [->|[->|[->|Hk%elem_of_nil]]]; [..|done]; simpl; rewrite ?parse_int_text, ?parse_bool_text by done;
        (eexists; split; [reflexivity|]); unfold agree; simpl; rewrite !elem_of_app, !list_elem_of_singleton; naive_solver. }
    simpl. rewrite Hc. simpl. destruct (IH (done_keys ++ [k]) acc') as (cfg' & ? & ?); [done|intros; apply Hkv; by right|done|].
    exists cfg'. split; [done|]. by rewrite <-app_assoc in *.
Qed.

Lemma getConfig_agrees rows keys cfg :
  db_fault "conf.getConfig" = None → NoDup rows.*1 → int_values cfg → Forall settable keys → has_texts cfg keys rows →
  (∀ k, k ∈ keys → confKeyMap k ∈ rows.*1) → ∃ cfg', getConfig rows keys = Ok cfg' ∧ agree keys cfg cfg'.
Proof.
  intros Hf Hnd Hint Hset Htext Hin. unfold getConfig. destruct keys as [|k0 keys0] eqn:Ek; [exists Config_zero; split; [done|]; unfold agree; set_solver|].
  rewrite <-Ek in *. replace (length keys =? 0)%nat with false by (by rewrite Ek). rewrite Hf. unfold convertToConfig.
  set (found := range_order 230 _). set (kvMap := foldl _ ∅ found).
  destruct (convert_keys kvMap cfg (range_order 231 keys) [] Config_zero) as (cfg' & Hc & Ha); [done|by rewrite range_order_perm| |unfold agree; set_solver|].
  - intros k Hk. rewrite elem_of_range_order in Hk. destruct (list_elem_of_fmap_1 fst rows _ (Hin k Hk)) as (kv & Hkey & Hkv).
    unfold kvMap. rewrite Hkey. rewrite <-(Htext k kv Hk Hkv (eq_sym Hkey)). apply (foldl_insert_in fst snd).
    + unfold found. rewrite range_order_perm. by apply NoDup_fmap_filter.
    + unfold found. rewrite elem_of_range_order. apply list_elem_of_filter. split; [|done]. rewrite <-Hkey. by apply list_elem_of_fmap_2.
  - exists cfg'. split; [done|]. unfold agree in *. simpl in Ha. by rewrite !elem_of_range_order in Ha.
Qed.
End read.

(** ** The service *)
Section service.
Context {W : Type} `{GoRuntime} `{AuthEnv} `{JsonText} `{!DnUserManagement W} `{!DrivenMessageBroker W} `{!ShareMgntConfig W}.
Context (outboxHandlers : Z → option (json → M W unit)).

Lemma each_ok_all {A} (f : A → outcome unit) l : each_ok f l = Ok tt → ∀ x, x ∈ l → f x = Ok tt.
Proof.
  induction l as [|y l IH]; intros Hl x Hx; [by apply elem_of_nil in Hx|]. simpl in Hl. apply bind_Ok in Hl as ([] & Hy & Hl).
  apply elem_of_cons in Hx as [->|Hx]; auto.
Qed.
Lemma checkParams_Ok keys cfg :
  checkParams keys cfg = Ok tt →
  (RememberFor ∈ keys → (0 ≤ cfg_RememberFor cfg)%Z) ∧ (SMSExpiration ∈ keys → (1 ≤ cfg_SMSExpiration cfg ≤ 60)%Z).
Proof.
  intros Hc. unfold checkParams in Hc. pose proof (each_ok_all _ _ Hc) as Hall. split; intros Hk; rewrite <-(elem_of_range_order 233) in Hk;
    specialize (Hall _ Hk); simpl in Hall.
  - destruct (Z.ltb_spec (cfg_RememberFor cfg) 0); [by vm_compute in Hall|done].
  - destruct (Z.ltb_spec (cfg_SMSExpiration cfg) 1); [by vm_compute in Hall|].
    destruct (Z.ltb_spec 60 (cfg_SMSExpiration cfg)); [by vm_compute in Hall|done].
Qed.

Lemma keeps_db_guard visitor : keeps_db (conf_guard (W := W) visitor).
Proof. destruct visitor as [v|]; simpl; [case_bool_decide|]; unfold conf_checkAdmin; auto with isf. Qed.

(** The message of a change of the lifetime of codes. *)
Definition expiration_message (cfg : Config) : text :=
  marshal_msg {| om_Type := OutboxAnonymousSmsExpUpdated; om_Content := jobj [("anonymous_sms_expiration", JInt (cfg_SMSExpiration cfg))] |}.

Lemma SetConfig_write_Ok keys cfg d d' :
  SetConfig_write outboxHandlers keys cfg d = (Ok tt, d') →
  has_texts cfg keys (t_conf d') ∧ (t_conf d').*1 = (t_conf d).*1 ∧ Forall settable keys ∧
  (SMSExpiration ∈ keys → ∃ row, t_outbox d' = t_outbox d ++ [row] ∧ ob_business_type row = OutboxConfig ∧ ob_message row = expiration_message cfg).
Proof.
  unfold SetConfig_write. destruct db_begin_fault as [e|] eqn:Hb; [done|]. unfold confDB_SetConfig, in_transaction. rewrite Hb.
  destruct (for_each (set_key cfg) (range_order 232 keys) d) as [r d1] eqn:Hs. unfold finish_transaction at 1.
  destruct r as [[]|e|why]; [|done..]. destruct db_commit_fault eqn:Hcf; [done|]. apply (set_keys_Ok _ _ []) in Hs as (Ht & Hf & Hset & Hd); [|by intros k kv ?%elem_of_nil].
  rewrite range_order_perm in Hset.
  assert (has_texts cfg keys (t_conf d1)) as Ht'. { intros k kv Hk. apply Ht. by rewrite app_nil_l, elem_of_range_order. }
  assert (t_outbox d1 = t_outbox d) as Ho by (rewrite Hd; done).
  case_bool_decide as Hk; [|unfold finish_transaction; rewrite Hcf; intros [= <-]; split_and!; try done; by intros ?].
  unfold AddOutboxInfo, AddOutboxInfos, mbind, M_bind, lift. cbn [outbox_messages om_Type].
  destruct (outboxHandlers OutboxAnonymousSmsExpUpdated); [|done]. cbn [mbind outcome_bind]. unfold outboxDB_AddOutboxInfos. cbn [length Nat.eqb].
  unfold execute. destruct (db_fault _); [done|]. unfold finish_transaction. rewrite Hcf. intros [= <-]. split_and!; [done..|]. intros _. simpl.
  rewrite Ho. eexists. split; [reflexivity|]. by split.
Qed.

Lemma SetConfig_cases visitor keys cfg d (w : W) d' w' :
  SetConfig outboxHandlers visitor keys cfg (d, w) = (Ok tt, (d', w')) →
  checkParams keys cfg = Ok tt ∧ SetConfig_write outboxHandlers keys cfg d = (Ok tt, d').
Proof.
  unfold SetConfig. intros Hs. apply bind_keeps_db in Hs as [(_ & w1 & _ & Hs)|[_ Hn]]; [|by destruct (Hn tt)|apply keeps_db_guard].
  unfold mbind, M_bind, lift in Hs. destruct (checkParams keys cfg) as [[]|e|why]; [|done..]. unfold on_db in Hs. simpl in Hs.
  destruct (SetConfig_write outboxHandlers keys cfg d) as [r d1]. by simplify_eq.
Qed.

(** C32. What was set is what is read: after a successful [SetConfig] the
    values are within their bounds and [GetConfig] of the same keys returns
    them, through their text in the table. *)
Theorem config_reads_back visitor keys cfg d (w : W) d' w' :
  NoDup (t_conf d).*1 → (∀ k, k ∈ keys → confKeyMap k ∈ (t_conf d).*1) → int_values cfg →
  SetConfig outboxHandlers visitor keys cfg (d, w) = (Ok tt, (d', w')) →
  (RememberFor ∈ keys → (0 ≤ cfg_RememberFor cfg)%Z) ∧ (SMSExpiration ∈ keys → (1 ≤ cfg_SMSExpiration cfg ≤ 60)%Z) ∧
  ∀ (rt : GoRuntime) (env : AuthEnv), db_fault "conf.getConfig" = None →
    ∃ cfg', confDB_GetConfig keys d' = (Ok cfg', d') ∧ agree keys cfg cfg'.
Proof.
  intros Hnd Hin Hint Hs. apply SetConfig_cases in Hs as [Hp Hw]. apply SetConfig_write_Ok in Hw as (Ht & Hf & Hset & _).
  destruct (checkParams_Ok keys cfg Hp) as [H1' H2']. split_and!; [done..|]. intros rt env Hfault.
  destruct (getConfig_agrees (t_conf d') keys cfg) as (cfg' & Hg & Ha); [done|by rewrite Hf|done..|intros k Hk; rewrite Hf; auto|].
  exists cfg'. split; [|done]. unfold confDB_GetConfig. rewrite reads_eq. by rewrite Hg.
Qed.

(** A change of the lifetime of codes is announced: a successful
    [SetConfig] of it appends one outbox message, and pushing that message
    calls the message broker with the value that was set. *)
Theorem sms_expiration_announced visitor keys cfg d (w : W) d' w' :
  outboxHandlers OutboxAnonymousSmsExpUpdated = Some sendAnonymousSmsExpUpdatedMsg → SMSExpiration ∈ keys →
  SetConfig outboxHandlers visitor keys cfg (d, w) = (Ok tt, (d', w')) →
  ∃ row, t_outbox d' = t_outbox d ++ [row] ∧ ob_business_type row = OutboxConfig ∧
    ∀ w0, dispatch outboxHandlers (ob_message row) w0 = AnonymousSmsExpUpdated (cfg_SMSExpiration cfg) w0.
Proof.
  intros Hh Hk Hs. apply SetConfig_cases in Hs as [Hp Hw]. apply SetConfig_write_Ok in Hw as (_ & _ & _ & Ho).
  destruct (Ho Hk) as (row & Ht & Hb & Hm). exists row. split_and!; [done..|]. intros w0. rewrite Hm.
  destruct (checkParams_Ok keys cfg Hp) as [_ Hsms]. specialize (Hsms Hk).
  unfold expiration_message. rewrite (dispatch_marshal outboxHandlers _ sendAnonymousSmsExpUpdatedMsg) by done. simpl om_Content.
  unfold sendAnonymousSmsExpUpdatedMsg, mbind, M_bind, lift, jobj. cbn [assert_map]. rewrite jget_first, assert_JInt by lia. done.
Qed.

(** The value and its message are not written together: when the message is
    refused the caller gets the error, and the value stays. *)
Lemma config_kept_without_message keys cfg d e :
  db_begin_fault = None → db_commit_fault = None → db_fault "conf.SetConfig" = None → db_fault "outbox.AddOutboxInfos" = Some e →
  is_Some (outboxHandlers OutboxAnonymousSmsExpUpdated) → Forall settable keys → SMSExpiration ∈ keys →
  ∃ d', SetConfig_write outboxHandlers keys cfg d = (Err e, d') ∧ has_texts cfg keys (t_conf d') ∧ t_outbox d' = t_outbox d.
Proof.
  intros Hb Hcf Hf Ho [h Hh] Hset Hk. unfold SetConfig_write, confDB_SetConfig, in_transaction. rewrite Hb.
  assert (∀ l d0, Forall settable l → ∃ d1, for_each (set_key cfg) l d0 = (Ok tt, d1)) as Hall.
  { induction l as [|k l IH]; intros d0 Hl; [by eexists|]. apply Forall_cons in Hl as [Hk0 Hl]. simpl. unfold settable in Hk0.
    rewrite !elem_of_cons in Hk0. destruct Hk0 as [->|[->|[->|Hk0%elem_of_nil]]]; [..|done];
      (erewrite M_bind_unfold; [by apply IH|]); unfold set_key, execute; by rewrite Hf. }
  destruct (Hall (range_order 232 keys) d) as [d1 Hs]; [by rewrite range_order_perm|]. rewrite Hs. unfold finish_transaction at 1. rewrite Hcf.
  rewrite bool_decide_true by done. apply (set_keys_Ok _ _ []) in Hs as (Ht & Hfst & _ & Hd); [|by intros k kv ?%elem_of_nil].
  unfold AddOutboxInfo, AddOutboxInfos, mbind, M_bind, lift. cbn [outbox_messages om_Type]. rewrite Hh. cbn [mbind outcome_bind].
  unfold outboxDB_AddOutboxInfos, execute. cbn [length Nat.eqb]. rewrite Ho. simpl. rewrite rolled_back_same by done. exists d1. split_and!; [done| |].
  - intros k kv Hk0. apply Ht. by rewrite app_nil_l, elem_of_range_order.
  - by rewrite Hd.
Qed.
End service.
