(* ===== verification/TokenPerm.v ===== *)
(** * Permission of apps to obtain tokens of users
      ([Authentication/logics/access_token_perm/access_token_perm.go], [dbaccess/access_token_perm.go])

    An administrator lets an app act for any user; the change is logged
    through the outbox. *)
From Stdlib Require Import Ascii.
From S2P Require Import Prelude Strconv Json AuthBase AuthStore Outbox AuthConf.

(** ** Statements *)
Section statements.
Context `{GoRuntime} `{AuthEnv}.

Definition permDB_CheckAppAccessTokenPerm (appID : string) : M auth_db bool :=
  query "perm.CheckAppAccessTokenPerm" (λ d, Ok (bool_decide (appID ∈ pe_app_id <$> t_perm d))).
Definition permDB_AddAppAccessTokenPerm (appID : string) : M auth_db unit :=
  execute "perm.AddAppAccessTokenPerm" (set_perm (λ t, t ++ [{| pe_app_id := appID; pe_create_time := (time_Now / 1000)%Z |}])).
Definition permDB_DeleteAppAccessTokenPerm (appID : string) : M auth_db unit :=
  execute "perm.DeleteAppAccessTokenPerm" (set_perm (filter (λ row, pe_app_id row ≠ appID))).
Definition permDB_GetAllAppAccessTokenPerm : M auth_db (list string) :=
  query "perm.GetAllAppAccessTokenPerm" (λ d, Ok (map pe_app_id (range_order 240 (t_perm d)))).
End statements.

(** What [jsoniter] writes for a [Visitor] ([TokenID] is not written; the form
    of error codes is not part of the model), and what
    [mapstructure.Decode] reads. *)
Definition VisitorType_int (t : VisitorType) : Z := match t with NoVisitorType => 0 | RealName => 1 | Anonymous => 4 | Business => 5 end.
Definition Language_int (l : Language) : Z :=
  match l with NoLanguage => 0 | SimplifiedChinese => 1 | TraditionalChinese => 2 | AmericanEnglish => 3 end.
Definition visitor_json (v : Visitor) : json :=
  jobj [("ID", JStr (vis_ID v)); ("IP", JStr (vis_IP v)); ("Mac", JStr (vis_Mac v)); ("UserAgent", JStr (vis_UserAgent v));
        ("Type", JInt (VisitorType_int (vis_Type v))); ("Language", JInt (Language_int (vis_Language v)))].
Class Mapstructure := { decode_visitor : json → outcome Visitor }.

(** ** The service *)
Section perm.
Context {W : Type} `{GoRuntime} `{AuthEnv} `{Mapstructure} `{!DnUserManagement W} `{!DnHydra W} `{!DnEacpLog W}.
Context (outboxHandlers : Z → option (json → M W unit)).

Definition perm_checkAdmin (visitor : Visitor) : M (auth_db * W) unit :=
  roleTypes ← (if bool_decide (vis_Type visitor = RealName) then on_world (GetUserRolesByUserID (vis_ID visitor)) else mret []);
  lift (CheckVisitorType visitor roleTypes [RealName] [SuperAdmin; SystemAdmin]).
(** [visitor != nil && visitor.ID != ""] *)
Definition perm_guard (visitor : option Visitor) : M (auth_db * W) unit :=
  match visitor with
  | Some visitor => if bool_decide (vis_ID visitor = "") then mret tt else perm_checkAdmin visitor
  | None => mret tt
  end.
(** The outbox message of the log.  The [err] of the block is a variable of its
    own: a failing commit is not reported. *)
Definition perm_log (opType : Z) (visitor : option Visitor) (appName : string) : M auth_db unit :=
  match visitor with
  | Some visitor =>
      if bool_decide (vis_ID visitor = "") then mret tt
      else in_silent_transaction (AddOutboxInfo outboxHandlers OutboxBusinessAccessTokenPerm opType
             (jobj [("visitor", visitor_json visitor); ("app_name", JStr appName)]))
  | None => mret tt
  end.

Definition CheckAppAccessTokenPerm (appID : string) : M auth_db bool := permDB_CheckAppAccessTokenPerm appID.

Definition SetAppAccessTokenPerm (visitor : option Visitor) (appID : string) : M (auth_db * W) unit :=
  _ ← perm_guard visitor;
  appInfo ← on_world (GetAppInfo appID);
  hasPerm ← on_db (CheckAppAccessTokenPerm appID);
  if (hasPerm : bool) then mret tt
  else
    _ ← on_world (SetAppAsUserAgent appID);
    _ ← on_db (permDB_AddAppAccessTokenPerm appID);
    on_db (perm_log OutboxSetAppAccessTokenPermLog visitor (app_Name appInfo)).

Definition DeleteAppAccessTokenPerm (visitor : option Visitor) (appID : string) : M (auth_db * W) unit :=
  _ ← perm_guard visitor;
  appInfo ← on_world (GetAppInfo appID);
  _ ← on_db (permDB_DeleteAppAccessTokenPerm appID);
  on_db (perm_log OutboxDeleteAppAccessTokenPermLog visitor (app_Name appInfo)).

Definition AppDeleted (appID : string) : M auth_db unit := permDB_DeleteAppAccessTokenPerm appID.
Definition GetAllAppAccessTokenPerm (visitor : option Visitor) : M (auth_db * W) (list string) :=
  _ ← perm_guard visitor;
  on_db permDB_GetAllAppAccessTokenPerm.

(** The handlers of the messages. *)
Definition setAppPermAuditLog (content : json) : M W unit :=
  info ← lift (assert_map content);
  v ← lift (decode_visitor (jget info "visitor"));
  app_name ← lift (assert_string (jget info "app_name"));
  OpSetAppAccessTokenPerm v app_name.
Definition deleteAppPermAuditLog (content : json) : M W unit :=
  info ← lift (assert_map content);
  v ← lift (decode_visitor (jget info "visitor"));
  app_name ← lift (assert_string (jget info "app_name"));
  OpDeleteAppAccessTokenPerm v app_name.
End perm.

(** * Assertions ([Authentication/logics/assertion/assertion.go])

    An assertion is a signed JWT with which a client obtains a token for a
    user; it carries the client it was made for, and the token hook refuses
    it to any other. *)
Record Claims := {
  cl_Issuer : string; cl_Subject : string; cl_Audience : list string; cl_Expiry : Z; cl_NotBefore : Z; cl_IssuedAt : Z; cl_ID : string
}.
(** Signing with the service's key ([jwt.Signed(...).CompactSerialize]), the
    base64 and JSON of a segment, and [uuid.NewV4]. *)
Class Jwt := {
  jwt_sign : Claims → gmap string json → outcome string;
  base64_url : string → option string;
  uuid_NewV4 : string
}.

Section assertion.
Context {W : Type} `{GoRuntime} `{AuthEnv} `{Jwt} `{JsonText} `{!DnUserManagement W} `{!DnHydra W}.

Definition issuer : string := "authentication".
Definition kid : string := "401e6962-ab50-4c90-bf07-f9d23d4def3b".
Definition hour : Z := 3600 * second.

Definition CreateJWK (subject : string) (ttl : Z) (privateClaims : gmap string json) : M W string :=
  trustedPair ← GetKidTrustedPairByIssuer issuer;
  _ ← (if mget trustedPair kid then mret tt else CreateTrustedPair issuer kid);
  audience ← GetTokenEndpoint;
  let claims := {| cl_Issuer := issuer; cl_Subject := subject; cl_Audience := [audience]; cl_Expiry := Unix (time_Now + ttl);
                   cl_NotBefore := unix_now; cl_IssuedAt := unix_now; cl_ID := uuid_NewV4 |} in
  lift (jwt_sign claims privateClaims).

(** The private claims of an assertion for a real user. *)
Definition realname_claims (clientID : string) : gmap string json :=
  list_to_map [("ext", jobj [("visitor_type", JStr "realname"); ("login_ip", JStr ""); ("account_type", JStr "other"); ("udid", JStr "");
                             ("client_type", JStr "app"); ("client_id", JStr clientID)])].

Definition GetAssertionByUserID (visitor : Visitor) (userID : string) : M (auth_db * W) string :=
  _ ← lift (if bool_decide (vis_Type visitor = Business) then Ok tt else NewHTTPError "Visitor type must be app." BadRequest []);
  _ ← on_world (GetUserRolesByUserID userID);
  hasPerm ← on_db (CheckAppAccessTokenPerm (vis_ID visitor));
  if (hasPerm : bool) then on_world (CreateJWK userID hour (realname_claims (vis_ID visitor)))
  else lift (NewHTTPError "This app doesn't have permission to access token." Forbidden []).

Definition pad_base64 (seg : string) : string :=
  let l := (String.length seg `mod` 4)%nat in
  if (0 <? l)%nat then seg +:+ String.string_of_list_ascii (replicate (4 - l) "="%char) else seg.
Definition decodeSegment (seg : string) : outcome (gmap string json) :=
  match base64_url (pad_base64 seg) with
  | None => Err (MkErr "base64" "illegal base64 data" [])
  | Some bi => j ← parse_json bi; unmarshal_map (TJson j)
  end.
Definition TokenHook (assertion clientID : string) : outcome (gmap string json) :=
  match split_dots assertion with
  | _ :: seg :: _ =>
      claims ← decodeSegment seg;
      result ← assert_map (jget claims "ext");
      client_id ← assert_string (jget result "client_id");
      if bool_decide (client_id = clientID) then Ok (delete "client_id" result)
      else NewHTTPError "Invalid client_id." Forbidden []
  | _ => Panic "index out of range"
  end.
End assertion.

(** * Who may act for a user

    Only an administrator changes which apps may obtain tokens; an assertion is
    given to such an app only, and only that app can use it. *)
Lemma fmap_filter_key {A B} (f : A → B) (P : B → Prop) `{∀ b, Decision (P b), ∀ x, Decision (P (f x))} (l : list A) :
  f <$> filter (λ x, P (f x)) l = filter P (f <$> l).
Proof. induction l as [|x l IH]; [done|]. csimpl. rewrite !filter_cons. repeat case_decide; csimpl; by rewrite ?IH. Qed.

Definition apps (d : auth_db) : list string := pe_app_id <$> t_perm d.

(** ** Administration *)
Section administration.
Context {W : Type} `{GoRuntime} `{AuthEnv} `{Mapstructure} `{!DnUserManagement W} `{!DnHydra W} `{!DnEacpLog W}.
Context (outboxHandlers : Z → option (json → M W unit)).

(** The caller is the service itself, or a real user with one of the two
    roles in the user service. *)
Definition may_administer (visitor : option Visitor) (w : W) : Prop :=
  ∀ v, visitor = Some v → vis_ID v ≠ "" →
    vis_Type v = RealName ∧ ∃ roles w', GetUserRolesByUserID (vis_ID v) w = (Ok roles, w') ∧ ∃ r, r ∈ roles ∧ r ∈ [SuperAdmin; SystemAdmin].

Lemma keeps_db_perm_guard visitor : keeps_db (perm_guard (W := W) visitor).
Proof. destruct visitor as [v|]; simpl; [case_bool_decide; [|unfold perm_checkAdmin; case_bool_decide]|]; auto with isf. Qed.
Lemma perm_guard_Ok visitor d (w : W) s : perm_guard visitor (d, w) = (Ok tt, s) → may_administer visitor w.
Proof.
  intros Hg v -> Hne. simpl in Hg. rewrite bool_decide_false in Hg by done. unfold perm_checkAdmin in Hg. case_bool_decide as Ht.
  - mstep Hg as roles Hr. unfold on_world in Hr. simpl in Hr. destruct (GetUserRolesByUserID (vis_ID v) w) as [r w1] eqn:E. injection Hr as -> _.
    split; [done|]. exists roles, w1. split; [done|]. rewrite lift_eq in Hg. injection Hg as Hg _. unfold CheckVisitorType in Hg.
    rewrite bool_decide_true in Hg by (rewrite Ht; left). rewrite bool_decide_true in Hg by done.
    destruct (existsb _ roles) eqn:Ex; [|by vm_compute in Hg]. apply existsb_exists in Ex as (r & Hin%list_elem_of_In & Hacc). exists r.
    split; [done|]. by apply bool_decide_eq_true in Hacc.
  - unfold mbind, M_bind in Hg. simpl in Hg. rewrite lift_eq in Hg. injection Hg as Hg _. unfold CheckVisitorType in Hg.
    rewrite bool_decide_false in Hg by set_solver. by vm_compute in Hg.
Qed.

(** The log writes outbox messages only. *)
Lemma perm_log_apps opType visitor name d : apps (perm_log outboxHandlers opType visitor name d).2 = apps d.
Proof.
  unfold perm_log. destruct visitor as [v|]; [|done]. case_bool_decide; [done|]. unfold in_silent_transaction. destruct db_begin_fault; [done|].
  unfold AddOutboxInfo, AddOutboxInfos, mbind, M_bind, lift. destruct (outbox_messages _ _) as [l|e|w]; simpl; [|done|by destruct db_commit_fault].
  unfold outboxDB_AddOutboxInfos. destruct (length l =? 0)%nat; [done|]. unfold execute. destruct (db_fault _); [done|]. simpl. by destruct db_commit_fault.
Qed.

(** The two administrative operations. *)
Inductive perm_op : Set := Grant | Revoke.
Definition administer (op : perm_op) : option Visitor → string → M (auth_db * W) unit :=
  match op with Grant => SetAppAccessTokenPerm outboxHandlers | Revoke => DeleteAppAccessTokenPerm outboxHandlers end.

Lemma administer_cases op visitor app d (w : W) r d' w' :
  administer op visitor app (d, w) = (r, (d', w')) →
  (apps d' = apps d ∧ (r = Ok tt → op = Grant ∧ app ∈ apps d)) ∨
  (may_administer visitor w ∧ apps d' = match op with Grant => apps d ++ [app] | Revoke => filter (λ a, a ≠ app) (apps d) end).
Proof.
  intros Ha. destruct op; simpl in Ha; [unfold SetAppAccessTokenPerm in Ha|unfold DeleteAppAccessTokenPerm in Ha].
  - apply bind_keeps_db in Ha as [([] & w1 & Hg & Ha)|[-> Hn]]; [|left; split; [done|by intros ->; destruct (Hn tt)]|apply keeps_db_perm_guard].
    apply perm_guard_Ok in Hg. apply bind_keeps_db in Ha as [(info & w2 & _ & Ha)|[-> Hn]]; [|left; split; [done|by intros ->; destruct (Hn tt)]|auto with isf].
    unfold mbind at 1, M_bind at 1, on_db at 1, CheckAppAccessTokenPerm, permDB_CheckAppAccessTokenPerm, query, reads in Ha. simpl in Ha.
    destruct (db_fault "perm.CheckAppAccessTokenPerm"); [injection Ha as <- <- <-; by left|].
    case_bool_decide as Hin; [injection Ha as <- <- <-; by left|].
    apply bind_keeps_db in Ha as [([] & w3 & _ & Ha)|[-> Hn]]; [|left; split; [done|by intros ->; destruct (Hn tt)]|auto with isf].
    unfold mbind, M_bind, on_db, permDB_AddAppAccessTokenPerm, execute in Ha. simpl in Ha.
    destruct (db_fault "perm.AddAppAccessTokenPerm"); [injection Ha as <- <- <-; by left|]. right. split; [done|].
    match type of Ha with context [perm_log ?h ?o ?v ?n ?d0] => pose proof (perm_log_apps o v n d0) as Hl; destruct (perm_log h o v n d0) as [r1 d1] end.
    injection Ha as <- <- <-. simpl in Hl. rewrite Hl. unfold apps. simpl. by rewrite fmap_app.
  - apply bind_keeps_db in Ha as [([] & w1 & Hg & Ha)|[-> Hn]]; [|left; split; [done|by intros ->; destruct (Hn tt)]|apply keeps_db_perm_guard].
    apply perm_guard_Ok in Hg. apply bind_keeps_db in Ha as [(info & w2 & _ & Ha)|[-> Hn]]; [|left; split; [done|by intros ->; destruct (Hn tt)]|auto with isf].
    unfold mbind, M_bind, on_db, permDB_DeleteAppAccessTokenPerm, execute in Ha. simpl in Ha.
    destruct (db_fault "perm.DeleteAppAccessTokenPerm"); [injection Ha as <- <- <-; by left|]. right. split; [done|].
    match type of Ha with context [perm_log ?h ?o ?v ?n ?d0] => pose proof (perm_log_apps o v n d0) as Hl; destruct (perm_log h o v n d0) as [r1 d1] end.
    injection Ha as <- <- <-. simpl in Hl. rewrite Hl. unfold apps. simpl. apply (fmap_filter_key pe_app_id (λ a, a ≠ app)).
Qed.

(** C19. Administering the permission of an app needs an administrator,
    touches no other app, and does what it says when it succeeds; a call by
    anyone else changes nothing. *)
Theorem token_permission_administration op visitor app d (w : W) r d' w' :
  administer op visitor app (d, w) = (r, (d', w')) →
  (∀ other, other ≠ app → other ∈ apps d' ↔ other ∈ apps d) ∧
  (r = Ok tt → (app ∈ apps d' ↔ op = Grant)) ∧
  (¬ may_administer visitor w → apps d' = apps d).
Proof.
  intros Ha. apply administer_cases in Ha as [[-> Hok]|[Hadm ->]].
  - split_and!; [done| |done]. intros Hr. by destruct (Hok Hr) as [-> ?].
  - split_and!; [|intros _|done]; destruct op; intros *; rewrite ?elem_of_app, ?list_elem_of_singleton, ?list_elem_of_filter; naive_solver.
Qed.
End administration.

(** ** Assertions *)
Section assertions.
Context {W : Type} `{GoRuntime} `{AuthEnv} `{Jwt} `{JsonText} `{!DnUserManagement W} `{!DnHydra W}.

(** A compact serialization has three segments, and the private claims are
    members of the second. *)
Class JwtLaw : Prop := {
  jwt_payload claims privateClaims t : jwt_sign claims privateClaims = Ok t →
    ∃ header payload signature m, split_dots t = [header; payload; signature] ∧ decodeSegment payload = Ok m ∧
      ∀ k v, privateClaims !! k = Some v → m !! k = Some v
}.
Context `{!JwtLaw}.

(** What the hook gives back. *)
Definition realname_ext : gmap string json :=
  list_to_map [("visitor_type", JStr "realname"); ("login_ip", JStr ""); ("account_type", JStr "other"); ("udid", JStr ""); ("client_type", JStr "app")].
Definition hook_answer (owner clientID : string) (ext : gmap string json) : outcome (gmap string json) :=
  if bool_decide (owner = clientID) then Ok ext else Err (http_error "Invalid client_id." Forbidden []).

Lemma CreateJWK_signed subject ttl priv (w : W) t w' :
  CreateJWK subject ttl priv w = (Ok t, w') → ∃ claims, cl_Subject claims = subject ∧ cl_Expiry claims = Unix (time_Now + ttl) ∧ jwt_sign claims priv = Ok t.
Proof.
  unfold CreateJWK. intros Hc. mstep Hc as tp H1'. mstep Hc as [] H2'. mstep Hc as aud H3'. rewrite lift_eq in Hc. injection Hc as Hc _.
  match type of Hc with jwt_sign ?c _ = _ => exists c end. by split_and!.
Qed.
(** The hook on an assertion with a client. *)
Lemma TokenHook_signed claims priv t ext owner clientID :
  jwt_sign claims priv = Ok t → priv !! "ext" = Some (JObj ext) → ext !! "client_id" = Some (JStr owner) →
  TokenHook t clientID = hook_answer owner clientID (delete "client_id" ext).
Proof.
  intros Hs Hp He. destruct (jwt_payload claims priv t Hs) as (h & p & sg & m & Hsplit & Hd & Hm). unfold TokenHook. rewrite Hsplit, Hd.
  unfold mbind, outcome_bind, jget. rewrite (Hm _ _ Hp). simpl. rewrite He. simpl. unfold hook_answer. by case_bool_decide.
Qed.
Lemma realname_hook claims t owner clientID :
  jwt_sign claims (realname_claims owner) = Ok t → TokenHook t clientID = hook_answer owner clientID realname_ext.
Proof. intros Hs. eapply eq_trans; [eapply TokenHook_signed; [done|reflexivity|reflexivity]|reflexivity]. Qed.

(** C20. An assertion is given to apps with the permission only, and only that
    app can use it: the token hook accepts it exactly for the client it was
    made for, and answers the claims without the client. *)
Theorem assertion_is_bound_to_its_app visitor userID d (w : W) t d' w' :
  GetAssertionByUserID visitor userID (d, w) = (Ok t, (d', w')) →
  vis_Type visitor = Business ∧ vis_ID visitor ∈ apps d ∧ d' = d ∧
  ∀ clientID, TokenHook t clientID = hook_answer (vis_ID visitor) clientID realname_ext.
Proof.
  unfold GetAssertionByUserID. intros Ha. mstep Ha as [] Ht. case_bool_decide as Hb; [|by vm_compute in Ht].
  apply bind_keeps_db in Ha as [(roles & w1 & _ & Ha)|[_ Hn]]; [|by destruct (Hn t)|auto with isf].
  unfold mbind, M_bind, on_db, CheckAppAccessTokenPerm, permDB_CheckAppAccessTokenPerm, query, reads in Ha. simpl in Ha.
  destruct (db_fault _); [done|]. case_bool_decide as Hin; [|by vm_compute in Ha]. unfold on_world in Ha. simpl in Ha.
  destruct (CreateJWK _ _ _ w1) as [r w2] eqn:Hc. injection Ha as -> <- <-. apply CreateJWK_signed in Hc as (claims & _ & _ & Hs).
  split_and!; try done. intros clientID. by eapply realname_hook.
Qed.
End assertions.
