(* ===== verification/AuthSession.v ===== *)
(** * Sessions, audit log and message handlers
      ([Authentication/logics/session], [logics/audit/audit.go], [driveradapters/mq_handler/mq_handler.go], [dbaccess/session.go])

    Contexts of login sessions are kept by session id; login sessions of hydra
    are ended through the outbox when users are deleted, disabled or change
    their password. *)
From S2P Require Import Prelude Strconv Json AuthBase AuthStore Outbox TokenPerm.

(** ** Contexts *)
Record Context := { ctx_Subject : string; ctx_ClientID : string; ctx_SessionID : string; ctx_Exp : Z; ctx_Context : text }.

Section session.
Context `{GoRuntime} `{AuthEnv}.

Definition sessionDB_Get (sessionID : string) : M auth_db Context :=
  query "session.Get" (λ d,
    match range_order 250 (filter (λ row, se_session_id row = sessionID) (t_session d)) with
    | row :: _ => Ok {| ctx_Subject := se_subject row; ctx_ClientID := se_client_id row; ctx_SessionID := se_session_id row;
                        ctx_Exp := se_exp row; ctx_Context := se_context row |}
    | [] => Err ErrNoRows
    end).
Definition sessionDB_Put (ctx : Context) : M auth_db unit :=
  insert_key "session.Put" (λ d, bool_decide (ctx_SessionID ctx ∈ se_session_id <$> t_session d))
    (set_session (λ t, t ++ [{| se_session_id := ctx_SessionID ctx; se_subject := ctx_Subject ctx; se_client_id := ctx_ClientID ctx;
                                se_exp := ctx_Exp ctx; se_context := ctx_Context ctx |}])) tt.
Definition sessionDB_Delete (sessionID : string) : M auth_db unit :=
  execute "session.Delete" (set_session (filter (λ row, se_session_id row ≠ sessionID))).
Definition sessionDB_EcronDelete (exp : Z) : M auth_db unit :=
  execute "session.EcronDelete" (set_session (filter (λ row, ¬ (se_exp row < exp)%Z))).

Definition session_Get (sessionID : string) : M auth_db Context := λ d,
  match sessionDB_Get sessionID d with
  | (Err e, d) => (if bool_decide (e = ErrNoRows) then NewHTTPError "session_id not exist" URINotExist [] else Err e, d)
  | r => r
  end.
Definition session_Put (ctx : Context) : M auth_db unit :=
  if bool_decide (ctx_SessionID ctx = "") then lift (NewHTTPError "session_id is invalid" URINotExist []) else sessionDB_Put ctx.
Definition session_Delete (sessionID : string) : M auth_db unit := sessionDB_Delete sessionID.
Definition session_EcronDelete (exp : Z) : M auth_db unit := sessionDB_EcronDelete exp.
End session.

(** ** Login sessions of hydra and the audit log *)
Section hydra_session.
Context {W : Type} `{GoRuntime} `{AuthEnv} `{!DnHydra W} `{!DnEacpLog W}.
Context (outboxHandlers : Z → option (json → M W unit)).

(** The result has no name: the error of the commit is lost. *)
Definition hydraSession_Delete (userID clientID : string) : M auth_db unit :=
  in_silent_transaction (AddOutboxInfo outboxHandlers OutboxBusinessHydraSession OutboxDeleteHydraSession
    (jobj [("user_id", JStr userID); ("client_id", JStr clientID)])).
(** The handler of the message. *)
Definition deleteHydraSession (content : json) : M W unit :=
  info ← lift (assert_map content);
  user_id ← lift (assert_string (jget info "user_id"));
  client_id ← lift (assert_string (jget info "client_id"));
  DeleteSession user_id client_id.

Definition audit_Log (topic : string) (message : json) : M auth_db unit :=
  in_transaction (AddOutboxInfo outboxHandlers OutboxAuditLog OutboxSendAuditLog (jobj [("topic", JStr topic); ("message", message)])).
Definition sendAuditLog (content : json) : M W unit :=
  info ← lift (assert_map content);
  topic ← lift (assert_string (jget info "topic"));
  Publish topic (jget info "message").
End hydra_session.

(** ** Message handlers *)

(** [schema.Validate] of one of the four schemas: the errors of the body. *)
Class MessageSchema := { schema_Validate : string → text → option string }.
(** An [errorv2.Error] is an error whose code starts with ["v2 "]. *)
Definition is_v2 (e : gerror) : bool := String.prefix "v2 " (err_code e).
Definition drop_string (n : nat) (s : string) : string := String.substring n (String.length s - n) s.

(** [needReTry] on an error. *)
Definition needReTry (err : gerror) : outcome bool :=
  if is_http err then
    let statusCode := (Atoi (drop_string 5 (err_code err))).1 in
    Ok (statusCode `quot` 100000000 =? 5)%Z
  else if is_v2 err then
    match split_dots (drop_string 3 (err_code err)) with
    | _ :: code :: _ => Ok (bool_decide (code ∈ ["InternalServerError"; "ServiceUnavailable"]))
    | _ => Panic "index out of range"
    end
  else Ok true.

Section mq.
Context {W : Type} `{GoRuntime} `{AuthEnv} `{MessageSchema}.
Context (outboxHandlers : Z → option (json → M W unit)).

Definition ValidateAndBind (schema : string) (body : text) : outcome json :=
  match schema_Validate schema body with
  | Some msg => NewHTTPError msg BadRequest []
  | None => match body with TJson j => Ok j | TRaw _ => Err json_syntax_error end
  end.

(** The state of the handlers: the tables and the variable [clientID] of the
    package, which all of them share. *)
Record mq_state := { mq_clientID : string; mq_db : auth_db }.
Definition mq_on_db {A} (m : M auth_db A) : M mq_state A := λ s,
  let '(r, d) := m (mq_db s) in (r, {| mq_clientID := mq_clientID s; mq_db := d |}).

(** A call whose error is logged and returned only when a retry helps. *)
Definition retry_or_drop (m : M auth_db unit) : M mq_state unit := λ s,
  match mq_on_db m s with
  | (Err e, s') => (match needReTry e with Ok true => Err e | Ok false => Ok tt | Err e' => Err e' | Panic w => Panic w end, s')
  | r => r
  end.
(** The last part of the handlers of user events. *)
Definition end_sessions (userID : string) : M mq_state unit := λ s,
  if bool_decide (userID = "") then (Ok tt, s) else retry_or_drop (hydraSession_Delete outboxHandlers userID (mq_clientID s)) s.

Definition sessionDelete (message : text) : M mq_state unit := λ s,
  match ValidateAndBind "sessions" message with
  | Ok jsonV =>
      (m ← lift (assert_map jsonV);
       userID ← lift (assert_string (jget m "user_id"));
       if bool_decide (userID = "") then mret tt
       else
         _ ← (match m !! "client_id" with
              | Some v => λ s, match assert_string v with
                               | Ok c => (Ok tt, {| mq_clientID := c; mq_db := mq_db s |})
                               | Err e => (Err e, s)
                               | Panic w => (Panic w, s)
                               end
              | None => mret tt
              end : M mq_state unit);
         end_sessions userID) s
  | Err _ => (Ok tt, s)
  | Panic w => (Panic w, s)
  end.
(** [userDelete] and [userPasswordModify] differ in the schema and the key. *)
Definition user_event (schema key : string) (message : text) : M mq_state unit := λ s,
  match ValidateAndBind schema message with
  | Ok jsonV => (m ← lift (assert_map jsonV); userID ← lift (assert_string (jget m key)); end_sessions userID) s
  | Err _ => (Ok tt, s)
  | Panic w => (Panic w, s)
  end.
Definition userDelete : text → M mq_state unit := user_event "user_delete" "id".
Definition userPasswordModify : text → M mq_state unit := user_event "user_password_modify" "user_id".
Definition userStatusChange (message : text) : M mq_state unit := λ s,
  match ValidateAndBind "user_status_change" message with
  | Ok jsonV =>
      (m ← lift (assert_map jsonV);
       status ← lift (assert_bool (jget m "status"));
       if (status : bool) then mret tt
       else userID ← lift (assert_string (jget m "user_id")); end_sessions userID) s
  | Err _ => (Ok tt, s)
  | Panic w => (Panic w, s)
  end.

(** [getIDInNsqMsg] with [CheckJSONValue]: an object with a string [id]. *)
Definition getIDInNsqMsg (message : text) : outcome string :=
  match message with
  | TRaw _ => Err json_syntax_error
  | TJson (JObj m) =>
      match m !! "id" with
      | Some (JStr id) => if bool_decide (id = "") then NewHTTPError "The id is empty." BadRequest [] else Ok id
      | Some _ => NewHTTPError "type of body.id should be string" BadRequest []
      | None => NewHTTPError "body.id is required" BadRequest []
      end
  | TJson _ => NewHTTPError "type of body should be map" BadRequest []
  end.
Definition appDeleted (message : text) : M mq_state unit := λ s,
  match getIDInNsqMsg message with
  | Ok appID => retry_or_drop (AppDeleted appID) s
  | Err _ => (Ok tt, s)
  | Panic w => (Panic w, s)
  end.
End mq.

(** * Which sessions an event ends

    A notice that a user is gone, disabled or has a new password ends up as a
    call of hydra; the client in that call is the last one any notice of
    session deletion named. *)
(** ** Contexts *)
Section contexts.
Context `{GoRuntime} `{AuthEnv}.

(** What was put can be read, and a second [Put] of the id is refused. *)
Lemma session_put_get ctx d d' :
  session_Put ctx d = (Ok tt, d') → db_fault "session.Get" = None →
  session_Get (ctx_SessionID ctx) d' = (Ok ctx, d') ∧ ∀ ctx', ctx_SessionID ctx' = ctx_SessionID ctx → (session_Put ctx' d').1 ≠ Ok tt.
Proof.
  unfold session_Put. case_bool_decide; [done|]. unfold sessionDB_Put, insert_key. destruct (db_fault "session.Put") eqn:Hp; [done|].
  case_bool_decide as Hin; [done|]. intros [= <-] Hg. split.
  - unfold session_Get, sessionDB_Get, query, reads. rewrite Hg. simpl. rewrite filter_app, filter_none.
    2:{ intros row Hrow Hid. apply Hin. rewrite <-Hid. by apply list_elem_of_fmap_2. }
    rewrite filter_cons, decide_True, filter_nil by done. simpl.
    by rewrite (proj1 (Permutation_singleton_r _ _) (range_order_perm 250 _ [_])); destruct ctx.
  - intros ctx' Hid. rewrite Hid, bool_decide_false by done. rewrite bool_decide_true; [done|]. simpl. rewrite fmap_app. set_solver.
Qed.
End contexts.

(** ** Notices *)
Inductive notice : Set :=
| SessionsDeleted (user : string) (client : option string)
| UserDeleted (user : string)
| PasswordModified (user : string)
| UserDisabled (user : string).
Definition notice_user (n : notice) : string :=
  match n with SessionsDeleted u _ | UserDeleted u | PasswordModified u | UserDisabled u => u end.

Definition notice_text (n : notice) : text :=
  marshal (match n with
           | SessionsDeleted u (Some c) => jobj [("user_id", JStr u); ("client_id", JStr c)]
           | SessionsDeleted u None => jobj [("user_id", JStr u)]
           | UserDeleted u => jobj [("id", JStr u)]
           | PasswordModified u => jobj [("user_id", JStr u)]
           | UserDisabled u => jobj [("user_id", JStr u); ("status", JBool false)]
           end).
Definition notice_schema (n : notice) : string :=
  match n with
  | SessionsDeleted _ _ => "sessions" | UserDeleted _ => "user_delete" | PasswordModified _ => "user_password_modify"
  | UserDisabled _ => "user_status_change"
  end.

(** The user and the client of the calls the notices lead to. *)
Fixpoint ended (clientID : string) (h : list notice) : list (string * string) :=
  match h with
  | [] => []
  | n :: h =>
      let clientID := match n with SessionsDeleted _ (Some c) => c | _ => clientID end in
      (notice_user n, clientID) :: ended clientID h
  end.

Section notices.
Context {W : Type} `{GoRuntime} `{AuthEnv} `{MessageSchema} `{!DnHydra W}.
Context (outboxHandlers : Z → option (json → M W unit)).
Hypothesis registered : outboxHandlers OutboxDeleteHydraSession = Some deleteHydraSession.

Definition handle (n : notice) : M mq_state unit :=
  match n with
  | SessionsDeleted _ _ => sessionDelete outboxHandlers (notice_text n)
  | UserDeleted _ => userDelete outboxHandlers (notice_text n)
  | PasswordModified _ => userPasswordModify outboxHandlers (notice_text n)
  | UserDisabled _ => userStatusChange outboxHandlers (notice_text n)
  end.

Definition session_row_of (user client : string) (row : outbox_row) : Prop :=
  ob_business_type row = OutboxBusinessHydraSession ∧ ∀ w, dispatch outboxHandlers (ob_message row) w = DeleteSession user client w.

Lemma end_sessions_adds user s :
  user ≠ "" → db_begin_fault = None → db_commit_fault = None → db_fault "outbox.AddOutboxInfos" = None →
  ∃ row d', end_sessions outboxHandlers user s = (Ok tt, {| mq_clientID := mq_clientID s; mq_db := d' |}) ∧
    t_outbox d' = t_outbox (mq_db s) ++ [row] ∧ session_row_of user (mq_clientID s) row.
Proof.
  intros Hu Hb Hc Ho. unfold end_sessions. rewrite bool_decide_false by done. unfold retry_or_drop, mq_on_db, hydraSession_Delete.
  unfold in_silent_transaction. rewrite Hb. unfold AddOutboxInfo, AddOutboxInfos, mbind, M_bind, lift. cbn [outbox_messages om_Type].
  rewrite registered. cbn [mbind outcome_bind]. unfold outboxDB_AddOutboxInfos, execute. cbn [length Nat.eqb]. rewrite Ho. simpl. rewrite Hc.
  eexists _, _. split; [reflexivity|]. simpl. split; [reflexivity|]. split; [done|]. intros w. simpl.
  rewrite (dispatch_marshal outboxHandlers _ deleteHydraSession) by done. simpl om_Content.
  unfold deleteHydraSession, mbind, M_bind, lift, jobj. cbn [assert_map]. unfold jget. simpl. rewrite lookup_insert_eq. simpl.
  by rewrite lookup_insert_ne, lookup_insert_eq by done.
Qed.

Lemma handle_adds n s :
  notice_user n ≠ "" → schema_Validate (notice_schema n) (notice_text n) = None →
  db_begin_fault = None → db_commit_fault = None → db_fault "outbox.AddOutboxInfos" = None →
  ∃ row s' client, handle n s = (Ok tt, s') ∧ client = match n with SessionsDeleted _ (Some c) => c | _ => mq_clientID s end ∧
    mq_clientID s' = client ∧ t_outbox (mq_db s') = t_outbox (mq_db s) ++ [row] ∧ session_row_of (notice_user n) client row.
Proof.
  intros Hu Hv Hb Hc Ho. destruct n as [u [c|]|u|u|u]; simpl in Hu, Hv.
  - destruct (end_sessions_adds u {| mq_clientID := c; mq_db := mq_db s |}) as (row & d' & He & Ht & Hr); [done..|].
    exists row, {| mq_clientID := c; mq_db := d' |}, c. split; [|by split_and!]. simpl. unfold sessionDelete, ValidateAndBind. rewrite Hv. simpl. unfold mbind, M_bind, lift. simpl.
    unfold jget. simpl. rewrite lookup_insert_eq. simpl. rewrite bool_decide_false by done. rewrite lookup_insert_ne, lookup_insert_eq by done. simpl. exact He.
  - destruct (end_sessions_adds u s) as (row & d' & He & Ht & Hr); [done..|]. exists row, {| mq_clientID := mq_clientID s; mq_db := d' |}, (mq_clientID s). split; [|by split_and!].
    simpl. unfold sessionDelete, ValidateAndBind. rewrite Hv. simpl. unfold mbind, M_bind, lift. simpl.
    unfold jget. simpl. rewrite lookup_insert_eq. simpl. rewrite bool_decide_false by done. rewrite lookup_insert_ne by done. exact He.
  - destruct (end_sessions_adds u s) as (row & d' & He & Ht & Hr); [done..|]. exists row, {| mq_clientID := mq_clientID s; mq_db := d' |}, (mq_clientID s). split; [|by split_and!].
    simpl. unfold userDelete, user_event, ValidateAndBind. rewrite Hv. simpl. unfold mbind, M_bind, lift. simpl.
    unfold jget. simpl. rewrite lookup_insert_eq. simpl. exact He.
  - destruct (end_sessions_adds u s) as (row & d' & He & Ht & Hr); [done..|]. exists row, {| mq_clientID := mq_clientID s; mq_db := d' |}, (mq_clientID s). split; [|by split_and!].
    simpl. unfold userPasswordModify, user_event, ValidateAndBind. rewrite Hv. simpl. unfold mbind, M_bind, lift. simpl.
    unfold jget. simpl. rewrite lookup_insert_eq. simpl. exact He.
  - destruct (end_sessions_adds u s) as (row & d' & He & Ht & Hr); [done..|]. exists row, {| mq_clientID := mq_clientID s; mq_db := d' |}, (mq_clientID s). split; [|by split_and!].
    simpl. unfold userStatusChange, ValidateAndBind. rewrite Hv. simpl. unfold mbind, M_bind, lift. simpl.
    unfold jget. simpl. rewrite (lookup_insert_ne _ "user_id" "status") by done. rewrite lookup_insert_eq. simpl. rewrite lookup_insert_eq. simpl. exact He.
Qed.

(** C34. A sequence of notices leads to one message each, in their order, and
    pushing a message ends the sessions of the user of its notice at one
    client: the client that the last notice of session deletion named, up to
    and including this one, whichever user it was about. *)
Theorem notices_end_sessions h s :
  db_begin_fault = None → db_commit_fault = None → db_fault "outbox.AddOutboxInfos" = None →
  Forall (λ n, notice_user n ≠ "" ∧ schema_Validate (notice_schema n) (notice_text n) = None) h →
  ∃ rows s', for_each handle h s = (Ok tt, s') ∧ t_outbox (mq_db s') = t_outbox (mq_db s) ++ rows ∧
    Forall2 (λ row uc, session_row_of uc.1 uc.2 row) rows (ended (mq_clientID s) h).
Proof.
  intros Hb Hc Ho Hh. revert s. induction Hh as [|n h [Hu Hv] _ IH]; intros s.
  - exists [], s. simpl. rewrite app_nil_r. split_and!; [done..|constructor].
  - destruct (handle_adds n s Hu Hv Hb Hc Ho) as (row & s1 & client & Hn & Hcl & Hs1 & Ht & Hr).
    destruct (IH s1) as (rows & s' & Hf & Ht' & Hrows). exists (row :: rows), s'. split_and!.
    + simpl. by rewrite (M_bind_unfold _ _ s tt s1 Hn).
    + rewrite Ht', Ht. by rewrite <-app_assoc.
    + simpl. constructor; [by rewrite <-Hcl|]. by rewrite <-Hcl, <-Hs1.
Qed.
End notices.

(** A change of password ends sessions at a client that an unrelated notice
    named before, and not at the others. *)
Example stale_client : ended "" [SessionsDeleted "alice" (Some "app1"); PasswordModified "bob"] = [("alice", "app1"); ("bob", "app1")].
Proof. reflexivity. Qed.
