(* ===== verification/UserAccount.v ===== *)
(** * Accounts and their passwords in the user service
      ([UserManagement/logics/user.go], [driveradapters/user_rest_handler.go], [dbaccess/user.go])

    The part of [UserManagement] a login talks to: matching an account,
    checking a local password and keeping the counter of wrong passwords.  Text
    in the table is compared byte by byte.  [user_service] is the
    implementation of the three calls of the client interface of
    [Authentication], through the handlers of this service. *)
From Stdlib Require Import Ascii.
From S2P Require Import Prelude Strconv Json AuthBase Des.

Record user_row := {
  us_id : string; us_login_name : string; us_auth_type : AuthType; us_idcard : string; us_err_cnt : Z; us_err_last : Z;
  us_enabled : bool; us_auto_enabled : bool; us_ldap : LDAPServerType; us_domain_path : string; us_password : string;
  us_sha2_password : string; us_pwd_timestamp : Z; us_pwd_control : bool
}.
Definition set_err_info (cnt last : Z) (row : user_row) : user_row :=
  {| us_id := us_id row; us_login_name := us_login_name row; us_auth_type := us_auth_type row; us_idcard := us_idcard row;
     us_err_cnt := cnt; us_err_last := last; us_enabled := us_enabled row; us_auto_enabled := us_auto_enabled row; us_ldap := us_ldap row;
     us_domain_path := us_domain_path row; us_password := us_password row; us_sha2_password := us_sha2_password row;
     us_pwd_timestamp := us_pwd_timestamp row; us_pwd_control := us_pwd_control row |}.

(** The configuration of the service ([u.config]), hashing, the encoding of
    identity numbers, and the statements its database refuses. *)
Record UserConf := {
  uc_EnablePwdLock : bool; uc_EnableThirdPwdLock : bool; uc_PwdLockTime : Z; uc_StrongPwdStatus : bool; uc_StrongPwdLength : Z;
  uc_PwdExpireTime : Z; uc_UserDefaultMd5PWD : string; uc_UserDefaultSha2PWD : string
}.
Class UserEnv := {
  user_conf : outcome UserConf;
  encodeSha2 : string → string;
  encodeMD5 : string → string;
  base64_encode : list ascii → string;
  user_fault : string → option gerror
}.

(** ** Text *)

(** [s like p]: [%] is any text, [_] any byte. *)
Fixpoint like (p s : string) : bool :=
  match p with
  | EmptyString => match s with EmptyString => true | _ => false end
  | String "%" p =>
      (fix skip s := like p s || match s with String _ s => skip s | EmptyString => false end) s
  | String "_" p => match s with String _ s => like p s | EmptyString => false end
  | String c p => match s with String d s => bool_decide (c = d) && like p s | EmptyString => false end
  end.
(** [strings.LastIndex(s, "@")] and [s[:index]]. *)
Fixpoint last_index (c : ascii) (s : string) : option nat :=
  match s with
  | EmptyString => None
  | String d s => match last_index c s with Some n => Some (S n) | None => if bool_decide (c = d) then Some 0 else None end
  end.
Definition before_last_at (s : string) : outcome string :=
  match last_index "@" s with
  | Some n => Ok (String.substring 0 n s)
  | None => Panic "slice bounds out of range"
  end.

(** [encodeDes(src, PadNormal)]: DES in CBC mode, zero padding, base64. *)
Definition padNormal (data : list ascii) : list ascii := data ++ replicate (8 - length data `mod` 8) zero.
Definition encodeDes `{UserEnv} (src : string) : string :=
  let key := to_bits (String.list_ascii_of_string "Ea8ek&ah") in
  base64_encode (to_bytes (concat (cbc_encrypt key key (to_bits <$> blocks (padNormal (String.list_ascii_of_string src)))))).

Definition printable (c : ascii) : bool := let n := nat_of_ascii c in ((32 <=? n) && (n <=? 126))%nat.
Definition in_range (a b : nat) (c : ascii) : bool := let n := nat_of_ascii c in ((a <=? n) && (n <=? b))%nat.
(** [^([\x20-\x7E]{6,100})$] *)
Definition checkIsValidPassword (pwd : string) : bool :=
  let l := String.list_ascii_of_string pwd in forallb printable l && ((6 <=? length l) && (length l <=? 100))%nat.
Definition checkIsStrongPassword (pwd : string) (strongLen : Z) : bool :=
  let l := String.list_ascii_of_string pwd in
  checkIsValidPassword pwd && negb (Z.of_nat (length l) <? strongLen)%Z &&
  existsb (in_range 48 57) l && existsb (in_range 97 122) l && existsb (in_range 65 90) l &&
  existsb (λ c, in_range 32 47 c || in_range 58 64 c || in_range 91 96 c || in_range 123 126 c) l.

(** ** Statements *)
Definition user_db := list user_row.
Section statements.
Context `{GoRuntime} `{UserEnv}.

Definition user_query {A} (label : string) (f : user_db → A) : M user_db A :=
  reads (λ d, match user_fault label with Some e => Err e | None => Ok (f d) end).
(** The last row of the result, none for an empty argument. *)
Definition userDB_GetUserInfoByAccount (account : string) : M user_db (option user_row) :=
  if bool_decide (account = "") then mret None
  else user_query "user.GetUserInfoByAccount" (λ d, last (range_order 260 (filter (λ row, us_login_name row = account) d))).
Definition userDB_GetUserInfoByIDCard (id : string) : M user_db (option user_row) :=
  if bool_decide (id = "") then mret None
  else user_query "user.GetUserInfoByIDCard" (λ d, last (range_order 261 (filter (λ row, us_idcard row = id) d))).
Fixpoint string_less (s t : string) : bool :=
  match s, t with
  | _, EmptyString => false
  | EmptyString, String _ _ => true
  | String c s, String d t => (nat_of_ascii c <? nat_of_ascii d)%nat || (bool_decide (c = d) && string_less s t)
  end.
Definition userDB_GetDomainUserInfoByAccount (account : string) : M user_db (option user_row) :=
  if bool_decide (account = "") then mret None
  else user_query "user.GetDomainUserInfoByAccount" (λ d,
         head (sort_slice (λ a b, string_less (us_login_name a) (us_login_name b))
           (range_order 262 (filter (λ row, like (account +:+ "@%%") (us_login_name row) = true ∧ us_auth_type row = Domain) d)))).
Definition userDB_GetUserDBInfo (id : string) : M user_db (list user_row) :=
  user_query "user.GetUserDBInfo" (λ d, range_order 263 (filter (λ row, us_id row = id) d)).
Definition userDB_UpdatePwdErrInfo (id : string) (pwdErrCnt pwdErrLastTime : Z) : M user_db unit := λ d,
  match user_fault "user.UpdatePwdErrInfo" with
  | Some e => (Err e, d)
  | None => (Ok tt, map (λ row, if bool_decide (us_id row = id) then set_err_info pwdErrCnt pwdErrLastTime row else row) d)
  end.
End statements.

(** ** The service *)
Section user.
Context `{GoRuntime} `{AuthEnv} `{UserEnv}.

(** [checkAccountLocked]: the row after the lock has run out. *)
Definition checkAccountLocked (row : user_row) : M user_db user_row :=
  curConfig ← lift user_conf;
  if uc_EnablePwdLock curConfig && (bool_decide (us_auth_type row = Local) || uc_EnableThirdPwdLock curConfig) &&
     (us_err_last row + uc_PwdLockTime curConfig * 60 <=? business_now)%Z
  then _ ← userDB_UpdatePwdErrInfo (us_id row) 0 business_now; mret (set_err_info 0 business_now row)
  else mret row.

(** [userDBInfo.ID == ""] *)
Definition not_found (info : option user_row) : bool := match info with Some row => bool_decide (us_id row = "") | None => true end.
(** [handleUserBaseInfo] as the client reads it. *)
Definition base_info (row : user_row) : UserBaseInfo :=
  {| u_ID := us_id row; u_Account := us_login_name row; u_AuthType := us_auth_type row; u_PwdErrCnt := us_err_cnt row;
     u_PwdErrLastTime := us_err_last row; u_DisableStatus := negb (us_enabled row && us_auto_enabled row); u_LDAPType := us_ldap row;
     u_DomainPath := us_domain_path row |}.

(** The row an account names: by its login name, then by its identity number,
    then as the part before the last [@] of a domain account. *)
Definition find_account (account : string) (enableIDCardLogin enablePrefixMatch : bool) : M user_db (option user_row) :=
  info ← userDB_GetUserInfoByAccount account;
  info ← (if not_found info && enableIDCardLogin then userDB_GetUserInfoByIDCard (encodeDes account) else mret info);
  if not_found info && enablePrefixMatch then
    info ← userDB_GetDomainUserInfoByAccount account;
    match info with
    | Some row =>
        if bool_decide (us_id row = "") then mret info
        else prefix ← lift (before_last_at (us_login_name row)); mret (if EqualFold account prefix then info else None)
    | None => mret None
    end
  else mret info.
Definition GetUserInfoByAccount (account : string) (enableIDCardLogin enablePrefixMatch : bool) : M user_db (bool * UserBaseInfo) :=
  info ← find_account account enableIDCardLogin enablePrefixMatch;
  match info with
  | Some row =>
      if bool_decide (us_id row = "") then mret (false, UserBaseInfo_zero)
      else row ← checkAccountLocked row; mret (true, base_info row)
  | None => mret (false, UserBaseInfo_zero)
  end.

(** [UserAuth]: the answer and the reason by the name the handler gives it. *)
Definition password_matches (row : user_row) (plainPassword : string) : bool :=
  if bool_decide (us_password row = "") then EqualFold (encodeSha2 plainPassword) (us_sha2_password row)
  else EqualFold (encodeMD5 plainPassword) (us_password row).
Definition encrypted_password (row : user_row) (plainPassword : string) : string :=
  if bool_decide (us_password row = "") then encodeSha2 plainPassword else encodeMD5 plainPassword.
Definition user_UserAuth (id plainPassword : string) : M user_db (bool * string) :=
  out ← userDB_GetUserDBInfo id;
  match out with
  | [] => mret (false, "")
  | row :: _ =>
      if negb (password_matches row plainPassword) then mret (false, "invalid_password")
      else
        curConfig ← lift user_conf;
        let encryptedPassword := encrypted_password row plainPassword in
        if bool_decide (encryptedPassword = uc_UserDefaultSha2PWD curConfig) || bool_decide (encryptedPassword = uc_UserDefaultMd5PWD curConfig)
        then mret (false, "initial_password")
        else if uc_StrongPwdStatus curConfig && negb (checkIsStrongPassword plainPassword (uc_StrongPwdLength curConfig))
        then mret (false, "password_not_safe")
        else if negb (uc_PwdExpireTime curConfig =? -1)%Z && (uc_PwdExpireTime curConfig <=? (business_now - us_pwd_timestamp row) `quot` 86400)%Z
        then mret (false, if us_pwd_control row then "under_control_password_expire" else "password_expire")
        else mret (true, "")
  end.

Definition nOffsetTime : Z := 5.
Definition user_UpdatePwdErrInfo (id : string) (pwdErrCnt pwdErrLastTime : Z) : M user_db unit :=
  out ← userDB_GetUserDBInfo id;
  _ ← lift (match out with
            | [] => NewHTTPError "invalid type" URINotExist ["user_id"]
            | _ => if (pwdErrCnt <? 0)%Z then NewHTTPError "invalid type" BadRequest ["pwd_err_cnt"]
                   else if (pwdErrLastTime <? 0)%Z || (Unix (time_Now + businessTimeOffset * second + nOffsetTime * second) <? pwdErrLastTime)%Z
                   then NewHTTPError "invalid type" BadRequest ["pwd_err_last_time, time in the future?"]
                   else Ok tt
            end);
  userDB_UpdatePwdErrInfo id pwdErrCnt pwdErrLastTime.

(** ** The handlers, on the query of a request *)
Definition query_bool (name : string) (value : option string) : outcome bool :=
  match value with
  | None => Ok false
  | Some v => match ParseBool v with Some b => Ok b | None => NewHTTPError "invalid type" BadRequest [name] end
  end.
Definition getUserInfoByAccount (query : string → option string) : M user_db (bool * UserBaseInfo) :=
  let account := default "" (query "account") in
  if bool_decide (account = "") then lift (NewHTTPError "invalid type" BadRequest ["account"])
  else
    enableIDCardLogin ← lift (query_bool "id_card_login" (query "id_card_login"));
    enablePrefixMatch ← lift (query_bool "prefix_match" (query "prefix_match"));
    GetUserInfoByAccount account enableIDCardLogin enablePrefixMatch.
Definition userAuth (query : string → option string) : M user_db (bool * string) :=
  let id := default "" (query "id") in
  let plainPassword := default "" (query "password") in
  if bool_decide (id = "") then lift (NewHTTPError "invalid type" BadRequest ["id"])
  else if bool_decide (plainPassword = "") then lift (NewHTTPError "invalid type" BadRequest ["password"])
  else user_UserAuth id plainPassword.
Definition query_of (members : list (string * string)) (name : string) : option string := (list_to_map members : gmap string string) !! name.

(** The client calls of [Authentication], beside the state [V] of the other
    services; [UpdatePWDErrInfo] sends the time of the caller's clock. *)
Definition user_service {V : Type} (others : DnUserManagement (user_db * V)) : DnUserManagement (user_db * V) :=
  {| AnonymousAuthentication := @AnonymousAuthentication _ others;
     GetUserRolesByUserID := @GetUserRolesByUserID _ others;
     GetAppInfo := @GetAppInfo _ others;
     AccountMatch := λ account idCardLogin prefixMatch, 
       on_db (getUserInfoByAccount (query_of [("account", account); ("id_card_login", FormatBool idCardLogin); ("prefix_match", FormatBool prefixMatch)]));
     UserAuth := λ userID password, on_db (userAuth (query_of [("id", userID); ("password", password)]));
     UpdatePWDErrInfo := λ userID pwdErrCnt, on_db (user_UpdatePwdErrInfo userID pwdErrCnt unix_now);
     GetAnonymityInfoByID := @GetAnonymityInfoByID _ others;
     GetUserInfo := @GetUserInfo _ others |}.
End user.
