(* ===== verification/Login.v ===== *)
(** * Logins ([Authentication/logics/login/login.go], [dbaccess/login.go])

    Logins by account and password with their lock-out, tokens for apps, single
    sign-on and the logins of visitors of shared links.  The operations compose
    the other components of the service: configuration, assertions, SMS codes,
    tickets and the permission of apps. *)
From S2P Require Import Prelude Strconv Json AuthBase AuthStore Ticket Des Sms Outbox AuthConf TokenPerm.

(** ** Requests ([interfaces/logics.go]) *)
Inductive NCTVcodeType : Set := NoVCode | ImageVCode | NumVCode | DualAuthSMS | DualAuthOTP.
#[global] Instance NCTVcodeType_eq_dec : EqDecision NCTVcodeType.
Proof. solve_decision. Defined.
Record ClientLoginOption := { op_UUID : string; op_VCode : string; op_VCodeType : NCTVcodeType }.
Record ClientLoginReq := { cr_Method : string; cr_Account : string; cr_Password : string; cr_Option : ClientLoginOption }.
Record AccessTokenReq := { at_Account : string; at_Password : string; at_ClientID : string; at_ClientSecret : string }.
Record AnonymousLoginInfo := {
  al_ClientID : string; al_RedirectURI : string; al_ResponseType : string; al_Scope : string; al_Account : string; al_Password : string
}.
Record AnonymousLoginInfo2 := {
  a2_ClientID : string; a2_ClientSecret : string; a2_Account : string; a2_Password : string; a2_VCodeID : string; a2_VCodeContent : string;
  a2_VisitorName : string
}.
Record SSOLoginInfo := {
  so_ClientID : string; so_RedirectURI : string; so_ResponseType : string; so_Scope : string; so_Udids : list string; so_IP : string;
  so_CredentialID : string; so_Params : json
}.

(** The detail of an error: whether to show the image code next time, and the
    minutes a lock still lasts. *)
Definition detail_of (isShowStatus : bool) (remainlockTime : option Z) : list string :=
  ["isShowStatus"; FormatBool isShowStatus] ++ match remainlockTime with Some n => ["remainlockTime"; Itoa n] | None => [] end.

Definition int32_wrap (z : Z) : Z := ((z + 2 ^ 31) mod 2 ^ 32 - 2 ^ 31)%Z.
(** The error of a thrift call. *)
Definition thrift_failed {A} (err : thrift_error) (detail : list string) : outcome A :=
  match err with
  | NcTException errID => NewHTTPError "" (int32_wrap (Unauthorized + errID)) detail
  | OtherError msg => NewHTTPError msg InternalServerError detail
  end.

(** A reason without an entry reads 0. *)
Definition authFailedMap (reason : string) : Z :=
  if bool_decide (reason = "invalid_password") then InvalidAccountORPassword
  else if bool_decide (reason = "initial_password") then PasswordISInitial
  else if bool_decide (reason = "password_not_safe") then PasswordNotSafe
  else if bool_decide (reason = "under_control_password_expire") then ControledPasswordExpire
  else if bool_decide (reason = "password_expire") then PasswordExpire
  else 0%Z.
Definition ldapServerTypeMap (t : LDAPServerType) : Z := match t with WindowAD => 1 | OtherLDAP => 2 | NoLDAP => 0 end.

(** ** Checks *)
Section checks.
Context {W : Type} `{GoRuntime} `{AuthEnv} `{!DnUserManagement W} `{!DnShareMgnt W} `{!ShareMgntConfig W}.

Definition GetDomainStatus : M W bool :=
  reads (λ w, match db_fault "login.GetDomainStatus" with Some e => Err e | None => Ok (t_domain_enabled w) end).

(** The accounts that are never matched. *)
Definition account_hidden (config : Config) (userInfo : UserBaseInfo) : bool :=
  if cfg_TriSystemStatus config then bool_decide (u_ID userInfo = SystemAdminID)
  else bool_decide (u_ID userInfo ∈ [SecurityAdminID; AuditAdminID; SystemAdminID]).
Definition checkAccountMatch (account : string) (enablePrefixMatch : bool) (config : Config) : M W (bool * UserBaseInfo) :=
  '(found, userInfo) ← AccountMatch account (cfg_EnableIDCardLogin config) enablePrefixMatch;
  mret (if found && account_hidden config userInfo then (false, UserBaseInfo_zero) else (found, userInfo)).

(** An authentication type outside the three is not checked at all. *)
Definition validatePassword (userInfo : UserBaseInfo) (password : string) (detail : list string) : M W unit :=
  if bool_decide (u_ID userInfo = "") then lift (NewHTTPError "" InvalidAccountORPassword detail)
  else
    match u_AuthType userInfo with
    | Local =>
        '(result, reason) ← UserAuth (u_ID userInfo) password;
        lift (if (result : bool) then Ok tt else NewHTTPError "" (authFailedMap reason) detail)
    | Domain =>
        answer ← UsrmDomainAuth (u_Account userInfo) (u_DomainPath userInfo) password (ldapServerTypeMap (u_LDAPType userInfo));
        lift (match answer with
              | inl err => thrift_failed err detail
              | inr true => Ok tt
              | inr false => NewHTTPError "" InvalidAccountORPassword detail
              end)
    | Third =>
        answer ← UsrmThirdAuth (u_Account userInfo) password;
        lift (match answer with
              | inl err => thrift_failed err detail
              | inr true => Ok tt
              | inr false => NewHTTPError "" InvalidAccountORPassword detail
              end)
    | NoAuthType => mret tt
    end.

Definition vcode_due (config : Config) (userInfo : UserBaseInfo) : bool :=
  vc_Enable (cfg_VCodeConfig config) && (vc_PWDErrCnt (cfg_VCodeConfig config) <=? u_PwdErrCnt userInfo)%Z.
Definition validateVCode (userInfo : UserBaseInfo) (option : ClientLoginOption) (config : Config) (detail : list string) : M W unit :=
  let VCodeType := if vcode_due config userInfo then ImageVCode else op_VCodeType option in
  err ← match VCodeType with
        | ImageVCode => UsrmIMAGECodeValidate (op_UUID option) (op_VCode option)
        | DualAuthSMS => UsrmSMSValidate (u_ID userInfo) (op_VCode option)
        | DualAuthOTP => UsrmOTPValidate (u_ID userInfo) (op_VCode option)
        | NoVCode | NumVCode => mret None
        end;
  lift (match err with Some err => thrift_failed err detail | None => Ok tt end).

(** [config.EnablePWDLock && (userInfo.AuthType == Local || config.EnableThirdPWDLock)] *)
Definition lock_enabled (config : Config) (userInfo : UserBaseInfo) : bool :=
  cfg_EnablePWDLock config && (bool_decide (u_AuthType userInfo = Local) || cfg_EnableThirdPWDLock config).
(** The count after a wrong password: five minutes without one start anew. *)
Definition next_count (userInfo : UserBaseInfo) : Z :=
  if ((business_now - u_PwdErrLastTime userInfo) `quot` 60 <? 5)%Z then (u_PwdErrCnt userInfo + 1)%Z else 1%Z.
End checks.

(** ** Login by account and password *)
Section login.
Context {W : Type} `{GoRuntime} `{AuthEnv} `{Rsa} `{Random} `{Jwt} `{JsonText}.
Context `{!DnUserManagement W} `{!DnShareMgnt W} `{!DnHydra W} `{!DnEacp W} `{!ShareMgntConfig W}.

Definition account_keys : list ConfigKey :=
  [EnableIDCardLogin; EnablePWDLock; EnableThirdPWDLock; PWDErrCnt; PWDLockTime; VCodeConfig; TriSystemStatus].

(** What follows a password that was not accepted. *)
Definition password_failed (config : Config) (userInfo : UserBaseInfo) (bLocked : bool) (err : gerror) : M W string :=
  if bool_decide (u_ID userInfo = "") || u_DisableStatus userInfo || bLocked then lift (Err err)
  else if negb (lock_enabled config userInfo) && negb (vc_Enable (cfg_VCodeConfig config)) then lift (Err err)
  else if negb (is_http err) then lift (Err err)
  else if negb (has_code InvalidAccountORPassword err) then lift (Err err)
  else
    let pwdErrCnt := next_count userInfo in
    _ ← UpdatePWDErrInfo (u_ID userInfo) pwdErrCnt;
    lift (if vc_Enable (cfg_VCodeConfig config) && (vc_PWDErrCnt (cfg_VCodeConfig config) <=? pwdErrCnt)%Z
          then NewHTTPError "" InvalidAccountORPassword (detail_of true None) else Err err).
(** What follows one that was. *)
Definition password_accepted (config : Config) (userInfo : UserBaseInfo) (bLocked : bool) (isShowStatus : bool) : M W string :=
  if u_DisableStatus userInfo then lift (NewHTTPError "" UserDisabled (detail_of isShowStatus None))
  else if bLocked then
    let nRemaingLockTime := (cfg_PWDLockTime config - (business_now - u_PwdErrLastTime userInfo) `quot` 60)%Z in
    lift (NewHTTPError "" AccountLocked (detail_of isShowStatus (Some nRemaingLockTime)))
  else
    _ ← UpdatePWDErrInfo (u_ID userInfo) 0;
    mret (u_ID userInfo).

Definition check_password (password : string) (config : Config) (userInfo : UserBaseInfo) (bLocked isShowStatus : bool) : M W string := λ w,
  match validatePassword userInfo password (detail_of isShowStatus None) w with
  | (Ok _, w) => password_accepted config userInfo bLocked isShowStatus w
  | (Err err, w) => password_failed config userInfo bLocked err w
  | (Panic why, w) => (Panic why, w)
  end.
Definition account_auth (req : ClientLoginReq) (config : Config) (found : bool) (userInfo : UserBaseInfo) : M W string :=
  _ ← lift (if found then Ok tt
            else match op_VCodeType (cr_Option req) with
                 | DualAuthSMS => NewHTTPError "" ImageVCodeISWrong (detail_of (vc_Enable (cfg_VCodeConfig config)) None)
                 | DualAuthOTP => NewHTTPError "" OTPWrong (detail_of (vc_Enable (cfg_VCodeConfig config)) None)
                 | _ => Ok tt
                 end);
  let isShowStatus := vcode_due config userInfo || (negb found && vc_Enable (cfg_VCodeConfig config)) in
  _ ← validateVCode userInfo (cr_Option req) config (detail_of isShowStatus None);
  let bLocked := negb (bool_decide (u_ID userInfo = "")) && lock_enabled config userInfo && (cfg_PWDErrCnt config <=? u_PwdErrCnt userInfo)%Z in
  check_password (cr_Password req) config userInfo bLocked isShowStatus.
Definition ClientAccountAuth (visitor : Visitor) (req : ClientLoginReq) : M (auth_db * W) string :=
  config ← GetConfigFromShareMgnt (Some visitor) account_keys;
  enablePrefixMatch ← on_world GetDomainStatus;
  '(found, userInfo) ← on_world (checkAccountMatch (cr_Account req) enablePrefixMatch config);
  on_world (account_auth req config found userInfo).

(** ** Tokens for clients *)
Definition getAccessToken (reqInfo : AccessTokenReq) (permCheck : AccessTokenReq → UserBaseInfo → M (auth_db * W) unit) : M (auth_db * W) TokenInfo :=
  '(found, userInfo) ← on_world (AccountMatch (at_Account reqInfo) false false);
  _ ← lift (if (found : bool) then Ok tt else NewHTTPError "账户密码错误" InvalidAccountORPassword []);
  _ ← permCheck reqInfo userInfo;
  assertion ← on_world (CreateJWK (u_ID userInfo) hour (realname_claims (at_ClientID reqInfo)));
  on_world (AssertionForToken (at_ClientID reqInfo) (at_ClientSecret reqInfo) assertion).

Definition checkAppAccessTokenPerm (reqInfo : AccessTokenReq) (userInfo : UserBaseInfo) : M (auth_db * W) unit :=
  hasPerm ← on_db (CheckAppAccessTokenPerm (at_ClientID reqInfo));
  lift (if (hasPerm : bool) then Ok tt else NewHTTPError "This app doesn't have permission to access token." Forbidden []).

(** The assertion that the error is a [rest.HTTPError] panics on another one. *)
Definition pwd_wrong (config : Config) (userInfo : UserBaseInfo) (err : gerror) : M W unit :=
  if negb (lock_enabled config userInfo) then lift (Err err)
  else if negb (is_http err) then lift (Panic "interface conversion: error is not *rest.HTTPError")
  else if negb (has_code InvalidAccountORPassword err) then lift (Err err)
  else
    let pwdErrCnt := next_count userInfo in
    _ ← UpdatePWDErrInfo (u_ID userInfo) pwdErrCnt;
    lift (if (cfg_PWDErrCnt config <=? pwdErrCnt)%Z then NewHTTPError "密码错误次数已达上限，账户将被锁定." PWDThirdFailed [] else Err err).
Definition pwdAuth (reqInfo : AccessTokenReq) (userInfo : UserBaseInfo) : M (auth_db * W) unit :=
  password ← lift (DecodeAndDecrypt (at_Password reqInfo));
  config ← GetConfigFromShareMgnt None [EnablePWDLock; EnableThirdPWDLock; PWDErrCnt; PWDLockTime];
  _ ← lift (if u_DisableStatus userInfo then NewHTTPError "账户被禁用" UserDisabled [] else Ok tt);
  _ ← lift (if lock_enabled config userInfo && (cfg_PWDErrCnt config <=? u_PwdErrCnt userInfo)%Z
            then NewHTTPError "账户被锁定, 请联系管理员" Unauthorized [] else Ok tt);
  on_world (λ w, match validatePassword userInfo password [] w with
                 | (Ok _, w) => UpdatePWDErrInfo (u_ID userInfo) 0 w
                 | (Err err, w) => pwd_wrong config userInfo err w
                 | (Panic why, w) => (Panic why, w)
                 end).
Definition GetAccessToken (reqInfo : AccessTokenReq) : M (auth_db * W) TokenInfo := getAccessToken reqInfo checkAppAccessTokenPerm.
Definition PwdAuth (reqInfo : AccessTokenReq) : M (auth_db * W) TokenInfo := getAccessToken reqInfo pwdAuth.

(** ** Single sign-on *)

(** [GetUserInfo] returns no user with its error: reading the account of it
    panics, after the ticket has been redeemed. *)
Definition validateTicket (ticket clientID : string) : M (auth_db * W) string :=
  ticketID ← lift (DecodeAndDecrypt ticket);
  userID ← on_db (ticket_Validate ticketID clientID);
  on_world (λ w, match GetUserInfo userID w with
                 | (Ok userBaseInfo, w) => (Ok (u_Account userBaseInfo), w)
                 | (Err _, w) => (Panic "invalid memory address or nil pointer dereference", w)
                 | (Panic why, w) => (Panic why, w)
                 end).

Definition SingleSignOn (reqInfo : SSOLoginInfo) : M (auth_db * W) TokenInfo :=
  '(loginChallenge, loginSession) ← on_world (AuthorizeRequest {| au_ClientID := so_ClientID reqInfo; au_RedirectURI := so_RedirectURI reqInfo;
                           au_ResponseType := so_ResponseType reqInfo; au_Scope := so_Scope reqInfo |});
  deviceInfo ← on_world (GetLoginRequestInformation loginChallenge);
  params ← (if bool_decide (so_CredentialID reqInfo = "aishu") then
              m ← lift (assert_map (so_Params reqInfo));
              ticket ← lift (assert_string (jget m "ticket"));
              account ← validateTicket ticket (so_ClientID reqInfo);
              mret (jobj [("account", JStr account)])
            else mret (so_Params reqInfo));
  loginInfo ← on_world (ThirdPartyAuthentication {| tp_Udids := so_Udids reqInfo; tp_IP := so_IP reqInfo;
                          tp_CredentialID := so_CredentialID reqInfo; tp_Params := params; tp_Device := deviceInfo |});
  redirURL ← on_world (AcceptLoginRequest (li_Subject loginInfo) loginChallenge);
  '(consentChallenge, loginSession) ← on_world (VerifierLogin redirURL loginSession);
  redirURL ← on_world (AcceptConsentRequest (so_Scope reqInfo) consentChallenge (li_Context loginInfo));
  on_world (VerifierConsent redirURL (so_ResponseType reqInfo) loginSession).

(** ** Visitors of shared links *)
Definition Anonymous (reqInfo : AnonymousLoginInfo) : M (auth_db * W) TokenInfo :=
  '(loginChallenge, loginSession) ← on_world (AuthorizeRequest {| au_ClientID := al_ClientID reqInfo; au_RedirectURI := al_RedirectURI reqInfo;
                           au_ResponseType := al_ResponseType reqInfo; au_Scope := al_Scope reqInfo |});
  _ ← on_world (AnonymousAuthentication (al_Account reqInfo) (al_Password reqInfo) "");
  redirURL ← on_world (AcceptLoginRequest (al_Account reqInfo) loginChallenge);
  '(consentChallenge, loginSession) ← on_world (VerifierLogin redirURL loginSession);
  redirURL ← on_world (AcceptConsentRequest (al_Scope reqInfo) consentChallenge (jobj [("visitor_type", JStr "anonymous")]));
  on_world (VerifierConsent redirURL (al_ResponseType reqInfo) loginSession).

Definition i18nSMSVCodeNotSend : Language → string :=
  i18n "无效的输入，请先获取验证码" "無效的輸入，請先取得驗證碼" "Invalid input, please obtain verification code first".
Definition i18nSMSVCodeInfoRequired : Language → string :=
  i18n "请输入验证码" "請輸入驗證碼訊息" "Please enter verification code information".

(** [phoneNumber[:3] + "****" + phoneNumber[7:]] *)
Definition mask_phone (phoneNumber : string) : outcome string :=
  if (String.length phoneNumber <? 7)%nat then Panic "slice bounds out of range"
  else Ok (String.substring 0 3 phoneNumber +:+ "****" +:+ String.substring 7 (String.length phoneNumber - 7) phoneNumber).
Definition anonymous_claims (reqInfo : AnonymousLoginInfo2) (phoneNumber : string) : gmap string json :=
  list_to_map [("ext", jobj [("client_id", JStr (a2_ClientID reqInfo)); ("visitor_type", JStr "anonymous"); ("phone_number", JStr phoneNumber);
                             ("visitor_name", JStr (a2_VisitorName reqInfo))])].
(** The check of the code of the phone, where the link asks for one. *)
Definition verify_mobile (smsExpiration : Z) (visitor : Visitor) (reqInfo : AnonymousLoginInfo2) : M (auth_db * W) string :=
  _ ← lift (if bool_decide (a2_VCodeID reqInfo = "") && negb (bool_decide (a2_VCodeContent reqInfo = ""))
            then NewHTTPError (i18nSMSVCodeNotSend (vis_Language visitor)) BadRequest [] else Ok tt);
  _ ← lift (if bool_decide (a2_VCodeID reqInfo = "") || bool_decide (a2_VCodeContent reqInfo = "")
            then NewHTTPError (i18nSMSVCodeInfoRequired (vis_Language visitor)) BadRequest [] else Ok tt);
  _ ← lift (if bool_decide (a2_VisitorName reqInfo = "") then NewHTTPError "visitor_name required" BadRequest [] else Ok tt);
  phoneNumber ← on_db (sms_Validate smsExpiration visitor (a2_VCodeID reqInfo) (a2_VCodeContent reqInfo) (a2_Account reqInfo));
  lift (mask_phone phoneNumber).
Definition Anonymous2 (smsExpiration : Z) (visitor : Visitor) (reqInfo : AnonymousLoginInfo2) (referrer : string) : M (auth_db * W) TokenInfo :=
  needVerifyMobile ← on_world (GetAnonymityInfoByID (a2_Account reqInfo));
  phoneNumber ← (if (needVerifyMobile : bool) then verify_mobile smsExpiration visitor reqInfo else mret "");
  _ ← on_world (AnonymousAuthentication (a2_Account reqInfo) (a2_Password reqInfo) referrer);
  assertionStr ← on_world (CreateJWK (a2_Account reqInfo) hour (anonymous_claims reqInfo phoneNumber));
  token ← on_world (AssertionForToken (a2_ClientID reqInfo) (a2_ClientSecret reqInfo) assertionStr);
  _ ← on_db (if (needVerifyMobile : bool) then smsDB_DeleteByIDs [a2_VCodeID reqInfo] else mret tt);
  mret token.
End login.
