(* ===== verification/LoginSpec.v ===== *)
(** * Lock-out

    What an administrator is promised about wrong passwords, as a counter with
    a time ([lock_attempt]); and the login, from the handler-facing operation
    of [Authentication] down to the rows of [UserManagement], does exactly
    that. *)
From S2P Require Import Prelude Strconv Json AuthBase AuthStore Ticket Des Sms Outbox AuthConf TokenPerm UserAccount Login.

(** ** The promise *)
Record lock_policy := { lp_limit : Z; lp_minutes : Z }.
Record lock_state := { lk_cnt : Z; lk_last : Z }.
(** What the password service says of a password. *)
Inductive verdict : Set := Right | Wrong | Unfit.
Inductive login_result : Set := Granted | Refused | LockedOut.
#[global] Instance verdict_eq_dec : EqDecision verdict.
Proof. solve_decision. Defined.
#[global] Instance login_result_eq_dec : EqDecision login_result.
Proof. solve_decision. Defined.

Section promise.
Context (policy : lock_policy).
Local Open Scope Z_scope.

(** A lock, or an old count, is forgotten after the configured minutes. *)
Definition forget (now : Z) (l : lock_state) : lock_state :=
  if lk_last l + lp_minutes policy * 60 <=? now then {| lk_cnt := 0; lk_last := now |} else l.
Definition locked (l : lock_state) : bool := lp_limit policy <=? lk_cnt l.
Definition lock_attempt (now : Z) (v : verdict) (l : lock_state) : login_result * lock_state :=
  let l := forget now l in
  match v with
  | Unfit => (Refused, l)
  | Right => if locked l then (LockedOut, l) else (Granted, {| lk_cnt := 0; lk_last := now |})
  | Wrong =>
      if locked l then (Refused, l)
      else (Refused, {| lk_cnt := if (now - lk_last l) `quot` 60 <? 5 then lk_cnt l + 1 else 1; lk_last := now |})
  end.

Fixpoint lock_run (h : list (Z * verdict)) (l : lock_state) : list login_result * lock_state :=
  match h with
  | [] => ([], l)
  | (now, v) :: h => let '(r, l) := lock_attempt now v l in let '(rs, l) := lock_run h l in (r :: rs, l)
  end.

(** While a lock lasts it stays as it is and nothing is granted. *)
Lemma locked_attempt now v l :
  locked l = true → now < lk_last l + lp_minutes policy * 60 → (lock_attempt now v l).2 = l ∧ (lock_attempt now v l).1 ≠ Granted.
Proof.
  intros Hl Ht. unfold lock_attempt, forget. rewrite (proj2 (Z.leb_gt _ _)) by lia. by destruct v; rewrite ?Hl.
Qed.
Lemma locked_run h l :
  locked l = true → Forall (λ a, a.1 < lk_last l + lp_minutes policy * 60) h → (lock_run h l).2 = l ∧ Granted ∉ (lock_run h l).1.
Proof.
  intros Hl. induction h as [|[now v] h IH]; intros Hh; [split; [done|apply not_elem_of_nil]|]. apply Forall_cons in Hh as [Ht Hh]. simpl in *.
  destruct (locked_attempt now v l Hl Ht) as [H2 H1]. destruct (lock_attempt now v l) as [r l']. simpl in *. subst l'.
  destruct (IH Hh) as [H2' H1']. destruct (lock_run h l) as [rs l'']. simpl in *. split; [done|]. by apply not_elem_of_cons.
Qed.

(** Wrong passwords in quick succession. *)
Inductive quick : Z → list (Z * verdict) → Prop :=
| quick_nil t : quick t []
| quick_cons t t' h : t ≤ t' < t + 300 → quick t' h → quick t ((t', Wrong) :: h).

(** After [k] of them the account is locked, or at least [k] are counted. *)
Lemma wrong_counts t1 h k l :
  lk_last l + lp_minutes policy * 60 > t1 → quick (lk_last l) h → Forall (λ a, a.1 < t1 + lp_minutes policy * 60) h → t1 ≤ lk_last l →
  locked l = true ∨ k ≤ lk_cnt l →
  let l' := (lock_run h l).2 in t1 ≤ lk_last l' ∧ (locked l' = true ∨ k + Z.of_nat (length h) ≤ lk_cnt l').
Proof.
  intros H0. revert k l H0. induction h as [|[now v] h IH]; intros k l H0 Hq Ht Hl1 Hc; cbn zeta; [simpl; split; [done|]; destruct Hc; [auto|right; simpl; lia]|].
  apply Forall_cons in Ht as [Hnow Ht]. simpl in Hnow. inversion Hq as [|? ? ? Hgap Hq']; subst.
  assert (forget now l = l) as Hf by (unfold forget; by rewrite (proj2 (Z.leb_gt _ _)) by lia).
  simpl. unfold lock_attempt. rewrite Hf. destruct (locked l) eqn:Hlk.
  - destruct (locked_run h l Hlk) as [H2 _].
    { eapply Forall_impl; [exact Ht|]. intros a Ha. simpl in *. lia. }
    destruct (lock_run h l) as [rs l'']. simpl in *. subst l''. auto.
  - destruct Hc as [?|Hc]; [done|]. rewrite (proj2 (Z.ltb_lt _ _)) by (apply Z.quot_lt_upper_bound; lia).
    specialize (IH (k + 1) {| lk_cnt := lk_cnt l + 1; lk_last := now |}). cbn zeta in IH.
    destruct (lock_run h _) as [rs l'']. simpl in *. destruct IH as [? IH]; [lia|done|done|lia|right; lia|]. split; [done|].
    destruct IH as [?|?]; [by left|right; lia].
Qed.

(** The lock-out: as many wrong passwords as the limit allows, each less
    than five minutes after the one before, lock the account: nothing is
    granted until the configured minutes after the first of them have passed,
    whatever passwords are tried. *)
Lemma lockout_holds t1 wrongs later l :
  0 < lp_limit policy → locked l = false → 0 ≤ lk_cnt l → Z.of_nat (length wrongs) = lp_limit policy - 1 → quick t1 wrongs →
  Forall (λ a, a.1 < t1 + lp_minutes policy * 60) (wrongs ++ later) → 0 < lp_minutes policy →
  Granted ∉ (lock_run later (lock_run ((t1, Wrong) :: wrongs) l).2).1.
Proof.
  intros Hlim Hl Hc Hn Hq Ht Hm. apply Forall_app in Ht as [Ht1 Ht2]. cbn [lock_run].
  assert (∃ cnt, (lock_attempt t1 Wrong l).2 = {| lk_cnt := cnt; lk_last := t1 |} ∧ 1 ≤ cnt) as (cnt & Hfirst & Hcnt).
  { unfold lock_attempt, forget. destruct (_ <=? t1).
    - assert (locked {| lk_cnt := 0; lk_last := t1 |} = false) as -> by (unfold locked; simpl; apply Z.leb_gt; lia). simpl.
      eexists. split; [reflexivity|]. case_match; lia.
    - rewrite Hl. simpl. eexists. split; [reflexivity|]. case_match; lia. }
  destruct (lock_attempt t1 Wrong l) as [r l1]. simpl in Hfirst. subst l1.
  pose proof (wrong_counts t1 wrongs 1 {| lk_cnt := cnt; lk_last := t1 |}) as Hw. cbn zeta in Hw.
  destruct (lock_run wrongs _) as [rs l2]. simpl in *. destruct Hw as [Hlast Hw]; [lia|done|done|lia|by right|].
  apply locked_run.
  - destruct Hw as [?|Hw]; [done|]. unfold locked. apply Z.leb_le. lia.
  - eapply Forall_impl; [exact Ht2|]. intros a Ha. simpl in *. lia.
Qed.

(** A locked account still tells a right password from a wrong one. *)
Lemma lock_reveals_password now v l :
  locked l = true → now < lk_last l + lp_minutes policy * 60 → (lock_attempt now v l).1 = LockedOut ↔ v = Right.
Proof. intros Hl Ht. unfold lock_attempt, forget. rewrite (proj2 (Z.leb_gt _ _)) by lia. destruct v; rewrite ?Hl; naive_solver. Qed.
End promise.

(** ** Rows *)
Section rows.
Context (id : string).
Definition with_lock (l : lock_state) (row : user_row) : user_row := set_err_info (lk_cnt l) (lk_last l) row.
Definition lock_of (row : user_row) : lock_state := {| lk_cnt := us_err_cnt row; lk_last := us_err_last row |}.
(** The table with another counter for one user. *)
Definition upd (l : lock_state) (users : user_db) : user_db := map (λ r, if bool_decide (us_id r = id) then with_lock l r else r) users.

Lemma with_lock_same row : with_lock (lock_of row) row = row.
Proof. by destruct row. Qed.
Lemma upd_upd l l' users : upd l' (upd l users) = upd l' users.
Proof.
  unfold upd. rewrite map_map. apply map_ext. intros r. destruct (decide (us_id r = id)) as [E|E].
  - rewrite !(bool_decide_true (us_id r = id)) by done. rewrite ?bool_decide_true by done. by destruct r.
  - by rewrite !(bool_decide_false (us_id r = id)) by done.
Qed.
Lemma upd_ids l users : us_id <$> upd l users = us_id <$> users.
Proof. unfold upd. induction users as [|r users IH]; [done|]. csimpl. rewrite IH. by destruct (bool_decide (us_id r = id)). Qed.
Lemma upd_same row users : NoDup (us_id <$> users) → row ∈ users → us_id row = id → upd (lock_of row) users = users.
Proof.
  intros Hnd Hin Hid. unfold upd. rewrite <-(map_id users) at 2. apply map_ext_in. intros r Hr%list_elem_of_In.
  case_bool_decide as Hb; [|done]. assert (r = row) as -> by (apply (NoDup_fmap_inj_in us_id users); [done..|congruence]). apply with_lock_same.
Qed.
Lemma upd_row l row users : row ∈ users → us_id row = id → with_lock l row ∈ upd l users.
Proof. intros Hin Hid. unfold upd. apply list_elem_of_fmap. exists row. by rewrite bool_decide_true. Qed.
End rows.

(** ** The login *)
Section refinement.
Context {V : Type} `{GoRuntime} `{AuthEnv} `{UserEnv} `{JsonText} (others : DnUserManagement (user_db * V)).
Context `{!DnShareMgnt (user_db * V)} `{!ShareMgntConfig (user_db * V)}.

(** What the password service says of a password for a row. *)
Definition verdict_of (uc : UserConf) (row : user_row) (password : string) : verdict :=
  let e := encrypted_password row password in
  if negb (password_matches row password) then Wrong
  else if bool_decide (e = uc_UserDefaultSha2PWD uc) || bool_decide (e = uc_UserDefaultMd5PWD uc) then Unfit
  else if uc_StrongPwdStatus uc && negb (checkIsStrongPassword password (uc_StrongPwdLength uc)) then Unfit
  else if negb (uc_PwdExpireTime uc =? -1)%Z && (uc_PwdExpireTime uc <=? (business_now - us_pwd_timestamp row) `quot` 86400)%Z then Unfit
  else Right.
Definition answers (id : string) (res : login_result) (r : outcome string) : Prop :=
  match res, r with
  | Granted, Ok id' => id' = id
  | LockedOut, Err e => has_code AccountLocked e = true
  | Refused, Err e => has_code AccountLocked e = false
  | _, _ => False
  end.

Context (uc : UserConf) (config : Config) (users : user_db) (row : user_row).
Hypothesis conf_ok : user_conf = Ok uc.
Hypothesis no_fault : ∀ label, user_fault label = None.
Hypothesis ids_unique : NoDup (us_id <$> users).
Hypothesis names_unique : NoDup (us_login_name <$> users).
Hypothesis row_in : row ∈ users.
Hypothesis id_given : us_id row ≠ "".
Hypothesis name_given : us_login_name row ≠ "".
Hypothesis local_account : us_auth_type row = Local.
Hypothesis enabled : us_enabled row = true ∧ us_auto_enabled row = true.
Hypothesis lock_on : uc_EnablePwdLock uc = true ∧ cfg_EnablePWDLock config = true.
Hypothesis no_image_code : vc_Enable (cfg_VCodeConfig config) = false.
Hypothesis visible : account_hidden config (base_info row) = false.
Hypothesis same_clock : businessTimeOffset = 0%Z.
Hypothesis after_1970 : (0 ≤ time_Now)%Z.

Definition the_policy : lock_policy := {| lp_limit := cfg_PWDErrCnt config; lp_minutes := uc_PwdLockTime uc |}.

Lemma clocks_agree : business_now = unix_now.
Proof. unfold business_now, unix_now. f_equal. lia. Qed.

Lemma update_upd cnt l : userDB_UpdatePwdErrInfo (us_id row) cnt unix_now (upd (us_id row) l users) = (Ok tt, upd (us_id row) {| lk_cnt := cnt; lk_last := unix_now |} users).
Proof. unfold userDB_UpdatePwdErrInfo. rewrite no_fault. f_equal. apply (upd_upd (us_id row) l {| lk_cnt := cnt; lk_last := unix_now |}). Qed.
Lemma query_upd l : userDB_GetUserDBInfo (us_id row) (upd (us_id row) l users) = (Ok [with_lock l row], upd (us_id row) l users).
Proof.
  unfold userDB_GetUserDBInfo, user_query, reads. rewrite no_fault. do 2 f_equal.
  pose proof (unique_by us_id (upd (us_id row) l users) (with_lock l row)) as Hu. rewrite upd_ids in Hu.
  assert (filter (λ r, us_id r = us_id row) (upd (us_id row) l users) = [with_lock l row]) as -> by exact (Hu ids_unique (upd_row (us_id row) l row users row_in eq_refl)).
  by rewrite (proj1 (Permutation_singleton_r _ _) (range_order_perm 263 _ [_])).
Qed.

Lemma find_row idcard prefix : find_account (us_login_name row) idcard prefix users = (Ok (Some row), users).
Proof.
  unfold find_account. rewrite (M_bind_unfold _ _ users (Some row) users).
  - assert (not_found (Some row) = false) as E by (simpl; by apply bool_decide_false). rewrite E. simpl. unfold mbind, M_bind. simpl.
    by rewrite bool_decide_false by done.
  - unfold userDB_GetUserInfoByAccount. rewrite bool_decide_false by done. unfold user_query, reads. rewrite no_fault.
    rewrite (unique_by us_login_name users row) by done. by rewrite (proj1 (Permutation_singleton_r _ _) (range_order_perm 260 _ [row])).
Qed.
Definition forgotten : lock_state := forget the_policy unix_now (lock_of row).
Lemma check_locked : checkAccountLocked row users = (Ok (with_lock forgotten row), upd (us_id row) forgotten users).
Proof.
  unfold checkAccountLocked. rewrite (M_bind_unfold _ _ users uc users) by (unfold lift; by rewrite conf_ok).
  destruct lock_on as [-> _]. rewrite bool_decide_true by done. unfold forgotten, forget. simpl. rewrite clocks_agree. destruct (_ <=? unix_now)%Z.
  - rewrite (M_bind_unfold _ _ users tt (upd (us_id row) {| lk_cnt := 0; lk_last := unix_now |} users)); [done|].
    rewrite <-(upd_same (us_id row) row users) at 1 by done. apply update_upd.
  - by rewrite with_lock_same, upd_same.
Qed.
(** Matching the account forgets a lock that has run out. *)
Lemma match_account prefix (v : V) :
  @AccountMatch _ (user_service others) (us_login_name row) (cfg_EnableIDCardLogin config) prefix (users, v)
  = (Ok (true, base_info (with_lock forgotten row)), (upd (us_id row) forgotten users, v)).
Proof.
  simpl. unfold on_db, getUserInfoByAccount. change (default "" (query_of _ "account")) with (us_login_name row). rewrite bool_decide_false by done.
  change (query_of _ "id_card_login") with (Some (FormatBool (cfg_EnableIDCardLogin config))).
  change (query_of _ "prefix_match") with (Some (FormatBool prefix)). unfold query_bool. rewrite !ParseBool_FormatBool. cbn [fst snd].
  unfold lift. unfold mbind at 1 2, M_bind at 1 2. unfold GetUserInfoByAccount.
  rewrite (M_bind_unfold _ _ users (Some row) users) by apply find_row. rewrite bool_decide_false by done.
  by rewrite (M_bind_unfold _ _ users _ _ check_locked).
Qed.

(** The answer for a password, whatever the counter is. *)
Lemma auth_password l password (v : V) :
  password ≠ "" → ∃ reason,
  @UserAuth _ (user_service others) (us_id row) password (upd (us_id row) l users, v)
  = (Ok (bool_decide (verdict_of uc row password = Right), reason), (upd (us_id row) l users, v)) ∧
  match verdict_of uc row password with
  | Right => reason = ""
  | Wrong => reason = "invalid_password"
  | Unfit => reason ∈ ["initial_password"; "password_not_safe"; "under_control_password_expire"; "password_expire"]
  end.
Proof.
  intros Hp. simpl. unfold on_db, userAuth.
  change (default "" (query_of _ "id")) with (us_id row). change (default "" (query_of _ "password")) with password. rewrite !bool_decide_false by done. cbn [fst snd]. unfold user_UserAuth.
  rewrite (M_bind_unfold _ _ _ _ _ (query_upd l)). unfold verdict_of.
  change (password_matches (with_lock l row) password) with (password_matches row password).
  destruct (password_matches row password); cbn [negb]; [|eexists; split; reflexivity].
  rewrite (M_bind_unfold _ _ _ uc (upd (us_id row) l users)) by (unfold lift; by rewrite conf_ok).
  change (encrypted_password (with_lock l row) password) with (encrypted_password row password).
  change (us_pwd_timestamp (with_lock l row)) with (us_pwd_timestamp row).
  destruct (bool_decide _ || bool_decide _); [eexists; split; [reflexivity|set_solver]|].
  destruct (uc_StrongPwdStatus uc && _); [eexists; split; [reflexivity|set_solver]|].
  destruct (negb (uc_PwdExpireTime uc =? -1)%Z && _); [|eexists; split; reflexivity].
  eexists. split; [reflexivity|]. simpl. destruct (us_pwd_control row); set_solver.
Qed.

(** Writing a new count. *)
Lemma set_count cnt l (v : V) :
  (0 ≤ cnt)%Z → @UpdatePWDErrInfo _ (user_service others) (us_id row) cnt (upd (us_id row) l users, v)
  = (Ok tt, (upd (us_id row) {| lk_cnt := cnt; lk_last := unix_now |} users, v)).
Proof.
  intros Hc. simpl. unfold on_db, user_UpdatePwdErrInfo. cbn [fst snd].
  rewrite (M_bind_unfold _ _ _ _ _ (query_upd l)). rewrite (M_bind_unfold _ _ _ tt (upd (us_id row) l users)).
  - by rewrite update_upd.
  - unfold lift. rewrite (proj2 (Z.ltb_ge cnt 0)) by done. unfold unix_now, Unix, nOffsetTime, second. rewrite same_clock.
    rewrite (proj2 (Z.ltb_ge _ 0)) by (apply Z.div_pos; lia). rewrite (proj2 (Z.ltb_ge _ (_ / _)%Z)) by (apply Z.div_le_mono; lia). done.
Qed.

Definition info : UserBaseInfo := base_info (with_lock forgotten row).
Lemma info_lock : lock_enabled config info = true.
Proof. unfold lock_enabled, info. simpl. rewrite local_account. by destruct lock_on as [_ ->]. Qed.
Hypothesis count_nonneg : (0 ≤ us_err_cnt row)%Z.
Lemma forgotten_nonneg : (0 ≤ lk_cnt forgotten)%Z.
Proof. unfold forgotten, forget. by destruct (_ <=? _)%Z. Qed.
Lemma info_count : next_count info = (if (unix_now - lk_last forgotten) `quot` 60 <? 5 then lk_cnt forgotten + 1 else 1)%Z.
Proof. unfold next_count. by rewrite clocks_agree. Qed.
Lemma refused_code code detail : code ≠ AccountLocked → has_code AccountLocked (http_error "" code detail) = false.
Proof. intros Hc. rewrite has_code_error. by apply bool_decide_false. Qed.

Definition attempt (password : string) : login_result * lock_state :=
  lock_attempt the_policy unix_now (verdict_of uc row password) (lock_of row).
Local Arguments http_error : simpl never.
Local Arguments is_http : simpl never.
Local Arguments has_code : simpl never.

(** The password of a user whose counter is [forgotten]. *)
Lemma validate_local password detail (v : V) :
  password ≠ "" → ∃ code, code ≠ AccountLocked ∧ code_valid code = true ∧ (verdict_of uc row password = Wrong ↔ code = InvalidAccountORPassword) ∧
  @validatePassword _ (user_service others) _ info password detail (upd (us_id row) forgotten users, v)
  = (if decide (verdict_of uc row password = Right) then Ok tt else Err (http_error "" code detail), (upd (us_id row) forgotten users, v)).
Proof.
  intros Hp. destruct (auth_password forgotten password v Hp) as (reason & Ha & Hr). unfold validatePassword, info.
  change (u_ID (base_info (with_lock forgotten row))) with (us_id row). rewrite bool_decide_false by done.
  change (u_AuthType (base_info (with_lock forgotten row))) with (us_auth_type row). rewrite local_account.
  rewrite (M_bind_unfold _ _ _ _ _ Ha). unfold lift. destruct (verdict_of uc row password).
  - exists PasswordExpire. by split_and!.
  - subst reason. exists InvalidAccountORPassword. by split_and!.
  - rewrite !elem_of_cons in Hr. destruct Hr as [->|[->|[->|[->|[]%elem_of_nil]]]]; eexists; (split_and!; [| |split; [|intros E; vm_compute in E]|reflexivity]); done.
Qed.

Lemma check_step password isShow (v : V) :
  password ≠ "" → ∃ r,
  @check_password _ _ (user_service others) _ password config info (locked the_policy forgotten) isShow (upd (us_id row) forgotten users, v)
  = (r, (upd (us_id row) (attempt password).2 users, v)) ∧ answers (us_id row) (attempt password).1 r.
Proof.
  intros Hp. destruct (validate_local password (detail_of isShow None) v Hp) as (code & Hcode & Hvalid & Hwrong & Hv). unfold check_password.
  rewrite Hv. unfold attempt, lock_attempt. fold forgotten. destruct (verdict_of uc row password) eqn:E; simpl.
  - unfold password_accepted. change (u_DisableStatus info) with (negb (us_enabled row && us_auto_enabled row)). destruct enabled as [-> ->]. simpl.
    destruct (locked the_policy forgotten).
    + eexists. split; [reflexivity|]. simpl. by rewrite has_code_error.
    + erewrite M_bind_unfold by (apply set_count; lia). eexists. by split.
  - assert (code = InvalidAccountORPassword) as -> by (by apply Hwrong). unfold password_failed.
    change (u_ID info) with (us_id row). rewrite bool_decide_false by done.
    change (u_DisableStatus info) with (negb (us_enabled row && us_auto_enabled row)). destruct enabled as [-> ->]. simpl.
    destruct (locked the_policy forgotten); [eexists; split; [reflexivity|]; by apply refused_code|].
    rewrite info_lock. simpl. rewrite no_image_code, info_count. simpl.
    erewrite M_bind_unfold by (apply set_count; pose proof forgotten_nonneg; destruct (_ <? 5)%Z; lia).
    eexists. split; [reflexivity|]. by apply refused_code.
  - unfold password_failed. change (u_ID info) with (us_id row). rewrite bool_decide_false by done.
    change (u_DisableStatus info) with (negb (us_enabled row && us_auto_enabled row)). destruct enabled as [-> ->]. simpl.
    assert (code ≠ InvalidAccountORPassword) as Hne by (intros Hc; by apply Hwrong in Hc).
    destruct (locked the_policy forgotten); [eexists; split; [reflexivity|]; by apply refused_code|].
    rewrite info_lock. simpl. rewrite is_http_error, has_code_error, bool_decide_false by done. simpl.
    eexists. split; [reflexivity|]. by apply refused_code.
Qed.

(** One login keeps the promise: [ClientAccountAuth] for a local account,
    through the user service down to its table, grants, refuses or reports the
    lock as [lock_attempt] says, leaves the counter of the user as
    [lock_attempt] says, and every other row as it is. *)
Lemma login_step visitor req d (v : V) :
  vis_ID visitor = "" → cr_Account req = us_login_name row → cr_Password req ≠ "" → op_VCodeType (cr_Option req) = NoVCode →
  db_fault "login.GetDomainStatus" = None → getConfig (t_sharemgnt_config (users, v)) account_keys = Ok config →
  ∃ r, @ClientAccountAuth _ _ _ _ (user_service others) _ _ visitor req (d, (users, v))
       = (r, (d, (upd (us_id row) (attempt (cr_Password req)).2 users, v))) ∧ answers (us_id row) (attempt (cr_Password req)).1 r.
Proof.
  intros Hvis Hacc Hpwd Hopt Hdom Hconf. destruct (check_step (cr_Password req) false v Hpwd) as (r & Hc & Ha). exists r. split; [|done].
  unfold ClientAccountAuth.
  rewrite (M_bind_unfold _ _ _ config (d, (users, v))).
  2: { unfold GetConfigFromShareMgnt. rewrite (M_bind_unfold _ _ _ tt (d, (users, v))); [by unfold on_world, reads; simpl; rewrite Hconf|].
       unfold conf_guard. by rewrite Hvis. }
  rewrite (M_bind_unfold _ _ _ (t_domain_enabled (users, v)) (d, (users, v))) by (unfold on_world, GetDomainStatus, reads; by rewrite Hdom).
  rewrite (M_bind_unfold _ _ _ (true, info) (d, (upd (us_id row) forgotten users, v))).
  2: { unfold on_world, checkAccountMatch. cbn [fst snd]. rewrite Hacc. rewrite (M_bind_unfold _ _ _ _ _ (match_account _ v)).
       change (account_hidden config (base_info (with_lock forgotten row))) with (account_hidden config (base_info row)). by rewrite visible. }
  unfold on_world, account_auth. cbn [fst snd]. rewrite (M_bind_unfold _ _ _ tt (upd (us_id row) forgotten users, v)) by done.
  assert (vcode_due config info = false) as Hdue by (unfold vcode_due; by rewrite no_image_code).
  rewrite (M_bind_unfold _ _ _ tt (upd (us_id row) forgotten users, v)).
  2: { unfold validateVCode. by rewrite Hdue, Hopt. }
  rewrite Hdue, info_lock, bool_decide_false by done. cbn [negb andb orb].
  change (cfg_PWDErrCnt config <=? u_PwdErrCnt info)%Z with (locked the_policy forgotten). by rewrite Hc.
Qed.
End refinement.

(** ** Runs of logins *)
Lemma lock_run_app policy h1 h2 l :
  lock_run policy (h1 ++ h2) l =
  ((lock_run policy h1 l).1 ++ (lock_run policy h2 (lock_run policy h1 l).2).1, (lock_run policy h2 (lock_run policy h1 l).2).2).
Proof.
  revert l. induction h1 as [|[now v] h1 IH]; intros l; simpl; [by destruct (lock_run policy h2 l)|].
  destruct (lock_attempt policy now v l) as [r l1]. rewrite IH. by destruct (lock_run policy h1 l1).
Qed.
Lemma lock_run_length policy h l : length (lock_run policy h l).1 = length h.
Proof.
  revert l. induction h as [|[now v] h IH]; intros l; simpl; [done|]. destruct (lock_attempt policy now v l) as [r l1]. specialize (IH l1).
  destruct (lock_run policy h l1). simpl in *. by f_equal.
Qed.
Lemma lock_attempt_nonneg policy now v l : (0 ≤ lk_cnt l)%Z → (0 ≤ lk_cnt (lock_attempt policy now v l).2)%Z.
Proof.
  intros Hl. assert (0 ≤ lk_cnt (forget policy now l))%Z as Hf by (unfold forget; by destruct (_ <=? now)%Z).
  unfold lock_attempt. destruct v; [destruct (locked _ _)|destruct (locked _ _)|]; simpl; try done. destruct (_ <? 5)%Z; lia.
Qed.

Section login_runs.
Context {V : Type} `{GoRuntime} `{UserEnv} `{JsonText} (others : DnUserManagement (user_db * V)).
Context `{!DnShareMgnt (user_db * V)} `{!ShareMgntConfig (user_db * V)}.
Context (uc : UserConf) (config : Config) (settings : list (string * string)) (visitor : Visitor).

(** An enabled local account, in tables without repeated keys, with the lock
    switched on and the image code off. *)
Record account_ok (users : user_db) (row : user_row) : Prop := {
  ao_conf : user_conf = Ok uc;
  ao_no_fault : ∀ label, user_fault label = None;
  ao_ids : NoDup (us_id <$> users);
  ao_names : NoDup (us_login_name <$> users);
  ao_row : row ∈ users;
  ao_id : us_id row ≠ "";
  ao_name : us_login_name row ≠ "";
  ao_local : us_auth_type row = Local;
  ao_enabled : us_enabled row = true ∧ us_auto_enabled row = true;
  ao_lock : uc_EnablePwdLock uc = true ∧ cfg_EnablePWDLock config = true;
  ao_no_image : vc_Enable (cfg_VCodeConfig config) = false;
  ao_visible : account_hidden config (base_info row) = false;
  ao_count : (0 ≤ us_err_cnt row)%Z
}.
(** A login with a password for that account, at the time of [env], with the
    settings at hand. *)
Record login_ok (account : string) (a : AuthEnv * ClientLoginReq) : Prop := {
  lo_clock : @businessTimeOffset a.1 = 0%Z;
  lo_after_1970 : (0 ≤ @time_Now a.1)%Z;
  lo_account : cr_Account a.2 = account;
  lo_password : cr_Password a.2 ≠ "";
  lo_no_code : op_VCodeType (cr_Option a.2) = NoVCode;
  lo_domain : @db_fault a.1 "login.GetDomainStatus" = None;
  lo_settings : @getConfig _ a.1 _ settings account_keys = Ok config
}.

Fixpoint login_run (h : list (AuthEnv * ClientLoginReq)) (s : auth_db * (user_db * V)) : list (outcome string) * (auth_db * (user_db * V)) :=
  match h with
  | [] => ([], s)
  | (env, req) :: h =>
      let '(r, s) := @ClientAccountAuth _ _ env _ (user_service others) _ _ visitor req s in
      let '(rs, s) := login_run h s in (r :: rs, s)
  end.
Definition policy_of : lock_policy := {| lp_limit := cfg_PWDErrCnt config; lp_minutes := uc_PwdLockTime uc |}.
(** The same logins for the promise: their times, and what the password
    service says of their passwords. *)
Definition promised (row : user_row) (h : list (AuthEnv * ClientLoginReq)) : list (Z * verdict) :=
  map (λ a, (@unix_now a.1, @verdict_of a.1 _ uc row (cr_Password a.2))) h.

Lemma upd_names id l users : us_login_name <$> upd id l users = us_login_name <$> users.
Proof. unfold upd. induction users as [|r users IH]; [done|]. csimpl. rewrite IH. by destruct (bool_decide (us_id r = id)). Qed.
Lemma account_ok_upd users row l : account_ok users row → (0 ≤ lk_cnt l)%Z → account_ok (upd (us_id row) l users) (with_lock l row).
Proof. intros [] Hl. split; try done; [by rewrite upd_ids|by rewrite upd_names|by apply upd_row]. Qed.

Lemma login_runs_simulate h users row d (v : V) :
  account_ok users row → Forall (login_ok (us_login_name row)) h → vis_ID visitor = "" → (∀ us, t_sharemgnt_config (us, v) = settings) →
  let p := lock_run policy_of (promised row h) (lock_of row) in
  ∃ rs, login_run h (d, (users, v)) = (rs, (d, (upd (us_id row) p.2 users, v))) ∧ Forall2 (answers (us_id row)) p.1 rs.
Proof.
  intros Hok Hh Hvis Hset. revert users row Hok Hh. induction h as [|[env req] h IH]; intros users row Hok Hh; cbn zeta.
  { exists []. split; [|constructor]. simpl. rewrite upd_same; [done|apply Hok|apply Hok|done]. }
  apply Forall_cons in Hh as [Ha Hh]. destruct Ha as [Hclock H1970 Hacc Hpwd Hcode Hdom Hconf]. cbn [fst snd] in *.
  destruct (login_step (H0 := env) others uc config users row) with (visitor := visitor) (req := req) (d := d) (v := v) as (r & Hstep & Hans); try done; try apply Hok.
  { by rewrite Hset. }
  unfold attempt, the_policy in *. fold policy_of in *. cbn [promised map lock_run login_run fst snd]. rewrite Hstep.
  pose proof (lock_attempt_nonneg policy_of (@unix_now env) (@verdict_of env _ uc row (cr_Password req)) (lock_of row) (ao_count _ _ Hok)) as Hl1.
  destruct (lock_attempt policy_of _ _ (lock_of row)) as [res l1]. simpl in Hans, Hl1.
  destruct (IH (upd (us_id row) l1 users) (with_lock l1 row)) as (rs & Hrun & Hall); [by apply account_ok_upd|done|].
  assert (lock_of (with_lock l1 row) = l1) as E by (by destruct l1). rewrite E in Hrun, Hall. change (promised (with_lock l1 row) h) with (promised row h) in *.
  change (us_id (with_lock l1 row)) with (us_id row) in *. rewrite upd_upd in Hrun. cbn [fst snd]. unfold promised in *. destruct (lock_run policy_of _ l1) as [rs' l2].
  simpl in Hrun, Hall |- *. rewrite Hrun. exists (r :: rs). split; [done|]. by constructor.
Qed.

(** C2. The logins of an account refine the lock-out: whatever passwords are
    tried at whatever times, [ClientAccountAuth], through the user service down
    to its table, answers every one of them as the promise does, ends with the
    counter of the promise, and changes no other row. *)
Theorem logins_refine_lockout h users row d (v : V) :
  account_ok users row → Forall (login_ok (us_login_name row)) h → vis_ID visitor = "" → (∀ us, t_sharemgnt_config (us, v) = settings) →
  let p := lock_run policy_of (promised row h) (lock_of row) in
  let '(rs, (d', (users', v'))) := login_run h (d, (users, v)) in
  Forall2 (answers (us_id row)) p.1 rs ∧ d' = d ∧ v' = v ∧
  ∀ r, r ∈ users → (us_id r = us_id row ∧ with_lock p.2 r ∈ users') ∨ (us_id r ≠ us_id row ∧ r ∈ users').
Proof.
  intros Hok Hh Hvis Hset p. destruct (login_runs_simulate h users row d v Hok Hh Hvis Hset) as (rs & -> & Hall). split_and!; [done..|].
  intros r Hr. destruct (decide (us_id r = us_id row)) as [E|E]; [left; split; [done|]; by apply upd_row|right; split; [done|]].
  apply list_elem_of_fmap. exists r. by rewrite bool_decide_false.
Qed.

(** C8. The lock-out holds for the code: after as many wrong passwords as the
    limit allows, each less than five minutes after the one before, no login of
    the account succeeds, whatever its password, until the configured minutes
    after the first of them have passed. *)
Theorem login_lockout first wrongs later users row d (v : V) :
  account_ok users row → Forall (login_ok (us_login_name row)) (first :: wrongs ++ later) → vis_ID visitor = "" → (∀ us, t_sharemgnt_config (us, v) = settings) →
  let t1 := @unix_now first.1 in
  (0 < lp_limit policy_of)%Z → (us_err_cnt row < lp_limit policy_of)%Z → Z.of_nat (length wrongs) = (lp_limit policy_of - 1)%Z → (0 < lp_minutes policy_of)%Z →
  Forall (λ a, password_matches row (cr_Password a.2) = false) (first :: wrongs) → quick t1 (promised row wrongs) →
  Forall (λ a, @unix_now a.1 < t1 + lp_minutes policy_of * 60)%Z (wrongs ++ later) →
  ∀ r, r ∈ drop (S (length wrongs)) (login_run (first :: wrongs ++ later) (d, (users, v))).1 → ∀ id, r ≠ Ok id.
Proof.
  intros Hok Hh Hvis Hset t1 Hlim Hcnt Hn Hmin Hwrong Hquick Hbefore. destruct (login_runs_simulate _ users row d v Hok Hh Hvis Hset) as (rs & -> & Hall). simpl fst.
  assert (∀ a, password_matches row (cr_Password a.2) = false → (@unix_now a.1, @verdict_of a.1 _ uc row (cr_Password a.2)) = (@unix_now a.1, Wrong)) as Hv.
  { intros a Ha. unfold verdict_of. by rewrite Ha. }
  change (first :: wrongs ++ later) with ((first :: wrongs) ++ later) in Hall. unfold promised in Hall. rewrite map_app, lock_run_app in Hall. cbn [fst] in Hall.
  apply Forall2_app_inv_l in Hall as (rs1 & rs2 & Hf1 & Hf2 & ->). apply Forall2_length in Hf1 as Hl1.
  assert (length (lock_run policy_of (map (λ a, (@unix_now a.1, @verdict_of a.1 _ uc row (cr_Password a.2))) (first :: wrongs)) (lock_of row)).1 = S (length wrongs)) as Hlen.
  { by rewrite lock_run_length, length_map. }
  rewrite <-Hlen, Hl1, drop_app_length. intros r Hr id ->.
  apply list_elem_of_lookup in Hr as [i Hi]. destruct (Forall2_lookup_r _ _ _ _ _ Hf2 Hi) as (res & Hres & Ha). destruct res; simpl in Ha; try done. subst id.
  apply list_elem_of_lookup_2 in Hres. revert Hres. cbn [map]. apply Forall_cons in Hwrong as [Hw1 Hw]. rewrite (Hv first Hw1).
  assert (locked policy_of (lock_of row) = false) as Hunl by (by apply Z.leb_gt).
  apply (lockout_holds policy_of t1 (promised row wrongs)); try done; [apply Hok|unfold promised; by rewrite length_map|].
  unfold promised. rewrite <-map_app. apply Forall_map. exact Hbefore.
Qed.
End login_runs.
