(* ===== verification/AuditTask.v ===== *)
(** * The audit log task
      ([Authentication/logics/audit/audit_log_async_task.go], [dbaccess/unordered_outbox.go])

    A log entry is a row of [t_outbox_unordered].  Every instance of the
    service runs a thread that claims a row by setting its status from 0 to 1,
    publishes it, retrying until that succeeds, and deletes it; a second thread
    renews the time of the claim, and claims that were not renewed for a minute
    are set back to 0. *)
From S2P Require Import Prelude Json AuthBase AuthStore Outbox.

Definition OutboxNotStarted : Z := 0.
Definition OutboxInProgress : Z := 1.

(** ** Statements *)
Section statements.
Context `{GoRuntime} `{AuthEnv}.

(** [common.Now().UnixNano() / 1e3] *)
Definition business_micros : Z := ((time_Now + businessTimeOffset * second) `quot` 1000)%Z.

(** An [update ... where]: the number of rows it affects. *)
Definition update_unordered (label : string) (p : unordered_row → bool) (f : unordered_row → unordered_row) : M auth_db Z := λ d,
  match db_fault label with
  | Some e => (Err e, d)
  | None => (Ok (Z.of_nat (length (filter (λ row, p row = true) (t_unordered d)))),
             set_unordered (map (λ row, if p row then f row else row)) d)
  end.
Definition set_status (status : Z) (row : unordered_row) : unordered_row :=
  {| un_id := un_id row; un_message := un_message row; un_status := status; un_created_at := un_created_at row; un_updated_at := un_updated_at row |}.
Definition set_updated (t : Z) (row : unordered_row) : unordered_row :=
  {| un_id := un_id row; un_message := un_message row; un_status := un_status row; un_created_at := un_created_at row; un_updated_at := t |}.

(** [select ... where f_status = 0 limit 1] *)
Definition unDB_select : M auth_db (option (Z * text)) :=
  query "unordered.select" (λ d,
    Ok (match range_order 270 (filter (λ row, un_status row = OutboxNotStarted) (t_unordered d)) with
        | row :: _ => Some (un_id row, un_message row)
        | [] => None
        end)).
(** [update ... set f_status = 1, f_updated_at = ? where id = ? and f_status = 0] *)
Definition unDB_claim (id : Z) : M auth_db Z :=
  update_unordered "unordered.claim" (λ row, (un_id row =? id)%Z && (un_status row =? OutboxNotStarted)%Z)
    (λ row, set_updated business_micros (set_status OutboxInProgress row)).

(** Where the loop of [GetUnorderedOutboxInfo] is: before its query, or before
    its update of the row it selected; and the next statement from there.
    [inr]: the function returns. *)
Inductive claim_at : Type := AtSelect | AtClaim (id : Z) (message : text).
Definition GetUnorderedOutboxInfo (at_ : claim_at) : M auth_db (claim_at + option (Z * text)) :=
  match at_ with
  | AtSelect =>
      row ← unDB_select;
      mret (match row with Some (id, message) => inl (AtClaim id message) | None => inr None end)
  | AtClaim id message =>
      rowAffected ← unDB_claim id;
      mret (if (rowAffected =? 1)%Z then inr (Some (id, message)) else inl AtSelect)
  end.

Definition DeleteUnorderedOutboxInfoByID (id : Z) : M auth_db unit :=
  execute "unordered.delete" (set_unordered (filter (λ row, ¬ (un_id row = id ∧ un_status row = OutboxInProgress)))).
Definition UpdateUnorderedOutboxUpdateTimeByID (id : Z) : M auth_db bool :=
  n ← update_unordered "unordered.renew" (λ row, (un_id row =? id)%Z && (un_status row =? OutboxInProgress)%Z) (set_updated business_micros);
  mret (n =? 1)%Z.
Definition AddUnorderedOutboxInfo (message : text) (status createdAt updatedAt : Z) : M auth_db unit :=
  execute "unordered.add" (λ d,
    set_n_id (λ n, n + 1)%Z
      (set_unordered (λ t, t ++ [{| un_id := n_id d; un_message := message; un_status := status; un_created_at := createdAt;
                                    un_updated_at := updatedAt |}]) d)).
Definition RestartUnorderedOutboxInfo (updatedTime : Z) : M auth_db unit :=
  _ ← update_unordered "unordered.restart" (λ row, (un_status row =? OutboxInProgress)%Z && (un_updated_at row <? updatedTime)%Z)
        (set_status OutboxNotStarted);
  mret tt.
End statements.

(** ** The task *)
Section task.
Context {W : Type} `{GoRuntime} `{AuthEnv} `{!DnEacpLog W}.

Definition log_text (topic : string) (message : json) : text := marshal (jobj [("topic", JStr topic); ("message", message)]).
Definition async_Log (topic : string) (message : json) : M auth_db unit :=
  AddUnorderedOutboxInfo (log_text topic message) OutboxNotStarted business_micros business_micros.

(** [updatedTime := common.Now().Add(-age).UnixNano() / 1e3], [age] in seconds *)
Definition micros_ago (age : Z) : Z := ((time_Now + businessTimeOffset * second - age * second) `quot` 1000)%Z.
Definition restartUnAsyncTask : M auth_db unit := RestartUnorderedOutboxInfo (micros_ago 20).

(** What a message says; a topic that is not text is empty. *)
Definition read_log (message : text) : outcome (string * json) :=
  contentJSON ← unmarshal_map message;
  Ok (match jget contentJSON "topic" with JStr topic => topic | _ => "" end, jget contentJSON "message").
Definition publish_log (message : text) : M W unit :=
  '(topic, content) ← lift (read_log message);
  Publish topic content.
(** One try of the loop of [push]: before the call of the log service, or
    before the deletion.  An error ends the try. *)
Inductive attempt_at : Type := AtPublish | AtDelete.
Definition log_attempt (id : Z) (message : text) (at_ : attempt_at) : M (auth_db * W) (attempt_at + unit) :=
  match at_ with
  | AtPublish => _ ← on_world (publish_log message); mret (inl AtDelete)
  | AtDelete => _ ← on_db (DeleteUnorderedOutboxInfoByID id); mret (inr tt)
  end.

(** [push], a statement or a call at a time; [inr isAllFinished] when it
    returns.  An error of the database answers [false]; a try that failed is
    repeated from its start. *)
Inductive push_at : Type := AtRestart | AtGet (at_ : claim_at) | AtTry (id : Z) (message : text) (at_ : attempt_at).
Definition audit_push (at_ : push_at) : M (auth_db * W) (push_at + bool) := λ s,
  match at_ with
  | AtRestart =>
      match on_db (RestartUnorderedOutboxInfo (micros_ago 60)) s with
      | (Ok _, s) => (Ok (inl (AtGet AtSelect)), s)
      | (Err _, s) => (Ok (inr false), s)
      | (Panic why, s) => (Panic why, s)
      end
  | AtGet at_ =>
      match on_db (GetUnorderedOutboxInfo at_) s with
      | (Ok (inl at_), s) => (Ok (inl (AtGet at_)), s)
      | (Ok (inr (Some (id, message))), s) => (Ok (inl (AtTry id message AtPublish)), s)
      | (Ok (inr None), s) => (Ok (inr true), s)
      | (Err _, s) => (Ok (inr false), s)
      | (Panic why, s) => (Panic why, s)
      end
  | AtTry id message at_ =>
      match log_attempt id message at_ s with
      | (Ok (inl at_), s) => (Ok (inl (AtTry id message at_)), s)
      | (Ok (inr _), s) => (Ok (inr false), s)
      | (Err _, s) => (Ok (inl (AtTry id message AtPublish)), s)
      | (Panic why, s) => (Panic why, s)
      end
  end.

(** The thread waits for a notification, or it pushes until all is
    finished. *)
Inductive worker : Type := Waiting | Pushing (at_ : push_at).
Definition thread_next (x : worker) : M (auth_db * W) worker :=
  match x with
  | Waiting => mret (Pushing AtRestart)
  | Pushing at_ =>
      r ← audit_push at_;
      mret (match r with inl at_ => Pushing at_ | inr true => Waiting | inr false => Pushing AtRestart end)
  end.
(** The thread alone, until it waits; [None] when it does not within [fuel]
    statements and calls. *)
Fixpoint audit_loop (fuel : nat) (x : worker) (s : auth_db * W) : option (outcome unit * (auth_db * W)) :=
  match x, fuel with
  | Waiting, _ => Some (Ok tt, s)
  | Pushing _, 0 => None
  | Pushing _, S fuel =>
      match thread_next x s with
      | (Ok x, s) => audit_loop fuel x s
      | (Err e, s) => Some (Err e, s)
      | (Panic why, s) => Some (Panic why, s)
      end
  end.

(** The renewal thread: [true] while the claim is still there. *)
Definition autoRenewal (id : Z) : M auth_db bool := UpdateUnorderedOutboxUpdateTimeByID id.
End task.

(** * What becomes of a log entry

    Any number of instances work on the table at the same time, statement by
    statement, with refused statements, failing calls of the log service,
    crashes and claims that are set back: no entry is lost, nothing is
    published that was not logged, and an entry has more than one worker only
    as often as its claim was set back. *)

(** ** The log service as its calls *)

(** A call of [Publish]: its arguments, and whether it was answered without
    an error. *)
Definition call : Type := string * json * bool.
Definition accepted {A} (r : outcome A) : bool := match r with Ok _ => true | _ => false end.
Definition recording {W} (log : DnEacpLog W) : DnEacpLog (list call * W) :=
  let pass m := λ s : list call * W, let '(r, w) := m s.2 : outcome unit * W in (r, (s.1, w)) in
  {| Publish topic message := λ s, let '(r, w) := Publish topic message s.2 in (r, (s.1 ++ [(topic, message, accepted r)], w));
     OpSetAppAccessTokenPerm v name := pass (OpSetAppAccessTokenPerm v name);
     OpDeleteAppAccessTokenPerm v name := pass (OpDeleteAppAccessTokenPerm v name) |}.

(** ** Runs *)
Definition holds (id : Z) (x : worker) : Prop := match x with Pushing (AtTry i _ _) => i = id | _ => False end.
#[global] Instance holds_dec id x : Decision (holds id x).
Proof. destruct x as [|[]]; simpl; apply _. Defined.
Definition worker_message (x : worker) : option (Z * text) :=
  match x with Pushing (AtGet (AtClaim i m)) | Pushing (AtTry i m _) => Some (i, m) | _ => None end.

Inductive log_event : Type :=
| Logged (topic : string) (message : json)
| Restarted (ids : list Z).
Definition restarted_ids (e : log_event) : list Z := match e with Restarted ids => ids | _ => [] end.
(** How often the claim of an entry was set back. *)
Definition resets (id : Z) (h : list log_event) : nat := length (filter (λ e, id ∈ restarted_ids e) h).
Definition holders (id : Z) (ws : list worker) : nat := length (filter (holds id) ws).
(** The claims that are older than [t]. *)
Definition stale_ids (t : Z) (d : auth_db) : list Z :=
  un_id <$> filter (λ row, un_status row = OutboxInProgress ∧ un_updated_at row < t)%Z (t_unordered d).
(** The claims a step of a thread sets back. *)
Definition thread_events `{AuthEnv} (x : worker) (r : outcome worker) (d : auth_db) : list log_event :=
  match x, r with Pushing AtRestart, Ok (Pushing (AtGet _)) => [Restarted (stale_ids (micros_ago 60) d)] | _, _ => [] end.
(** A panic ends the process. *)
Definition after (r : outcome worker) : worker := match r with Ok x => x | _ => Waiting end.

Section runs.
Context {W : Type}.
Record task_state := { ta_db : auth_db; ta_calls : list call; ta_world : W; ta_workers : list worker }.

(** A step is one statement or call of one thread ([thread_next]), a call of
    the operation, the reset at the start of a process, a renewal, the start or
    end of an instance, or what other components do; each with its own clock,
    faults and log service. *)
Inductive task_step : task_state → list log_event → task_state → Prop :=
| step_log (env : AuthEnv) topic message d d' cs w ws :
    async_Log topic message d = (Ok tt, d') →
    task_step {| ta_db := d; ta_calls := cs; ta_world := w; ta_workers := ws |} [Logged topic message]
      {| ta_db := d'; ta_calls := cs; ta_world := w; ta_workers := ws |}
| step_thread (rt : GoRuntime) (env : AuthEnv) (log : DnEacpLog W) i x r d d' cs cs' w w' ws :
    ws !! i = Some x → @thread_next _ rt env (recording log) x (d, (cs, w)) = (r, (d', (cs', w'))) →
    task_step {| ta_db := d; ta_calls := cs; ta_world := w; ta_workers := ws |} (thread_events x r d)
      {| ta_db := d'; ta_calls := cs'; ta_world := w'; ta_workers := <[i := after r]> ws |}
| step_restart (env : AuthEnv) d d' cs w ws :
    restartUnAsyncTask d = (Ok tt, d') →
    task_step {| ta_db := d; ta_calls := cs; ta_world := w; ta_workers := ws |} [Restarted (stale_ids (micros_ago 20) d)]
      {| ta_db := d'; ta_calls := cs; ta_world := w; ta_workers := ws |}
| step_renew (env : AuthEnv) id r d d' cs w ws :
    autoRenewal id d = (r, d') →
    task_step {| ta_db := d; ta_calls := cs; ta_world := w; ta_workers := ws |} [] {| ta_db := d'; ta_calls := cs; ta_world := w; ta_workers := ws |}
| step_crash i x d cs w ws :
    ws !! i = Some x →
    task_step {| ta_db := d; ta_calls := cs; ta_world := w; ta_workers := ws |} []
      {| ta_db := d; ta_calls := cs; ta_world := w; ta_workers := <[i := Waiting]> ws |}
| step_start d cs w ws :
    task_step {| ta_db := d; ta_calls := cs; ta_world := w; ta_workers := ws |} []
      {| ta_db := d; ta_calls := cs; ta_world := w; ta_workers := ws ++ [Waiting] |}
| step_elsewhere d d' cs w w' ws :
    t_unordered d' = t_unordered d → (n_id d ≤ n_id d')%Z →
    task_step {| ta_db := d; ta_calls := cs; ta_world := w; ta_workers := ws |} [] {| ta_db := d'; ta_calls := cs; ta_world := w'; ta_workers := ws |}.

(** What happened, oldest first. *)
Inductive task_run (s0 : task_state) : list log_event → task_state → Prop :=
| run_start : task_run s0 [] s0
| run_step h s e s' : task_run s0 h s → task_step s e s' → task_run s0 (h ++ e) s'.

Definition fresh_start (s : task_state) : Prop := t_unordered (ta_db s) = [] ∧ ta_calls s = [] ∧ ta_workers s = [].
End runs.
Arguments task_state : clear implicits.

(** ** Facts about statements *)
Lemma read_log_text topic message : read_log (log_text topic message) = Ok (topic, message).
Proof.
  unfold read_log, log_text, marshal, jobj, mbind, outcome_bind. cbn [unmarshal_map]. rewrite jget_first. unfold jget. simpl.
  by rewrite lookup_insert_ne, lookup_insert_eq by done.
Qed.
Lemma filter_insert_length {A} (P : A → Prop) `{∀ x, Decision (P x)} (l : list A) i x y :
  l !! i = Some y →
  length (filter P (<[i := x]> l)) + (if decide (P y) then 1 else 0) = length (filter P l) + (if decide (P x) then 1 else 0).
Proof.
  revert i. induction l as [|z l IH]; intros [|i] Hi; simplify_eq/=.
  - rewrite !filter_cons. repeat case_decide; simpl; lia.
  - rewrite !filter_cons. specialize (IH i Hi). repeat case_decide; simpl; lia.
Qed.
Lemma holders_insert id ws i x y :
  ws !! i = Some y → holders id (<[i := x]> ws) + (if decide (holds id y) then 1 else 0) = holders id ws + (if decide (holds id x) then 1 else 0).
Proof. apply filter_insert_length. Qed.
Lemma holders_bound id ws : (∀ w, w ∈ ws → ¬ holds id w) → holders id ws = 0.
Proof. intros Hn. unfold holders. by rewrite filter_none. Qed.

(** The rows of an entry that can be claimed. *)
Definition claimable (id : Z) (d : auth_db) : list unordered_row :=
  filter (λ row, un_id row = id ∧ un_status row = OutboxNotStarted) (t_unordered d).

(** What the [update]s keep: ids and messages. *)
Definition same_messages (d d' : auth_db) : Prop :=
  (λ row, (un_id row, un_message row)) <$> t_unordered d' = (λ row, (un_id row, un_message row)) <$> t_unordered d ∧ n_id d' = n_id d.
Lemma update_same `{AuthEnv} label p f d r d' :
  (∀ row, un_id (f row) = un_id row ∧ un_message (f row) = un_message row) →
  update_unordered label p f d = (r, d') → same_messages d d'.
Proof.
  intros Hf. unfold update_unordered. destruct (db_fault _); intros [= <- <-]; [done|]. split; [|done]. simpl.
  induction (t_unordered d) as [|row t IH]; [done|]. csimpl. f_equal; [|done].
  destruct (p row); [|done]. destruct (Hf row) as [-> ->]. done.
Qed.
#[global] Instance log_text_inj : Inj2 (=) (=) (=) log_text.
Proof. intros t1 m1 t2 m2 E. assert (Ok (t1, m1) = Ok (t2, m2)) as [= -> ->]; [|done]. by rewrite <-!read_log_text, E. Qed.

Definition entries (d : auth_db) : list (Z * text) := (λ row, (un_id row, un_message row)) <$> t_unordered d.
Lemma elem_of_entries id m d : (id, m) ∈ entries d ↔ ∃ row, row ∈ t_unordered d ∧ un_id row = id ∧ un_message row = m.
Proof.
  unfold entries. rewrite list_elem_of_fmap. split; [intros (row & [= -> ->] & ?); eauto|intros (row & ? & <- & <-); eauto].
Qed.
Lemma select_entry `{GoRuntime} `{AuthEnv} d id m d' : unDB_select d = (Ok (Some (id, m)), d') → d' = d ∧ (id, m) ∈ entries d.
Proof.
  unfold unDB_select, query, reads. destruct (db_fault _); [done|]. destruct (range_order 270 _) as [|row rows] eqn:E; [done|]. intros [= <- <- <-].
  split; [done|]. apply elem_of_entries. exists row. split; [|done].
  assert (row ∈ filter (λ row, un_status row = OutboxNotStarted) (t_unordered d)) as Hr by (rewrite <-(range_order_perm 270), E; left).
  by apply list_elem_of_filter in Hr as [_ ?].
Qed.
Lemma delete_entries `{AuthEnv} id d r d' :
  DeleteUnorderedOutboxInfoByID id d = (r, d') →
  entries d' `sublist_of` entries d ∧ n_id d' = n_id d ∧ ∀ p, p ∈ entries d → p ∈ entries d' ∨ (p.1 = id ∧ r = Ok tt).
Proof.
  unfold DeleteUnorderedOutboxInfoByID, execute. destruct (db_fault _); intros [= <- <-]; [split_and!; [done..|by left]|].
  split_and!; [by apply fmap_sublist, sublist_filter|done|]. intros [i m] (row & Hrow & <- & <-)%elem_of_entries.
  destruct (decide (un_id row = id ∧ un_status row = OutboxInProgress)) as [[? _]|Hn]; [by right|left].
  apply elem_of_entries. exists row. split; [|done]. by apply list_elem_of_filter.
Qed.

(** ** A step of a thread *)
Inductive thread_fate `{AuthEnv} (d : auth_db) (cs : list call) : worker → outcome worker → auth_db → list call → Prop :=
| fate_restart d' : RestartUnorderedOutboxInfo (micros_ago 60) d = (Ok tt, d') →
    thread_fate d cs (Pushing AtRestart) (Ok (Pushing (AtGet AtSelect))) d' cs
| fate_idle x r : worker_message (after r) = None → thread_events x r d = [] → thread_fate d cs x r d cs
| fate_select (rt : GoRuntime) id m d' : unDB_select d = (Ok (Some (id, m)), d') →
    thread_fate d cs (Pushing (AtGet AtSelect)) (Ok (Pushing (AtGet (AtClaim id m)))) d' cs
| fate_claim id m n d' : unDB_claim id d = (Ok n, d') →
    thread_fate d cs (Pushing (AtGet (AtClaim id m)))
      (Ok (Pushing (if (n =? 1)%Z then AtTry id m AtPublish else AtGet AtSelect))) d' cs
| fate_publish id m topic c b r : read_log m = Ok (topic, c) →
    (∀ p, worker_message (after r) = Some p → p = (id, m)) → (holds id (after r) ∨ worker_message (after r) = None) →
    (after r = Pushing (AtTry id m AtDelete) → b = true) →
    thread_fate d cs (Pushing (AtTry id m AtPublish)) r d (cs ++ [(topic, c, b)])
| fate_unread id m : thread_fate d cs (Pushing (AtTry id m AtPublish)) (Ok (Pushing (AtTry id m AtPublish))) d cs
| fate_delete id m r d' : DeleteUnorderedOutboxInfoByID id d = (r, d') →
    thread_fate d cs (Pushing (AtTry id m AtDelete)) (Ok (Pushing (if accepted r then AtRestart else AtTry id m AtPublish))) d' cs.

Lemma update_refused `{AuthEnv} label p f d r d' : update_unordered label p f d = (r, d') → (∃ n, r = Ok n) ∨ ((∃ e, r = Err e) ∧ d' = d).
Proof. unfold update_unordered. destruct (db_fault _); intros [= <- <-]; eauto. Qed.
Lemma select_same `{GoRuntime} `{AuthEnv} d r d' : unDB_select d = (r, d') → d' = d.
Proof. unfold unDB_select, query, reads. destruct (db_fault _); by intros [= _ <-]. Qed.
Lemma unmarshal_no_panic t why : unmarshal_map t ≠ Panic why.
Proof. by destruct t as [[]|]. Qed.

Lemma thread_cases {W} (rt : GoRuntime) (env : AuthEnv) (log : DnEacpLog W) x r d d' cs cs' w w' :
  @thread_next _ rt env (recording log) x (d, (cs, w)) = (r, (d', (cs', w'))) → thread_fate d cs x r d' cs'.
Proof.
  destruct x as [|[|[|id m]|id m []]]; unfold thread_next, audit_push, mbind, M_bind, mret, M_ret, on_db; cbn [fst snd].
  - intros [= <- <- <- <-]. by apply fate_idle.
  - destruct (RestartUnorderedOutboxInfo _ d) as [[[]|e|why] d1] eqn:E; intros [= <- <- <- <-]; [by apply fate_restart|..];
      unfold RestartUnorderedOutboxInfo, mbind, M_bind in E; destruct (update_unordered _ _ _ d) as [r1 d2] eqn:Eu;
      apply update_refused in Eu as [[n ->]|[[e' ->] ->]]; try done; simplify_eq; by apply fate_idle.
  - unfold GetUnorderedOutboxInfo, mbind, M_bind, mret, M_ret. destruct (unDB_select d) as [[[[id m]|]|e|why] d1] eqn:E; intros [= <- <- <- <-];
      [by eapply fate_select|..]; apply select_same in E as ->; by apply fate_idle.
  - unfold GetUnorderedOutboxInfo, mbind, M_bind, mret, M_ret. destruct (unDB_claim id d) as [r1 d1] eqn:E.
    pose proof (update_refused _ _ _ _ _ _ E) as [[n ->]|[[e ->] ->]]; [|intros [= <- <- <- <-]; by apply fate_idle].
    pose proof (fate_claim d cs id m n d1 E) as Hf. destruct (n =? 1)%Z; intros [= <- <- <- <-]; exact Hf.
  - unfold log_attempt, publish_log, mbind, M_bind, mret, M_ret, on_world, lift. cbn [fst snd]. destruct (read_log m) as [[topic c]|e|why] eqn:Em.
    + unfold recording. cbn [Publish fst snd]. destruct (Publish topic c w) as [[[]|e|why] w1]; intros [= <- <- <- <-]; eapply fate_publish; try done; simpl; auto; naive_solver.
    + intros [= <- <- <- <-]. apply fate_unread.
    + exfalso. unfold read_log, mbind, outcome_bind in Em. destruct (unmarshal_map m) eqn:Eu; simplify_eq. by eapply unmarshal_no_panic.
  - unfold log_attempt, mbind, M_bind, mret, M_ret, on_db. cbn [fst snd]. destruct (DeleteUnorderedOutboxInfoByID id d) as [r1 d1] eqn:E.
    pose proof (fate_delete d cs id m r1 d1 E) as Hf. revert E Hf. unfold DeleteUnorderedOutboxInfoByID, execute.
    destruct (db_fault _); intros [= <- <-] Hf [= <- <- <- <-]; exact Hf.
Qed.

(** ** No entry is lost *)
Record task_inv (h : list log_event) (entries : list (Z * text)) (next : Z) (cs : list call) (ws : list worker) : Prop := {
  ti_ids : NoDup entries.*1;
  ti_below : ∀ p, p ∈ entries → (p.1 < next)%Z;
  ti_rows : ∀ id m, (id, m) ∈ entries → ∃ topic c, m = log_text topic c ∧ Logged topic c ∈ h;
  ti_worker : ∀ x id m, x ∈ ws → worker_message x = Some (id, m) →
    (id < next)%Z ∧ (∃ topic c, m = log_text topic c ∧ Logged topic c ∈ h) ∧ ∀ m', (id, m') ∈ entries → m' = m;
  ti_published : ∀ id m, Pushing (AtTry id m AtDelete) ∈ ws → ∃ topic c, m = log_text topic c ∧ (topic, c, true) ∈ cs;
  ti_kept : ∀ topic c, Logged topic c ∈ h → (∃ id, (id, log_text topic c) ∈ entries) ∨ (topic, c, true) ∈ cs;
  ti_sent : ∀ topic c b, (topic, c, b) ∈ cs → Logged topic c ∈ h
}.

Lemma inv_log h es n cs ws topic c :
  task_inv h es n cs ws → task_inv (h ++ [Logged topic c]) (es ++ [(n, log_text topic c)]) (n + 1) cs ws.
Proof.
  intros [Hi Hb Hr Hw Hp Hk Hs]. split.
  - rewrite fmap_app. apply NoDup_app. split_and!; [done| |apply NoDup_singleton].
    intros x (p & -> & Hp')%list_elem_of_fmap Hx. apply list_elem_of_singleton in Hx. specialize (Hb p Hp'). simpl in *. lia.
  - intros p [?%Hb| ->%list_elem_of_singleton]%elem_of_app; simpl; lia.
  - intros id m [Hin|[= -> ->]%list_elem_of_singleton]%elem_of_app; [|set_solver]. destruct (Hr _ _ Hin) as (t & c' & ? & ?). set_solver.
  - intros w id m Hin Hm. destruct (Hw w id m Hin Hm) as (? & (t & c' & ? & ?) & Hu). split_and!; [lia|set_solver|].
    intros m' [?|[= -> ->]%list_elem_of_singleton]%elem_of_app; [auto|lia].
  - done.
  - intros t c' [Hin|[= -> ->]%list_elem_of_singleton]%elem_of_app; [|set_solver]. destruct (Hk _ _ Hin) as [[id ?]|?]; set_solver.
  - intros t c' b Hin. set_solver.
Qed.
(** The history grows by events that log nothing, the calls by calls for what
    was logged, and the workers change; the table does not. *)
Lemma inv_workers h es n cs cs' ws ws' e :
  task_inv h es n cs ws → (∀ t c, Logged t c ∉ e) → (∀ t c b, (t, c, b) ∈ cs' → Logged t c ∈ h) → cs ⊆ cs' →
  (∀ x, x ∈ ws' → x ∈ ws ∨ ∀ id m, worker_message x = Some (id, m) → (id, m) ∈ es ∨ ∃ x', x' ∈ ws ∧ worker_message x' = Some (id, m)) →
  (∀ id m, Pushing (AtTry id m AtDelete) ∈ ws' → Pushing (AtTry id m AtDelete) ∈ ws ∨ ∃ t c, m = log_text t c ∧ (t, c, true) ∈ cs') →
  task_inv (h ++ e) es n cs' ws'.
Proof.
  intros [Hi Hb Hr Hw Hp Hk Hs] Hl Hse Hsub Hww Hpub.
  assert (∀ m, (∃ topic c, m = log_text topic c ∧ Logged topic c ∈ h) → ∃ topic c, m = log_text topic c ∧ Logged topic c ∈ h ++ e) as Hmono.
  { intros m (t & c & ? & ?). exists t, c. set_solver. }
  assert (∀ id m, (id, m) ∈ es → (id < n)%Z ∧ (∃ topic c, m = log_text topic c ∧ Logged topic c ∈ h ++ e) ∧ ∀ m', (id, m') ∈ es → m' = m) as Hes.
  { intros id m Hin. split_and!; [by apply (Hb (id, m))|eauto|]. intros m' Hin'. by injection (NoDup_fmap_inj_in fst es _ _ Hi Hin' Hin eq_refl). }
  split; [done..| | | | |].
  - eauto.
  - intros x id m [Hin|Hnew]%Hww Hm; [destruct (Hw x id m Hin Hm) as (? & ? & ?); auto|].
    destruct (Hnew id m Hm) as [?|(x' & Hin & Hm')]; [auto|]. destruct (Hw x' id m Hin Hm') as (? & ? & ?); auto.
  - intros id m [Hin|?]%Hpub; [destruct (Hp id m Hin) as (t & c & ? & ?); exists t, c; auto|done].
  - intros t c [Hin|?]%elem_of_app; [|by destruct (Hl t c)]. destruct (Hk t c Hin) as [?|?]; [by left|right; auto].
  - intros t c b Hin. apply elem_of_app. left. eauto.
Qed.
(** Rows leave the table that were published. *)
Lemma inv_delete h es es' n n' cs ws id m :
  task_inv h es n cs ws → Pushing (AtTry id m AtDelete) ∈ ws → es' `sublist_of` es → (n ≤ n')%Z → (∀ p, p ∈ es → p ∈ es' ∨ p.1 = id) →
  task_inv h es' n' cs ws.
Proof.
  intros [Hi Hb Hr Hw Hp Hk Hs] Hpub Hsub Hn Hdel. pose proof (sublist_subseteq _ _ Hsub) as Hss. split; try done.
  - eapply sublist_NoDup; [done|]. by apply fmap_sublist.
  - intros p Hin. specialize (Hb p (Hss _ Hin)). lia.
  - eauto.
  - intros x i m' Hin Hm. destruct (Hw x i m' Hin Hm) as (? & ? & Hu). split_and!; [lia|done|]. auto.
  - intros t c Hin. destruct (Hk t c Hin) as [[i Hrow]|?]; [|by right]. destruct (Hdel _ Hrow) as [?|Hid]; [left; eauto|]. simpl in Hid. subst i. right.
    destruct (Hw _ id m Hpub eq_refl) as (_ & _ & Hu). apply Hu in Hrow. destruct (Hp id m Hpub) as (t' & c' & -> & ?).
    by apply (inj2 log_text) in Hrow as [-> ->].
Qed.
Lemma inv_next h es n n' cs ws : task_inv h es n cs ws → (n ≤ n')%Z → task_inv h es n' cs ws.
Proof.
  intros [Hi Hb Hr Hw Hp Hk Hs] Hn. split; try done.
  - intros p Hin. specialize (Hb p Hin). lia.
  - intros x id m Hin Hm. destruct (Hw x id m Hin Hm) as (? & ? & ?). split_and!; [lia|done..].
Qed.
Lemma elem_of_insert {A} (l : list A) i x y : y ∈ <[i := x]> l → y ∈ l ∨ y = x.
Proof. intros [j [(_ & -> & _)|[_ ?%list_elem_of_lookup_2]]%list_lookup_insert_Some]%list_elem_of_lookup; auto. Qed.
Lemma inv_insert h es n cs cs' ws i x y e :
  task_inv h es n cs ws → ws !! i = Some y → (∀ t c, Logged t c ∉ e) → (∀ t c b, (t, c, b) ∈ cs' → Logged t c ∈ h) → cs ⊆ cs' →
  (∀ id m, worker_message x = Some (id, m) → worker_message y = Some (id, m) ∨ (id, m) ∈ es) →
  (∀ id m, x = Pushing (AtTry id m AtDelete) → ∃ t c, m = log_text t c ∧ (t, c, true) ∈ cs') → task_inv (h ++ e) es n cs' (<[i := x]> ws).
Proof.
  intros Hinv Hy Hl Hs Hsub Hx Hpub. pose proof (list_elem_of_lookup_2 _ _ _ Hy) as Hin. eapply inv_workers; [done..| |].
  - intros x' [Hw| ->]%elem_of_insert; [by left|]. right. intros id m [?|?]%Hx; eauto.
  - intros id m [Hw|E]%elem_of_insert; [by left|]. eauto.
Qed.
(** The same for a step without calls. *)
Lemma inv_insert_quiet h es n cs ws i x y e :
  task_inv h es n cs ws → ws !! i = Some y → (∀ t c, Logged t c ∉ e) →
  (∀ id m, worker_message x = Some (id, m) → worker_message y = Some (id, m) ∨ (id, m) ∈ es) →
  (∀ id m, x ≠ Pushing (AtTry id m AtDelete)) → task_inv (h ++ e) es n cs (<[i := x]> ws).
Proof. intros Hinv Hy Hl Hx Hpub. eapply inv_insert; [done..|apply Hinv|done|done|]. intros ?? E. by destruct (Hpub _ _ E). Qed.

Lemma restart_same `{AuthEnv} t d r d' : RestartUnorderedOutboxInfo t d = (r, d') → same_messages d d'.
Proof.
  unfold RestartUnorderedOutboxInfo, mbind, M_bind. destruct (update_unordered _ _ _ d) as [r1 d1] eqn:E. apply update_same in E; [|done].
  by destruct r1; intros [= <- <-].
Qed.
Lemma renew_same `{AuthEnv} id d r d' : autoRenewal id d = (r, d') → same_messages d d'.
Proof.
  unfold autoRenewal, UpdateUnorderedOutboxUpdateTimeByID, mbind, M_bind. destruct (update_unordered _ _ _ d) as [r1 d1] eqn:E. apply update_same in E; [|done].
  by destruct r1; intros [= <- <-].
Qed.
Lemma log_adds `{AuthEnv} topic c d d' :
  async_Log topic c d = (Ok tt, d') →
  n_id d' = (n_id d + 1)%Z ∧ ∃ row, t_unordered d' = t_unordered d ++ [row] ∧ un_id row = n_id d ∧ un_message row = log_text topic c ∧ un_status row = OutboxNotStarted.
Proof. unfold async_Log, AddUnorderedOutboxInfo, execute. destruct (db_fault _); intros [= <-]. split; [done|]. by eexists. Qed.

Lemma thread_step_inv `{AuthEnv} h ws i x r d cs d' cs' :
  ws !! i = Some x → thread_fate d cs x r d' cs' → task_inv h (entries d) (n_id d) cs ws →
  task_inv (h ++ thread_events x r d) (entries d') (n_id d') cs' (<[i := after r]> ws).
Proof.
  intros Hi Hf Hinv. destruct Hf as [d' Hr|x r Hm He|rt id m d' Hs|id m n d' Hc|id m topic c b r Hm Ha _ Hb|id m|id m r d' Hd].
  - apply restart_same in Hr as [He ->]. unfold entries. rewrite He. eapply inv_insert_quiet; [done..| |done|done]. by intros ?? ?%list_elem_of_singleton.
  - rewrite He. eapply inv_insert_quiet; [done..|set_solver| |]; [by rewrite Hm|]. intros ?? E. by rewrite E in Hm.
  - apply select_entry in Hs as [-> Hin]. eapply inv_insert_quiet; [done..|set_solver| |done]. intros ?? [= <- <-]. by right.
  - apply update_same in Hc as [He ->]; [|done]. unfold entries. rewrite He. eapply inv_insert_quiet; [done..|set_solver| |]; simpl.
    + destruct (n =? 1)%Z; [|done]. intros ?? [= <- <-]. by left.
    + by destruct (n =? 1)%Z.
  - assert (m = log_text topic c ∧ Logged topic c ∈ h) as [-> Hlog].
    { destruct (ti_worker _ _ _ _ _ Hinv _ id m (list_elem_of_lookup_2 _ _ _ Hi) eq_refl) as (_ & (t & c' & -> & ?) & _). rewrite read_log_text in Hm. by simplify_eq. }
    eapply inv_insert; [done..|set_solver| |set_solver| |].
    + intros t c' b' [Hin|[= -> -> ->]%list_elem_of_singleton]%elem_of_app; [by eapply ti_sent|done].
    + intros i' m' E. apply Ha in E as [= -> ->]. by left.
    + intros i' m' E. pose proof (Ha (i', m')) as Hp. rewrite E in Hp. specialize (Hp eq_refl) as [= -> ->]. exists topic, c. rewrite (Hb E). set_solver.
  - eapply inv_insert_quiet; [done..|set_solver| |done]. intros ?? [= <- <-]. by left.
  - apply delete_entries in Hd as (Hsub & Hn & Hdel). eapply inv_insert_quiet; [|done|set_solver|..].
    + eapply inv_delete; [done|by eapply list_elem_of_lookup_2|done|lia|]. intros p [?|[? _]]%Hdel; auto.
    + simpl. destruct (accepted r); [done|]. intros ?? [= <- <-]. by left.
    + simpl. by destruct (accepted r).
Qed.
Lemma audit_step_inv {W} (s : task_state W) e s' h :
  task_step s e s' → task_inv h (entries (ta_db s)) (n_id (ta_db s)) (ta_calls s) (ta_workers s) →
  task_inv (h ++ e) (entries (ta_db s')) (n_id (ta_db s')) (ta_calls s') (ta_workers s').
Proof.
  intros Hstep Hinv. destruct Hstep as [env topic c d d' cs w ws Hl|rt env log i x r d d' cs cs' w w' ws Hi Ht|env d d' cs w ws Hr|env id r d d' cs w ws Hr
    |i x d cs w ws Hi|d cs w ws|d d' cs w w' ws Ht Hn]; simpl in *.
  - apply log_adds in Hl as (-> & row & Ht & Hid & Hm & _). unfold entries. rewrite Ht, fmap_app. simpl. rewrite Hid, Hm. by apply inv_log.
  - apply thread_cases in Ht. by eapply thread_step_inv.
  - apply restart_same in Hr as [He ->]. unfold entries. rewrite He.
    eapply inv_workers; [done|..]; [by intros ?? ?%list_elem_of_singleton|apply Hinv|done|auto|auto].
  - apply renew_same in Hr as [He ->]. unfold entries. by rewrite He, app_nil_r.
  - eapply inv_insert_quiet; [done..|set_solver|done|done].
  - eapply inv_workers; [done|..]; [set_solver|apply Hinv|done|..].
    + intros x [?| ->%list_elem_of_singleton]%elem_of_app; [by left|by right].
    + intros ?? [?|?%list_elem_of_singleton]%elem_of_app; [by left|done].
  - rewrite app_nil_r. unfold entries. rewrite Ht. by eapply inv_next.
Qed.
Lemma audit_run_inv {W} (s0 s : task_state W) h :
  fresh_start s0 → task_run s0 h s → task_inv h (entries (ta_db s)) (n_id (ta_db s)) (ta_calls s) (ta_workers s).
Proof.
  intros (Ht & Hc & Hw). induction 1 as [|h s e s' _ IH Hstep]; [|by eapply audit_step_inv].
  unfold entries. rewrite Ht, Hc, Hw. split; [apply NoDup_nil_2|set_solver..].
Qed.

(** C9. No log entry is lost and none is made up: in every run of any number
    of instances, a statement or call of [push] at a time, whatever statements
    are refused, calls fail, instances crash and claims are set back, an entry
    that was logged is in the table or a call of [Publish] with its topic and
    message was answered without an error; and every call of [Publish], failed
    or not, was for an entry that had been logged. *)
Theorem audit_entries_survive {W} (s0 s : task_state W) h topic c :
  fresh_start s0 → task_run s0 h s →
  (Logged topic c ∈ h → (∃ row, row ∈ t_unordered (ta_db s) ∧ un_message row = log_text topic c) ∨ (topic, c, true) ∈ ta_calls s) ∧
  (∀ b, (topic, c, b) ∈ ta_calls s → Logged topic c ∈ h).
Proof.
  intros Hf Hr. destruct (audit_run_inv s0 s h Hf Hr) as [_ _ _ _ _ Hk Hs]. split; [|eauto]. intros Hl. destruct (Hk _ _ Hl) as [[id Hin]|?]; [left|by right].
  apply elem_of_entries in Hin as (row & ? & _ & ?). eauto.
Qed.

(** ** Claims *)
Lemma claimable_sub id d d' : t_unordered d' = t_unordered d → claimable id d' = claimable id d.
Proof. unfold claimable. by intros ->. Qed.
Lemma claimable_unique id d : NoDup (entries d).*1 → length (claimable id d) ≤ 1.
Proof.
  unfold entries, claimable. intros Hnd. rewrite <-list_fmap_compose in Hnd.
  destruct (filter _ (t_unordered d)) as [|a [|b l]] eqn:E; simpl; [lia|lia|]. exfalso.
  assert (sublist (a :: b :: l) (t_unordered d)) as Hs by (rewrite <-E; apply sublist_filter).
  assert (∀ x, x ∈ a :: b :: l → un_id x = id) as Hid by (intros x; rewrite <-E; by intros [[? _] _]%list_elem_of_filter).
  apply (fmap_sublist (fst ∘ λ row, (un_id row, un_message row))) in Hs. apply (sublist_NoDup _ _ Hnd) in Hs. csimpl in Hs.
  rewrite !Hid in Hs by set_solver. apply NoDup_cons in Hs as [Hs _]. set_solver.
Qed.
(** An [update] that leaves the entry alone, or does not make it claimable. *)
Lemma claimable_map id (f : unordered_row → unordered_row) d :
  (∀ row, un_id (f row) = un_id row) → (∀ row, row ∈ t_unordered d → un_id row = id → un_status (f row) = OutboxNotStarted → un_status row = OutboxNotStarted) →
  length (claimable id (set_unordered (map f) d)) ≤ length (claimable id d).
Proof.
  unfold claimable. simpl. intros Hid. induction (t_unordered d) as [|row t IH]; intros Hs; [done|]. simpl. rewrite !filter_cons.
  assert (length (filter (λ row, un_id row = id ∧ un_status row = OutboxNotStarted) (map f t)) ≤
          length (filter (λ row, un_id row = id ∧ un_status row = OutboxNotStarted) t)) as IH' by (apply IH; set_solver).
  specialize (Hs row ltac:(left)). rewrite Hid. repeat case_decide; simpl; first [lia|naive_solver].
Qed.
Lemma update_claimable `{AuthEnv} label p f d r d' id :
  (∀ row, un_id (f row) = un_id row) →
  (∀ row, row ∈ t_unordered d → p row = true → un_id row = id → un_status (f row) = OutboxNotStarted → un_status row = OutboxNotStarted) →
  update_unordered label p f d = (r, d') → length (claimable id d') ≤ length (claimable id d).
Proof.
  intros Hid Hs. unfold update_unordered. destruct (db_fault _); intros [= <- <-]; [done|]. apply claimable_map.
  - intros row. by destruct (p row).
  - intros row Hrow Hi. destruct (p row) eqn:E; [|done]. eauto.
Qed.

Lemma claim_effect `{AuthEnv} id d n d' :
  unDB_claim id d = (Ok n, d') → n = Z.of_nat (length (claimable id d)) ∧ claimable id d' = [] ∧
  ∀ id', length (claimable id' d') ≤ length (claimable id' d).
Proof.
  intros Hc. assert (∀ id', length (claimable id' d') ≤ length (claimable id' d)) as Hle by (intros id'; by eapply update_claimable in Hc).
  revert Hc. unfold unDB_claim, update_unordered. destruct (db_fault _); [done|]. intros [= <- <-].
  assert (∀ row, ((un_id row =? id)%Z && (un_status row =? OutboxNotStarted)%Z = true) ↔ un_id row = id ∧ un_status row = OutboxNotStarted) as Hp.
  { intros row. by rewrite andb_true_iff, !Z.eqb_eq. }
  split_and!; [|unfold claimable; apply filter_none|done].
  - do 2 f_equal. apply list_filter_iff. intros row. apply Hp.
  - intros row Hrow. simpl in Hrow. apply list_elem_of_In, in_map_iff in Hrow as (r & <- & _).
    destruct (_ && _) eqn:E; simpl; [intros [_ ?]; done|]. intros Hc%Hp. congruence.
Qed.
Lemma restart_effect `{AuthEnv} t d d' id :
  RestartUnorderedOutboxInfo t d = (Ok tt, d') →
  id ∉ stale_ids t d →
  length (claimable id d') ≤ length (claimable id d).
Proof.
  unfold RestartUnorderedOutboxInfo, mbind, M_bind. destruct (update_unordered _ _ _ d) as [r1 d1] eqn:E. intros Hr Hn.
  assert (d1 = d') as -> by (by destruct r1; injection Hr). eapply update_claimable; [|clear E|exact E]; [done|].
  intros row Hrow [E1%Z.eqb_eq E2%Z.ltb_lt]%andb_true_iff Hid. destruct Hn. apply list_elem_of_fmap. exists row. split; [done|]. by apply list_elem_of_filter.
Qed.
Lemma renew_effect `{AuthEnv} id r d d' id' : autoRenewal id d = (r, d') → length (claimable id' d') ≤ length (claimable id' d).
Proof.
  unfold autoRenewal, UpdateUnorderedOutboxUpdateTimeByID, mbind, M_bind. destruct (update_unordered _ _ _ d) as [r1 d1] eqn:E.
  apply (update_claimable _ _ _ _ _ _ id') in E; [|done|done]. by destruct r1; intros [= <- <-].
Qed.
Lemma delete_effect `{AuthEnv} id r d d' id' : DeleteUnorderedOutboxInfoByID id d = (r, d') → claimable id' d' = claimable id' d.
Proof.
  unfold DeleteUnorderedOutboxInfoByID, execute. destruct (db_fault _); intros [= <- <-]; [done|]. unfold claimable. simpl.
  apply list_filter_filter_l. intros row [_ Hs] [_ Hs']. by rewrite Hs in Hs'.
Qed.
Lemma log_claimable `{AuthEnv} topic c d d' id :
  async_Log topic c d = (Ok tt, d') → (∀ p, p ∈ entries d → (p.1 < n_id d)%Z) →
  length (claimable id d') ≤ length (claimable id d) ∨ (id = n_id d ∧ length (claimable id d') = 1).
Proof.
  intros (_ & row & Ht & Hid & _ & Hs)%log_adds Hb. unfold claimable. rewrite Ht, filter_app, filter_cons, filter_nil.
  case_decide as Hd; [|left; by rewrite app_nil_r]. right. destruct Hd as [<- _]. split; [done|]. rewrite filter_none; [done|].
  intros r Hr [E _]. specialize (Hb (un_id r, un_message r)). simpl in Hb. rewrite elem_of_entries in Hb. ospecialize (Hb _); [eauto|]. lia.
Qed.

(** Holders and claimable rows, against the times the claim was set back. *)
Lemma restart_claims `{AuthEnv} t d d' h ws id :
  RestartUnorderedOutboxInfo t d = (Ok tt, d') → NoDup (entries d).*1 →
  holders id ws + length (claimable id d) ≤ S (resets id h) →
  holders id ws + length (claimable id d') ≤ S (resets id (h ++ [Restarted (stale_ids t d)])).
Proof.
  intros Hr Hnd Hle. assert (resets id (h ++ [Restarted (stale_ids t d)]) = resets id h + (if decide (id ∈ stale_ids t d) then 1 else 0)) as ->.
  { unfold resets. rewrite filter_app, filter_cons, filter_nil, length_app. simpl. by case_decide. }
  case_decide as Hin; [|pose proof (restart_effect t d d' id Hr Hin); lia].
  assert (length (claimable id d') ≤ 1); [|lia]. apply claimable_unique. apply restart_same in Hr as [He _]. unfold entries. by rewrite He.
Qed.
Lemma no_message_no_hold id x : worker_message x = None → ¬ holds id x.
Proof. destruct x as [|[|[]|]]; simpl; naive_solver. Qed.
Lemma thread_claims `{AuthEnv} h ws i x r d cs d' cs' id :
  ws !! i = Some x → thread_fate d cs x r d' cs' → task_inv h (entries d) (n_id d) cs ws →
  holders id ws + length (claimable id d) ≤ S (resets id h) →
  holders id (<[i := after r]> ws) + length (claimable id d') ≤ S (resets id (h ++ thread_events x r d)).
Proof.
  intros Hi Hf Hinv Hle. pose proof (holders_insert id ws i (after r) x Hi) as Hins.
  destruct Hf as [d' Hr|x r Hm He|rt id' m d' Hs|id' m n d' Hc|id' m topic c b r _ Ha Hh _|id' m|id' m r d' Hd]; simpl in Hins |- *; rewrite ?app_nil_r.
  - pose proof (restart_claims (micros_ago 60) d d' h ws id Hr (ti_ids _ _ _ _ _ Hinv) Hle). repeat case_decide; simpl in *; try done; lia.
  - rewrite He, app_nil_r. pose proof (no_message_no_hold id _ Hm). repeat case_decide; try done; lia.
  - apply select_entry in Hs as [-> _]. repeat case_decide; simpl in *; try done; lia.
  - destruct (claim_effect id' d n d' Hc) as (-> & Hz & Hc'). specialize (Hc' id).  destruct (decide (id' = id)) as [->|Hne].
    + rewrite Hz. simpl. destruct (_ =? 1)%Z eqn:E; simpl in *; [apply Z.eqb_eq in E|]; repeat case_decide; simpl in *; try done; lia.
    + destruct (_ =? 1)%Z; simpl in *; repeat case_decide; simpl in *; try done; lia.
  - assert (holds id (after r) → id' = id) as Hsame. { destruct (after r) as [|[|[]|i0 m0 a0]]; simpl; try done. intros <-. by specialize (Ha (i0, m0) eq_refl) as [= -> _]. }
    repeat case_decide; try lia; naive_solver.
  - repeat case_decide; simpl in *; try done; lia.
  - rewrite (delete_effect _ _ _ _ id Hd). destruct (accepted r); simpl in *; repeat case_decide; simpl in *; try done; lia.
Qed.
Lemma step_claims {W} (s : task_state W) e s' h id :
  task_step s e s' → task_inv h (entries (ta_db s)) (n_id (ta_db s)) (ta_calls s) (ta_workers s) →
  holders id (ta_workers s) + length (claimable id (ta_db s)) ≤ S (resets id h) →
  holders id (ta_workers s') + length (claimable id (ta_db s')) ≤ S (resets id (h ++ e)).
Proof.
  intros Hstep Hinv Hle. assert (resets id h ≤ resets id (h ++ e)) as Hmono by (unfold resets; rewrite filter_app, length_app; lia).
  destruct Hstep as [env topic c d d' cs w ws Hl|rt env log i x r d d' cs cs' w w' ws Hi Ht|env d d' cs w ws Hr|env id' r d d' cs w ws Hr
    |i x d cs w ws Hi|d cs w ws|d d' cs w w' ws Ht Hn]; simpl in *.
  - destruct (log_claimable _ _ _ _ id Hl (ti_below _ _ _ _ _ Hinv)) as [?|[-> Hone]]; [lia|]. rewrite Hone, holders_bound; [lia|].
    intros x Hx Hh. destruct x as [|[|?|i m ?]]; simpl in Hh; try done. subst i. by destruct (ti_worker _ _ _ _ _ Hinv _ (n_id d) m Hx eq_refl) as (? & _); lia.
  - apply thread_cases in Ht. by eapply thread_claims.
  - eapply restart_claims; [done|apply Hinv|done].
  - pose proof (renew_effect _ _ _ _ id Hr). lia.
  - pose proof (holders_insert id ws i Waiting x Hi) as Hins. repeat case_decide; simpl in *; try done; lia.
  - unfold holders in *. rewrite filter_app, filter_cons, filter_nil. simpl. rewrite app_nil_r. lia.
  - rewrite (claimable_sub id d d') by done. lia.
Qed.

(** C10. An entry is worked on by one instance at a time unless its claim was
    set back: in every run an entry has at most one holder more than its claim
    was set back. *)
Theorem claims_are_exclusive {W} (s0 s : task_state W) h id :
  fresh_start s0 → task_run s0 h s → holders id (ta_workers s) ≤ S (resets id h).
Proof.
  intros Hf Hr. enough (holders id (ta_workers s) + length (claimable id (ta_db s)) ≤ S (resets id h)) by lia. revert Hr.
  induction 1 as [|h s e s' Hrun IH Hstep]; [|eapply step_claims; [done|by eapply audit_run_inv|done]].
  destruct Hf as (Ht & _ & ->). unfold claimable. rewrite Ht. simpl. lia.
Qed.

(** ** The thread *)
Section thread.
Context {W : Type} `{GoRuntime} `{AuthEnv} `{!DnEacpLog W}.

(** A refused statement does not end the loop: the thread tries again at once,
    for as long as it is refused. *)
Lemma refused_statement_spins fuel e (s : auth_db * W) :
  db_fault "unordered.restart" = Some e → audit_loop fuel (Pushing AtRestart) s = None.
Proof.
  intros He. revert s. induction fuel as [|fuel IH]; intros [d w]; [done|]. simpl.
  unfold audit_push, on_db, RestartUnorderedOutboxInfo, update_unordered, mbind, M_bind. cbn [fst snd]. rewrite He. apply IH.
Qed.

(** A claim that was not renewed for a minute. *)
Definition stale (row : unordered_row) : Prop := un_status row = OutboxInProgress ∧ (un_updated_at row < micros_ago 60)%Z.
#[local] Instance stale_dec row : Decision (stale row).
Proof. unfold stale. apply _. Defined.
(** An entry another instance is working on. *)
Definition taken (row : unordered_row) : Prop := un_status row ≠ OutboxNotStarted ∧ ¬ stale row.
#[local] Instance taken_dec row : Decision (taken row).
Proof. unfold taken. apply _. Defined.

Hypothesis no_fault : ∀ label, db_fault label = None.
Hypothesis log_up : ∀ topic c (w : W), ∃ w', Publish topic c w = (Ok tt, w').

Definition restarted (d : auth_db) : auth_db := set_unordered (map (λ row, if decide (stale row) then set_status OutboxNotStarted row else row)) d.
Lemma restart_ok d : RestartUnorderedOutboxInfo (micros_ago 60) d = (Ok tt, restarted d).
Proof.
  unfold RestartUnorderedOutboxInfo, update_unordered, mbind, M_bind. rewrite no_fault. unfold mret, M_ret. f_equal. unfold restarted, set_unordered. f_equal.
  apply map_ext. intros row. unfold stale. destruct (_ && _) eqn:E; case_decide as Hd; [done| | |done].
  - destruct Hd. by apply andb_true_iff in E as [?%Z.eqb_eq ?%Z.ltb_lt].
  - destruct Hd as [?%Z.eqb_eq ?%Z.ltb_lt]. by apply andb_false_iff in E as [?|?]; congruence.
Qed.
Lemma restarted_keys d : un_id <$> t_unordered (restarted d) = un_id <$> t_unordered d.
Proof. simpl. induction (t_unordered d) as [|row t IH]; [done|]. csimpl. rewrite IH. by case_decide. Qed.
Lemma restarted_messages d row : row ∈ t_unordered (restarted d) → ∃ row', row' ∈ t_unordered d ∧ un_message row' = un_message row.
Proof. simpl. intros (r & <- & Hr)%list_elem_of_In%in_map_iff. exists r. apply list_elem_of_In in Hr. split; [done|]. by case_decide. Qed.
Lemma restarted_taken d : filter taken (t_unordered (restarted d)) = filter taken (t_unordered d).
Proof.
  simpl. induction (t_unordered d) as [|row t IH]; [done|]. simpl. rewrite !filter_cons, IH.
  destruct (decide (stale row)) as [Hs|_]; [|done]. rewrite decide_False by (by intros []). by rewrite decide_False by (by intros [_ []]).
Qed.
(** When nothing can be claimed, all rows are taken. *)
Lemma all_taken d :
  filter (λ row, un_status row = OutboxNotStarted) (t_unordered (restarted d)) = [] → t_unordered (restarted d) = filter taken (t_unordered d).
Proof.
  intros Hn. rewrite <-restarted_taken. symmetry. apply filter_all. intros row Hrow.
  assert (un_status row ≠ OutboxNotStarted) as Hs by (by apply (filter_nil_not _ _ row Hn)). split; [done|]. intros Hst.
  simpl in Hrow. apply list_elem_of_In, in_map_iff in Hrow as (r & <- & _). revert Hs Hst. by case_decide.
Qed.

(** Claiming and deleting an entry removes it. *)
Lemma claimed_deleted d row :
  NoDup (un_id <$> t_unordered d) → row ∈ t_unordered d → un_status row = OutboxNotStarted →
  ∃ d1, unDB_claim (un_id row) d = (Ok 1%Z, d1) ∧
    DeleteUnorderedOutboxInfoByID (un_id row) d1 = (Ok tt, set_unordered (filter (λ r, un_id r ≠ un_id row)) d).
Proof.
  intros Hnd Hrow Hs. unfold unDB_claim, update_unordered, DeleteUnorderedOutboxInfoByID, execute. rewrite !no_fault.
  assert (∀ r, r ∈ t_unordered d → un_id r = un_id row → un_status r = OutboxNotStarted) as Hfree.
  { intros r Hr Hid. by rewrite (NoDup_fmap_inj_in un_id _ r row Hnd Hr Hrow Hid). }
  eexists. split.
  - rewrite (filter_same_in _ (λ r, un_id r = un_id row)); [by rewrite (unique_by un_id)|].
    intros r Hr. rewrite andb_true_iff, !Z.eqb_eq. naive_solver.
  - f_equal. unfold set_unordered. simpl. f_equal. clear Hnd Hrow. induction (t_unordered d) as [|r t IH]; [done|].
    simpl. rewrite !filter_cons, IH by set_solver. specialize (Hfree r ltac:(left)). destruct (un_id r =? un_id row)%Z eqn:E; simpl.
    + apply Z.eqb_eq in E. rewrite Hfree by done. simpl. by rewrite !decide_False by naive_solver.
    + apply Z.eqb_neq in E. by rewrite !decide_True by naive_solver.
Qed.
Lemma select_ok d :
  (filter (λ row, un_status row = OutboxNotStarted) (t_unordered d) = [] ∧ unDB_select d = (Ok None, d)) ∨
  ∃ row, row ∈ t_unordered d ∧ un_status row = OutboxNotStarted ∧ unDB_select d = (Ok (Some (un_id row, un_message row)), d).
Proof.
  unfold unDB_select, query, reads. rewrite no_fault. destruct (range_order 270 _) as [|row rows] eqn:E.
  - left. split; [|done]. symmetry. apply Permutation_nil_l. by rewrite <-E, range_order_perm.
  - right. exists row. assert (row ∈ filter (λ row, un_status row = OutboxNotStarted) (t_unordered d)) as Hr by (rewrite <-(range_order_perm 270), E; left).
    apply list_elem_of_filter in Hr as [? ?]. by split_and!.
Qed.

Lemma loop_next fuel at_ (s s' : auth_db * W) x :
  thread_next (Pushing at_) s = (Ok x, s') → audit_loop (S fuel) (Pushing at_) s = audit_loop fuel x s'.
Proof. intros E. cbn [audit_loop]. by rewrite E. Qed.
(** One push without interference: all is done, or one entry is published and
    removed. *)
Lemma audit_push_cases d (w : W) :
  NoDup (un_id <$> t_unordered d) → (∀ row, row ∈ t_unordered d → ∃ topic c, un_message row = log_text topic c) →
  (t_unordered (restarted d) = filter taken (t_unordered d) ∧ ∀ fuel, audit_loop (2 + fuel) (Pushing AtRestart) (d, w) = Some (Ok tt, (restarted d, w))) ∨
  ∃ row w', row ∈ t_unordered (restarted d) ∧ un_status row = OutboxNotStarted ∧
    ∀ fuel, audit_loop (5 + fuel) (Pushing AtRestart) (d, w) = audit_loop fuel (Pushing AtRestart) (set_unordered (filter (λ r, un_id r ≠ un_id row)) (restarted d), w').
Proof.
  intros Hnd Hm. assert (thread_next (Pushing AtRestart) (d, w) = (Ok (Pushing (AtGet AtSelect)), (restarted d, w))) as H1.
  { simpl. unfold mbind, M_bind, audit_push, on_db. cbn [fst snd]. by rewrite restart_ok. }
  assert (∀ a, unDB_select (restarted d) = (Ok a, restarted d) → thread_next (Pushing (AtGet AtSelect)) (restarted d, w)
    = (Ok (match a with Some (id, m) => Pushing (AtGet (AtClaim id m)) | None => Waiting end), (restarted d, w))) as H2.
  { intros a Ha. simpl. unfold mbind, M_bind, audit_push, on_db, GetUnorderedOutboxInfo, mbind, M_bind. cbn [fst snd]. rewrite Ha. by destruct a as [[]|]. }
  destruct (select_ok (restarted d)) as [[Hnone Hs]|(row & Hrow & Hst & Hs)]; apply H2 in Hs.
  { left. split; [by apply all_taken|]. intros fuel. cbn [Nat.add]. rewrite (loop_next _ _ _ _ _ H1), (loop_next _ _ _ _ _ Hs). by destruct fuel. }
  right. destruct (claimed_deleted (restarted d) row) as (d1 & Hc & Hdel); [by rewrite restarted_keys|done|done|].
  destruct (restarted_messages d row Hrow) as (row' & Hin & Hmsg). destruct (Hm row' Hin) as (topic & c & Et). destruct (log_up topic c w) as [w' Hw'].
  exists row, w'. split_and!; [done..|]. intros fuel. cbn [Nat.add]. rewrite (loop_next _ _ _ _ _ H1), (loop_next _ _ _ _ _ Hs).
  rewrite (loop_next _ _ _ (d1, w) (Pushing (AtTry (un_id row) (un_message row) AtPublish))).
  2: { simpl. unfold mbind, M_bind, audit_push, on_db, GetUnorderedOutboxInfo, mbind, M_bind. cbn [fst snd]. by rewrite Hc. }
  rewrite (loop_next _ _ _ (d1, w') (Pushing (AtTry (un_id row) (un_message row) AtDelete))).
  2: { simpl. unfold mbind, M_bind, audit_push, log_attempt, publish_log, mbind, M_bind, on_world, lift. cbn [fst snd]. by rewrite <-Hmsg, Et, read_log_text, Hw'. }
  apply loop_next. simpl. unfold mbind, M_bind, audit_push, log_attempt, mbind, M_bind, on_db. cbn [fst snd]. by rewrite Hdel.
Qed.

(** C23. The thread empties the table: when no statement is refused, the log
    service accepts and no other instance interferes meanwhile, the loop ends
    within five statements and calls per entry and two more, and leaves exactly
    the entries other instances have claimed and renewed within the last
    minute. *)
Theorem audit_loop_drains fuel d (w : W) :
  NoDup (un_id <$> t_unordered d) → (∀ row, row ∈ t_unordered d → ∃ topic c, un_message row = log_text topic c) →
  5 * length (t_unordered d) + 2 ≤ fuel →
  ∃ d' w', audit_loop fuel (Pushing AtRestart) (d, w) = Some (Ok tt, (d', w')) ∧ t_unordered d' = filter taken (t_unordered d).
Proof.
  revert d w. induction fuel as [fuel IH] using lt_wf_ind. intros d w Hnd Hm Hfuel. destruct (audit_push_cases d w Hnd Hm) as [[Ht Hl]|(row & w' & Hrow & Hs & Hl)].
  { specialize (Hl (fuel - 2)). replace (2 + (fuel - 2)) with fuel in Hl by lia. eauto. }
  assert (length (t_unordered (restarted d)) = length (t_unordered d)) as Hlen by (by rewrite <-!(length_fmap un_id), restarted_keys).
  set (d2 := set_unordered (filter (λ r, un_id r ≠ un_id row)) (restarted d)) in *.
  assert (length (t_unordered d2) < length (t_unordered d)) as Hlt by (rewrite <-Hlen; apply length_filter_lt with row; [done|]; by intros []).
  specialize (Hl (fuel - 5)). replace (5 + (fuel - 5)) with fuel in Hl by lia. destruct (IH (fuel - 5) ltac:(lia) d2 w') as (d' & w2 & Hl2 & Ht); [..|lia|].
  - apply NoDup_fmap_filter. by rewrite restarted_keys.
  - intros r [_ Hr]%list_elem_of_filter. destruct (restarted_messages d r Hr) as (r' & Hr' & <-). by apply Hm.
  - exists d', w2. rewrite Hl. split; [done|]. rewrite Ht, <-(restarted_taken d). apply filter_filter_sub. intros r Hr [Hne _] Hid. apply Hne.
    assert (NoDup (un_id <$> t_unordered (restarted d))) as Hnd' by (by rewrite restarted_keys).
    by rewrite (NoDup_fmap_inj_in un_id _ r row Hnd' Hr Hrow Hid).
Qed.
End thread.
