(* ===== verification/FlowClean.v ===== *)
(** * Cleaning the tables of hydra
      ([Authentication/logics/flow_clean], [dbaccess/flow_clean.go], [logics/CronThreads.go], [dbaccess/hydra.go])

    Old refresh tokens, the login flows no refresh token refers to any more,
    and the used assertions that have expired are deleted from the database of
    hydra, in batches. *)
From S2P Require Import Prelude Json AuthBase AuthStore.

(** Times in nanoseconds; columns that may be [NULL] as options. *)
Record refresh_row := { rf_signature : string; rf_challenge_id : option string; rf_requested_at : Z }.
Record flow_row := { fl_login_challenge : string; fl_consent_challenge_id : option string; fl_requested_at : Z }.
Record jti_row := { jt_signature : string; jt_nid : string; jt_expires_at : Z }.
Record hydra_db := { t_refresh : list refresh_row; t_flow : list flow_row; t_jti : list jti_row; t_networks : list string }.
Definition set_refresh (f : list refresh_row → list refresh_row) (d : hydra_db) : hydra_db :=
  {| t_refresh := f (t_refresh d); t_flow := t_flow d; t_jti := t_jti d; t_networks := t_networks d |}.
Definition set_flow (f : list flow_row → list flow_row) (d : hydra_db) : hydra_db :=
  {| t_refresh := t_refresh d; t_flow := f (t_flow d); t_jti := t_jti d; t_networks := t_networks d |}.
Definition set_jti (f : list jti_row → list jti_row) (d : hydra_db) : hydra_db :=
  {| t_refresh := t_refresh d; t_flow := t_flow d; t_jti := f (t_jti d); t_networks := t_networks d |}.

(** [SplitArray]: slices of 500. *)
Fixpoint split_from {A} (length_ count i start : nat) (n : nat) (arr : list A) : list (list A) :=
  match n with
  | 0 => []
  | S n =>
      let end_ := (i + 1) * length_ in
      (if (i =? count - 1)%nat then drop start arr else take (end_ - start) (drop start arr)) :: split_from length_ count (i + 1) end_ n arr
  end.
Definition SplitArray {A} (arr : list A) : list (list A) :=
  let length_ := 500 in
  let total := length arr in
  let count := if (total `mod` length_ =? 0)%nat then total `div` length_ else S (total `div` length_) in
  split_from length_ count 0 0 count arr.

Section statements.
Context `{GoRuntime} `{AuthEnv}.

Definition hydra_fault {A} (label : string) (m : M hydra_db A) : M hydra_db A := λ d,
  match db_fault label with Some e => (Err e, d) | None => m d end.

(** [common.Now().Add(-time.Duration(t) * time.Second)] *)
Definition cutoffTime (t : Z) : Z := (time_Now + businessTimeOffset * second + int64_wrap (- t * second))%Z.

(** ** Refresh tokens and flows *)
Definition nLimit : nat := 100 * 100.
Definition cleanExpiredRefresh (t : Z) : M hydra_db nat :=
  hydra_fault "flow.cleanExpiredRefresh" (λ d,
    let rows := take nLimit (map rf_signature (range_order 280 (filter (λ row, rf_requested_at row < t)%Z (t_refresh d)))) in
    let d' := set_refresh (filter (λ row, rf_signature row ∉ rows)) d in
    match db_fault "flow.rowsAffected" with
    | Some e => (Err e, d')
    | None => (Ok (length rows), d')
    end).
(** The loop, [None] when it has not ended after [fuel] statements. *)
Fixpoint CleanExpiredRefresh (fuel : nat) (t : Z) (d : hydra_db) : option (outcome unit * hydra_db) :=
  match fuel with
  | 0 => None
  | S fuel =>
      match cleanExpiredRefresh t d with
      | (Ok 0, d) => Some (Ok tt, d)
      | (Ok _, d) => CleanExpiredRefresh fuel t d
      | (Err e, d) => Some (Err e, d)
      | (Panic why, d) => Some (Panic why, d)
      end
  end.

(** [LEFT JOIN ... ON a.consent_challenge_id = b.challenge_id ... WHERE b.challenge_id IS NULL]:
    no refresh token refers to the flow. *)
Definition refers (flow : flow_row) (refresh : refresh_row) : Prop :=
  match fl_consent_challenge_id flow, rf_challenge_id refresh with Some a, Some b => a = b | _, _ => False end.
#[global] Instance refers_dec flow refresh : Decision (refers flow refresh).
Proof. unfold refers. repeat case_match; apply _. Defined.
Definition GetAllExpireFlowIDs (t : Z) : M hydra_db (list string) :=
  hydra_fault "flow.GetAllExpireFlowIDs" (λ d,
    (Ok (map fl_login_challenge (range_order 281
       (filter (λ row, (fl_requested_at row < t)%Z ∧ Forall (λ refresh, ¬ refers row refresh) (t_refresh d)) (t_flow d)))), d)).
Definition cleanFlow (ids : list string) : M hydra_db unit :=
  if (length ids =? 0)%nat then mret tt
  else hydra_fault "flow.cleanFlow" (λ d, (Ok tt, set_flow (filter (λ row, fl_login_challenge row ∉ ids)) d)).
Definition flowDB_CleanFlow (ids : list string) : M hydra_db unit := for_each cleanFlow (SplitArray ids).

(** [CleanFlow] of the component; [FlowExpiredTime] is in days. *)
Definition CleanFlow (flowExpiredTime : Z) (fuel : nat) (d : hydra_db) : option (outcome unit * hydra_db) :=
  let t := cutoffTime (int64_wrap (flowExpiredTime * 24 * 3600)) in
  match CleanExpiredRefresh fuel t d with
  | Some (Ok _, d) => Some ((ids ← GetAllExpireFlowIDs t; flowDB_CleanFlow ids) d)
  | r => r
  end.

(** ** Used assertions *)
Definition batchSize : nat := 1000.
(** [DeleteExpiredAssertions]: the [delete] is not part of the transaction that
    holds the lock.  The rows affected and the error. *)
Definition DeleteExpiredAssertions : M hydra_db (nat * option gerror) := λ d,
  match db_fault "hydra.networks", range_order 283 (t_networks d), db_begin_fault, db_fault "hydra.lock" with
  | Some e, _, _, _ | None, _ :: _, Some e, _ | None, _ :: _, None, Some e => (Ok (0, Some e), d)
  | None, [], _, _ => (Ok (0, Some ErrNoRows), d)
  | None, nid :: _, None, None =>
      match db_fault "hydra.delete" with
      | Some e => (Ok (0, Some e), d)
      | None =>
          let rows := take batchSize (map jt_signature (range_order 282
            (filter (λ row, jt_nid row = nid ∧ jt_expires_at row < business_now * second)%Z (t_jti d)))) in
          let affectedRows := match db_fault "hydra.RowsAffected" with Some _ => 0 | None => length rows end in
          (Ok (affectedRows, db_commit_fault), set_jti (filter (λ row, ¬ (jt_nid row = nid ∧ jt_signature row ∈ rows))) d)
      end
  end.
(** One round of the inner loop of [StartCronThread]; [true] is [break]. *)
Definition assertion_pass : M hydra_db bool :=
  '(affectedRows, err) ← DeleteExpiredAssertions;
  mret (match err with Some _ => true | None => (affectedRows =? 0)%nat end).
Definition assertion_clean : nat → hydra_db → option hydra_db := clean_loop assertion_pass.
End statements.

(** * What the cleaning of hydra's tables removes

    The loops end; a login flow that a refresh token refers to is never
    removed; and without refused statements exactly the old refresh tokens and
    the old flows without one are gone. *)
(** ** Splitting *)
Lemma split_from_concat {A} (arr : list A) len count n i :
  0 < len → count = i + n → (n ≠ 0 → (count - 1) * len < length arr) → length arr ≤ count * len →
  concat (split_from len count i (i * len) n arr) = drop (i * len) arr ∧ Forall (λ l, 0 < length l ≤ len) (split_from len count i (i * len) n arr).
Proof.
  intros Hlen. revert i. induction n as [|n IH]; intros i Hc Hlo Hhi; simpl.
  - split; [|constructor]. symmetry. apply drop_ge. subst. by rewrite Nat.add_0_r in Hhi.
  - specialize (Hlo ltac:(lia)). destruct (i =? count - 1)%nat eqn:E.
    + apply Nat.eqb_eq in E. assert (n = 0) as -> by lia. simpl. rewrite app_nil_r. split; [done|]. constructor; [|constructor]. rewrite length_drop. subst i. nia.
    + apply Nat.eqb_neq in E. destruct (IH (i + 1)) as [IH1 IH2]; [lia|done|done|]. split.
      * rewrite IH1. replace ((i + 1) * len) with (i * len + len) by lia. replace (i * len + len - i * len) with len by lia.
        by rewrite <-drop_drop, take_drop.
      * constructor; [|done]. rewrite length_take, length_drop. assert (i + 1 ≤ count - 1) by lia. nia.
Qed.
(** The slices are the array, none is empty and none is longer than 500. *)
Lemma SplitArray_spec {A} (arr : list A) : concat (SplitArray arr) = arr ∧ Forall (λ l, 0 < length l ≤ 500) (SplitArray arr).
Proof.
  unfold SplitArray. pose proof (Nat.div_mod (length arr) 500 ltac:(lia)) as Hd. pose proof (Nat.mod_upper_bound (length arr) 500 ltac:(lia)) as Hm.
  set (q := length arr / 500) in *. set (r := length arr mod 500) in *. destruct (r =? 0)%nat eqn:E; [apply Nat.eqb_eq in E|apply Nat.eqb_neq in E].
  - apply (split_from_concat arr 500 q q 0); lia.
  - apply (split_from_concat arr 500 (S q) (S q) 0); lia.
Qed.

(** ** Refresh tokens and flows *)
Section flows.
Context `{GoRuntime} `{AuthEnv}.

Definition old_refresh (t : Z) (row : refresh_row) : Prop := (rf_requested_at row < t)%Z.
#[global] Instance old_refresh_dec t row : Decision (old_refresh t row).
Proof. unfold old_refresh. apply _. Defined.
Definition referred (d : hydra_db) (row : flow_row) : Prop := Exists (refers row) (t_refresh d).
#[global] Instance referred_dec d row : Decision (referred d row).
Proof. unfold referred. apply _. Defined.
(** A flow that goes: old, and no refresh token refers to it. *)
Definition dead_flow (t : Z) (d : hydra_db) (row : flow_row) : Prop := (fl_requested_at row < t)%Z ∧ ¬ referred d row.
#[global] Instance dead_flow_dec t d row : Decision (dead_flow t d row).
Proof. unfold dead_flow. apply _. Defined.

Lemma refresh_pass t d r d' :
  cleanExpiredRefresh t d = (r, d') → t_flow d' = t_flow d ∧ t_refresh d' `sublist_of` t_refresh d ∧
  (NoDup (rf_signature <$> t_refresh d) → filter (λ row, ¬ old_refresh t row) (t_refresh d') = filter (λ row, ¬ old_refresh t row) (t_refresh d)) ∧
  (∀ w, r ≠ Panic w) ∧ (∀ n, r = Ok (S n) → length (t_refresh d') < length (t_refresh d)) ∧ (r = Ok 0 → d' = d ∧ filter (old_refresh t) (t_refresh d) = []) ∧
  ((∀ label, db_fault label = None) → ∃ n, r = Ok n).
Proof.
  unfold cleanExpiredRefresh, hydra_fault. destruct (db_fault "flow.cleanExpiredRefresh") eqn:E1.
  { intros [= <- <-]. split_and!; try done. intros Hf. by rewrite Hf in E1. }
  pose proof (batch_of_old rf_signature (old_refresh t) 280 nLimit (t_refresh d)) as Hold.
  pose proof (batch_of_nil rf_signature (old_refresh t) 280 nLimit (t_refresh d) ltac:(done)) as Hnil.
  change (take nLimit (map rf_signature (range_order 280 (filter (λ row : refresh_row, (rf_requested_at row < t)%Z) (t_refresh d)))))
    with (batch_of rf_signature (old_refresh t) 280 nLimit (t_refresh d)).
  set (ids := batch_of _ _ _ _ _) in *. intros Hr. assert (d' = set_refresh (without rf_signature ids) d) as -> by (destruct (db_fault "flow.rowsAffected"); by injection Hr).
  split_and!; [done|apply sublist_filter|intros Hnd; by apply (without_batch rf_signature (old_refresh t))|intros w ->; by destruct (db_fault "flow.rowsAffected")|..].
  - intros n ->. destruct (db_fault "flow.rowsAffected"); [done|]. injection Hr as Hn. destruct ids as [|id ids'] eqn:Ei; [done|].
    apply (without_shorter rf_signature (old_refresh t) _ _ id); [left|]. apply Hold. left.
  - intros ->. destruct (db_fault "flow.rowsAffected"); [done|]. injection Hr as Hn. apply nil_length_inv in Hn. rewrite Hn in Hnil |- *. split; [|auto].
    destruct d as [tr tf tj tn]. unfold set_refresh, without. simpl. f_equal. apply filter_all. intros row _. apply not_elem_of_nil.
  - intros Hf. rewrite Hf in Hr. injection Hr as <-. eauto.
Qed.

(** The loop ends, whatever fails; recent refresh tokens stay. *)
Lemma refresh_loop t fuel d :
  length (t_refresh d) < fuel → NoDup (rf_signature <$> t_refresh d) →
  ∃ r d', CleanExpiredRefresh fuel t d = Some (r, d') ∧ t_flow d' = t_flow d ∧ t_refresh d' `sublist_of` t_refresh d ∧
    filter (λ row, ¬ old_refresh t row) (t_refresh d') = filter (λ row, ¬ old_refresh t row) (t_refresh d) ∧
    (r = Ok tt → filter (old_refresh t) (t_refresh d') = []) ∧ ((∀ label, db_fault label = None) → r = Ok tt).
Proof.
  revert d. induction fuel as [|fuel IH]; intros d Hlen Hnd; [lia|]. simpl. destruct (cleanExpiredRefresh t d) as [r d1] eqn:E.
  destruct (refresh_pass t d r d1 E) as (Hflow & Hsub & Hkeep & Hp & Hshort & Hend & Hf). destruct r as [[|n]|e|w].
  - destruct (Hend eq_refl) as [-> Hn]. eexists _, d. split_and!; eauto.
  - specialize (Hshort n eq_refl). destruct (IH d1) as (r & d' & Hl & Hflow' & Hsub' & Hk & Hok & Hnf); [lia|by eapply sublist_NoDup; [|apply fmap_sublist]|].
    exists r, d'. split_and!; [done|congruence|by etrans|by rewrite Hk, Hkeep|done|done].
  - eexists _, d1. split_and!; eauto; [done|]. intros Hn. by destruct (Hf Hn).
  - by destruct (Hp w).
Qed.

(** Deleting the flows of some ids, slice by slice. *)
Lemma clean_slices ls d r d' :
  for_each cleanFlow ls d = (r, d') → t_refresh d' = t_refresh d ∧ (∀ row, row ∈ t_flow d → fl_login_challenge row ∉ concat ls → row ∈ t_flow d') ∧
  ((∀ label, db_fault label = None) → r = Ok tt ∧ t_flow d' = filter (λ row, fl_login_challenge row ∉ concat ls) (t_flow d)).
Proof.
  revert d. induction ls as [|ids ls IH]; intros d Hc; simpl in Hc.
  - injection Hc as <- <-. split_and!; [done..|]. intros _. split; [done|]. symmetry. apply filter_all. intros row _. apply not_elem_of_nil.
  - unfold mbind, M_bind in Hc. destruct (cleanFlow ids d) as [r1 d1] eqn:E1.
    assert (t_refresh d1 = t_refresh d ∧ (∀ row, row ∈ t_flow d → fl_login_challenge row ∉ ids → row ∈ t_flow d1) ∧ (∀ w, r1 ≠ Panic w) ∧
            ((∀ label, db_fault label = None) → r1 = Ok tt ∧ t_flow d1 = filter (λ row, fl_login_challenge row ∉ ids) (t_flow d))) as (Hr1 & Hk1 & Hp1 & Hf1).
    { unfold cleanFlow in E1. destruct ids as [|id ids]; simpl in E1.
      - injection E1 as <- <-. split_and!; try done. intros _. split; [done|]. symmetry. apply filter_all. intros row _. apply not_elem_of_nil.
      - unfold hydra_fault in E1. destruct (db_fault _) eqn:Ef; injection E1 as <- <-.
        + split_and!; try done. intros Hn. by rewrite Hn in Ef.
        + split_and!; try done. intros row Hrow Hn. by apply list_elem_of_filter. }
    destruct r1 as [[]|e|w]; [|injection Hc as <- <-|by destruct (Hp1 w)].
    + destruct (IH d1 Hc) as (Hr2 & Hk2 & Hf2). split_and!; [congruence|set_solver|]. intros Hn. destruct (Hf2 Hn) as [-> Ht2]. destruct (Hf1 Hn) as [_ Ht1].
      split; [done|]. rewrite Ht2, Ht1, list_filter_filter. apply list_filter_iff. intros row. simpl. rewrite elem_of_app. naive_solver.
    + split_and!; [done| |by intros [? _]%Hf1]. intros row Hrow Hn. apply Hk1; set_solver.
Qed.
Lemma expired_flows t d r d' :
  (ids ← GetAllExpireFlowIDs t; flowDB_CleanFlow ids) d = (r, d') → NoDup (fl_login_challenge <$> t_flow d) →
  t_refresh d' = t_refresh d ∧ (∀ row, row ∈ t_flow d → ¬ dead_flow t d row → row ∈ t_flow d') ∧
  ((∀ label, db_fault label = None) → r = Ok tt ∧ t_flow d' = filter (λ row, ¬ dead_flow t d row) (t_flow d)).
Proof.
  unfold GetAllExpireFlowIDs, hydra_fault, mbind, M_bind. intros Hc Hnd. destruct (db_fault _) eqn:Ef.
  { injection Hc as <- <-. split_and!; try done. intros Hn. by rewrite Hn in Ef. }
  set (ids := map _ _) in Hc. destruct (SplitArray_spec ids) as [Hids _].
  assert (∀ row, row ∈ t_flow d → fl_login_challenge row ∈ ids ↔ dead_flow t d row) as Hdead.
  { intros row Hrow. unfold ids. rewrite (range_order_perm 281), list_elem_of_fmap. split.
    - intros (row' & Hl & [[Ho Hn] Hrow']%list_elem_of_filter). rewrite (NoDup_fmap_inj_in fl_login_challenge _ row row' Hnd Hrow Hrow' Hl).
      split; [done|]. by apply (Forall_not_Exists (refers row')).
    - intros [Ho Hn]. exists row. split; [done|]. apply list_elem_of_filter. split; [|done]. split; [done|]. by apply (not_Exists_Forall (refers row)). }
  apply clean_slices in Hc as (Hr & Hk & Hf). rewrite Hids in Hk, Hf. split_and!; [done| |].
  - intros row Hrow Hn. apply Hk; [done|]. by rewrite Hdead.
  - intros Hn. destruct (Hf Hn) as [-> ->]. split; [done|]. apply filter_same_in. intros row Hrow. by rewrite Hdead.
Qed.

(** C24. The cleaning of flows ends and removes the right rows: with more fuel
    than there are refresh tokens it returns, whatever fails; recent refresh
    tokens and flows that are recent or that a remaining refresh token refers
    to stay in any case; without refused statements the old refresh tokens are
    gone, and exactly the old flows no refresh token refers to. *)
Theorem flow_cleaning days fuel d :
  let t := cutoffTime (int64_wrap (days * 24 * 3600)) in
  length (t_refresh d) < fuel → NoDup (rf_signature <$> t_refresh d) → NoDup (fl_login_challenge <$> t_flow d) →
  ∃ r d', CleanFlow days fuel d = Some (r, d') ∧
    filter (λ row, ¬ old_refresh t row) (t_refresh d') = filter (λ row, ¬ old_refresh t row) (t_refresh d) ∧
    (∀ row, row ∈ t_flow d → ¬ dead_flow t d' row → row ∈ t_flow d') ∧
    ((∀ label, db_fault label = None) → r = Ok tt ∧ t_refresh d' = filter (λ row, ¬ old_refresh t row) (t_refresh d) ∧
      t_flow d' = filter (λ row, ¬ dead_flow t d' row) (t_flow d)).
Proof.
  intros t Hlen Hnd Hndf. unfold CleanFlow. fold t. destruct (refresh_loop t fuel d Hlen Hnd) as (r & d1 & -> & Hflow & _ & Hk & Hgone & Hok).
  rewrite <-Hflow in Hndf. destruct r as [[]|e|w].
  2-3: eexists _, d1; split_and!; [done|done|by rewrite Hflow|by intros ?%Hok].
  destruct ((ids ← GetAllExpireFlowIDs t; flowDB_CleanFlow ids) d1) as [r d2] eqn:E. destruct (expired_flows t d1 r d2 E Hndf) as (Hr & Hkeep & Hnf).
  assert (∀ row, dead_flow t d2 row ↔ dead_flow t d1 row) as Hdead by (intros row; unfold dead_flow, referred; by rewrite Hr).
  exists r, d2. split_and!; [done|by rewrite Hr|rewrite <-Hflow; intros row; rewrite Hdead; apply Hkeep|].
  intros Hn. destruct (Hnf Hn) as [-> ->]. split_and!; [done| |rewrite Hflow; apply list_filter_iff; intros row; by rewrite Hdead].
  rewrite Hr, <-Hk. symmetry. apply filter_all. intros row Hrow. by apply (filter_nil_not _ _ row (Hgone eq_refl)).
Qed.
End flows.

(** ** Used assertions *)
Section assertions.
Context `{GoRuntime} `{AuthEnv}.

(** Expired, and of the network of this hydra. *)
Definition dead_jti (networks : list string) (row : jti_row) : Prop :=
  head (range_order 283 networks) = Some (jt_nid row) ∧ (jt_expires_at row < business_now * second)%Z.
#[global] Instance dead_jti_dec networks row : Decision (dead_jti networks row).
Proof. unfold dead_jti. apply _. Defined.

Lemma assertion_pass_cases d r d' :
  NoDup (jt_signature <$> t_jti d) → assertion_pass d = (r, d') →
  t_networks d' = t_networks d ∧ NoDup (jt_signature <$> t_jti d') ∧
  filter (λ row, ¬ dead_jti (t_networks d) row) (t_jti d') = filter (λ row, ¬ dead_jti (t_networks d) row) (t_jti d) ∧
  ((r = Ok false ∧ length (t_jti d') < length (t_jti d)) ∨ r = Ok true).
Proof.
  intros Hnd. unfold assertion_pass, DeleteExpiredAssertions, mbind, M_bind.
  assert ((Ok true, d) = (r, d') → t_networks d' = t_networks d ∧ NoDup (jt_signature <$> t_jti d') ∧
    filter (λ row, ¬ dead_jti (t_networks d) row) (t_jti d') = filter (λ row, ¬ dead_jti (t_networks d) row) (t_jti d) ∧
    ((r = Ok false ∧ length (t_jti d') < length (t_jti d)) ∨ r = Ok true)) as Hsame by (intros [= <- <-]; split_and!; auto).
  destruct (db_fault "hydra.networks"); [exact Hsame|]. destruct (range_order 283 (t_networks d)) as [|nid l] eqn:En; [exact Hsame|].
  destruct db_begin_fault; [exact Hsame|]. destruct (db_fault "hydra.lock"); [exact Hsame|]. destruct (db_fault "hydra.delete"); [exact Hsame|]. clear Hsame.
  assert (∀ row, (jt_nid row = nid ∧ jt_expires_at row < business_now * second)%Z ↔ dead_jti (t_networks d) row) as Hdead.
  { intros row. unfold dead_jti. rewrite En. simpl. split; [intros [-> ?]; done|intros [[= ->] ?]; done]. }
  rewrite (list_filter_iff _ (dead_jti (t_networks d)) (t_jti d) Hdead).
  change (take batchSize (map jt_signature (range_order 282 (filter (dead_jti (t_networks d)) (t_jti d)))))
    with (batch_of jt_signature (dead_jti (t_networks d)) 282 batchSize (t_jti d)).
  pose proof (batch_of_old jt_signature (dead_jti (t_networks d)) 282 batchSize (t_jti d)) as Hold. set (ids := batch_of _ _ _ _ _) in *.
  assert (filter (λ row, ¬ (jt_nid row = nid ∧ jt_signature row ∈ ids)) (t_jti d) = without jt_signature ids (t_jti d)) as Hw.
  { apply filter_same_in. intros row Hrow. split; [intros Hn Hin|naive_solver]. apply Hn. split; [|done].
    destruct (Hold _ Hin) as (row' & Hrow' & Hd & Hs). rewrite (NoDup_fmap_inj_in jt_signature _ row' row Hnd Hrow' Hrow Hs) in Hd. by apply Hdead in Hd as [? _]. }
  intros Hr. assert (d' = set_jti (filter (λ row, ¬ (jt_nid row = nid ∧ jt_signature row ∈ ids))) d) as -> by (by injection Hr).
  simpl. rewrite Hw. split_and!; [done|by apply NoDup_fmap_filter|by apply without_batch|].
  destruct db_commit_fault; [right; by injection Hr|]. destruct (db_fault "hydra.RowsAffected"); [right; by injection Hr|].
  destruct ids as [|id ids'] eqn:Ei; [right; by injection Hr|left]. injection Hr as <-. split; [done|].
  apply (without_shorter jt_signature (dead_jti (t_networks d)) _ _ id); [left|]. apply Hold. left.
Qed.

(** The nightly loop ends, and removes expired assertions only. *)
Lemma assertion_cleaning_ends fuel d :
  length (t_jti d) < fuel → NoDup (jt_signature <$> t_jti d) →
  ∃ d', assertion_clean fuel d = Some d' ∧
    filter (λ row, ¬ dead_jti (t_networks d) row) (t_jti d') = filter (λ row, ¬ dead_jti (t_networks d) row) (t_jti d).
Proof.
  intros Hlen Hnd. set (I d' := t_networks d' = t_networks d ∧ NoDup (jt_signature <$> t_jti d') ∧
    filter (λ row, ¬ dead_jti (t_networks d) row) (t_jti d') = filter (λ row, ¬ dead_jti (t_networks d) row) (t_jti d)).
  destruct (clean_loop_ends assertion_pass (λ d, length (t_jti d)) I I fuel d) as (d' & ? & _ & _ & ?); [|by split_and!|done|eauto].
  intros d1 r d2 (Hn1 & Hnd1 & Hk1) Hp. destruct (assertion_pass_cases d1 r d2 Hnd1 Hp) as (Hn & Hnd2 & Hk & Hr). rewrite Hn1 in Hk.
  assert (I d2) by (split_and!; congruence). destruct Hr as [[-> ?]| ->]; [by left|by right].
Qed.
End assertions.
