(* ===== verification/AuthRest.v ===== *)
(** * The HTTP layer of the authentication service
      ([Authentication/driveradapters], [go-lib/rest/server.go], [go-lib/rest/check_req.go])

    A request is what a handler reads of a gin context.  A handler answers with
    a reply, ends with an error that [rest.ReplyError] turns into a reply, or
    panics, which [gin.Recovery] turns into status 500. *)
From Stdlib Require Import Ascii.
From S2P Require Import Prelude Strconv Json SchemaLang AuthBase AuthStore Ticket Des Sms Outbox AuthConf TokenPerm AuthSession Login AuditTask.

(** ** Requests and replies *)
Record auth_request := {
  rq_header : string → list string;     (* the values of a header *)
  rq_param : string → string;           (* path parameters *)
  rq_query : string → option string;
  rq_basic : option (string * string);  (* [c.Request.BasicAuth()] *)
  rq_ip : string;                       (* [c.ClientIP()] *)
  rq_body : outcome text                (* [io.ReadAll] may fail *)
}.
Definition GetHeader (c : auth_request) (key : string) : string := default "" (head (rq_header c key)).

Inductive auth_body := EmptyBody | JsonReply (j : json) | ErrorReply (e : gerror).
Record auth_reply := { rp_status : Z; rp_location : string; rp_body : auth_body }.
Definition auth_ReplyOK (status : Z) (body : auth_body) : auth_reply := {| rp_status := status; rp_location := ""; rp_body := body |}.
Definition auth_Recovery : auth_reply := {| rp_status := 500; rp_location := ""; rp_body := EmptyBody |}.

(** [strCodeToInt]; a name without an entry reads 0. *)
Definition strCodeToInt (strCode : string) : Z :=
  default 0%Z ((list_to_map [("BadRequest", 400); ("Unauthorized", 401); ("Forbidden", 403); ("NotFound", 404);
    ("Conflict", 409); ("InternalServerError", 500); ("ServiceUnavailable", 503)]%Z : gmap string Z) !! strCode).
(** [rest.ReplyError]: a [rest.ExHTTPError] is an error whose code is ["ex "]
    and its status. *)
Definition is_ex (e : gerror) : bool := String.prefix "ex " (err_code e).
Definition auth_ReplyError (e : gerror) : auth_reply :=
  let reply status := {| rp_status := status; rp_location := ""; rp_body := ErrorReply e |} in
  if is_http e then reply ((Atoi (drop_string 5 (err_code e))).1 `quot` 1000000)%Z
  else if is_ex e then reply (Atoi (drop_string 3 (err_code e))).1
  else if is_v2 e then
    match split_dots (drop_string 3 (err_code e)) with
    | _ :: strCode :: _ => reply (strCodeToInt strCode)
    | _ => auth_Recovery
    end
  else reply 500%Z.

(** Running a handler: every error return is preceded by
    [rest.ReplyError(c, err)]. *)
Definition auth_serve {S : Type} (h : M S auth_reply) (s : S) : auth_reply * S :=
  match h s with
  | (Ok r, s') => (r, s')
  | (Err e, s') => (auth_ReplyError e, s')
  | (Panic _, s') => (auth_Recovery, s')
  end.

(** ** Descriptions of bodies ([CheckJSONValue]) *)
Inductive json_kind : Set := KindBool | KindFloat64 | KindString | KindSlice | KindMap | KindInvalid.
#[global] Instance json_kind_eq_dec : EqDecision json_kind.
Proof. solve_decision. Defined.
Definition kind_of (j : json) : json_kind :=
  match j with JNull => KindInvalid | JBool _ => KindBool | JNum _ => KindFloat64 | JStr _ => KindString | JArr _ => KindSlice | JObj _ => KindMap end.
Definition kind_name (k : json_kind) : string :=
  match k with
  | KindBool => "bool" | KindFloat64 => "float64" | KindString => "string" | KindSlice => "slice" | KindMap => "map" | KindInvalid => "invalid"
  end.
#[warnings="-register-all"]
Inductive JSONValueDesc : Type := Desc (kind : json_kind) (required : bool) (valueDesc : list (string * JSONValueDesc)).
Definition desc_required (d : JSONValueDesc) : bool := match d with Desc _ required _ => required end.

Section bodies.
Context `{GoRuntime} `{MessageSchema}.

(** The fields are visited in any order; an [Exist] flag is set exactly when
    the field is there. *)
Fixpoint CheckJSONValue (d : JSONValueDesc) (key : string) (jsonV : json) : outcome unit :=
  match d with
  | Desc kind _ valueDesc =>
      let checks := map (λ kd, (kd.1, desc_required kd.2, CheckJSONValue kd.2)) valueDesc in
      if negb (bool_decide (kind_of jsonV = kind)) then NewHTTPError ("type of " +:+ key +:+ " should be " +:+ kind_name kind) BadRequest []
      else
        match jsonV with
        | JObj obj =>
            each_ok (λ kc : string * bool * (string → json → outcome unit),
              match obj !! kc.1.1 with
              | Some v => kc.2 (key +:+ "." +:+ kc.1.1) v
              | None => if kc.1.2 then NewHTTPError (key +:+ "." +:+ kc.1.1 +:+ " is required") BadRequest [] else Ok tt
              end) (range_order 290 checks)
        | JArr arr =>
            each_ok (λ ie : nat * json,
              match list_find (λ kc, kc.1.1 = "element") checks with
              | Some (_, kc) => kc.2 (key +:+ "[" +:+ Itoa (Z.of_nat ie.1) +:+ "]") ie.2
              | None => Panic "invalid memory address or nil pointer dereference"
              end) (imap pair arr)
        | _ => Ok tt
        end
  end.
Definition GetJSONValue (c : auth_request) : outcome json :=
  body ← rq_body c;
  match body with TJson j => Ok j | TRaw _ => NewHTTPError "invalid JSON text" BadRequest [] end.

Definition ValidateAndBindGin (c : auth_request) (schema : string) : outcome (gmap string json) :=
  body ← rq_body c;
  j ← ValidateAndBind schema body;
  unmarshal_map (TJson j).

(** [IsEmpty]: the parameters in any order. *)
Definition IsEmpty (strs : list (string * string)) : outcome unit :=
  each_ok (λ kv : string * string, if bool_decide (kv.2 = "") then NewHTTPError ("The value of parameter " +:+ kv.1 +:+ " is invalid") BadRequest [] else Ok tt)
    (range_order 291 strs).
End bodies.

(** * Registration of public clients
      ([Authentication/logics/register/register.go], [dbaccess/register.go]) *)
(** [bcrypt.GenerateFromPassword] with cost 12. *)
Class Bcrypt := { bcrypt_hash : string → outcome string }.

Section register.
Context {W : Type} `{GoRuntime} `{AuthEnv} `{JsonText} `{Bcrypt} `{!DnHydra W}.

Definition registerDB_CreateClient (client : client_row) : M auth_db unit :=
  insert_key "register.CreateClient" (λ d, bool_decide (cl_id client ∈ cl_id <$> t_client d)) (set_client (λ t, t ++ [client])) tt.

(** Some configured prefix starts the URI. *)
Definition uri_allowed (limitRedirectURI : gmap string bool) (redirectURI : string) : bool :=
  existsb (λ kv, String.prefix kv.1 redirectURI) (range 293 limitRedirectURI).
Definition check_uris (limitRedirectURI : gmap string bool) (redirectURIs : list string) : outcome unit :=
  if bool_decide (limitRedirectURI = ∅) then Ok tt
  else each_ok (λ uri, if uri_allowed limitRedirectURI uri then Ok tt else NewHTTPError ("redirect url is not allowed: " +:+ uri) BadRequest []) redirectURIs.

Definition client_row_of (client : RegisterInfo) (info : ClientInfo) (secret : string) : client_row :=
  {| cl_id := ci_ClientID info; cl_name := ri_ClientName client; cl_secret := secret;
     cl_redirect_uris := String.concat "|" (ri_RedirectURIs client); cl_grant_types := String.concat "|" (ri_GrantTypes client);
     cl_response_types := String.concat "|" (ri_ResponseTypes client); cl_scope := ri_Scope client;
     cl_post_logout := String.concat "|" (ri_PostLogoutRedirectURIs client); cl_metadata := marshal (ri_Metadata client) |}.

Definition PublicRegister (client : RegisterInfo) : M (auth_db * W) ClientInfo :=
  conf ← on_db (confDB_GetConfig [LimitRedirectURI]);
  _ ← lift (check_uris (cfg_LimitRedirectURI conf) (ri_RedirectURIs client));
  info ← on_world (Hydra_PublicRegister client);
  secret ← lift (bcrypt_hash (ci_ClientSecret info));
  _ ← on_db (registerDB_CreateClient (client_row_of client info secret));
  mret info.

(** A registration that succeeds had its redirect URIs allowed, adds one row
    and stores the hash of the secret. *)
Lemma registration client d (w : W) info d' w' :
  PublicRegister client (d, w) = (Ok info, (d', w')) →
  ∃ conf secret, confDB_GetConfig [LimitRedirectURI] d = (Ok conf, d) ∧
    (cfg_LimitRedirectURI conf = ∅ ∨ Forall (λ uri, ∃ limit, is_Some (cfg_LimitRedirectURI conf !! limit) ∧ String.prefix limit uri = true) (ri_RedirectURIs client)) ∧
    Hydra_PublicRegister client w = (Ok info, w') ∧ bcrypt_hash (ci_ClientSecret info) = Ok secret ∧
    t_client d' = t_client d ++ [client_row_of client info secret].
Proof.
  unfold PublicRegister. intros Hr. mstep Hr as conf Hc. unfold on_db, confDB_GetConfig, reads in Hc. simpl in Hc.
  injection Hc as Hc <-. mstep Hr as [] Hu. mstep Hr as info' Hh. mstep Hr as secret Hs. mstep Hr as [] Hd.
  unfold on_world in Hh. simpl in Hh. destruct (Hydra_PublicRegister client w) as [rh wh] eqn:Eh. injection Hh as -> <-.
  unfold on_db, registerDB_CreateClient, insert_key in Hd. simpl in Hd. destruct (db_fault _); [done|].
  destruct (bool_decide (ci_ClientID info' ∈ _)); [done|]. injection Hd as <-. injection Hr as <- <- <-.
  exists conf, secret. split_and!; [unfold confDB_GetConfig, reads; by rewrite Hc| |done|done|done].
  unfold check_uris in Hu. case_bool_decide as Hl; [by left|right]. apply each_ok_Ok in Hu. eapply Forall_impl; [exact Hu|]. intros uri Hi.
  simpl in Hi. destruct (uri_allowed _ uri) eqn:E; [|by vm_compute in Hi]. apply existsb_exists in E as ([k v] & Hin & Hp).
  apply list_elem_of_In in Hin. unfold range in Hin. rewrite elem_of_range_order in Hin. apply elem_of_map_to_list in Hin. exists k. by rewrite Hin.
Qed.
End register.
