(* ===== verification/AuthHandlers.v ===== *)
(** * The handlers of the authentication service ([Authentication/driveradapters/*/])

    What each endpoint reads of its request ([parse_...]), and what it answers. *)
From Stdlib Require Import Ascii.
From S2P Require Import Prelude Strconv Json SchemaLang AuthBase AuthStore Ticket Des Sms Outbox AuthConf TokenPerm AuthSession Login AuditTask AuthRest.

(** ** Visitors *)

(** The administrative endpoint of the OAuth server, the text of a body, and
    the language that matches a tag. *)
Class Introspection := { introspect_reply : string → gerror + (Z * text); reply_string : text → string }.
Class LangMatcher := { matched_language : string → Language }.

Definition getBCP47 (s : string) : string :=
  let s := ToLower s in
  if bool_decide (s ∈ ["zh_cn"; "zh-cn"]) then "zh-Hans"
  else if bool_decide (s ∈ ["zh_tw"; "zh-tw"]) then "zh-Hant"
  else if bool_decide (s ∈ ["en_us"; "en-us"]) then "en-US" else "zh-Hans".
Definition GetXLang `{LangMatcher} (c : auth_request) : Language := matched_language (getBCP47 (GetHeader c "x-language")).
(** A visitor known by its language only. *)
Definition visitor_of_language (lang : Language) : Visitor :=
  {| vis_ID := ""; vis_IP := ""; vis_Mac := ""; vis_UserAgent := ""; vis_Type := NoVisitorType; vis_Language := lang |}.
Definition no_visitor : Visitor := visitor_of_language NoLanguage.

Definition visitor_type_of (s : string) : VisitorType :=
  if bool_decide (s = "realname") then RealName
  else if bool_decide (s = "anonymous") then AuthBase.Anonymous
  else if bool_decide (s = "business") then Business else NoVisitorType.

Section verify.
Context `{Introspection}.

(** The visitor of an active token; [None] for another. *)
Definition auth_Introspect (token : string) : outcome (option (string * VisitorType)) :=
  match introspect_reply token with
  | inl e => Err e
  | inr (status, body) =>
      if ((status <? 200) || (300 <=? status))%Z then Err (MkErr "errors" (reply_string body) [])
      else
        respParam ← unmarshal_map body;
        active ← assert_bool (jget respParam "active");
        if negb active then Ok None
        else
          sub ← assert_string (jget respParam "sub");
          _ ← assert_string (jget respParam "scope");
          client_id ← assert_string (jget respParam "client_id");
          if bool_decide (sub = client_id) then Ok (Some (sub, Business))
          else
            ext ← assert_map (jget respParam "ext");
            visitor_type ← assert_string (jget ext "visitor_type");
            match visitor_type_of visitor_type with
            | RealName =>
                _ ← assert_string (jget ext "login_ip");
                _ ← assert_string (jget ext "udid");
                _ ← assert_string (jget ext "account_type");
                _ ← assert_string (jget ext "client_type");
                Ok (Some (sub, RealName))
            | typ => Ok (Some (sub, typ))
            end
  end.
Definition Verify (c : auth_request) : outcome Visitor :=
  let tokenID := GetHeader c "Authorization" in
  let token := if String.prefix "Bearer " tokenID then drop_string 7 tokenID else tokenID in
  info ← auth_Introspect token;
  match info with
  | None => NewHTTPError "token expired" Unauthorized []
  | Some (id, typ) =>
      Ok {| vis_ID := id; vis_IP := rq_ip c; vis_Mac := GetHeader c "X-Request-MAC"; vis_UserAgent := GetHeader c "User-Agent";
            vis_Type := typ; vis_Language := NoLanguage |}
  end.
End verify.

(** ** Reading requests *)
Section parse.
Context `{GoRuntime} `{AuthEnv} `{MessageSchema}.

Definition basic_auth (c : auth_request) : outcome (string * string) :=
  let missing := NewHTTPError "http basic auth param missing or can not be empty" BadRequest [] in
  match rq_basic c with
  | Some (id, secret) => if bool_decide (id = "") || bool_decide (secret = "") then missing else Ok (id, secret)
  | None => missing
  end.

Definition parse_getAccessToken (c : auth_request) : outcome AccessTokenReq :=
  jsonV ← ValidateAndBindGin c "access_token";
  account ← assert_string (jget jsonV "account");
  auth ← basic_auth c;
  Ok {| at_Account := account; at_Password := ""; at_ClientID := auth.1; at_ClientSecret := auth.2 |}.
Definition parse_pwdAuth (c : auth_request) : outcome AccessTokenReq :=
  reqJSON ← ValidateAndBindGin c "pwd_auth";
  account ← assert_string (jget reqJSON "account");
  password ← assert_string (jget reqJSON "password");
  auth ← basic_auth c;
  Ok {| at_Account := account; at_Password := password; at_ClientID := auth.1; at_ClientSecret := auth.2 |}.

(** Decoding into a struct: an absent or [null] member leaves the zero value;
    keys that differ from the tag in case are not considered. *)
Definition member_string (m : gmap string json) (k : string) : outcome string :=
  match jget m k with JNull => Ok "" | JStr s => Ok s | _ => Err json_type_error end.
Definition member_int (m : gmap string json) (k : string) : outcome Z :=
  match jget m k with JNull => Ok 0%Z | JNum bits => if integral bits then Ok (int_of_float64 bits) else Err json_type_error | _ => Err json_type_error end.
Definition member_struct (m : gmap string json) (k : string) : outcome (gmap string json) :=
  match jget m k with JNull => Ok ∅ | JObj m' => Ok m' | _ => Err json_type_error end.
(** Numbers without a constant are handled like no code at all. *)
Definition vcode_type (n : Z) : NCTVcodeType :=
  if (n =? 1)%Z then ImageVCode else if (n =? 2)%Z then NumVCode else if (n =? 3)%Z then DualAuthSMS else if (n =? 4)%Z then DualAuthOTP else NoVCode.
Definition checkLoginOption (option : ClientLoginOption) : outcome unit :=
  let invalid param := NewHTTPError "invalid type" BadRequest ["params"; param] in
  match op_VCodeType option with
  | ImageVCode =>
      if bool_decide (op_UUID option = "") then invalid "option.uuid"
      else if bool_decide (op_VCode option = "") then invalid "option.vcode" else Ok tt
  | NumVCode => invalid "option.vcodeType"
  | DualAuthSMS | DualAuthOTP => if bool_decide (op_VCode option = "") then invalid "option.vcode" else Ok tt
  | NoVCode => Ok tt
  end.
Definition parse_clientAccountAuth (c : auth_request) : outcome ClientLoginReq :=
  m ← ValidateAndBindGin c "client_login";
  method ← member_string m "method";
  account ← member_string m "account";
  password ← member_string m "password";
  option ← member_struct m "option";
  uuid ← member_string option "uuid";
  vcode ← member_string option "vcode";
  vcodeType ← member_int option "vcodeType";
  let option := {| op_UUID := uuid; op_VCode := vcode; op_VCodeType := vcode_type vcodeType |} in
  _ ← checkLoginOption option;
  Ok {| cr_Method := method; cr_Account := account; cr_Password := password; cr_Option := option |}.

Definition sso_desc : JSONValueDesc := Desc KindMap true
  [("credential", Desc KindMap true [("params", Desc KindMap true []); ("id", Desc KindString true [])]);
   ("client_id", Desc KindString true []); ("redirect_uri", Desc KindString true []); ("response_type", Desc KindString true []);
   ("scope", Desc KindString true []); ("udids", Desc KindSlice false [("element", Desc KindString true [])])].
Definition checkSSOResponseType (responsetype : string) : outcome unit :=
  if bool_decide (responsetype = "code") || bool_decide (responsetype = "token id_token") then Ok tt
  else NewHTTPError "response_type is invalid" BadRequest [].
(** [strings.Split(c.Request.Header["X-Forwarded-For"][0], ",")[0]]: a request
    without the header panics. *)
Definition forwarded_for (c : auth_request) : outcome string :=
  match rq_header c "X-Forwarded-For" with
  | ip :: _ => Ok (default "" (head (split_char ","%char ip)))
  | [] => Panic "index out of range"
  end.
Definition parse_singleSignOn (c : auth_request) : outcome SSOLoginInfo :=
  jsonV ← GetJSONValue c;
  _ ← CheckJSONValue sso_desc "body" jsonV;
  jsonObj ← assert_map jsonV;
  client_id ← assert_string (jget jsonObj "client_id");
  redirect_uri ← assert_string (jget jsonObj "redirect_uri");
  response_type ← assert_string (jget jsonObj "response_type");
  scope ← assert_string (jget jsonObj "scope");
  udids ← match jsonObj !! "udids" with Some v => l ← assert_slice v; omap_all assert_string l | None => Ok [] end;
  ip ← forwarded_for c;
  credential ← assert_map (jget jsonObj "credential");
  credentialID ← assert_string (jget credential "id");
  _ ← checkSSOResponseType response_type;
  _ ← IsEmpty [("client_id", client_id); ("redirect_uri", redirect_uri); ("response_type", response_type); ("scope", scope)];
  Ok {| so_ClientID := client_id; so_RedirectURI := redirect_uri; so_ResponseType := response_type; so_Scope := scope; so_Udids := udids;
        so_IP := ip; so_CredentialID := credentialID; so_Params := jget credential "params" |}.

Definition anonymous_desc : JSONValueDesc := Desc KindMap true
  [("credential", Desc KindMap true [("password", Desc KindString true []); ("account", Desc KindString true [])]);
   ("client_id", Desc KindString true []); ("redirect_uri", Desc KindString true []); ("response_type", Desc KindString true []);
   ("scope", Desc KindString true [])].
Definition parse_anonymous (c : auth_request) : outcome AnonymousLoginInfo :=
  jsonV ← GetJSONValue c;
  _ ← CheckJSONValue anonymous_desc "body" jsonV;
  jsonObj ← assert_map jsonV;
  client_id ← assert_string (jget jsonObj "client_id");
  redirect_uri ← assert_string (jget jsonObj "redirect_uri");
  response_type ← assert_string (jget jsonObj "response_type");
  scope ← assert_string (jget jsonObj "scope");
  credential ← assert_map (jget jsonObj "credential");
  account ← assert_string (jget credential "account");
  password ← assert_string (jget credential "password");
  _ ← (if bool_decide (response_type = "token") then Ok tt else NewHTTPError "response_type is invalid" BadRequest []);
  _ ← IsEmpty [("client_id", client_id); ("redirect_uri", redirect_uri); ("response_type", response_type); ("scope", scope); ("account", account)];
  Ok {| al_ClientID := client_id; al_RedirectURI := redirect_uri; al_ResponseType := response_type; al_Scope := scope; al_Account := account;
        al_Password := password |}.

(** The code and the name of the visitor: the name is read only beside a code. *)
Definition parse_vcode (reqJSON : gmap string json) : outcome (string * string * string) :=
  match jget reqJSON "vcode" with
  | JObj v =>
      id ← assert_string (jget v "id");
      content ← assert_string (jget v "content");
      Ok (id, content, match jget reqJSON "visitor_name" with JStr name => name | _ => "" end)
  | _ => Ok ("", "", "")
  end.
Definition parse_anonymous2 (c : auth_request) : outcome AnonymousLoginInfo2 :=
  reqJSON ← ValidateAndBindGin c "anonymous2";
  auth ← match rq_basic c with Some auth => Ok auth | None => NewHTTPError "http basic auth param missing" BadRequest [] end;
  credential ← assert_map (jget reqJSON "credential");
  account ← assert_string (jget credential "account");
  password ← assert_string (jget credential "password");
  vcode ← parse_vcode reqJSON;
  Ok {| a2_ClientID := auth.1; a2_ClientSecret := auth.2; a2_Account := account; a2_Password := password; a2_VCodeID := vcode.1.1;
        a2_VCodeContent := vcode.1.2; a2_VisitorName := vcode.2 |}.

Definition parse_createTicket (c : auth_request) : outcome TicketReq :=
  jsonV ← ValidateAndBindGin c "ticket";
  client_id ← assert_string (jget jsonV "client_id");
  refresh_token ← assert_string (jget jsonV "refresh_token");
  Ok {| tr_ClientID := client_id; tr_RefreshToken := refresh_token |}.
Definition parse_sms (c : auth_request) : outcome (string * string) :=
  reqJSON ← ValidateAndBindGin c "sms";
  phone_number ← assert_string (jget reqJSON "phone_number");
  account ← assert_string (jget reqJSON "account");
  Ok (phone_number, account).
Definition parse_log (schema : string) (c : auth_request) : outcome (string * json) :=
  jsonV ← ValidateAndBindGin c schema;
  topic ← assert_string (jget jsonV "topic");
  _ ← (if bool_decide (topic = "") then NewHTTPError "invalid topic" BadRequest [] else Ok tt);
  Ok (topic, jget jsonV "message").

Definition keyConfMap (field : string) : option ConfigKey :=
  if bool_decide (field = "remember_for") then Some RememberFor
  else if bool_decide (field = "remember_visible") then Some RememberVisible
  else if bool_decide (field = "anonymous_sms_expiration") then Some SMSExpiration else None.
(** The keys of a map, each once. *)
Definition convert (c : auth_request) : outcome (list ConfigKey) :=
  keys ← omap_all (λ v, match keyConfMap v with Some key => Ok key | None => NewHTTPError "Invalid fields" BadRequest [] end)
           (split_char ","%char (rq_param c "fields"));
  Ok (remove_dups keys).
Definition read_setting (payload : gmap string json) (cfg : Config) (k : ConfigKey) : outcome Config :=
  match payload !! confKeyMap k with
  | None => NewHTTPError ("missing required field '" +:+ confKeyMap k +:+ "'") BadRequest []
  | Some v =>
      let set remember visible sms :=
        {| cfg_RememberFor := remember; cfg_RememberVisible := visible; cfg_EnableIDCardLogin := cfg_EnableIDCardLogin cfg;
           cfg_EnablePWDLock := cfg_EnablePWDLock cfg; cfg_EnableThirdPWDLock := cfg_EnableThirdPWDLock cfg; cfg_PWDErrCnt := cfg_PWDErrCnt cfg;
           cfg_PWDLockTime := cfg_PWDLockTime cfg; cfg_VCodeConfig := cfg_VCodeConfig cfg; cfg_SMSExpiration := sms;
           cfg_LimitRedirectURI := cfg_LimitRedirectURI cfg; cfg_TriSystemStatus := cfg_TriSystemStatus cfg |} in
      match k with
      | RememberFor => n ← assert_int v; Ok (set n (cfg_RememberVisible cfg) (cfg_SMSExpiration cfg))
      | RememberVisible => b ← assert_bool v; Ok (set (cfg_RememberFor cfg) b (cfg_SMSExpiration cfg))
      | SMSExpiration => n ← assert_int v; Ok (set (cfg_RememberFor cfg) (cfg_RememberVisible cfg) n)
      | _ => Ok cfg
      end
  end.
Definition parse_setConfig (c : auth_request) : outcome (list ConfigKey * Config) :=
  keyMap ← convert c;
  payload ← ValidateAndBindGin c "set_config";
  cfg ← ofold (read_setting payload) Config_zero (range_order 292 keyMap);
  Ok (keyMap, cfg).

Definition session_desc : JSONValueDesc := Desc KindMap true
  [("subject", Desc KindString true []); ("client_id", Desc KindString true []); ("remember_for", Desc KindFloat64 true []);
   ("context", Desc KindMap true [])].
Definition parse_putSession (c : auth_request) : outcome Context :=
  jsonV ← GetJSONValue c;
  _ ← CheckJSONValue session_desc "body" jsonV;
  jsonObj ← assert_map jsonV;
  subject ← assert_string (jget jsonObj "subject");
  client_id ← assert_string (jget jsonObj "client_id");
  rememberFor ← assert_int (jget jsonObj "remember_for");
  _ ← IsEmpty [("subject", subject); ("client_id", client_id)];
  Ok {| ctx_Subject := subject; ctx_ClientID := client_id; ctx_SessionID := rq_param c "session_id";
        ctx_Exp := int64_wrap (time_Now + int64_wrap (rememberFor * 1000000000)); ctx_Context := marshal (jget jsonObj "context") |}.

(** The assertion and the client of a token request, if it has an assertion.
    The body is trusted: another shape panics. *)
Definition parse_tokenHook (c : auth_request) : outcome (option (string * string)) :=
  jsonV ← GetJSONValue c;
  jsonReq ← assert_map jsonV;
  request ← assert_map (jget jsonReq "request");
  payload ← assert_map (jget request "payload");
  match payload !! "assertion" with
  | Some assertionReq =>
      match jget request "client_id" with
      | JStr clientID =>
          l ← assert_slice assertionReq;
          match l with
          | first :: _ => assertion ← assert_string first; Ok (Some (assertion, clientID))
          | [] => Panic "index out of range"
          end
      | _ => NewHTTPError "invalid request.client_id" BadRequest []
      end
  | None => Ok None
  end.
End parse.

(** ** Registration *)

(** An [*RFC6749Error] is an error with the code ["rfc6749"] and its hint; a
    [HydraError] one with the code ["hydra "] and its status. *)
Definition invalid_parameter {A} (hint : string) : outcome A := Err (MkErr "rfc6749" hint []).
Definition ReplyHydraError (e : gerror) : auth_reply :=
  let reply status := {| rp_status := status; rp_location := ""; rp_body := ErrorReply e |} in
  if bool_decide (err_code e = "rfc6749") then reply 400%Z
  else if String.prefix "hydra " (err_code e) then reply (Atoi (drop_string 6 (err_code e))).1
  else if is_http e then reply 400%Z
  else reply 500%Z.
Definition register_serve {S : Type} (h : M S auth_reply) (s : S) : auth_reply * S :=
  match h s with
  | (Ok r, s') => (r, s')
  | (Err e, s') => (ReplyHydraError e, s')
  | (Panic _, s') => (auth_Recovery, s')
  end.

Section register_handler.
Context {W : Type} `{GoRuntime} `{AuthEnv} `{MessageSchema} `{JsonText} `{Bcrypt} `{!DnHydra W}.

(** The set of scopes, and its size with repetitions. *)
Definition scope_valid (scopeStr : string) : bool :=
  let scopes := split_char " "%char scopeStr in
  bool_decide (list_to_set scopes =@{gset string} {["offline"; "openid"; "all"]}) && (length scopes =? 3)%nat.
Definition string_slice (j : json) : outcome (list string) := l ← assert_slice j; omap_all assert_string l.
(** [nDevice]: three members of the device at most. *)
Definition device_info (device : gmap string json) : json :=
  let base := {["client_type" := jget device "client_type"]} : gmap string json in
  let named := match device !! "name" with Some name => <["name" := name]> base | None => base end in
  JObj (match device !! "description" with Some description => <["description" := description]> named | None => named end).
Definition parse_register (c : auth_request) : outcome RegisterInfo :=
  jsonV ← ValidateAndBindGin c "register";
  clientName ← assert_string (jget jsonV "client_name");
  _ ← (if bool_decide (clientName = "") then invalid_parameter "Invalid client_name" else Ok tt);
  grantTypes ← string_slice (jget jsonV "grant_types");
  responseTypes ← string_slice (jget jsonV "response_types");
  scopeStr ← assert_string (jget jsonV "scope");
  _ ← (if scope_valid scopeStr then Ok tt else invalid_parameter "Invalid scope");
  metadata ← assert_map (jget jsonV "metadata");
  device ← assert_map (jget metadata "device");
  redirectURIs ← string_slice (jget jsonV "redirect_uris");
  logoutUris ← string_slice (jget jsonV "post_logout_redirect_uris");
  _ ← (if (length logoutUris =? 0)%nat then invalid_parameter "Invalid post_logout_redirect_uris" else Ok tt);
  Ok {| ri_ClientName := clientName; ri_GrantTypes := grantTypes; ri_ResponseTypes := responseTypes; ri_Scope := scopeStr;
        ri_RedirectURIs := redirectURIs; ri_PostLogoutRedirectURIs := logoutUris;
        ri_Metadata := JObj (<["device" := device_info device]> metadata) |}.
Definition publicRegister (c : auth_request) : M (auth_db * W) auth_reply :=
  registerInfo ← lift (parse_register c);
  info ← PublicRegister registerInfo;
  mret (auth_ReplyOK 201 (JsonReply (jobj [("client_id", JStr (ci_ClientID info)); ("client_secret", JStr (ci_ClientSecret info))]))).
End register_handler.

(** ** The other endpoints *)
Section handlers.
Context {W : Type} `{GoRuntime} `{AuthEnv} `{MessageSchema} `{Introspection} `{LangMatcher} `{Rsa} `{Random} `{Jwt} `{JsonText} `{Mapstructure}.
Context `{!DnUserManagement W} `{!DnShareMgnt W} `{!DnHydra W} `{!DnEacp W} `{!DnEacpLog W} `{!DrivenMessageBroker W} `{!ShareMgntConfig W}.
Context (outboxHandlers : Z → option (json → M W unit)) (smsExpiration : Z).

(** [expires] is the name of the member the handler uses. *)
Definition token_reply (expires : string) (t : TokenInfo) : auth_reply :=
  auth_ReplyOK 200 (JsonReply (jobj [("access_token", JStr (tok_AccessToken t)); (expires, JInt (tok_ExpirsesIn t)); ("scope", JStr (tok_Scope t));
                                     ("token_type", JStr (tok_TokenType t))])).

Definition h_getAccessToken (c : auth_request) : M (auth_db * W) auth_reply :=
  reqInfo ← lift (parse_getAccessToken c);
  res ← GetAccessToken reqInfo;
  mret (token_reply "expires_in" res).
Definition h_pwdAuth (c : auth_request) : M (auth_db * W) auth_reply :=
  reqInfo ← lift (parse_pwdAuth c);
  tokenInfo ← PwdAuth reqInfo;
  mret (token_reply "expires_in" tokenInfo).
Definition h_clientAccountAuth (c : auth_request) : M (auth_db * W) auth_reply :=
  clientLoginReq ← lift (parse_clientAccountAuth c);
  userID ← ClientAccountAuth no_visitor clientLoginReq;
  mret (auth_ReplyOK 200 (JsonReply (jobj [("user_id", JStr userID)]))).
Definition sso_reply (t : TokenInfo) : auth_reply :=
  auth_ReplyOK 200 (JsonReply (jobj (
    if bool_decide (tok_ResponseType t = "code") then [("code", JStr (tok_Code t)); ("scope", JStr (tok_Scope t))]
    else if bool_decide (tok_ResponseType t = "token id_token") then
      [("access_token", JStr (tok_AccessToken t)); ("expirses_in", JInt (tok_ExpirsesIn t)); ("id_token", JStr (tok_IDToken t));
       ("scope", JStr (tok_Scope t)); ("token_type", JStr (tok_TokenType t))]
    else []))).
Definition h_singleSignOn (c : auth_request) : M (auth_db * W) auth_reply :=
  req ← lift (parse_singleSignOn c);
  tokenInfo ← SingleSignOn req;
  mret (sso_reply tokenInfo).
Definition h_anonymous (c : auth_request) : M (auth_db * W) auth_reply :=
  req ← lift (parse_anonymous c);
  res ← Anonymous req;
  mret (token_reply "expirses_in" res).
Definition h_anonymous2 (c : auth_request) : M (auth_db * W) auth_reply :=
  reqInfo ← lift (parse_anonymous2 c);
  res ← Anonymous2 smsExpiration (visitor_of_language (GetXLang c)) reqInfo (GetHeader c "x-referrer");
  mret (token_reply "expires_in" res).
Definition h_createTicket (c : auth_request) : M (auth_db * W) auth_reply :=
  reqInfo ← lift (parse_createTicket c);
  ticketID ← CreateTicket reqInfo;
  mret (auth_ReplyOK 200 (JsonReply (jobj [("ticket", JStr ticketID)]))).
Definition h_createAndSendAnonymousSMSCode (c : auth_request) : M (auth_db * W) auth_reply :=
  req ← lift (parse_sms c);
  vcodeID ← CreateAndSendVCode smsExpiration (visitor_of_language (GetXLang c)) req.1 req.2;
  mret (auth_ReplyOK 200 (JsonReply (jobj [("vcode_id", JStr vcodeID)]))).
(** The lifetime of codes at start-up. *)
Definition initSMSExpiration : M (auth_db * W) Z :=
  cfg ← GetConfig (Some no_visitor) [SMSExpiration];
  mret (UpdateSMSExpiration (cfg_SMSExpiration cfg)).
(** The subscriber of the lifetime of codes; a text that is not JSON is
    logged. *)
Definition anonymousSmsExpUpdated (message : text) : outcome (option Z) :=
  match unmarshal_map message with
  | Ok payload => n ← assert_int (jget payload "anonymous_sms_expiration"); Ok (Some (UpdateSMSExpiration n))
  | Err _ => Ok None
  | Panic why => Panic why
  end.

(** *** Configuration *)
Definition config_reply (keyMap : list ConfigKey) (cfg : Config) : auth_reply :=
  auth_ReplyOK 200 (JsonReply (jobj (omap (λ k,
    match k with
    | RememberFor => Some (confKeyMap k, JInt (cfg_RememberFor cfg))
    | RememberVisible => Some (confKeyMap k, JBool (cfg_RememberVisible cfg))
    | SMSExpiration => Some (confKeyMap k, JInt (cfg_SMSExpiration cfg))
    | _ => None
    end) keyMap))).
Definition h_getConfig (visitor : Visitor) (c : auth_request) : M (auth_db * W) auth_reply :=
  keyMap ← lift (convert c);
  cfg ← GetConfig (Some visitor) keyMap;
  mret (config_reply keyMap cfg).
Definition h_setConfig (visitor : Visitor) (c : auth_request) : M (auth_db * W) auth_reply :=
  '(keyMap, cfg) ← lift (parse_setConfig c);
  _ ← SetConfig outboxHandlers (Some visitor) keyMap cfg;
  mret (auth_ReplyOK 204 EmptyBody).

(** *** Permissions *)
Definition h_setAppAccessTokenPerm (visitor : Visitor) (c : auth_request) : M (auth_db * W) auth_reply :=
  _ ← SetAppAccessTokenPerm outboxHandlers (Some visitor) (rq_param c "app_id");
  mret (auth_ReplyOK 204 EmptyBody).
Definition h_deleteAppAccessTokenPerm (visitor : Visitor) (c : auth_request) : M (auth_db * W) auth_reply :=
  _ ← DeleteAppAccessTokenPerm outboxHandlers (Some visitor) (rq_param c "app_id");
  mret (auth_ReplyOK 204 EmptyBody).
Definition h_getAllAppAccessTokenPerm (visitor : Visitor) (_ : auth_request) : M (auth_db * W) auth_reply :=
  permApps ← GetAllAppAccessTokenPerm (Some visitor);
  mret (auth_ReplyOK 200 (JsonReply (JArr (map JStr permApps)))).

(** A private endpoint passes a visitor without an id, a public one the
    visitor of the token. *)
Definition private_endpoint (h : Visitor → auth_request → M (auth_db * W) auth_reply) (c : auth_request) : M (auth_db * W) auth_reply := h no_visitor c.
Definition public_endpoint (h : Visitor → auth_request → M (auth_db * W) auth_reply) (c : auth_request) : M (auth_db * W) auth_reply :=
  visitor ← lift (Verify c);
  h visitor c.

(** *** Sessions *)
Definition h_getSession (c : auth_request) : M (auth_db * W) auth_reply :=
  context ← on_db (session_Get (rq_param c "session_id"));
  ctxInfo ← lift (unmarshal_map (ctx_Context context));
  mret (auth_ReplyOK 200 (JsonReply (jobj [("subject", JStr (ctx_Subject context)); ("client_id", JStr (ctx_ClientID context));
                                           ("session_id", JStr (ctx_SessionID context)); ("context", JObj ctxInfo)]))).
Definition h_putSession (c : auth_request) : M (auth_db * W) auth_reply :=
  info ← lift (parse_putSession c);
  _ ← on_db (session_Put info);
  mret {| rp_status := 201; rp_location := "api/authentication/v1/session/" +:+ rq_param c "session_id"; rp_body := EmptyBody |}.
Definition h_deleteSession (c : auth_request) : M (auth_db * W) auth_reply :=
  _ ← on_db (session_Delete (rq_param c "session_id"));
  mret (auth_ReplyOK 204 EmptyBody).

(** *** Assertions *)
Definition h_getAssertionByUserID (c : auth_request) : M (auth_db * W) auth_reply :=
  visitor ← lift (Verify c);
  userID ← lift (match rq_query c "user_id" with
                 | Some userID => if bool_decide (userID = "") then NewHTTPError "invalid user_id" BadRequest ["params"; "user_id"] else Ok userID
                 | None => NewHTTPError "invalid user_id" BadRequest ["params"; "user_id"]
                 end);
  res ← GetAssertionByUserID visitor userID;
  mret (auth_ReplyOK 200 (JsonReply (jobj [("assertion", JStr res)]))).
Definition h_tokenHook (c : auth_request) : outcome auth_reply :=
  req ← parse_tokenHook c;
  match req with
  | Some (assertion, clientID) =>
      res ← TokenHook assertion clientID;
      Ok (auth_ReplyOK 200 (JsonReply (jobj [("session", jobj [("access_token", JObj res)])])))
  | None => Ok (auth_ReplyOK 204 EmptyBody)
  end.

(** *** Audit log *)
Definition h_log (c : auth_request) : M (auth_db * W) auth_reply :=
  '(topic, msg) ← lift (parse_log "audit_log" c);
  _ ← on_db (audit_Log outboxHandlers topic msg);
  mret (auth_ReplyOK 204 EmptyBody).
Definition h_unorderedLog (c : auth_request) : M (auth_db * W) auth_reply :=
  '(topic, msg) ← lift (parse_log "unordered_audit_log" c);
  _ ← on_db (async_Log topic msg);
  mret (auth_ReplyOK 204 EmptyBody).
End handlers.
