(* ===== verification/AuthHandlersSpec.v ===== *)
(** * What reaches the authentication service over HTTP

    The schema documents of the endpoints; a request is read without a panic;
    who may administer permissions and settings through the public endpoints;
    what a registration establishes. *)
From Stdlib Require Import Ascii.
From S2P Require Import Prelude Strconv Json SchemaLang AuthBase AuthStore Ticket Des Sms Outbox AuthConf TokenPerm AuthSession Login AuditTask AuthRest AuthHandlers.

(** ** The documents ([Authentication/driveradapters/jsonschema]) *)
Definition nonempty : schema := SText 1.
Definition access_token_schema : schema := obj ["account"] [("account", nonempty)].
Definition pwd_auth_schema : schema := obj ["account"; "password"] [("account", nonempty); ("password", nonempty)].
Definition client_auth_schema : schema := obj ["account"; "password"; "method"]
  [("method", oneof ["GET"]); ("account", nonempty); ("password", nonempty);
   ("option", obj [] [("uuid", str); ("vcode", str); ("vcodeType", SNumber false)])].
Definition anonymous2_schema : schema := obj ["credential"]
  [("credential", obj ["account"; "password"] [("account", nonempty); ("password", str)]);
   ("vcode", obj ["id"; "content"] [("id", str); ("content", str)]); ("visitor_name", str)].
Definition ticket_schema : schema := obj ["client_id"; "refresh_token"] [("client_id", nonempty); ("refresh_token", nonempty)].
Definition sms_schema : schema := obj ["phone_number"; "account"] [("phone_number", nonempty); ("account", nonempty)].
Definition audit_log_schema : schema := obj ["topic"; "message"] [("topic", str); ("message", obj [] [])].
Definition device_schema : schema := obj ["client_type"]
  [("name", str);
   ("client_type", oneof ["unknown"; "ios"; "android"; "windows_phone"; "windows"; "mac_os"; "web"; "mobile_web"; "console_web"; "deploy_web"; "linux"]);
   ("description", str)].
Definition register_schema : schema := obj ["grant_types"; "response_types"; "scope"; "redirect_uris"; "post_logout_redirect_uris"; "client_name"; "metadata"]
  [("redirect_uris", arr str);
   ("grant_types", SArray 3 true (oneof ["authorization_code"; "implicit"; "refresh_token"]));
   ("response_types", SArray 3 true (oneof ["code"; "token"; "token id_token"]));
   ("client_name", str); ("scope", str); ("post_logout_redirect_uris", arr str);
   ("metadata", obj ["device"] [("device", device_schema)])].
(** Without the [maximum] of [remember_for]. *)
Definition set_config_schema : schema := obj []
  [("remember_for", SNumber true); ("remember_visible", SBoolean); ("anonymous_sms_expiration", SNumber true)].

Definition auth_schemas : gmap string schema := list_to_map
  [("access_token", access_token_schema); ("pwd_auth", pwd_auth_schema); ("client_login", client_auth_schema); ("anonymous2", anonymous2_schema);
   ("ticket", ticket_schema); ("sms", sms_schema); ("audit_log", audit_log_schema); ("unordered_audit_log", audit_log_schema);
   ("register", register_schema); ("set_config", set_config_schema)].
(** What the validator promises: a valid body that is JSON conforms.  (Of other
    texts it may accept some, such as a conforming value followed by other
    bytes.) *)
Class AuthSchemaLaw `{MessageSchema} := {
  auth_schema_valid : ∀ name sch j, auth_schemas !! name = Some sch →
    schema_Validate name (TJson j) = None → accepts sch j = true
}.

(** ** No panic *)
Definition no_panic {A} (o : outcome A) : Prop := ∀ w, o ≠ Panic w.
Lemma no_panic_Ok {A} (a : A) : no_panic (Ok a).
Proof. done. Qed.
Lemma no_panic_Err {A} e : no_panic (A := A) (Err e).
Proof. done. Qed.
Lemma no_panic_bind {A B} (o : outcome A) (k : A → outcome B) : no_panic o → (∀ a, o = Ok a → no_panic (k a)) → no_panic (x ← o; k x).
Proof. intros Ho Hk w. destruct o as [a|e|w']; simpl; [by apply Hk|done|by destruct (Ho w')]. Qed.
Lemma no_panic_400 {A} cause detail : no_panic (A := A) (NewHTTPError cause BadRequest detail).
Proof. done. Qed.
Lemma no_panic_if {A} (b : bool) (x y : outcome A) : (b = true → no_panic x) → (b = false → no_panic y) → no_panic (if b then x else y).
Proof. destruct b; auto. Qed.
Lemma no_panic_param {A} hint : no_panic (A := A) (invalid_parameter hint).
Proof. done. Qed.
#[export] Hint Resolve no_panic_Ok no_panic_Err no_panic_400 no_panic_param no_panic_if : isf.
Lemma each_no_panic {A} (f : A → outcome unit) l : (∀ x, x ∈ l → no_panic (f x)) → no_panic (each_ok f l).
Proof. induction l as [|x l IH]; intros Hf; [done|]. simpl. apply no_panic_bind; [apply Hf; left|]. intros _ _. apply IH. intros y Hy. apply Hf. by right. Qed.
Lemma ofold_no_panic {A B} (f : A → B → outcome A) a l : (∀ a b, b ∈ l → no_panic (f a b)) → no_panic (ofold f a l).
Proof.
  revert a. induction l as [|x l IH]; intros a Hf; [done|]. simpl. apply no_panic_bind; [apply Hf; left|]. intros b _. apply IH. intros a' y Hy. apply Hf. by right.
Qed.
Lemma omap_no_panic {A B} (f : A → outcome B) l : (∀ x, x ∈ l → no_panic (f x)) → no_panic (omap_all f l).
Proof.
  induction l as [|x l IH]; intros Hf; [done|]. simpl. apply no_panic_bind; [apply Hf; left|]. intros b _. apply no_panic_bind; [|done]. apply IH.
  intros y Hy. apply Hf. by right.
Qed.

(** ** Checked values *)
Section checked.
Context `{GoRuntime}.

Lemma check_kind kind r fields key j : CheckJSONValue (Desc kind r fields) key j = Ok tt → kind_of j = kind.
Proof. simpl. case_bool_decide; [done|]. by vm_compute. Qed.
Lemma check_string r fields key j : CheckJSONValue (Desc KindString r fields) key j = Ok tt → ∃ s, j = JStr s.
Proof. intros Hk%check_kind. destruct j; try done. eauto. Qed.
Lemma check_map r fields key j :
  CheckJSONValue (Desc KindMap r fields) key j = Ok tt →
  ∃ obj, j = JObj obj ∧ ∀ k d, (k, d) ∈ fields → match obj !! k with Some v => ∃ key', CheckJSONValue d key' v = Ok tt | None => desc_required d = false end.
Proof.
  intros Hc. pose proof (check_kind _ _ _ _ _ Hc) as Hk. destruct j as [| | | | |obj]; try done. exists obj. split; [done|]. simpl in Hc. apply each_ok_Ok in Hc.
  intros k d Hin. rewrite (range_order_perm 290) in Hc. rewrite Forall_forall in Hc.
  specialize (Hc (k, desc_required d, CheckJSONValue d)). simpl in Hc. ospecialize (Hc _).
  { apply list_elem_of_fmap. by exists (k, d). }
  destruct (obj !! k); [eauto|]. by destruct (desc_required d).
Qed.
Lemma check_slice r fields key j e d :
  list_find (λ kd, kd.1 = "element") fields = Some (e, ("element", d)) → CheckJSONValue (Desc KindSlice r fields) key j = Ok tt →
  ∃ l, j = JArr l ∧ ∀ x, x ∈ l → ∃ key', CheckJSONValue d key' x = Ok tt.
Proof.
  intros Hf Hc. pose proof (check_kind _ _ _ _ _ Hc) as Hk. destruct j as [| | | |l|]; try done. exists l. split; [done|]. simpl in Hc. apply each_ok_Ok in Hc.
  assert (list_find (λ kc : string * bool * (string → json → outcome unit), kc.1.1 = "element") (map (λ kd, (kd.1, desc_required kd.2, CheckJSONValue kd.2)) fields)
          = Some (e, ("element", desc_required d, CheckJSONValue d))) as E.
  { change (map ?f fields) with (f <$> fields). rewrite list_find_fmap. unfold compose. simpl. by rewrite Hf. }
  intros x [i Hi]%list_elem_of_lookup. rewrite Forall_lookup in Hc. specialize (Hc i (i, x)). ospecialize (Hc _); [by rewrite list_lookup_imap, Hi|].
  rewrite E in Hc. simpl in Hc. eauto.
Qed.

(** A check panics only for a slice without a description of its elements. *)
Fixpoint desc_ok (d : JSONValueDesc) : bool :=
  match d with
  | Desc kind _ fields =>
      (negb (bool_decide (kind = KindSlice)) || bool_decide ("element" ∈ fields.*1)) && forallb (λ kd, desc_ok kd.2) fields
  end.
Lemma check_no_panic d : desc_ok d = true → ∀ key j, no_panic (CheckJSONValue d key j).
Proof.
  revert d. fix IH 1. intros [kind r fields] Hok key j. cbn [desc_ok] in Hok. apply andb_true_iff in Hok as [Hel Hall].
  assert (∀ k d, (k, d) ∈ fields → ∀ key j, no_panic (CheckJSONValue d key j)) as Hf.
  { clear Hel. induction fields as [|[k' d'] fields IHf]; intros k d Hin; [by apply elem_of_nil in Hin|]. simpl in Hall. apply andb_true_iff in Hall as [Hd Hall].
    apply elem_of_cons in Hin as [[= -> ->]|Hin]; [by apply IH|by eapply IHf]. }
  simpl. apply no_panic_if; intros Hk; [apply no_panic_400|]. destruct j as [| | | |l|obj]; try done.
  - apply each_no_panic. intros [i x] _. destruct (list_find _ _) as [[e kc]|] eqn:E.
    + apply list_find_Some in E as (Hl & _ & _). apply list_elem_of_lookup_2 in Hl. apply list_elem_of_fmap in Hl as ([k d] & -> & Hin). by eapply Hf.
    + exfalso. apply negb_false_iff, bool_decide_eq_true in Hk. simpl in Hk. subst kind. simpl in Hel. apply bool_decide_eq_true in Hel.
      apply list_elem_of_fmap in Hel as ([k d] & Hkd & Hin). simpl in Hkd. subst k. apply list_find_None in E. rewrite Forall_forall in E.
      apply (E ("element", desc_required d, CheckJSONValue d)); [|done]. apply list_elem_of_fmap. by exists ("element", d).
  - apply each_no_panic. intros [[k rq] ck] Hin. rewrite elem_of_range_order in Hin. apply list_elem_of_fmap in Hin as ([k' d] & [= -> -> ->] & Hin). simpl.
    destruct (obj !! k'); [by eapply Hf|]. auto with isf.
Qed.
End checked.

(** ** Requests are read *)
Section requests.
Context `{GoRuntime} `{AuthEnv} `{MessageSchema} `{!AuthSchemaLaw}.

Lemma bind_no_panic c name : no_panic (rq_body c) → no_panic (ValidateAndBindGin c name).
Proof.
  intros Hb. unfold ValidateAndBindGin. apply no_panic_bind; [done|]. intros body _. apply no_panic_bind.
  - unfold ValidateAndBind. destruct (schema_Validate _ _); [apply no_panic_400|]. by destruct body.
  - intros j _. by destruct j.
Qed.
Lemma bound_body c name req props a m :
  auth_schemas !! name = Some (SObject req props a) → ValidateAndBindGin c name = Ok m → accepts (SObject req props a) (JObj m) = true.
Proof.
  intros Hn Hm. unfold ValidateAndBindGin in Hm. apply bind_Ok in Hm as (body & _ & Hm). apply bind_Ok in Hm as (j & Hv & Hm). unfold ValidateAndBind in Hv.
  destruct (schema_Validate name body) eqn:E; [by vm_compute in Hv|]. destruct body as [j'|]; [|done]. pose proof (auth_schema_valid name _ j' Hn E) as Ha. injection Hv as <-.
  destruct j'; try done. by injection Hm as <-.
Qed.
Lemma basic_no_panic c : no_panic (basic_auth c).
Proof. unfold basic_auth. destruct (rq_basic c) as [[id secret]|]; auto with isf. Qed.
Lemma IsEmpty_no_panic strs : no_panic (IsEmpty strs).
Proof. apply each_no_panic. intros kv _. auto with isf. Qed.
Lemma member_string_no_panic m k : no_panic (member_string m k).
Proof. unfold member_string. by destruct (jget m k). Qed.
Lemma option_no_panic option : no_panic (checkLoginOption option).
Proof. unfold checkLoginOption. destruct (op_VCodeType option); auto 6 with isf. Qed.

(** The body of the request against its schema, then its fields. *)
Ltac read_body Hb Hm := apply no_panic_bind; [by apply bind_no_panic|]; intros ? Hm; eapply bound_body in Hm; [|reflexivity].
Ltac text_field Hm k := destruct (text_field_reads _ _ _ _ Hm k 1 ltac:(in_fields) ltac:(in_fields)) as (? & _ & -> & _); cbn [mbind outcome_bind].
Ltac string_field Hm k := destruct (string_field_reads _ _ _ _ Hm k None ltac:(in_fields) ltac:(in_fields)) as (? & _ & -> & _); cbn [mbind outcome_bind].

Lemma vcode_no_panic reqJSON : accepts anonymous2_schema (JObj reqJSON) = true → no_panic (parse_vcode reqJSON).
Proof.
  intros Hm. unfold parse_vcode, jget. destruct (reqJSON !! "vcode") as [v|] eqn:E; [|done]. simpl. destruct v as [| | | | |v]; try done.
  assert (accepts (obj ["id"; "content"] [("id", str); ("content", str)]) (JObj v) = true) as Hv by (eapply field_accepts; [exact Hm|in_fields|exact E]).
  destruct (string_field_reads _ _ _ _ Hv "id" None ltac:(in_fields) ltac:(in_fields)) as (id & Hid & _). rewrite Hid. cbn [mbind outcome_bind].
  destruct (string_field_reads _ _ _ _ Hv "content" None ltac:(in_fields) ltac:(in_fields)) as (content & Hco & _). by rewrite Hco.
Qed.
Lemma setting_no_panic payload cfg k : accepts set_config_schema (JObj payload) = true → no_panic (read_setting payload cfg k).
Proof.
  intros Hp. unfold read_setting. destruct (payload !! confKeyMap k) as [v|] eqn:E; [|apply no_panic_400].
  assert (∀ sch, (confKeyMap k, sch) ∈ [("remember_for", SNumber true); ("remember_visible", SBoolean); ("anonymous_sms_expiration", SNumber true)] →
    accepts sch v = true) as Hv by (intros sch Hin; by eapply field_accepts).
  destruct k; try done; simpl in Hv.
  - destruct (accepts_number _ _ (Hv (SNumber true) ltac:(in_fields))) as [bits ->]. done.
  - destruct (accepts_bool _ (Hv SBoolean ltac:(in_fields))) as [b ->]. done.
  - destruct (accepts_number _ _ (Hv (SNumber true) ltac:(in_fields))) as [bits ->]. done.
Qed.
Lemma convert_no_panic c : no_panic (convert c).
Proof.
  unfold convert. apply no_panic_bind; [|done]. apply omap_no_panic. intros v _. destruct (keyConfMap v); auto with isf.
Qed.
Lemma string_slice_no_panic l items : (∀ x, x ∈ l → accepts (SString items) x = true) → no_panic (omap_all assert_string l).
Proof. intros Hl. apply omap_no_panic. intros x Hx. destruct (accepts_string _ _ (Hl x Hx)) as (s & -> & _). done. Qed.
Lemma register_no_panic c : no_panic (rq_body c) → no_panic (parse_register c).
Proof.
  intros Hb. unfold parse_register, string_slice. read_body Hb Hm. string_field Hm "client_name". apply no_panic_bind; [auto with isf|intros _ _].
  destruct (array_field_reads _ _ _ _ Hm "grant_types" _ _ _ ltac:(in_fields) ltac:(in_fields)) as (l1 & _ & -> & Hl1). cbn [mbind outcome_bind].
  apply no_panic_bind; [by eapply string_slice_no_panic|intros ? _].
  destruct (array_field_reads _ _ _ _ Hm "response_types" _ _ _ ltac:(in_fields) ltac:(in_fields)) as (l2 & _ & -> & Hl2). cbn [mbind outcome_bind].
  apply no_panic_bind; [by eapply string_slice_no_panic|intros ? _].
  string_field Hm "scope". apply no_panic_bind; [auto with isf|intros _ _].
  destruct (object_field_reads _ _ _ _ Hm "metadata" _ _ _ ltac:(in_fields) ltac:(in_fields)) as (md & _ & -> & Hmd). cbn [mbind outcome_bind].
  destruct (object_field_reads _ _ _ _ Hmd "device" _ _ _ ltac:(in_fields) ltac:(in_fields)) as (dev & _ & -> & _). cbn [mbind outcome_bind].
  destruct (array_field_reads _ _ _ _ Hm "redirect_uris" _ _ _ ltac:(in_fields) ltac:(in_fields)) as (l3 & _ & -> & Hl3). cbn [mbind outcome_bind].
  apply no_panic_bind; [by eapply string_slice_no_panic|intros ? _].
  destruct (array_field_reads _ _ _ _ Hm "post_logout_redirect_uris" _ _ _ ltac:(in_fields) ltac:(in_fields)) as (l4 & _ & -> & Hl4). cbn [mbind outcome_bind].
  apply no_panic_bind; [by eapply string_slice_no_panic|intros ? _]. apply no_panic_bind; auto with isf.
Qed.

(** The members of a checked object. *)
Definition checked_members (m : gmap string json) (fields : list (string * JSONValueDesc)) : Prop :=
  ∀ k d, (k, d) ∈ fields → match m !! k with Some v => ∃ key', CheckJSONValue d key' v = Ok tt | None => desc_required d = false end.
Lemma checked_object r fields key m : CheckJSONValue (Desc KindMap r fields) key (JObj m) = Ok tt → checked_members m fields.
Proof. intros Hc. by destruct (check_map _ _ _ _ Hc) as (m' & [= <-] & Hf). Qed.
Lemma required_member m fields k kind sub :
  checked_members m fields → (k, Desc kind true sub) ∈ fields → ∃ key', kind_of (jget m k) = kind ∧ CheckJSONValue (Desc kind true sub) key' (jget m k) = Ok tt.
Proof.
  intros Hm Hin. specialize (Hm _ _ Hin). unfold jget. destruct (m !! k) as [v|]; [|done]. destruct Hm as [key' Hc]. exists key'. split; [by eapply check_kind|done].
Qed.
Lemma string_member m fields k : checked_members m fields → (k, Desc KindString true []) ∈ fields → ∃ s, assert_string (jget m k) = Ok s.
Proof. intros Hm Hin. destruct (required_member m fields k _ _ Hm Hin) as (key' & Hk & _). destruct (jget m k); try done. by eexists. Qed.
Lemma float_member m fields k : checked_members m fields → (k, Desc KindFloat64 true []) ∈ fields → ∃ n, assert_int (jget m k) = Ok n.
Proof. intros Hm Hin. destruct (required_member m fields k _ _ Hm Hin) as (key' & Hk & _). destruct (jget m k); try done. by eexists. Qed.
Lemma map_member m fields k sub :
  checked_members m fields → (k, Desc KindMap true sub) ∈ fields → ∃ m', assert_map (jget m k) = Ok m' ∧ checked_members m' sub.
Proof.
  intros Hm Hin. destruct (required_member m fields k _ _ Hm Hin) as (key' & Hk & Hc). destruct (jget m k) as [| | | | |m']; try done. exists m'.
  split; [done|]. by eapply checked_object.
Qed.

Ltac checked_body Hb Hm d :=
  apply no_panic_bind; [unfold GetJSONValue; apply no_panic_bind; [done|]; intros [] _; auto with isf|]; intros ? _;
  apply no_panic_bind; [by apply check_no_panic|]; intros [] Hm; destruct (check_map _ _ _ _ Hm) as (? & -> & _); apply checked_object in Hm; cbn [mbind outcome_bind assert_map].
Ltac string_of Hm k := destruct (string_member _ _ k Hm ltac:(in_fields)) as [? ->]; cbn [mbind outcome_bind].
Ltac map_of Hm k Hm' := destruct (map_member _ _ k _ Hm ltac:(in_fields)) as (? & -> & Hm'); cbn [mbind outcome_bind].

Lemma anonymous_no_panic c : no_panic (rq_body c) → no_panic (parse_anonymous c).
Proof.
  intros Hb. unfold parse_anonymous. checked_body Hb Hm anonymous_desc. string_of Hm "client_id". string_of Hm "redirect_uri". string_of Hm "response_type".
  string_of Hm "scope". map_of Hm "credential" Hc. string_of Hc "account". string_of Hc "password".
  apply no_panic_bind; [auto with isf|intros _ _]. apply no_panic_bind; [apply IsEmpty_no_panic|done].
Qed.
Lemma putSession_no_panic c : no_panic (rq_body c) → no_panic (parse_putSession c).
Proof.
  intros Hb. unfold parse_putSession. checked_body Hb Hm session_desc. string_of Hm "subject". string_of Hm "client_id".
  destruct (float_member _ _ "remember_for" Hm ltac:(in_fields)) as [? ->]. cbn [mbind outcome_bind]. apply no_panic_bind; [apply IsEmpty_no_panic|done].
Qed.
(** Single sign-on needs the header a proxy adds. *)
Lemma singleSignOn_no_panic c : no_panic (rq_body c) → rq_header c "X-Forwarded-For" ≠ [] → no_panic (parse_singleSignOn c).
Proof.
  intros Hb Hh. unfold parse_singleSignOn. checked_body Hb Hm sso_desc. string_of Hm "client_id". string_of Hm "redirect_uri". string_of Hm "response_type".
  string_of Hm "scope". apply no_panic_bind.
  - match goal with |- context [?m !! "udids"] => destruct (m !! "udids") as [v|] eqn:E; [|done] end.
    pose proof (Hm "udids" (Desc KindSlice false [("element", Desc KindString true [])]) ltac:(in_fields)) as Hu. rewrite E in Hu. destruct Hu as [key' Hu].
    destruct (check_slice false [("element", Desc KindString true [])] key' v 0 (Desc KindString true []) eq_refl Hu) as (l & -> & Hl). apply omap_no_panic. intros y Hy.
    destruct (Hl y Hy) as [key2 Hc]. by destruct (check_string _ _ _ _ Hc) as [s ->].
  - intros udids _. unfold forwarded_for. destruct (rq_header c "X-Forwarded-For"); [done|]. cbn [mbind outcome_bind].
    map_of Hm "credential" Hc. string_of Hc "id". apply no_panic_bind; [unfold checkSSOResponseType; auto with isf|intros _ _].
    apply no_panic_bind; [apply IsEmpty_no_panic|done].
Qed.

(** The shape of a body that the token hook takes for granted: an object with
    [request.payload]; an assertion, if the client is a text, is an array that
    starts with a text. *)
Definition hook_shape (j : json) : bool :=
  match j with
  | JObj m =>
      match jget m "request" with
      | JObj request =>
          match jget request "payload" with
          | JObj payload =>
              match payload !! "assertion", jget request "client_id" with
              | Some (JArr (JStr _ :: _)), _ | None, _ => true
              | Some _, JStr _ => false
              | Some _, _ => true
              end
          | _ => false
          end
      | _ => false
      end
  | _ => false
  end.
(** An outcome is a panic or it is not. *)
Lemma no_panic_iff {A} (o : outcome A) (b : bool) : (if b then no_panic o else ∃ w, o = Panic w) → no_panic o ↔ b = true.
Proof. destruct b; [done|]. intros [w ->]. split; [intros Hn; by destruct (Hn w)|done]. Qed.
Lemma tokenHook_no_panic c :
  no_panic (rq_body c) → no_panic (parse_tokenHook c) ↔ (∀ j, rq_body c = Ok (TJson j) → hook_shape j = true).
Proof.
  intros Hb. unfold parse_tokenHook, GetJSONValue. destruct (rq_body c) as [[j|s]|e|w]; [|done..|by destruct (Hb w)].
  trans (hook_shape j = true); [|naive_solver]. apply no_panic_iff. unfold hook_shape. cbn [mbind outcome_bind].
  destruct j as [| | | | |m]; [by eexists..|]. cbn [mbind outcome_bind assert_map]. destruct (jget m "request") as [| | | | |request]; [by eexists..|].
  cbn [mbind outcome_bind assert_map]. destruct (jget request "payload") as [| | | | |payload]; [by eexists..|]. cbn [mbind outcome_bind assert_map].
  destruct (payload !! "assertion") as [[| | | |[|[] ]|]|], (jget request "client_id"); first [done|by eexists].
Qed.

(** C36. How requests are read.  Whatever the body, the headers and the
    parameters are, these endpoints either have their parameters or answer
    with an error of their own, and do not panic: the tokens, logins,
    anonymous logins, tickets, codes, audit logs, settings (reading and
    setting), sessions and registrations.  Two endpoints are exceptions:
    single sign-on needs the header that a proxy adds; and the token hook
    panics for exactly the JSON bodies of a shape other than the one it takes
    for granted, such as [{}]. *)
Theorem requests_are_read c :
  no_panic (rq_body c) →
  (no_panic (parse_getAccessToken c) ∧ no_panic (parse_pwdAuth c) ∧ no_panic (parse_clientAccountAuth c) ∧ no_panic (parse_anonymous c) ∧
   no_panic (parse_anonymous2 c) ∧ no_panic (parse_createTicket c) ∧ no_panic (parse_sms c) ∧ no_panic (parse_log "audit_log" c) ∧
   no_panic (parse_log "unordered_audit_log" c) ∧ no_panic (convert c) ∧ no_panic (parse_setConfig c) ∧ no_panic (parse_putSession c) ∧
   no_panic (parse_register c)) ∧
  (rq_header c "X-Forwarded-For" ≠ [] → no_panic (parse_singleSignOn c)) ∧
  (no_panic (parse_tokenHook c) ↔ ∀ j, rq_body c = Ok (TJson j) → hook_shape j = true).
Proof.
  intros Hb. split_and!.
  - unfold parse_getAccessToken. read_body Hb Hm. text_field Hm "account". apply no_panic_bind; [apply basic_no_panic|done].
  - unfold parse_pwdAuth. read_body Hb Hm. text_field Hm "account". text_field Hm "password". apply no_panic_bind; [apply basic_no_panic|done].
  - unfold parse_clientAccountAuth. apply no_panic_bind; [by apply bind_no_panic|intros m _].
    do 3 (apply no_panic_bind; [apply member_string_no_panic|intros ? _]). apply no_panic_bind; [unfold member_struct; by destruct (jget m "option")|intros o _].
    do 2 (apply no_panic_bind; [apply member_string_no_panic|intros ? _]).
    apply no_panic_bind; [unfold member_int; destruct (jget o "vcodeType"); auto with isf|intros ? _]. apply no_panic_bind; [apply option_no_panic|done].
  - by apply anonymous_no_panic.
  - unfold parse_anonymous2. read_body Hb Hm. apply no_panic_bind; [by destruct (rq_basic c)|intros auth _].
    pose proof Hm as Hm'. destruct (object_field_reads _ _ _ _ Hm "credential" _ _ _ ltac:(in_fields) ltac:(in_fields)) as (cr & _ & -> & Hc). cbn [mbind outcome_bind].
    text_field Hc "account". string_field Hc "password". apply no_panic_bind; [by apply vcode_no_panic|done].
  - unfold parse_createTicket. read_body Hb Hm. text_field Hm "client_id". text_field Hm "refresh_token". done.
  - unfold parse_sms. read_body Hb Hm. text_field Hm "phone_number". text_field Hm "account". done.
  - unfold parse_log. read_body Hb Hm. string_field Hm "topic". apply no_panic_bind; [auto with isf|done].
  - unfold parse_log. read_body Hb Hm. string_field Hm "topic". apply no_panic_bind; [auto with isf|done].
  - apply convert_no_panic.
  - unfold parse_setConfig. apply no_panic_bind; [apply convert_no_panic|intros keys _]. read_body Hb Hm. apply no_panic_bind; [|done].
    apply ofold_no_panic. intros cfg k _. by apply setting_no_panic.
  - by apply putSession_no_panic.
  - by apply register_no_panic.
  - by apply singleSignOn_no_panic.
  - by apply tokenHook_no_panic.
Qed.
End requests.

(** ** Registration over HTTP *)
Lemma all_of_enum (enum l : list string) : NoDup enum → NoDup l → length enum ≤ length l → (∀ x, x ∈ l → x ∈ enum) → l ≡ₚ enum.
Proof. intros He Hl Hlen Hin. apply submseteq_length_Permutation; [by apply NoDup_submseteq|done]. Qed.
Lemma enum_array enum l ss :
  accepts (SArray (length enum) true (oneof enum)) (JArr l) = true → NoDup enum → omap_all assert_string l = Ok ss → ss ≡ₚ enum.
Proof.
  cbn [accepts]. rewrite !andb_true_iff, orb_false_l. intros [[Hlen%Nat.leb_le Hnd%bool_decide_eq_true] Hall] He Hs. rewrite forallb_forall in Hall.
  assert (l = JStr <$> ss ∧ ∀ x, x ∈ ss → x ∈ enum) as [-> Hin].
  { clear Hlen Hnd. revert ss Hs. induction l as [|j l IH]; intros ss Hs; simpl in Hs; [injection Hs as <-; split; [done|by intros x ?%elem_of_nil]|].
    apply bind_Ok in Hs as (s & Hj & Hs). apply bind_Ok in Hs as (ss' & Hs & [= <-]). destruct (IH ltac:(intros; apply Hall; by right) ss' Hs) as [-> Hin].
    destruct j; try done. injection Hj as ->. split; [done|]. intros x [->|?]%elem_of_cons; [|by apply Hin]. specialize (Hall (JStr s) ltac:(by left)). simpl in Hall. by apply bool_decide_eq_true in Hall. }
  rewrite length_fmap in Hlen. apply NoDup_fmap_1 in Hnd. by apply all_of_enum.
Qed.
Lemma scope_valid_perm s : scope_valid s = true → split_char " "%char s ≡ₚ ["offline"; "openid"; "all"].
Proof.
  unfold scope_valid. rewrite andb_true_iff. intros [Hs%bool_decide_eq_true Hl%Nat.eqb_eq]. symmetry. apply submseteq_length_Permutation; [|by rewrite Hl].
  apply NoDup_submseteq; [by_decision|]. intros x Hx. assert (x ∈@{gset string} list_to_set (split_char " "%char s)) as Hin by (rewrite Hs; set_solver). by apply elem_of_list_to_set in Hin.
Qed.

Section registration.
Context {W : Type} `{GoRuntime} `{AuthEnv} `{MessageSchema} `{!AuthSchemaLaw} `{JsonText} `{Bcrypt} `{!DnHydra W}.

Definition grant_types : list string := ["authorization_code"; "implicit"; "refresh_token"].
Definition response_types : list string := ["code"; "token"; "token id_token"].

Lemma enum_field m k enum l :
  accepts register_schema (JObj m) = true → (k, SArray (length enum) true (oneof enum)) ∈ match register_schema with SObject _ props _ => props | _ => [] end →
  NoDup enum → string_slice (jget m k) = Ok l → k ∈ ["grant_types"; "response_types"] → l ≡ₚ enum.
Proof.
  intros Hm Hk He Hs Hreq. unfold string_slice in Hs. apply bind_Ok in Hs as (js & Hj & Hs).
  destruct (m !! k) as [v|] eqn:Ev; unfold jget in Hj; rewrite Ev in Hj; [|done]. simpl in Hj.
  pose proof (field_accepts _ _ _ _ Hm k _ v Hk Ev) as Ha. destruct v; try done. injection Hj as ->. by eapply enum_array.
Qed.
(** What the parameters of a registration are. *)
Lemma parsed_registration c client :
  parse_register c = Ok client →
  ri_ClientName client ≠ "" ∧ ri_GrantTypes client ≡ₚ grant_types ∧ ri_ResponseTypes client ≡ₚ response_types ∧
  split_char " "%char (ri_Scope client) ≡ₚ ["offline"; "openid"; "all"] ∧ ri_PostLogoutRedirectURIs client ≠ [].
Proof.
  unfold parse_register. intros Hp. apply bind_Ok in Hp as (m & Hm & Hp). eapply bound_body in Hm; [|reflexivity].
  apply bind_Ok in Hp as (name & _ & Hp). apply bind_Ok in Hp as ([] & Hn & Hp). apply bind_Ok in Hp as (gt & Hg & Hp). apply bind_Ok in Hp as (rt & Hr & Hp).
  apply bind_Ok in Hp as (scope & _ & Hp). apply bind_Ok in Hp as ([] & Hs & Hp). apply bind_Ok in Hp as (md & _ & Hp). apply bind_Ok in Hp as (dev & _ & Hp).
  apply bind_Ok in Hp as (uris & _ & Hp). apply bind_Ok in Hp as (lo & _ & Hp). apply bind_Ok in Hp as ([] & Hl & [= <-]). simpl. split_and!.
  - by case_bool_decide.
  - eapply (enum_field m "grant_types"); [exact Hm|simpl; in_fields|by_decision|done|set_solver].
  - eapply (enum_field m "response_types"); [exact Hm|simpl; in_fields|by_decision|done|set_solver].
  - apply scope_valid_perm. by destruct (scope_valid scope).
  - by destruct lo.
Qed.

(** C35. What a registration establishes: a client is registered only with a
    name, exactly the three grant types, response types and scopes, a logout
    URI, and redirect URIs that start with a configured prefix where there is
    one.  The reply holds the id and the secret that hydra answered for these
    parameters, and one row is added, with that id and the hash of that
    secret. *)
Theorem registration_over_http c d (w : W) rep d' w' :
  publicRegister c (d, w) = (Ok rep, (d', w')) →
  ∃ client conf info secret, parse_register c = Ok client ∧
    ri_ClientName client ≠ "" ∧ ri_GrantTypes client ≡ₚ grant_types ∧ ri_ResponseTypes client ≡ₚ response_types ∧
    split_char " "%char (ri_Scope client) ≡ₚ ["offline"; "openid"; "all"] ∧ ri_PostLogoutRedirectURIs client ≠ [] ∧
    confDB_GetConfig [LimitRedirectURI] d = (Ok conf, d) ∧
    (cfg_LimitRedirectURI conf = ∅ ∨ Forall (λ uri, ∃ limit, is_Some (cfg_LimitRedirectURI conf !! limit) ∧ String.prefix limit uri = true) (ri_RedirectURIs client)) ∧
    Hydra_PublicRegister client w = (Ok info, w') ∧
    rep = auth_ReplyOK 201 (JsonReply (jobj [("client_id", JStr (ci_ClientID info)); ("client_secret", JStr (ci_ClientSecret info))])) ∧
    bcrypt_hash (ci_ClientSecret info) = Ok secret ∧
    ∃ row, t_client d' = t_client d ++ [row] ∧ cl_id row = ci_ClientID info ∧ cl_secret row = secret ∧ cl_name row = ri_ClientName client ∧
      cl_scope row = ri_Scope client ∧ cl_redirect_uris row = String.concat "|" (ri_RedirectURIs client) ∧
      cl_grant_types row = String.concat "|" (ri_GrantTypes client) ∧ cl_response_types row = String.concat "|" (ri_ResponseTypes client) ∧
      cl_post_logout row = String.concat "|" (ri_PostLogoutRedirectURIs client).
Proof.
  unfold publicRegister. intros Hr. mstep Hr as client Hp. mstep Hr as info Hi. injection Hr as <- ->.
  destruct (registration client d w info d' w' Hi) as (conf & secret & Hc & Hu & Hh & Hs & Ht). destruct (parsed_registration c client Hp) as (? & ? & ? & ? & ?).
  exists client, conf, info, secret. split_and!; try done. by exists (client_row_of client info secret).
Qed.
End registration.

(** ** The lifetime of codes *)
Section lifetime.
Context {W : Type} `{GoRuntime} `{AuthEnv} `{JsonText} `{!DnUserManagement W} `{!DrivenMessageBroker W} `{!ShareMgntConfig W}.
Context (outboxHandlers : Z → option (json → M W unit)).

(** Instances that hear the announcement of a new lifetime and instances that
    start after the change use the same one: the minutes that were set. *)
Lemma lifetime_agrees visitor keys cfg d (w : W) d' w' :
  NoDup (t_conf d).*1 → confKeyMap SMSExpiration ∈ (t_conf d).*1 → int_values cfg → SMSExpiration ∈ keys →
  SetConfig outboxHandlers visitor keys cfg (d, w) = (Ok tt, (d', w')) →
  let lifetime := (cfg_SMSExpiration cfg * 60 * second)%Z in
  (∀ (rt : GoRuntime) (env : AuthEnv) v, db_fault "conf.getConfig" = None → initSMSExpiration (d', v) = (Ok lifetime, (d', v))) ∧
  anonymousSmsExpUpdated (marshal (jobj [("anonymous_sms_expiration", JInt (cfg_SMSExpiration cfg))])) = Ok (Some lifetime).
Proof.
  intros Hnd Hin Hint Hk Hs lifetime. apply SetConfig_cases in Hs as [Hp Hw]. apply SetConfig_write_Ok in Hw as (Ht & Hf & _ & _).
  destruct (checkParams_Ok keys cfg Hp) as [_ Hb]. specialize (Hb Hk).
  assert (UpdateSMSExpiration (cfg_SMSExpiration cfg) = lifetime) as Hl.
  { unfold UpdateSMSExpiration, lifetime. rewrite int64_wrap_small; unfold second; lia. }
  split.
  - intros rt env v Hfault. destruct (getConfig_agrees (t_conf d') [SMSExpiration] cfg) as (cfg' & Hg & Ha); [done|by rewrite Hf|done|..].
    { by repeat constructor. }
    { intros k kv ->%list_elem_of_singleton. by apply Ht. }
    { intros k ->%list_elem_of_singleton. by rewrite Hf. }
    destruct Ha as (_ & _ & Ha). rewrite <-Hl, <-Ha by left. unfold initSMSExpiration, GetConfig, confDB_GetConfig, on_db, reads, mbind, M_bind. simpl.
    by rewrite Hg.
  - unfold anonymousSmsExpUpdated. cbn [unmarshal_map marshal jobj]. unfold jget. simpl list_to_map. rewrite lookup_insert_eq. cbn [default snd].
    unfold default, id. rewrite assert_JInt by lia. cbn. by rewrite Hl.
Qed.
End lifetime.

(** ** Administration over HTTP *)
Section administration.
Context {W : Type} `{GoRuntime} `{AuthEnv} `{MessageSchema} `{Introspection} `{LangMatcher} `{Rsa} `{Random} `{Jwt} `{JsonText} `{Mapstructure}.
Context `{!DnUserManagement W} `{!DnShareMgnt W} `{!DnHydra W} `{!DnEacp W} `{!DnEacpLog W} `{!DrivenMessageBroker W} `{!ShareMgntConfig W}.
Context (outboxHandlers : Z → option (json → M W unit)).

Inductive admin_endpoint : Set := SetPermission | DeletePermission | SetSettings.
Definition endpoint_handler (e : admin_endpoint) : Visitor → auth_request → M (auth_db * W) auth_reply :=
  match e with
  | SetPermission => h_setAppAccessTokenPerm outboxHandlers
  | DeletePermission => h_deleteAppAccessTokenPerm outboxHandlers
  | SetSettings => h_setConfig outboxHandlers
  end.
Definition endpoint_roles (e : admin_endpoint) : list RoleType :=
  match e with SetSettings => [SuperAdmin; SecurityAdmin] | _ => [SuperAdmin; SystemAdmin] end.
(** A real user with one of the roles, for a token with a subject. *)
Definition admin_of (accept : list RoleType) (v : Visitor) (w : W) : Prop :=
  vis_ID v ≠ "" → vis_Type v = RealName ∧ ∃ roles w', GetUserRolesByUserID (vis_ID v) w = (Ok roles, w') ∧ ∃ r, r ∈ roles ∧ r ∈ accept.

Lemma check_visitor_Ok v roles accept :
  CheckVisitorType v roles [RealName] accept = Ok tt → vis_Type v = RealName ∧ ∃ r, r ∈ roles ∧ r ∈ accept.
Proof.
  unfold CheckVisitorType. destruct (decide (vis_Type v ∈ [RealName])) as [Ht|Ht]; [rewrite bool_decide_true by done|rewrite bool_decide_false by done; by vm_compute].
  apply list_elem_of_singleton in Ht. rewrite bool_decide_true by done. destruct (existsb _ roles) eqn:Ex; [|by vm_compute]. intros _. split; [done|].
  apply existsb_exists in Ex as (r & Hin%list_elem_of_In & Hacc). exists r. split; [done|]. by apply bool_decide_eq_true in Hacc.
Qed.
Lemma conf_guard_admin v d (w : W) s : conf_guard (Some v) (d, w) = (Ok tt, s) → admin_of [SuperAdmin; SecurityAdmin] v w.
Proof.
  intros Hg Hne. simpl in Hg. rewrite bool_decide_false in Hg by done. unfold conf_checkAdmin in Hg. mstep Hg as roles Hr. unfold on_world in Hr. simpl in Hr.
  destruct (GetUserRolesByUserID (vis_ID v) w) as [r w1] eqn:E. injection Hr as -> _. rewrite lift_eq in Hg. injection Hg as Hg _.
  apply check_visitor_Ok in Hg as [? ?]. split; [done|]. by exists roles, w1.
Qed.
Lemma perm_guard_admin v d (w : W) s : perm_guard (Some v) (d, w) = (Ok tt, s) → admin_of [SuperAdmin; SystemAdmin] v w.
Proof. intros Hg%perm_guard_Ok Hne. by destruct (Hg v eq_refl Hne) as (? & ?). Qed.
Lemma keeps_db_conf_guard v : keeps_db (conf_guard (W := W) (Some v)).
Proof. simpl. case_bool_decide; [|unfold conf_checkAdmin]; auto with isf. Qed.
(** An operation that starts with its guard, then anything. *)
Lemma guarded_operation {A} (guard : M (auth_db * W) unit) (k : unit → M (auth_db * W) A) (P : Prop) d w r d' w' :
  keeps_db guard → (∀ s, guard (d, w) = (Ok tt, s) → P) → (x ← guard; k x) (d, w) = (r, (d', w')) → P ∨ (d' = d ∧ ∀ a, r ≠ Ok a).
Proof. intros Hk HP Hr. apply bind_keeps_db in Hr as [([] & w1 & Hg & _)|[-> Hn]]; [left; by eapply HP|by right|done]. Qed.
Lemma reply_after {A} (m : M (auth_db * W) A) (f : A → auth_reply) (P : Prop) d w r d' w' :
  (∀ r, m (d, w) = (r, (d', w')) → P ∨ (d' = d ∧ ∀ a, r ≠ Ok a)) → (x ← m; mret (f x)) (d, w) = (r, (d', w')) → P ∨ (d' = d ∧ ∀ rep, r ≠ Ok rep).
Proof.
  intros Hm Hr. unfold mbind, M_bind in Hr. destruct (m (d, w)) as [[a|e|why] s] eqn:E.
  - injection Hr as <- ->. destruct (Hm _ eq_refl) as [?|[_ Hn]]; [by left|by destruct (Hn a)].
  - injection Hr as <- ->. destruct (Hm _ eq_refl) as [?|[-> _]]; [by left|by right].
  - injection Hr as <- ->. destruct (Hm _ eq_refl) as [?|[-> _]]; [by left|by right].
Qed.

(** C17. The public endpoints that administer permissions and settings act for
    an administrator only: unless the token of the request is active and its
    subject is empty or a real user with an administrative role, no table
    changes and the request is not answered with success. *)
Theorem public_administration e c d (w : W) r d' w' :
  public_endpoint (endpoint_handler e) c (d, w) = (r, (d', w')) →
  (∃ v, Verify c = Ok v ∧ admin_of (endpoint_roles e) v w) ∨ (d' = d ∧ ∀ rep, r ≠ Ok rep).
Proof.
  unfold public_endpoint. intros Hr. unfold mbind at 1, M_bind at 1, lift at 1 in Hr.
  destruct (Verify c) as [v|er|why]; [|injection Hr as <- <- <-; by right..].
  enough (admin_of (endpoint_roles e) v w ∨ (d' = d ∧ ∀ rep, r ≠ Ok rep)) as [?|?]; [left; by exists v|by right|]. destruct e; simpl in Hr.
  - revert Hr. apply reply_after. intros r0. apply guarded_operation; [apply keeps_db_perm_guard|apply perm_guard_admin].
  - revert Hr. apply reply_after. intros r0. apply guarded_operation; [apply keeps_db_perm_guard|apply perm_guard_admin].
  - unfold h_setConfig in Hr. unfold mbind at 1, M_bind at 1, lift at 1 in Hr. destruct (parse_setConfig c) as [[keys cfg]|er|why]; [|injection Hr as <- <- <-; by right..].
    revert Hr. apply reply_after. intros r0. apply guarded_operation; [apply keeps_db_conf_guard|apply conf_guard_admin].
Qed.
End administration.
