(* ===== verification/AuthSample.v ===== *)
(** * A sample deployment of the authentication service

    Instances of every interface and small tables, on which the theorems about
    the service are applied. *)
From Stdlib Require Import Ascii.
From S2P Require Import Prelude Strconv Json SchemaLang AuthBase AuthStore Ticket Des Sms SmsSpec Outbox AuthConf TokenPerm AuthSession UserAccount Login LoginSpec AuditTask FlowClean AuthRest AuthHandlers AuthHandlersSpec.

(** ** The deployment *)
Definition demo_env (t : Z) : AuthEnv :=
  {| time_Now := t * second; businessTimeOffset := 0; db_fault _ := None; db_begin_fault := None; db_commit_fault := None; ulid n := pretty (Z.of_nat n) |}.
Definition demo_now : AuthEnv := demo_env 100000.
Definition demo_runtime : GoRuntime := canonical_runtime.
Definition demo_rsa : Rsa := {| base64_decode s := inr s; rsa_decrypt s := inr s |}.
Definition demo_random : Random.
Proof. refine {| Intn i n := i `mod` n |}. intros i n Hn. apply Nat.mod_upper_bound. lia. Defined.

Section world.
Context {W : Type}.
Definition demo_user (id : string) : UserBaseInfo :=
  {| u_ID := id; u_Account := id; u_AuthType := Local; u_PwdErrCnt := 0; u_PwdErrLastTime := 0; u_DisableStatus := false; u_LDAPType := NoLDAP; u_DomainPath := "" |}.
Definition demo_users : DnUserManagement W := {|
  AnonymousAuthentication _ _ _ := mret true;
  GetUserRolesByUserID id := mret (if bool_decide (id = "admin") then [SuperAdmin] else [NormalUser]);
  GetAppInfo id := mret {| app_ID := id; app_Name := "app" |};
  AccountMatch account _ _ := mret (true, demo_user account);
  UserAuth _ _ := mret (true, "");
  UpdatePWDErrInfo _ _ := mret tt;
  GetAnonymityInfoByID _ := mret true;
  GetUserInfo id := mret (demo_user id)
|}.
Definition demo_sharemgnt : DnShareMgnt W := {|
  UsrmSMSValidate _ _ := mret None; UsrmOTPValidate _ _ := mret None; UsrmIMAGECodeValidate _ _ := mret None;
  UsrmDomainAuth _ _ _ _ := mret (inr true); UsrmThirdAuth _ _ := mret (inr true); UsrmSendAnonymousSMSVCode _ _ := mret tt
|}.
Definition demo_token : TokenInfo :=
  {| tok_Code := ""; tok_AccessToken := "token"; tok_IDToken := ""; tok_TokenType := "bearer"; tok_Scope := "all"; tok_ExpirsesIn := 3600; tok_ResponseType := "token" |}.
Definition demo_hydra : DnHydra W := {|
  AuthorizeRequest _ := mret ("challenge", "session"); VerifierLogin _ _ := mret ("challenge", "session"); VerifierConsent _ _ _ := mret demo_token;
  GetTokenEndpoint := mret "/token"; AssertionForToken _ _ _ := mret demo_token;
  GetLoginRequestInformation _ := mret {| dev_Name := ""; dev_ClientType := "web"; dev_Description := "" |};
  AcceptLoginRequest _ _ := mret "/"; AcceptConsentRequest _ _ _ := mret "/";
  Hydra_PublicRegister _ := mret {| ci_ClientID := "c1"; ci_ClientSecret := "secret" |};
  CreateTrustedPair _ _ := mret tt; GetKidTrustedPairByIssuer _ := mret ∅; SetAppAsUserAgent _ := mret tt; DeleteSession _ _ := mret tt;
  IntrospectRefreshToken _ := mret {| rti_ClientID := "c1"; rti_Sub := "u1" |};
  GetClientInfo id := mret {| ci_ClientID := id; ci_ClientSecret := "" |}
|}.
Definition demo_eacp : DnEacp W := {| ThirdPartyAuthentication _ := mret {| li_Subject := "u1"; li_Context := JNull |} |}.
Definition demo_log : DnEacpLog W := {| Publish _ _ := mret tt; OpSetAppAccessTokenPerm _ _ := mret tt; OpDeleteAppAccessTokenPerm _ _ := mret tt |}.
Definition demo_broker : DrivenMessageBroker W := {| AnonymousSmsExpUpdated _ := mret tt |}.
(** The settings of the login. *)
Definition demo_settings : list (string * string) :=
  [("id_card_login_status", "false"); ("enable_pwd_lock", "true"); ("enable_third_pwd_lock", "false"); ("pwd_err_cnt", "2"); ("pwd_lock_time", "10");
   ("vcode_login_config", "off"); ("enable_tri_system_status", "false")].
Definition demo_config : ShareMgntConfig W := {| t_sharemgnt_config _ := demo_settings; t_domain_enabled _ := false |}.
End world.

(** The only token is ["h.p.s"], of an assertion for the app ["app1"]; the
    text ["off"] is a configuration of the image code, ["uris"] one of the
    redirect URIs. *)
Definition demo_jwt : Jwt := {|
  jwt_sign _ privateClaims := if bool_decide (privateClaims = realname_claims "app1") then Ok "h.p.s" else Err (MkErr "jwt" "" []);
  base64_url s := if bool_decide (s = "p===") then Some "payload" else None;
  uuid_NewV4 := "uuid"
|}.
Definition demo_json : JsonText := {|
  json_parse s := if bool_decide (s = "payload") then Some (JObj (realname_claims "app1"))
                  else if bool_decide (s = "off") then Some (jobj [("isEnable", JBool false); ("passwdErrCnt", JInt 3)])
                  else if bool_decide (s = "uris") then Some (JArr [JStr "https://a"]) else None
|}.
Definition demo_mapstructure : Mapstructure := {| decode_visitor _ := Err json_type_error |}.
Definition demo_bcrypt : Bcrypt := {| bcrypt_hash s := Ok ("hash of " +:+ s) |}.
Definition demo_schema : MessageSchema := {|
  schema_Validate name body :=
    match auth_schemas !! name, body with
    | Some sch, TJson j => if accepts sch j then None else Some "does not conform"
    | Some _, TRaw _ => Some "not JSON"
    | None, _ => None
    end
|}.
Lemma demo_schema_law : @AuthSchemaLaw demo_schema.
Proof.
  split. intros name sch j E. unfold schema_Validate, demo_schema. rewrite E. by destruct (accepts sch j).
Qed.
Definition demo_introspection : Introspection := {|
  introspect_reply token :=
    inr (200%Z, marshal (if bool_decide (token = "ta") then
      jobj [("active", JBool true); ("sub", JStr "admin"); ("scope", JStr "all"); ("client_id", JStr "web");
            ("ext", jobj [("visitor_type", JStr "realname"); ("login_ip", JStr ""); ("udid", JStr ""); ("account_type", JStr "other"); ("client_type", JStr "web")])]
      else jobj [("active", JBool false)]));
  reply_string _ := ""
|}.
Definition demo_language : LangMatcher := {| matched_language _ := SimplifiedChinese |}.
#[export] Existing Instances demo_now demo_runtime demo_rsa demo_random demo_users demo_sharemgnt demo_hydra demo_eacp demo_log demo_broker demo_config
  demo_jwt demo_json demo_mapstructure demo_bcrypt demo_schema demo_schema_law demo_introspection demo_language | 200.

Definition empty_db : auth_db :=
  {| t_ticket := []; t_sms := []; t_perm := []; t_outbox := []; t_unordered := []; t_session := []; t_conf := []; t_client := []; n_ulid := 0; n_id := 1 |}.
Definition demo_visitor (id : string) (typ : VisitorType) : Visitor :=
  {| vis_ID := id; vis_IP := ""; vis_Mac := ""; vis_UserAgent := ""; vis_Type := typ; vis_Language := SimplifiedChinese |}.

(** ** Tickets *)
Definition demo_tickets : auth_db :=
  set_ticket (λ _, [{| tk_id := "old"; tk_user_id := "u1"; tk_client_id := "c2"; tk_create_time := 1 |};
                    {| tk_id := "new"; tk_user_id := "u1"; tk_client_id := "c2"; tk_create_time := 99999 |}]) empty_db.
Lemma ticket_cleaning_ends_witness : ∃ d', ticket_clean 3 demo_tickets = Some d' ∧ tk_id <$> t_ticket d' = ["new"].
Proof.
  destruct (ticket_cleaning_ends demo_tickets 3) as (d' & Hc & _ & Ht); [simpl; lia|by_decision|]. exists d'. split; [exact Hc|].
  rewrite Ht by reflexivity. vm_compute. reflexivity.
Defined.

Definition demo_gen (n : nat) : string := pretty (Z.of_nat n).
Lemma demo_gen_inj : Inj (=) (=) demo_gen.
Proof. intros m n E. unfold demo_gen in E. apply (inj pretty), (inj Z.of_nat) in E. exact E. Qed.
Definition demo_drawn : auth_db := (CreateTicket {| tr_ClientID := "c2"; tr_RefreshToken := "r" |} (empty_db, tt)).2.1.
Definition demo_history : list ticket_event :=
  ([] ++ [Drawn "0" (Some {| rti_ClientID := "c1"; rti_Sub := "u1" |}) "c2" (100000 * second)]) ++ [Redeemed "0" "u1" "c2" (100000 * second)].
Lemma demo_ticket_run : ticket_run (W := unit) demo_gen demo_history (set_ticket (λ _, []) demo_drawn).
Proof.
  eapply Ticket.run_step; [eapply Ticket.run_step; [apply (Ticket.run_start _ empty_db); reflexivity|]|].
  - apply (Ticket.step_draw demo_gen demo_runtime demo_now demo_rsa demo_hydra demo_users {| tr_ClientID := "c2"; tr_RefreshToken := "r" |} empty_db tt "0" demo_drawn tt);
      [reflexivity|vm_compute; reflexivity].
  - apply (Ticket.step_redeem demo_gen demo_runtime demo_now "0" "c2" "u1"). vm_compute. reflexivity.
Qed.
Lemma ticket_single_use_witness : ∃ info t0, Drawn "0" (Some info) "c2" t0 ∈ demo_history ∧ rti_Sub info = "u1".
Proof.
  destruct (@ticket_single_use unit demo_gen demo_gen_inj demo_history _ demo_ticket_run) as [_ Hr].
  destruct (Hr "0" "u1" "c2" (100000 * second)%Z) as (info & t0 & Hin & Hsub & _); [right; left|]. exists info, t0. split; [exact Hin|exact Hsub].
Defined.

(** ** Codes *)
Definition demo_info : AnonymousSMSInfo :=
  {| as_ID := "s1"; as_PhoneNumber := "13800000000"; as_AnonymityID := "link"; as_Content := "123456"; as_CreateTime := 99990 |}.
Lemma stored_code_reads_back_witness :
  let d' := (smsDB_Create demo_info empty_db).2 in smsDB_GetInfoByID "s1" d' = (Ok demo_info, d').
Proof.
  intros d'. apply (stored_code_reads_back demo_info empty_db d').
  - apply NoDup_nil_2.
  - reflexivity.
  - vm_compute. reflexivity.
Defined.
(** A code, and another one ten seconds later: the first is deleted. *)
Definition demo_sent_first : auth_db :=
  (@CreateAndSendVCode unit (demo_env 99990) _ _ _ (300 * second) (demo_visitor "" NoVisitorType) "13800000000" "link" (empty_db, tt)).2.1.
Definition demo_sent : auth_db := (CreateAndSendVCode (300 * second) (demo_visitor "" NoVisitorType) "13800000000" "link" (demo_sent_first, tt)).2.1.
Lemma sent_code_alone_is_valid_witness : ∃ info, as_ID info = "1" ∧
  sms_Validate (300 * second) (demo_visitor "" NoVisitorType) "1" (as_Content info) "link" demo_sent
  = (validate_answer (300 * second) (demo_visitor "" NoVisitorType) (as_Content info) info, demo_sent) ∧
  (sms_Validate (300 * second) (demo_visitor "" NoVisitorType) "0" (as_Content info) "link" demo_sent).1 ≠ Ok "13800000000".
Proof.
  destruct (sent_code_alone_is_valid (300 * second) (demo_visitor "" NoVisitorType) "13800000000" "link" demo_sent_first tt "1" demo_sent tt)
    as (info & l & col & Hphone & Hid & _ & _ & _ & _ & _ & Hcol & Hrow & Hl & Hv).
  - by_decision.
  - vm_compute. reflexivity.
  - exists info. split; [exact Hid|]. destruct (Hv demo_runtime demo_now (demo_visitor "" NoVisitorType) (as_Content info) "link" (300 * second)%Z demo_sent Hl) as [Hnew Hold].
    split; [apply Hnew; [reflexivity|exact Hrow]|].
    change (Ok "13800000000" = Ok (as_PhoneNumber info)) in Hphone. injection Hphone as Hphone. rewrite <-Hphone in Hcol.
    refine (Hold _ _ {| sm_id := "0"; sm_phone_number := "a88c439e6e7bd6e6bca3adebce535421"; sm_anonymity_id := "link"; sm_content := "012345"; sm_create_time := 99990 |}
      _ _ _ _ "13800000000").
    + vm_compute. congruence.
    + vm_compute. congruence.
    + vm_compute. left.
    + vm_compute. discriminate.
    + vm_compute in Hcol. injection Hcol as Hcol. exact Hcol.
    + reflexivity.
Defined.

(** ** The outbox *)
Definition demo_handlers {W : Type} (t : Z) : option (json → M W unit) :=
  if bool_decide (t = OutboxDeleteHydraSession) then Some deleteHydraSession
  else if bool_decide (t = OutboxAnonymousSmsExpUpdated) then Some sendAnonymousSmsExpUpdatedMsg
  else if bool_decide (t ∈ [OutboxSetAppAccessTokenPermLog; OutboxDeleteAppAccessTokenPermLog; OutboxSendAuditLog]) then Some (λ _, mret tt) else None.
Definition demo_message (id : Z) : outbox_row :=
  {| ob_id := id; ob_business_type := OutboxConfig;
     ob_message := marshal_msg {| om_Type := OutboxAnonymousSmsExpUpdated; om_Content := jobj [("anonymous_sms_expiration", JInt 5)] |}; ob_create_time := id |}.
Definition demo_outbox : auth_db := set_outbox (λ _, [demo_message 2; demo_message 1]) empty_db.
Lemma outbox_loop_delivers_witness : ∃ (sent : list outbox_row) (r : outcome bool) (d' : auth_db), push_loop (W := unit) demo_handlers 3 OutboxConfig (demo_outbox, tt) = Some (r, (d', tt)) ∧
  t_outbox d' = filter (λ row, row ∉ sent) (t_outbox demo_outbox).
Proof.
  destruct (outbox_loop_delivers (W := unit) demo_handlers 3 OutboxConfig demo_outbox tt) as (sent & r & d' & [] & Hp & Hl).
  - by_decision.
  - vm_compute. lia.
  - exists sent, r, d'. split; [exact Hp|]. apply Hl.
Defined.
Lemma no_message_is_forgotten_witness :
  pending NewOutbox = true ∨ needTimer NewOutbox = true.
Proof.
  apply (no_message_is_forgotten (W := unit) demo_handlers OutboxConfig {| ts_db := demo_outbox; ts_world := tt; ts_thread := NewOutbox |}).
  - apply reach_start. intros row [_ Hrow]%list_elem_of_filter. simpl in Hrow. rewrite !elem_of_cons, elem_of_nil in Hrow.
    destruct Hrow as [-> | [-> | []]]; discriminate.
  - vm_compute. discriminate.
Defined.

(** ** Settings *)
Definition demo_conf_db : auth_db := set_conf (λ _, [("remember_for", "0"); ("anonymous_sms_expiration", "5")]) empty_db.
Definition demo_new_config : Config :=
  {| cfg_RememberFor := 7; cfg_RememberVisible := false; cfg_EnableIDCardLogin := false; cfg_EnablePWDLock := false; cfg_EnableThirdPWDLock := false;
     cfg_PWDErrCnt := 0; cfg_PWDLockTime := 0; cfg_VCodeConfig := {| vc_Enable := false; vc_PWDErrCnt := 0 |}; cfg_SMSExpiration := 30;
     cfg_LimitRedirectURI := ∅; cfg_TriSystemStatus := false |}.
Definition demo_conf_keys : list ConfigKey := [RememberFor; SMSExpiration].
Definition demo_conf_set : outcome unit * (auth_db * unit) :=
  SetConfig demo_handlers (Some (demo_visitor "admin" RealName)) demo_conf_keys demo_new_config (demo_conf_db, tt).
Lemma config_reads_back_witness : ∃ cfg', confDB_GetConfig demo_conf_keys demo_conf_set.2.1 = (Ok cfg', demo_conf_set.2.1) ∧ agree demo_conf_keys demo_new_config cfg'.
Proof.
  destruct (config_reads_back demo_handlers (Some (demo_visitor "admin" RealName)) demo_conf_keys demo_new_config demo_conf_db tt demo_conf_set.2.1 tt) as (_ & _ & Hr).
  - by_decision.
  - intros k Hk. unfold demo_conf_keys in Hk. rewrite !elem_of_cons, elem_of_nil in Hk. destruct Hk as [-> | [-> | []]]; by_decision.
  - split; vm_compute; split; congruence.
  - vm_compute. reflexivity.
  - apply Hr. reflexivity.
Defined.

(** ** Permissions and assertions *)
Definition demo_granted : outcome unit * (auth_db * unit) := administer demo_handlers Grant (Some (demo_visitor "admin" RealName)) "app1" (empty_db, tt).
Lemma token_permission_administration_witness : "app1" ∈ apps demo_granted.2.1.
Proof.
  destruct (token_permission_administration demo_handlers Grant (Some (demo_visitor "admin" RealName)) "app1" empty_db tt (Ok tt) demo_granted.2.1 tt) as (_ & Hg & _).
  - vm_compute. reflexivity.
  - apply Hg; reflexivity.
Defined.

Lemma demo_jwt_law : JwtLaw.
Proof.
  split. intros claims priv t. unfold jwt_sign, demo_jwt. case_bool_decide as E; [|done]. intros [= <-]. subst priv.
  exists "h", "p", "s", (realname_claims "app1"). split_and!; [reflexivity|vm_compute; reflexivity|done].
Qed.
Definition demo_assertion : outcome string * (auth_db * unit) := GetAssertionByUserID (demo_visitor "app1" Business) "u1" (demo_granted.2.1, tt).
Lemma assertion_is_bound_to_its_app_witness :
  TokenHook "h.p.s" "app1" = Ok realname_ext ∧ TokenHook "h.p.s" "app2" = Err (http_error "Invalid client_id." Forbidden []).
Proof.
  destruct (@assertion_is_bound_to_its_app unit _ _ _ _ _ demo_jwt_law (demo_visitor "app1" Business) "u1" demo_granted.2.1 tt "h.p.s" demo_assertion.2.1 tt)
    as (_ & _ & _ & Hh).
  - vm_compute. reflexivity.
  - split; rewrite Hh; reflexivity.
Defined.

(** ** Notices *)
Definition demo_notices : list notice := [SessionsDeleted "u1" (Some "c1"); PasswordModified "u2"].
Lemma notices_end_sessions_witness :
  let s := {| mq_clientID := ""; mq_db := empty_db |} in ∃ rows s', for_each (handle (W := unit) demo_handlers) demo_notices s = (Ok tt, s') ∧ length rows = 2 ∧ t_outbox (mq_db s') = rows.
Proof.
  intros s. destruct (notices_end_sessions (W := unit) demo_handlers eq_refl demo_notices s) as (rows & s' & Hf & Ht & Hr).
  - reflexivity.
  - reflexivity.
  - reflexivity.
  - repeat constructor; discriminate || reflexivity.
  - exists rows, s'. split; [exact Hf|]. apply Forall2_length in Hr. split; [exact Hr|]. exact Ht.
Defined.

(** ** Logins: two wrong passwords lock the account for ten minutes *)
Definition demo_user_conf : UserConf :=
  {| uc_EnablePwdLock := true; uc_EnableThirdPwdLock := false; uc_PwdLockTime := 10; uc_StrongPwdStatus := false; uc_StrongPwdLength := 8;
     uc_PwdExpireTime := -1; uc_UserDefaultMd5PWD := "md5 default"; uc_UserDefaultSha2PWD := "sha default" |}.
Definition demo_user_env : UserEnv :=
  {| user_conf := Ok demo_user_conf; encodeSha2 s := "sha " +:+ s; encodeMD5 s := "md5 " +:+ s; base64_encode := String.string_of_list_ascii; user_fault _ := None |}.
#[export] Existing Instance demo_user_env | 200.
Definition demo_row (id name : string) : user_row :=
  {| us_id := id; us_login_name := name; us_auth_type := Local; us_idcard := ""; us_err_cnt := 0; us_err_last := 0; us_enabled := true; us_auto_enabled := true;
     us_ldap := NoLDAP; us_domain_path := ""; us_password := ""; us_sha2_password := "sha secret"; us_pwd_timestamp := 0; us_pwd_control := false |}.
Definition demo_user_db : user_db := [demo_row "u0" "bob"; demo_row "u1" "alice"].
Definition demo_login_config : Config :=
  {| cfg_RememberFor := 0; cfg_RememberVisible := false; cfg_EnableIDCardLogin := false; cfg_EnablePWDLock := true; cfg_EnableThirdPWDLock := false;
     cfg_PWDErrCnt := 2; cfg_PWDLockTime := 10; cfg_VCodeConfig := {| vc_Enable := false; vc_PWDErrCnt := 3 |}; cfg_SMSExpiration := 0;
     cfg_LimitRedirectURI := ∅; cfg_TriSystemStatus := false |}.
Definition demo_login (t : Z) (password : string) : AuthEnv * ClientLoginReq :=
  (demo_env t, {| cr_Method := "POST"; cr_Account := "alice"; cr_Password := password; cr_Option := {| op_UUID := ""; op_VCode := ""; op_VCodeType := NoVCode |} |}).
Lemma demo_account_ok : account_ok demo_user_conf demo_login_config demo_user_db (demo_row "u1" "alice").
Proof. split; try by_decision; try reflexivity; try (split; reflexivity). right. left. Qed.
Lemma demo_login_ok t password :
  (0 ≤ t)%Z → password ≠ "" → login_ok demo_login_config demo_settings "alice" (demo_login t password).
Proof. intros Ht Hp. split; try reflexivity; [simpl; unfold second; lia|exact Hp]. Qed.
(** Locked at 100060, forgotten at 100660: the right password is refused in
    between and accepted after. *)
Definition demo_attempts : list (AuthEnv * ClientLoginReq) :=
  [demo_login 100000 "guess"; demo_login 100060 "again"; demo_login 100100 "secret"; demo_login 100659 "secret"; demo_login 100660 "secret"].
Lemma demo_attempts_ok : Forall (login_ok demo_login_config demo_settings "alice") demo_attempts.
Proof. repeat constructor; simpl; unfold second; lia || discriminate. Qed.
Lemma logins_refine_lockout_witness :
  let rs := (login_run (V := unit) demo_users (demo_visitor "" RealName) demo_attempts (empty_db, (demo_user_db, tt))).1 in
  Forall2 (answers "u1") [Refused; Refused; LockedOut; LockedOut; Granted] rs.
Proof.
  pose proof (logins_refine_lockout demo_users demo_user_conf demo_login_config demo_settings (demo_visitor "" RealName) demo_attempts demo_user_db (demo_row "u1" "alice") empty_db tt
    demo_account_ok demo_attempts_ok eq_refl (λ _, eq_refl)) as Hr.
  cbn zeta in Hr |- *. destruct (login_run _ _ _ _) as [rs [d' [us v']]]. apply Hr.
Defined.
Lemma login_lockout_witness :
  let run := (login_run (V := unit) demo_users (demo_visitor "" RealName) (take 3 demo_attempts) (empty_db, (demo_user_db, tt))).1 in
  Forall (λ r, ∀ id, r ≠ Ok id) (drop 2 run).
Proof.
  apply Forall_forall.
  apply (login_lockout demo_users demo_user_conf demo_login_config demo_settings (demo_visitor "" RealName)
    (demo_login 100000 "guess") [demo_login 100060 "again"] [demo_login 100100 "secret"] demo_user_db (demo_row "u1" "alice") empty_db tt demo_account_ok).
  - exact (Forall_take _ 3 _ demo_attempts_ok).
  - reflexivity.
  - reflexivity.
  - reflexivity.
  - reflexivity.
  - reflexivity.
  - reflexivity.
  - by_decision.
  - apply (quick_cons (@unix_now (demo_env 100000)) (@unix_now (demo_env 100060))); [vm_compute; split; congruence|apply quick_nil].
  - by_decision.
Defined.

(** ** Audit entries: two instances, one of them up to its deletion *)
Definition demo_logged (d : auth_db) : auth_db := (async_Log "login" (JStr "entry") d).2.
Definition demo_task (d : auth_db) (cs : list call) (ws : list worker) : task_state unit := {| ta_db := d; ta_calls := cs; ta_world := tt; ta_workers := ws |}.
Definition demo_entry : text := log_text "login" (JStr "entry").
(** The steps of the first thread up to its deletion. *)
Definition demo_next (x : worker) : M (auth_db * (list call * unit)) worker := @thread_next _ demo_runtime demo_now (recording demo_log) x.
Fixpoint demo_thread (n : nat) (x : worker) (s : auth_db * (list call * unit)) : worker * (auth_db * (list call * unit)) :=
  match n with 0 => (x, s) | S n => let r := demo_next x s in demo_thread n (after r.1) r.2 end.
Definition demo_after (n : nat) : task_state unit :=
  let r := demo_thread n Waiting (demo_logged empty_db, ([], tt)) in
  {| ta_db := r.2.1; ta_calls := r.2.2.1; ta_world := r.2.2.2; ta_workers := [r.1; Waiting] |}.
Definition demo_events : list log_event :=
  ((((((([] ++ []) ++ []) ++ [Logged "login" (JStr "entry")]) ++ []) ++ [Restarted []]) ++ []) ++ []) ++ [].
Ltac demo_step n :=
  let s := constr:(demo_thread n Waiting (demo_logged empty_db, ([], tt))) in let r := constr:(demo_next s.1 s.2) in
  refine (AuditTask.step_thread demo_runtime demo_now demo_log 0 s.1 r.1 s.2.1 r.2.1 s.2.2.1 r.2.2.1 s.2.2.2 r.2.2.2 [s.1; Waiting] _ _);
  [reflexivity|vm_compute; reflexivity].
Lemma demo_task_run : task_run (demo_task empty_db [] []) demo_events (demo_after 5).
Proof.
  eapply AuditTask.run_step with (s := demo_after 4); [eapply AuditTask.run_step with (s := demo_after 3); [eapply AuditTask.run_step with (s := demo_after 2);
    [eapply AuditTask.run_step with (s := demo_after 1); [eapply AuditTask.run_step with (s := demo_after 0); [eapply AuditTask.run_step; [eapply AuditTask.run_step;
    [eapply AuditTask.run_step; [apply AuditTask.run_start|]|]|]|]|]|]|]|].
  - apply AuditTask.step_start.
  - apply AuditTask.step_start.
  - apply (AuditTask.step_log demo_now); reflexivity.
  - demo_step 0.
  - demo_step 1.
  - demo_step 2.
  - demo_step 3.
  - demo_step 4.
Qed.
Example demo_after_publish : ta_workers (demo_after 5) = [Pushing (AtTry 1 demo_entry AtDelete); Waiting] ∧ ta_calls (demo_after 5) = [("login", JStr "entry", true)].
Proof. vm_compute. done. Qed.
Lemma audit_entries_survive_witness : Logged "login" (JStr "entry") ∈ demo_events.
Proof.
  apply (audit_entries_survive (demo_task empty_db [] []) _ _ "login" (JStr "entry") (conj eq_refl (conj eq_refl eq_refl)) demo_task_run) with true.
  vm_compute. left.
Defined.
Lemma claims_are_exclusive_witness : holders 1 (ta_workers (demo_after 5)) ≤ S (resets 1 demo_events) ∧ holders 1 (ta_workers (demo_after 5)) = 1.
Proof.
  split; [exact (claims_are_exclusive (demo_task empty_db [] []) _ _ 1%Z (conj eq_refl (conj eq_refl eq_refl)) demo_task_run)|vm_compute; reflexivity].
Defined.
Lemma audit_loop_drains_witness : ∃ d', audit_loop (W := unit) 7 (Pushing AtRestart) (demo_logged empty_db, tt) = Some (Ok tt, (d', tt)) ∧ t_unordered d' = [].
Proof.
  destruct (@audit_loop_drains unit demo_runtime demo_now demo_log (λ _, eq_refl) (λ _ _ w, ex_intro _ w eq_refl) 7 (demo_logged empty_db) tt) as (d' & [] & Hl & Ht).
  - by_decision.
  - intros row Hrow. simpl in Hrow. apply list_elem_of_singleton in Hrow as ->. exists "login", (JStr "entry"). reflexivity.
  - vm_compute. lia.
  - exists d'. split; [exact Hl|]. rewrite Ht. vm_compute. reflexivity.
Defined.

(** ** Flows: the refresh token ["r1"] and the flow ["f1"] are old *)
Definition demo_hydra_db : hydra_db :=
  {| t_refresh := [{| rf_signature := "r1"; rf_challenge_id := Some "k1"; rf_requested_at := 0 |};
                   {| rf_signature := "r2"; rf_challenge_id := Some "k2"; rf_requested_at := 99999 * second |}];
     t_flow := [{| fl_login_challenge := "f1"; fl_consent_challenge_id := Some "k1"; fl_requested_at := 0 |};
                {| fl_login_challenge := "f2"; fl_consent_challenge_id := Some "k2"; fl_requested_at := 0 |}];
     t_jti := []; t_networks := [] |}.
Lemma flow_cleaning_witness : ∃ d', CleanFlow 1 3 demo_hydra_db = Some (Ok tt, d') ∧ rf_signature <$> t_refresh d' = ["r2"] ∧ fl_login_challenge <$> t_flow d' = ["f2"].
Proof.
  destruct (flow_cleaning 1 3 demo_hydra_db) as (r & d' & Hc & _ & _ & Hn); [vm_compute; lia|by_decision|by_decision|].
  destruct (Hn (λ _, eq_refl)) as (-> & Hr & Hf). exists d'. split; [exact Hc|]. split; [rewrite Hr; vm_compute; reflexivity|].
  rewrite Hf. revert Hr. destruct d' as [refresh flow jti networks]. cbn [t_refresh]. intros ->. vm_compute. reflexivity.
Defined.

(** ** Requests *)
Definition demo_request (token : string) (body : json) : auth_request :=
  {| rq_header key := if bool_decide (key = "Authorization") then ["Bearer " +:+ token] else []; rq_param _ := "app1"; rq_query _ := None; rq_basic := None;
     rq_ip := "127.0.0.1"; rq_body := Ok (TJson body) |}.
Definition demo_register_body : json := jobj
  [("client_name", JStr "client"); ("grant_types", JArr [JStr "implicit"; JStr "authorization_code"; JStr "refresh_token"]);
   ("response_types", JArr [JStr "token id_token"; JStr "code"; JStr "token"]); ("scope", JStr "offline openid all");
   ("redirect_uris", JArr [JStr "https://a/callback"]); ("post_logout_redirect_uris", JArr [JStr "https://a/out"]);
   ("metadata", jobj [("device", jobj [("client_type", JStr "web")])])].
(** A token request without an assertion is read; the body [{}] is not. *)
Lemma requests_are_read_witness :
  no_panic (parse_register (demo_request "ta" demo_register_body)) ∧
  no_panic (parse_tokenHook (demo_request "ta" (jobj [("request", jobj [("payload", jobj [])])]))) ∧
  (no_panic (parse_tokenHook (demo_request "ta" (jobj []))) → False).
Proof.
  split; [|split].
  - apply (@requests_are_read _ _ _ demo_schema_law (demo_request "ta" demo_register_body)). discriminate.
  - apply (@requests_are_read _ _ _ demo_schema_law (demo_request "ta" (jobj [("request", jobj [("payload", jobj [])])]))); [discriminate|].
    intros j Hj. injection Hj as Hj. subst j. reflexivity.
  - intros Hn. destruct (@requests_are_read _ _ _ demo_schema_law (demo_request "ta" (jobj []))) as (_ & _ & Hh & _); [discriminate|].
    specialize (Hh Hn (jobj []) eq_refl). discriminate Hh.
Defined.

Definition demo_registered : outcome auth_reply * (auth_db * unit) :=
  publicRegister (demo_request "ta" demo_register_body) (set_conf (λ _, [("oauth2_redirect_uris", "uris")]) empty_db, tt).
Lemma registration_over_http_witness : ∃ client info secret row, ri_ClientName client ≠ "" ∧ Hydra_PublicRegister client tt = (Ok info, tt) ∧
  bcrypt_hash (ci_ClientSecret info) = Ok secret ∧ t_client demo_registered.2.1 = [row] ∧ cl_secret row = secret.
Proof.
  destruct (@registration_over_http unit _ _ _ demo_schema_law _ _ _ (demo_request "ta" demo_register_body)
    (set_conf (λ _, [("oauth2_redirect_uris", "uris")]) empty_db) tt (auth_ReplyOK 201 (JsonReply (jobj [("client_id", JStr "c1"); ("client_secret", JStr "secret")])))
    demo_registered.2.1 tt) as (client & conf & info & secret & _ & Hname & _ & _ & _ & _ & _ & _ & Hh & _ & Hs & row & Ht & _ & Hrow & _).
  - vm_compute. reflexivity.
  - exists client, info, secret, row. split; [exact Hname|]. split; [exact Hh|]. split; [exact Hs|]. split; [exact Ht|exact Hrow].
Defined.
Definition demo_set_request (token : string) : auth_request := demo_request token (jobj []).
Lemma public_administration_witness :
  (∃ v, Verify (demo_set_request "tb") = Ok v ∧ admin_of [SuperAdmin; SystemAdmin] v tt) ∨ (empty_db = empty_db ∧
    ∀ rep, (public_endpoint (endpoint_handler demo_handlers SetPermission) (demo_set_request "tb") (empty_db, tt)).1 ≠ Ok rep).
Proof.
  apply (public_administration demo_handlers SetPermission (demo_set_request "tb") empty_db tt _ empty_db tt). vm_compute. reflexivity.
Defined.
Example administrator_sets_permission :
  apps (public_endpoint (endpoint_handler demo_handlers SetPermission) (demo_set_request "ta") (empty_db, tt)).2.1 = ["app1"].
Proof. vm_compute. reflexivity. Qed.
